(* ===== verification/_CoqProject ===== *)
-Q . S2P
Prelude.v
JsValue.v
XmlRpc.v
ProcEquiv.v
Regex.v
JsDate.v
DateCodec.v
Registry.v
Bugzilla.v
ProductsFilter.v
BugzillaCalls.v
ClientSpec.v
BugzillaChain.v
Decoding.v
Trees.v
ChainSpec.v
Dates.v
Closed.v
StoreInvariant.v
EventLoop.v
Wire.v
Settling.v
Frame.v
Console.v
LoopSpec.v
