(* ===== verification/Prelude.v ===== *)
(** * Verification of the Bugzilla XML-RPC client (src/src/bugzilla.js)

    ** The program

    src/src/bugzilla.js is a browser-side client of a Bugzilla server.  A
    constructor stores the server's URL in [this.url]; six methods turn a
    bug-tracking operation into a call of [$.xmlrpc] (the jquery.xmlrpc
    plug-in over [jQuery.ajax]) and return its promise:
    - [getBug], [addComment], [updateBug], [searchBugs]: one call each;
      [addComment] defaults [hoursWorked] with [||], [updateBug] assigns
      [params.ids] on the caller's object before the call;
    - [getProducts]: two calls chained with [then]; the callback reads
      [this.url] and [response[0].ids], and passes a [dataFilter] that
      repairs the closing tag of the raw response with a regular expression;
    - [getVersion]: one call with a success and an error callback that write
      to the console; nothing is returned.
    The file ends by registering an encoder and a decoder for XML-RPC's
    [dateTime.iso8601] type.

    ** The development, file by file

    - [Prelude] (this file): completion records ([Normal], [Abrupt]) and the
      state-and-exception monad [st] every model is written in, with its
      laws, the big-step judgements [evals] and [raises], completions as a
      monad of their own, traversals that stop at the first exception
      ([comp_mapM]), and the lemmas on lists and strings the components
      share.
    - [JsValue]: values, objects, arrays and [Date]s in a heap ([world] =
      heap and console), property read and write as strict-mode code does
      them, truthiness and [||], allocation of literals, and [reify], the
      serialisation of a value as a [tree] (what a call puts on the wire),
      with [alloc_tree], the allocation of a decoded tree.  A date is
      written and read through the class [DateType], the type registered
      for [dateTime.iso8601] when the call is made.
    - [XmlRpc]: what the client relies on of [$.xmlrpc] and of jQuery's
      promises.  A call is a process [proc]: it computes, then awaits the
      reply to one request, then continues; [run] plays a process against a
      server (a function from requests to replies) and returns the outcome,
      the final store and the requests in the order they were sent.  What the
      libraries do with bytes is the class [Transport] (the type registered
      for dates, decoding a body, building the context callbacks are applied
      to) with its frame laws; [JQueryContext] states what jQuery guarantees
      of that context.
    - [ProcEquiv]: processes up to the way their continuations are written
      ([proc_equiv], an equivalence that [run] respects), the monad laws of
      processes and the laws of [then] ([then_resolved], [then_assoc]).
    - [Regex]: the backtracking matcher of the regular expressions the source
      uses, in continuation-passing style, [exec], [test] and [replace] with
      the replacement-template syntax; its equivalence with the ordered list
      of matches ([rmatch_ends]) and the position invariant ([ends_reaches]).
    - [JsDate]: dates as time values, the calendar functions of the language
      standard ([YearFromTime] to [MakeDate]), the Date Time String Format
      ([iso_time], [Date_parse], [new_Date]) and decimal digits; the year of
      a day is computed from an estimate and proved to be the year the
      standard specifies ([YearFromDay_spec], [YearFromDay_unique]); a time
      value is its fields put together again ([MakeDate_fields]).
    - [DateCodec]: the encoder and decoder of lines 129-144
      ([dateTime_encode], [dateTime_decode]) with the decoder's two patterns.
    - [Registry]: the registration of the codec (line 129,
      [register_dateTime]) as an update of the transport's table of types,
      and how the transport writes a date and reads an element through the
      table ([encode_date], [decode_node]); [codec_dates] is the [DateType]
      of a transport whose table has a given codec, [bugzilla_codec] the
      codec the table has once line 129 has run.
    - [Bugzilla]: the constructor [Bugzilla] (lines 6-15) with [new_Bugzilla],
      and the stores, servers and response bodies the witnesses run against.
    - [ProductsFilter]: [products_dataFilter] (lines 117-120), the filter as
      a function on strings, proved equal to a reference that finds the
      first [</methodR] and cuts the line.
    - [BugzillaCalls]: the four one-call methods (lines 41-99).  For each,
      [<name>_settings] is the evaluation of its object literal in source
      order (the lines are given at each definition) and [<name>] the call;
      [invoke] is a call of any of the four.
    - [BugzillaChain]: [getProducts] (lines 105-123) and [getVersion]
      (lines 21-34), with their callbacks, defined the same way.
    - [ClientSpec]: the contract of the four one-call methods, one remote
      procedure call each ([rpc], [abstracts], [rpc_outcome]), and the
      refinement theorem that [invoke] implements it.
    - [Decoding]: what a tree decodes to ([decoded]: a [Date] for each date
      element, with the time value the decoder reads); allocating a tree
      yields it ([alloc_tree_decoded]), and serialising it again is the
      identity when the encoder writes the dates the way they were read
      ([alloc_tree_round_trip]); what [response[0]] and [.ids] read in a
      decoded value; what [getProducts] forwards, stated on the wire.
    - [Trees]: the program's use of a decoded response, on the tree of the
      response: [tree_get] is a property read, [resend] what the value
      serialises to when it is passed to a later call (each date written by
      the encoder from the time value the decoder read); both agree with
      the store-level operations on every outcome ([decoded_get_prop],
      [decoded_get_prop_raises], [decoded_resend]).
    - [Dates]: a date followed through a call of the client, in a response
      ([read_path], [tree_at], [response_dates_are_decoded]) and among the
      parameters ([registration_breaks_calls]).
    - [ChainSpec]: the contract of [getProducts] and [getVersion] as
      functions of the server alone ([getProducts_contract],
      [getVersion_contract], built from [exchange], [response_member] and
      [forwarded_ids], [version_logged]), for transports whose decoder is
      a parser ([ParsingTransport], provided by [table_transport]); the
      relations between what the program leaves in the store and what the
      contract computes ([settles_as], [logs_as], [version_done]); the
      refinement theorems, and the repair of a malformed response end to
      end.
    - [Closed]: the well-formedness of the store (no reference without an
      object), decidable, kept by every primitive of [JsValue]; [safe]
      composes the argument along the binds of a model; serialising in a
      closed store meets no reference without an object ([reify_sound]).
    - [StoreInvariant]: the invariant for processes ([proc_closed]), what it
      needs of the transport ([ClosedTransport], provided by the two
      transports of [XmlRpc]), and that every function of the client keeps
      it.
    - [EventLoop]: several calls in flight.  A [system] is the store, the
      calls awaiting a reply, the outcomes and the requests sent; [sys_step]
      is one turn (a call of the client, code of the page, or a reply to any
      call in flight), [sys_exec] the same turn as a function.
    - [Wire]: the shape of the parameters of each of the seven methods
      ([signature]) and the check of a request against it ([request_ok]).
    - [Settling]: the number of replies a call awaits ([settles_within]),
      the budget of a system, and [drain], which answers the calls in flight
      until none is left.
    - [Frame]: what the client writes.  [preserves w w'] says that every
      object of [w] is in [w'] and reads as before under every name but
      [ids]; [framed] and [proc_framed] lift it to computations and to
      processes, the way [Closed] and [StoreInvariant] lift closedness.
    - [Console]: what the client writes to the console.  [logs w w' n] says
      that the console of [w'] is that of [w] with [n] more lines;
      [proc_logs] charges a process the lines of its result
      ([outcome_lines]: one for a completed [getVersion], none for a
      promise) in the turn it ends in.
    - [LoopSpec]: the event loop without a store.  A call in flight is an
      [acall] (the request it waits on), [acall_resume] what a reply makes
      of it, [abs_exec] one turn, [abstract] the abstract event of a turn
      of the page; [implements] relates a call in flight of [EventLoop] to
      an [acall], [sys_rel] the two states, [loop_refines] two executions.

    ** What the theorems show

    - Requests: each method sends exactly the requests the source writes,
      with the parameters as they serialise when the call is made
      ([getBug_sends_one_request], [addComment_defaults_work_time],
      [updateBug_request], [searchBugs_passes_criteria_through],
      [getProducts_calls_in_sequence], [getVersion_logs_version]).
    - Settlement: the promise resolves with the decoded value unchanged
      ([getBug_resolves_with_decoded_value]), transport failures reject it
      and are not intercepted ([transport_failure_rejects],
      [getProducts_stops_on_first_failure]), [getVersion] swallows them
      ([getVersion_swallows_failure]).
    - Store: [updateBug] changes the caller's object in place and nothing
      else ([updateBug_mutates_caller_object]); the other methods only
      allocate.  Two calls sharing one object each send the id of their own
      call ([updateBug_twice_on_one_object]).
    - Refinement: the four one-call methods are one remote procedure call
      each, with the method and parameters of the contract
      ([invoke_refines_rpc]).  [getProducts] and [getVersion] do, against
      every server and on every path, what their contracts compute from
      the server alone: the requests in order, how the chained promise
      settles, what is logged and what is thrown
      ([getProducts_refines_contract], [getVersion_refines_contract],
      [invoke_refines_contract] for the other four); hence the chained
      promise is resolved only after both requests
      ([getProducts_resolved_after_two_requests]).  The contracts are
      executable: the examples of [ChainSpec] evaluate them on the demo
      servers.
    - Independence of the calls in flight: the event loop, in which all
      calls share the store of the page, does turn by turn what the loop
      without a store does ([step_refines]), over every execution with
      any number of calls in flight and replies in any order
      ([loop_refines_spec]); the outcome of a reply depends on the call it
      answers and on nothing else ([reply_outcome_independent]), and the
      replies to two calls in flight commute: in one order or in the other
      each call has the same outcome, and the same requests are sent and
      awaited, up to their order ([replies_commute]).  The one
      thing of the store a call in flight reads is the [url] of the
      context of the first request of [getProducts]: code of the page that
      assigns it redirects the second request
      ([page_code_redirects_getProducts]), which is why code of the page
      has to keep the frame.
    - Frame: each of the six functions, each time it runs, leaves every
      object of the store in place and every property but [ids] as it
      reads ([invoke_framed], [getProducts_framed], [getVersion_framed]);
      so does every execution of the event loop
      ([client_writes_only_ids]).
    - Console: [getVersion] writes one line in the turn of its reply, or
      none when its success callback throws ([getVersion_logs]); the other
      five functions write nothing ([invoke_logs], [getProducts_logs]); so
      over every execution of the event loop the console is the initial one
      followed by one line for each completed call of [getVersion]
      ([only_getVersion_logs]).
    - Repair end to end: a response to [Product.get] whose closing tag is
      cut short resolves the promise of [getProducts] with the value of
      the document it was meant to be
      ([getProducts_recovers_from_malformed_response]); the other calls
      pass no filter ([exchange_unrepaired]).
    - Sanity of the model: the heap of the model has a fault for a
      reference without an object, which no JavaScript program can meet.
      Every function keeps the store closed, at each return to the caller
      and each time a reply resumes it ([client_keeps_store_closed]), and
      so does every reachable state of the event loop
      ([reachable_closed]): the fault is never an outcome, so that no
      theorem about the client holds because of it.  These say nothing of
      the client's behaviour and are not among its properties.  [run] is
      the schedule of the loop in which a call is alone
      ([invoke_alone_is_run]).
    - Typing: every request of every execution of the event loop names a
      method the source calls and carries parameters of the shape of that
      method ([requests_are_well_typed]).
    - Termination and liveness: in every execution the replies delivered
      and the calls in flight are together at most the calls of
      [$.xmlrpc] the page's calls can lead to, one for each function and
      two for [getProducts] ([awaits], [calls_made]), and any run of
      replies that follows is bounded by what is left
      ([reply_executions_are_bounded]); after any history every call in
      flight settles once its replies are delivered
      ([every_call_settles]).
    - Bounds: the fields the date encoder pads are within the calendar's
      bounds, two digits each ([dateTime_encode_fields_bounded]); time
      values of valid dates are below 2^53, so binary64 holds them exactly
      ([TimeClip_exact]).
    - Registration: loading the script replaces the transport's date codec;
      decoding changes only for texts without a hyphen
      ([register_decoding]), a date goes through the table and back when
      [_pad] is bound ([registry_round_trip]), and without a global [_pad]
      writing any date throws ([registration_breaks_date_encoding]).
    - Dates end to end: a date that a response holds in XML-RPC's spelling
      [YYYYMMDDTHH:MM:SS], wherever it is in the response, reaches the
      caller as a [Date] whose time value is the instant of that local
      time: the decoder has hyphenated it and [new Date] has read it in
      the format ([response_date_is_local_time], from the path lemma
      [response_dates_are_decoded] and the decoder's
      [dateTime_decode_timed]); a call
      whose parameters hold a [Date] anywhere throws the ReferenceError of
      [_pad] and sends nothing once the source's encoder is registered,
      where the transport's own encoder sent the date as text
      ([registration_breaks_calls]).  A value serialises under an encoder
      that always throws exactly when its tree holds no date
      ([reify_no_dates], [reify_date_free], [reify_dates_throw]).
    - Forwarding: the ids [getProducts] sends in its second request are the
      ids of the first response as they were decoded
      ([getProducts_forwards_ids], [getProducts_forwards_decoded_ids]).
    - Exceptions: what throws synchronously and what throws in a callback.
      Every function reads [this.url]: called without its object it throws
      a TypeError and sends nothing, [updateBug] after it has assigned
      [params.ids] ([detached_method_throws]);
      ([updateBug_rejects_non_object],
      [getProducts_needs_the_callback_context],
      [getProducts_throws_on_empty_response],
      [getVersion_throws_on_empty_response], [Bugzilla_without_new]).
    - The filter: [products_dataFilter_repair] and its consequences
      (idempotence, bodies it leaves alone, what it keeps after the tag).
    - The date codec: encoding then decoding gives the instant back, cut to
      the second, for years 1000 to 9999 ([dateTime_round_trip]) and leaves
      the format below year 1000 ([dateTime_short_year_not_in_format]); what
      the decoder hyphenates ([dateTime_decode_compact],
      [dateTime_decode_compact_as_hyphenated]) and what it does not
      ([dateTime_decode_hyphen_anywhere], [dateTime_decode_short],
      [dateTime_decode_compact_time]).
    Theorems with hypotheses have a witness that applies them to a client
    built by the constructor, run against the servers of [Bugzilla]'s
    fixtures through [table_transport]; those of the codec use an
    implementation without date heuristics, one hour east of UTC.

    ** Bounds and fuel

    [drain] takes fuel: twice the length of the history is enough, since a
    call adds at most two awaited replies and each reply uses one up
    ([trace_within], [drain_spec]).  [reify] takes fuel; a call uses
    [S (size heap)], one more than the number of objects, which is enough
    for every value that reaches no object twice along one path (a longer
    path repeats an object, that is, the value is cyclic):
    [reify_fuel_enough] proves that a value with a tree for some fuel has
    the same tree for this one.  On a cyclic value [reify] throws
    [RangeError], as the library's recursion overflows the stack, and on a
    date whose encoder throws, the exception of the encoder; the model of
    [$.xmlrpc] throws what [reify] throws.  [resend] takes the size of the
    tree as fuel.  For a decoded value both fuels are enough, whatever the
    encoder does: an encoder that writes every date tells that the fuel
    does not run out ([resend_fuel_total]), and fuel that does not run out
    with one encoder gives the same outcome as any larger fuel with every
    encoder ([resend_fuel_stable]); hence [decoded_resend], an equality of
    outcomes, exceptions included.  The members of an object are
    serialised in the order of their keys, not in the order they were
    created: when several members throw different exceptions the model may
    report another one than a browser; every theorem about a thrown
    serialisation is about an encoder that throws one exception.  [run]
    needs no fuel: a process is a finite tree of awaits.
    [show_nonneg] prints with fuel [log2 n], at least the number of decimal
    digits less one.  Numbers in the store are binary64 values
    ([SpecFloat]); time values are integers, clipped by [TimeClip] to the
    range of dates; strings are sequences of 8-bit code units, so the line
    terminators are LF and CR.

    ** Assumptions

    What the source leaves to its environment is a parameter or a
    hypothesis, never a choice of the model.  The identifier [_pad] is free
    in the source: [dateTime_encode] takes its binding, and the theorems
    say which binding they are about ([None] for a page without a global
    [_pad], as the source alone gives; [Some jquery_pad] for the function
    of jquery.xmlrpc).  The arguments [data] of the filter and [text] of
    the decoder are strings, as the transport passes them.  The context
    jQuery applies callbacks to carries the URL of the call
    ([JQueryContext]); jQuery makes it a string and removes a fragment,
    which changes nothing for a URL such as that of line 14, a string
    without one.  [new Date(text)] reads a date-time without offset as a
    local time, as the current standard says; what an implementation does
    outside the format and its time zone are the parameters [fallback] and
    [UTC].  [getVersion] returns undefined at once and its callbacks run
    with the reply; the model gives the call one result, when the reply
    has been handled: undefined, or the exception that escaped a callback,
    which a browser reports to the page and not to the caller.

    ** Not modelled

    The XML text of requests and responses, HTTP, and jQuery's internals
    (parameters of [Transport]); prototype chains, accessors and symbols
    (the source uses none); timers and the order in which a browser
    delivers replies ([sys_step] allows every order); the methods of a
    [Date] as properties of the object (the codec reads the time value);
    XML-RPC types other than those of JavaScript's own values and dates
    (base64, and the distinction between int and double); the binding of
    [_pad], which the source leaves free (a parameter of
    [dateTime_encode]); what an implementation makes of a date string
    outside the format, and its time zone (parameters of [Date_parse]). *)

From Stdlib Require Export ZArith Lia Ascii String.
From stdpp Require Export base tactics option list strings.

(** ** Completion records and the state-and-exception monad

    JavaScript code either completes normally with a value or abruptly with a
    thrown exception; both leave a (possibly changed) store behind.  [st S E]
    is that monad over a store [S] and exceptions [E].  It is registered as a
    stdpp monad, so the models are written with [x ← c; k]. *)

Inductive comp (E A : Type) : Type :=
| Normal (a : A)
| Abrupt (e : E).
Arguments Normal {E A} a.
Arguments Abrupt {E A} e.

Definition st (S E A : Type) : Type := S -> comp E A * S.

Section StateExn.
Context {S E : Type}.

Definition st_ret {A} (a : A) : st S E A := fun s => (Normal a, s).

Definition st_bind {A B} (f : A -> st S E B) (m : st S E A) : st S E B :=
  fun s => match m s with
           | (Normal a, s') => f a s'
           | (Abrupt e, s') => (Abrupt e, s')
           end.

Definition st_throw {A} (e : E) : st S E A := fun s => (Abrupt e, s).

Definition st_get : st S E S := fun s => (Normal s, s).

Definition st_put (s' : S) : st S E unit := fun _ => (Normal tt, s').

Definition st_modify (f : S -> S) : st S E unit := fun s => (Normal tt, f s).

(** Pointwise equality of computations: the equivalence the monad laws hold for. *)
Definition st_eq {A} (m1 m2 : st S E A) : Prop := forall s, m1 s = m2 s.

End StateExn.

#[export] Instance st_mret {S E} : MRet (st S E) := fun A => @st_ret S E A.
#[export] Instance st_mbind {S E} : MBind (st S E) := fun A B => @st_bind S E A B.
#[export] Instance st_equiv {S E A} : Equiv (st S E A) := @st_eq S E A.

(** ** Tactics and hint databases of the development *)

Create HintDb js discriminated.
Create Rewrite HintDb js_string.

(** [st_run] exposes what a monadic model computes on a store. *)
Ltac st_run :=
  repeat (unfold mbind, mret, st_mbind, st_mret, st_bind, st_ret, st_throw,
          st_get, st_put, st_modify in *; cbn beta iota in *).

(** [invs H] inverts [H] and cleans up. *)
Ltac invs H := inversion H; subst; clear H.

Section StateExnLaws.
Context {S E : Type}.

#[export] Instance st_eq_equivalence {A} : Equivalence (@st_eq S E A).
Proof.
  split.
  - intros m s; reflexivity.
  - intros m1 m2 H s; symmetry; apply H.
  - intros m1 m2 m3 H12 H23 s; rewrite H12; apply H23.
Qed.

#[export] Instance st_bind_proper {A B} :
  Proper (pointwise_relation A (@st_eq S E B) ==> @st_eq S E A ==> @st_eq S E B) st_bind.
Proof.
  intros f g Hfg m1 m2 Hm s. unfold st_bind. rewrite Hm.
  destruct (m2 s) as [[a|e] s']; [apply Hfg | reflexivity].
Qed.

Lemma st_bind_ret_l {A B} (a : A) (f : A -> st S E B) :
  st_eq (st_bind f (st_ret a)) (f a).
Proof. intros s; reflexivity. Qed.

Lemma st_bind_ret_r {A} (m : st S E A) : st_eq (st_bind st_ret m) m.
Proof. intros s; unfold st_bind, st_ret. destruct (m s) as [[a|e] s']; reflexivity. Qed.

Lemma st_bind_assoc {A B C} (m : st S E A) (f : A -> st S E B) (g : B -> st S E C) :
  st_eq (st_bind g (st_bind f m)) (st_bind (fun a => st_bind g (f a)) m).
Proof. intros s; unfold st_bind. destruct (m s) as [[a|e] s']; reflexivity. Qed.

Lemma st_bind_throw {A B} (e : E) (f : A -> st S E B) :
  st_eq (st_bind f (st_throw e)) (st_throw e).
Proof. intros s; reflexivity. Qed.

End StateExnLaws.

(** ** Big-step reading of a computation

    [evals c s a s']: from store [s], [c] completes normally with [a] and
    leaves [s'].  [raises c s e s']: it throws [e] and leaves [s']. *)

Definition evals {S E A} (c : st S E A) (s : S) (a : A) (s' : S) : Prop :=
  c s = (Normal a, s').

Definition raises {S E A} (c : st S E A) (s : S) (e : E) (s' : S) : Prop :=
  c s = (Abrupt e, s').

Section BigStep.
Context {S E : Type}.

Lemma evals_ret {A} (a : A) (s : S) : evals (mret a : st S E A) s a s.
Proof. reflexivity. Qed.

Lemma evals_bind {A B} (c : st S E A) (f : A -> st S E B) s a s1 b s2 :
  evals c s a s1 -> evals (f a) s1 b s2 -> evals (c ≫= f) s b s2.
Proof. unfold evals. intros Hc Hf. st_run. by rewrite Hc. Qed.

Lemma raises_bind_l {A B} (c : st S E A) (f : A -> st S E B) s e s1 :
  raises c s e s1 -> raises (c ≫= f) s e s1.
Proof. unfold raises. intros Hc. st_run. by rewrite Hc. Qed.

Lemma raises_bind_r {A B} (c : st S E A) (f : A -> st S E B) s a s1 e s2 :
  evals c s a s1 -> raises (f a) s1 e s2 -> raises (c ≫= f) s e s2.
Proof. unfold evals, raises. intros Hc Hf. st_run. by rewrite Hc. Qed.

Lemma evals_bind_inv {A B} (c : st S E A) (f : A -> st S E B) s b s2 :
  evals (c ≫= f) s b s2 -> exists a s1, evals c s a s1 /\ evals (f a) s1 b s2.
Proof.
  unfold evals. st_run. destruct (c s) as [[a|e] s1]; [|done]. by exists a, s1.
Qed.

Lemma evals_ret_inv {A} (a b : A) (s s' : S) :
  evals (mret a : st S E A) s b s' -> b = a /\ s' = s.
Proof. by intros [= -> ->]. Qed.

Lemma evals_det {A} (c : st S E A) s a s1 b s2 :
  evals c s a s1 -> evals c s b s2 -> a = b /\ s1 = s2.
Proof. unfold evals. intros -> [= -> ->]. done. Qed.

Lemma evals_not_raises {A} (c : st S E A) s a s1 e s2 :
  evals c s a s1 -> raises c s e s2 -> False.
Proof. unfold evals, raises. by intros ->. Qed.

End BigStep.

#[export] Hint Resolve evals_ret : js.

(** ** Completion records without a store

    Pure code that may throw returns a completion record.  [comp E] is a
    functor; [comp_mapM] runs a function over a list from the left and stops
    at the first element that throws. *)

Definition comp_map {E A B} (f : A -> B) (c : comp E A) : comp E B :=
  match c with
  | Normal a => Normal (f a)
  | Abrupt e => Abrupt e
  end.

Definition comp_bind {E A B} (f : A -> comp E B) (c : comp E A) : comp E B :=
  match c with
  | Normal a => f a
  | Abrupt e => Abrupt e
  end.

#[export] Instance comp_fmap {E} : FMap (comp E) := fun A B => @comp_map E A B.
#[export] Instance comp_mret {E} : MRet (comp E) := fun A => @Normal E A.
#[export] Instance comp_mbind {E} : MBind (comp E) := fun A B => @comp_bind E A B.

Definition comp_mapM {E A B} (f : A -> comp E B) : list A -> comp E (list B) :=
  fix go (l : list A) : comp E (list B) :=
    match l with
    | [] => Normal []
    | x :: l' =>
        match f x with
        | Normal y => cons y <$> go l'
        | Abrupt e => Abrupt e
        end
    end.

(** What a completion record completed with, and what it threw. *)
Definition completed {E A} (c : comp E A) : option A :=
  match c with Normal a => Some a | Abrupt _ => None end.

Definition thrown {E A} (c : comp E A) : option E :=
  match c with Normal _ => None | Abrupt e => Some e end.

Section Completion.
Context {E : Type}.

Lemma comp_fmap_Normal {A B} (f : A -> B) (c : comp E A) b :
  f <$> c = Normal b <-> exists a, c = Normal a /\ b = f a.
Proof.
  unfold fmap, comp_fmap, comp_map. destruct c as [a|e]; split.
  - intros [= <-]. by exists a.
  - by intros (a' & [= <-] & ->).
  - done.
  - by intros (a' & ? & _).
Qed.

Lemma comp_fmap_Abrupt {A B} (f : A -> B) (c : comp E A) e :
  f <$> c = Abrupt e <-> c = Abrupt e.
Proof. unfold fmap, comp_fmap, comp_map. destruct c as [a|e']; split; congruence. Qed.

Lemma thrown_None {A} (c : comp E A) : thrown c = None <-> exists a, c = Normal a.
Proof. destruct c as [a|e]; simpl; split; try done; [by exists a|by intros [a ?]]. Qed.

Lemma comp_mapM_Normal {A B} (f : A -> comp E B) l k :
  comp_mapM f l = Normal k <-> Forall2 (fun x y => f x = Normal y) l k.
Proof.
  revert k. induction l as [|x l IH]; intros k; simpl.
  - split; [intros [= <-]; constructor|by inversion 1].
  - destruct (f x) as [y|e] eqn:Hx.
    + rewrite comp_fmap_Normal. split.
      * intros (k' & Hk' & ->). constructor; [done|by apply IH].
      * intros Hk. inversion Hk as [|x' y' l' k' Hy Hk' E1 E2]. subst.
        exists k'. split; [by apply IH|congruence].
    + split; [done|]. intros Hk. inversion Hk. congruence.
Qed.

(** What a traversal throws, one of the elements throws. *)
Lemma comp_mapM_Abrupt {A B} (f : A -> comp E B) l e :
  comp_mapM f l = Abrupt e -> exists x, x ∈ l /\ f x = Abrupt e.
Proof.
  induction l as [|x l IH]; simpl; [done|]. destruct (f x) as [y|e'] eqn:Hx.
  - rewrite comp_fmap_Abrupt. intros (x' & Hx' & He)%IH. exists x'. split; [by right|done].
  - intros [= ->]. exists x. split; [left|done].
Qed.

(** When every element completes or throws [e], so does the traversal. *)
Lemma comp_mapM_dichotomy {A B} (f g : A -> comp E B) e l k :
  (forall x y, f x = Normal y -> g x = Normal y \/ g x = Abrupt e) ->
  comp_mapM f l = Normal k ->
  comp_mapM g l = Normal k \/ comp_mapM g l = Abrupt e.
Proof.
  intros Hfg. rewrite comp_mapM_Normal. induction 1 as [|x y l k Hx _ IH]; simpl; [by left|].
  destruct (Hfg x y Hx) as [->| ->]; [|by right].
  destruct IH as [->| ->]; [by left|by right].
Qed.

(** Two traversals of lists whose elements agree pairwise agree. *)
Lemma comp_mapM_Forall2 {A A' B} (f : A -> comp E B) (g : A' -> comp E B) l k :
  Forall2 (fun x y => f x = g y) l k -> comp_mapM f l = comp_mapM g k.
Proof. induction 1 as [|x y l k Hxy _ IH]; simpl; [done|]. by rewrite Hxy, IH. Qed.

Lemma comp_mapM_ext {A B} (f g : A -> comp E B) l :
  (forall x, x ∈ l -> f x = g x) -> comp_mapM f l = comp_mapM g l.
Proof.
  intros Hfg. apply comp_mapM_Forall2, Forall2_same_length_lookup_2; [done|].
  intros i x y Hx Hy. simplify_eq. by eapply Hfg, list_elem_of_lookup_2.
Qed.

(** A traversal whose elements all complete completes. *)
Lemma comp_mapM_completes {A B} (f : A -> comp E B) l :
  (forall x, x ∈ l -> exists y, f x = Normal y) -> exists k, comp_mapM f l = Normal k.
Proof.
  intros Hf. destruct (comp_mapM f l) as [k|e] eqn:Hl; [by exists k|].
  apply comp_mapM_Abrupt in Hl as (x & Hx & He).
  destruct (Hf x Hx) as [y Hy]. congruence.
Qed.

End Completion.

(** ** Lists *)

(** [Forall2_impl] with the elements in hand. *)
Lemma Forall2_impl_elem {A B} (P Q : A -> B -> Prop) l k :
  Forall2 P l k -> (forall x y, x ∈ l -> y ∈ k -> P x y -> Q x y) -> Forall2 Q l k.
Proof.
  induction 1 as [|x y l k Hxy _ IH]; intros HPQ; constructor.
  - apply HPQ; [left|left|done].
  - apply IH. intros x' y' Hx' Hy'. apply HPQ; by right.
Qed.

(** ** Strings: append, length and substring *)

Section Strings.
Local Open Scope string_scope.
Implicit Types (p s t : string).

Lemma string_app_nil_l s : "" ++ s = s.
Proof. done. Qed.

Lemma string_app_cons a p s : String a p ++ s = String a (p ++ s).
Proof. done. Qed.

Lemma string_app_nil_r s : s ++ "" = s.
Proof. induction s as [|a s IH]; [done|]. by rewrite string_app_cons, IH. Qed.

Lemma string_app_assoc p s t : (p ++ s) ++ t = p ++ (s ++ t).
Proof. induction p as [|a p IH]; [done|]. by rewrite !string_app_cons, IH. Qed.

Lemma string_length_app p s :
  String.length (p ++ s) = String.length p + String.length s.
Proof. induction p as [|a p IH]; [done|]. rewrite string_app_cons. simpl. by rewrite IH. Qed.

Lemma substring_0_app p s : substring 0 (String.length p) (p ++ s) = p.
Proof.
  induction p as [|a p IH]; [by destruct s|]. rewrite string_app_cons. simpl.
  by rewrite IH.
Qed.

Lemma substring_0_length s : substring 0 (String.length s) s = s.
Proof. rewrite <- (string_app_nil_r s) at 2. apply substring_0_app. Qed.

Lemma substring_skip_app p s n :
  substring (String.length p) n (p ++ s) = substring 0 n s.
Proof. induction p as [|a p IH]; [done|]. by rewrite string_app_cons. Qed.

Lemma string_app_inv p s p' s' :
  p ++ s = p' ++ s' -> String.length p = String.length p' -> p = p' /\ s = s'.
Proof.
  revert p'. induction p as [|a p IH]; intros [|a' p']; try done.
  rewrite !string_app_cons. intros [= -> H] [= Hl].
  by destruct (IH _ H Hl) as [-> ->].
Qed.

End Strings.

#[export] Hint Rewrite string_app_nil_l string_app_cons string_app_nil_r
  string_app_assoc string_length_app substring_0_app substring_0_length
  substring_skip_app : js_string.
