(* ===== verification/JsValue.v ===== *)
(** * JavaScript values, objects and the store

    The fragment of JavaScript's data model that src/src/bugzilla.js relies
    on: primitive values, ordinary objects and arrays living in a heap (so
    that aliasing and in-place mutation are visible), truthiness and the
    [||] operator, property reads and strict-mode property writes.  A [Date]
    is an object holding a time value; how the transport writes one and
    reads one back is the class [DateType].

    Not modelled: the prototype chain (a property that is not an own property
    reads as [undefined]), accessors, frozen objects, symbols.  Strings are
    sequences of 8-bit code units. *)

From S2P Require Import Prelude.
From Stdlib Require Import Floats.SpecFloat.
From stdpp Require Import gmap pretty.

#[local] Set Warnings "-register-all".

(** ** Numbers: IEEE 754 binary64, as Number values are *)

Definition number := spec_float.

Definition num_of_Z (z : Z) : number := binary_normalize 53 1024 z 0 false.

Definition num_is_nan (n : number) : bool :=
  match n with S754_nan => true | _ => false end.

Definition num_is_zero (n : number) : bool :=
  match n with S754_zero _ => true | _ => false end.

#[export] Instance number_eq_dec : EqDecision number.
Proof. solve_decision. Defined.

(** ** Values *)

Definition loc := positive.

Inductive value : Type :=
| VUndefined
| VNull
| VBool (b : bool)
| VNumber (n : number)
| VString (s : string)
| VRef (l : loc).

#[export] Instance value_eq_dec : EqDecision value.
Proof. solve_decision. Defined.

#[export] Instance value_inhabited : Inhabited value := populate VUndefined.

(** ToBoolean (ECMAScript 7.1.2). *)
Definition to_boolean (v : value) : bool :=
  match v with
  | VUndefined | VNull => false
  | VBool b => b
  | VNumber n => negb (num_is_zero n || num_is_nan n)
  | VString s => negb (String.eqb s "")
  | VRef _ => true
  end.

(** [a || b]: the left operand when it is truthy, the right one otherwise. *)
Definition js_or (a b : value) : value := if to_boolean a then a else b.

Definition is_nullish (v : value) : bool :=
  match v with VUndefined | VNull => true | _ => false end.

(** ** Objects and the heap *)

(** An ordinary object, an array, or a [Date] with its time value ([None]
    for an invalid date, whose time value is NaN). *)
Inductive object : Type :=
| OObject (props : gmap string value)
| OArray (elems : list value) (props : gmap string value)
| ODate (t : option Z) (props : gmap string value).

#[export] Instance object_eq_dec : EqDecision object.
Proof. solve_decision. Defined.

Inductive exn : Type :=
| TypeError
| RangeError
| ReferenceError (name : string)
| Unmodelled (what : string).

#[export] Instance exn_eq_dec : EqDecision exn.
Proof. solve_decision. Defined.

(** The store: the heap of objects and what has been written to the console
    (one entry per [console.log] call, holding its arguments). *)
Record world : Type := World {
  heap : gmap loc object;
  console : list (list value)
}.

#[export] Instance world_eq_dec : EqDecision world.
Proof. solve_decision. Defined.

Definition js (A : Type) : Type := st world exn A.

Definition set_heap (h : gmap loc object) (w : world) : world :=
  World h (console w).

(** ** Property keys *)

Fixpoint digits_value (s : string) (acc : N) : option N :=
  match s with
  | EmptyString => Some acc
  | String c s' =>
      let n := N_of_ascii c in
      if ((48 <=? n) && (n <=? 57))%N then digits_value s' (acc * 10 + (n - 48))%N
      else None
  end.

(** An array index is the canonical decimal spelling of a natural number
    (no sign, no leading zero). *)
Definition array_index (k : string) : option nat :=
  match k with
  | EmptyString => None
  | _ => n ← digits_value k 0%N;
         if decide (pretty n = k) then Some (N.to_nat n) else None
  end.

Definition index_key (i : nat) : string := pretty (N.of_nat i).

Definition string_at (s : string) (i : nat) : value :=
  match String.get i s with
  | Some c => VString (String c EmptyString)
  | None => VUndefined
  end.

(** ** Reading and writing properties *)

Definition own_prop (o : object) (k : string) : value :=
  match o with
  | OObject ps => default VUndefined (ps !! k)
  | OArray es ps =>
      if decide (k = "length") then VNumber (num_of_Z (Z.of_nat (length es)))
      else match array_index k with
           | Some i => default VUndefined (es !! i)
           | None => default VUndefined (ps !! k)
           end
  | ODate _ ps => default VUndefined (ps !! k)
  end.

(** [v.k] and [v[k]]: reading a property of [undefined] or [null] throws a
    TypeError; a missing property reads as [undefined]. *)
Definition get_prop (v : value) (k : string) : js value :=
  fun w =>
    match v with
    | VUndefined | VNull => (Abrupt TypeError, w)
    | VRef l =>
        match heap w !! l with
        | Some o => (Normal (own_prop o k), w)
        | None => (Abrupt (Unmodelled "dangling reference"), w)
        end
    | VString s =>
        if decide (k = "length") then
          (Normal (VNumber (num_of_Z (Z.of_nat (String.length s)))), w)
        else (Normal (from_option (string_at s) VUndefined (array_index k)), w)
    | VBool _ | VNumber _ => (Normal VUndefined, w)
    end.

Definition store_prop (o : object) (k : string) (x : value) : comp exn object :=
  match o with
  | OObject ps => Normal (OObject (<[k := x]> ps))
  | OArray es ps =>
      if decide (k = "length") then Abrupt (Unmodelled "assignment to length")
      else match array_index k with
           | Some i =>
               if decide (i < length es) then Normal (OArray (<[i := x]> es) ps)
               else Normal (OArray (es ++ replicate (i - length es) VUndefined ++ [x]) ps)
           | None => Normal (OArray es (<[k := x]> ps))
           end
  | ODate t ps => Normal (ODate t (<[k := x]> ps))
  end.

(** [v.k = x] in strict mode: assigning to a property of [undefined], [null]
    or a primitive throws a TypeError; on an object the property is created
    or overwritten in place. *)
Definition set_prop (v : value) (k : string) (x : value) : js unit :=
  fun w =>
    match v with
    | VRef l =>
        match heap w !! l with
        | Some o =>
            match store_prop o k x with
            | Normal o' => (Normal tt, set_heap (<[l := o']> (heap w)) w)
            | Abrupt e => (Abrupt e, w)
            end
        | None => (Abrupt (Unmodelled "dangling reference"), w)
        end
    | _ => (Abrupt TypeError, w)
    end.

(** CheckObjectCoercible: evaluating [v.k] with [v] undefined or null throws
    before anything else of the expression is evaluated. *)
Definition require_object_coercible (v : value) : js unit :=
  fun w => if is_nullish v then (Abrupt TypeError, w) else (Normal tt, w).

(** ** Allocation and literals *)

Definition fresh_loc (h : gmap loc object) : loc := fresh (dom h).

Definition alloc (o : object) : js value :=
  fun w => let l := fresh_loc (heap w) in
           (Normal (VRef l), set_heap (<[l := o]> (heap w)) w).

(** [[v1, ..., vn]] *)
Definition new_array (vs : list value) : js value := alloc (OArray vs ∅).

(** [{k1: v1, ..., kn: vn}]: later members overwrite earlier ones of the same name. *)
Definition new_object (ms : list (string * value)) : js value :=
  alloc (OObject (list_to_map (reverse ms))).

(** [console.log(a1, ..., an)] *)
Definition console_log (args : list value) : js unit :=
  fun w => (Normal tt, World (heap w) (console w ++ [args])).

(** ** Data trees

    A [tree] is a value with everything it refers to: what is written on the
    wire when a value is serialised, and what a decoded response holds before
    it is allocated.  [reify] reads the tree of a value off the heap;
    [alloc_tree] builds fresh objects for a tree.  [TDate text] is an element
    of type [dateTime.iso8601] with its text. *)

Inductive tree : Type :=
| TUndefined
| TNull
| TBool (b : bool)
| TNumber (n : number)
| TString (s : string)
| TArr (ts : list tree)
| TObj (ms : gmap string tree)
| TDate (text : string).

(** The texts of the dates of a tree. *)
Fixpoint tree_dates (t : tree) : list string :=
  match t with
  | TArr ts => foldr (fun t acc => tree_dates t ++ acc) [] ts
  | TObj ms => map_fold (fun _ t acc => tree_dates t ++ acc) [] ms
  | TDate text => [text]
  | _ => []
  end.

(** The type registered for dates when a call is made or a reply is decoded:
    the encoder is applied to the time value of a [Date] and returns the
    text of the element or throws; the decoder is applied to the text of an
    element and returns the time value of the [Date] it builds. *)
Class DateType : Type := {
  date_encode : option Z -> comp exn string;
  date_decode : string -> option Z
}.

Fixpoint tree_size (t : tree) : nat :=
  match t with
  | TArr ts => S (foldr (fun t acc => tree_size t + acc) 0 ts)
  | TObj ms => S (map_fold (fun _ t acc => tree_size t + acc) 0 ms)
  | _ => 1
  end.

(** All the members of a map of completion records, when every one completed
    normally; otherwise what the first member that threw has thrown, in the
    order of the keys of the map. *)
Definition map_allc {E A} (m : gmap string (comp E A)) : comp E (gmap string A) :=
  match omap thrown (map_to_list m).*2 with
  | e :: _ => Abrupt e
  | [] => Normal (omap completed m)
  end.

(** [reify fuel h v]: the tree of [v] in heap [h], or what serialising [v]
    throws: the exception of the encoder of dates, or a RangeError when more
    than [fuel] references are nested, which with [fuel > size h] happens
    only for a cyclic structure (the recursion of the transport does not
    end).  The properties of an array or of a [Date] that are not elements
    are not part of its tree.  The elements of an array are visited from the
    left; the members of an object in the order of their keys, where
    JavaScript visits them in the order they were created, which only
    matters for which of several exceptions is thrown. *)
Fixpoint reify {DT : DateType} (fuel : nat) (h : gmap loc object) (v : value)
  : comp exn tree :=
  match v with
  | VUndefined => Normal TUndefined
  | VNull => Normal TNull
  | VBool b => Normal (TBool b)
  | VNumber n => Normal (TNumber n)
  | VString s => Normal (TString s)
  | VRef l =>
      match fuel with
      | O => Abrupt RangeError
      | S fuel' =>
          match h !! l with
          | Some (OObject ps) => TObj <$> map_allc (reify fuel' h <$> ps)
          | Some (OArray es _) => TArr <$> comp_mapM (reify fuel' h) es
          | Some (ODate t _) => TDate <$> date_encode t
          | None => Abrupt (Unmodelled "dangling reference")
          end
      end
  end.

(** The tree of a primitive; a reference has none of its own. *)
Definition prim_tree (v : value) : option tree :=
  match v with
  | VUndefined => Some TUndefined
  | VNull => Some TNull
  | VBool b => Some (TBool b)
  | VNumber n => Some (TNumber n)
  | VString s => Some (TString s)
  | VRef _ => None
  end.

(** The fuel a serialisation in heap [h] runs with. *)
Definition reify_fuel (h : gmap loc object) : nat := S (size h).

(** Allocation of the members of a list or of a map, left to right. *)
Section AllocMembers.
Variable f : tree -> js value.

Fixpoint alloc_list (ts : list tree) : js (list value) :=
  match ts with
  | [] => mret []
  | t :: ts' => v ← f t; vs ← alloc_list ts'; mret (v :: vs)
  end.

Definition alloc_member (k : string) (t : tree) (acc : js (gmap string value))
  : js (gmap string value) :=
  m ← acc; v ← f t; mret (<[k := v]> m).

End AllocMembers.

Fixpoint alloc_tree {DT : DateType} (t : tree) : js value :=
  match t with
  | TUndefined => mret VUndefined
  | TNull => mret VNull
  | TBool b => mret (VBool b)
  | TNumber n => mret (VNumber n)
  | TString s => mret (VString s)
  | TArr ts => vs ← alloc_list alloc_tree ts; new_array vs
  | TObj ms => m ← map_fold (alloc_member alloc_tree) (mret ∅) ms; alloc (OObject m)
  | TDate text => alloc (ODate (date_decode text) ∅)
  end.

(** ** Lemmas: truthiness *)

Lemma to_boolean_falsy v :
  to_boolean v = false <->
  v = VUndefined \/ v = VNull \/ v = VBool false \/ v = VString "" \/
  (exists n, v = VNumber n /\ (num_is_zero n = true \/ num_is_nan n = true)).
Proof.
  split.
  - destruct v as [| |[]|n|s|l]; simpl; intros Hv; try done; auto.
    + do 4 right. exists n. split; [done|].
      by apply orb_true_iff, negb_false_iff.
    + apply negb_false_iff, String.eqb_eq in Hv as ->. auto.
  - intros [->|[->|[->|[->|(n & -> & Hn)]]]]; try done.
    simpl. by apply negb_false_iff, orb_true_iff.
Qed.

Lemma js_or_truthy a b : to_boolean a = true -> js_or a b = a.
Proof. unfold js_or. by intros ->. Qed.

Lemma js_or_falsy a b : to_boolean a = false -> js_or a b = b.
Proof. unfold js_or. by intros ->. Qed.

(** ** Lemmas: maps of completion records *)

Lemma thrown_elem {E A} (m : gmap string (comp E A)) e :
  e ∈ omap thrown (map_to_list m).*2 <-> exists k, m !! k = Some (Abrupt e).
Proof.
  rewrite list_elem_of_omap. split.
  - intros (c & Hc & He). apply list_elem_of_fmap in Hc as ([k c'] & -> & Hk).
    apply elem_of_map_to_list in Hk. exists k. by destruct c' as [a|e']; simplify_eq/=.
  - intros [k Hk]. exists (Abrupt e). split; [|done].
    apply list_elem_of_fmap. exists (k, Abrupt e). split; [done|].
    by apply elem_of_map_to_list.
Qed.

Lemma map_allc_Normal {E A} (m : gmap string (comp E A)) r :
  map_allc m = Normal r <-> m = Normal <$> r.
Proof.
  unfold map_allc. destruct (omap thrown _) as [|e l] eqn:Hl; split.
  - intros [= <-]. apply map_eq; intros k. rewrite lookup_fmap, lookup_omap.
    destruct (m !! k) as [[a|e]|] eqn:Hk; simpl; try done.
    assert (He : e ∈ omap thrown (map_to_list m).*2) by (apply thrown_elem; eauto).
    rewrite Hl in He. by apply elem_of_nil in He.
  - intros ->. f_equal. apply map_eq; intros k.
    rewrite lookup_omap, lookup_fmap. by destruct (r !! k).
  - done.
  - intros ->. assert (He : e ∈ omap thrown (map_to_list (Normal <$> r)).*2).
    { rewrite Hl. left. }
    apply thrown_elem in He as [k Hk]. rewrite lookup_fmap in Hk.
    by destruct (r !! k).
Qed.

(** What a map throws is what one of its members throws, and a map with a
    member that throws throws. *)
Lemma map_allc_Abrupt {E A} (m : gmap string (comp E A)) e :
  map_allc m = Abrupt e -> exists k, m !! k = Some (Abrupt e).
Proof.
  unfold map_allc. destruct (omap thrown _) as [|e' l] eqn:Hl; [done|].
  intros [= ->]. apply thrown_elem. rewrite Hl. left.
Qed.

Lemma map_allc_throws {E A} (m : gmap string (comp E A)) k e :
  m !! k = Some (Abrupt e) -> exists e', map_allc m = Abrupt e'.
Proof.
  intros Hk. unfold map_allc. destruct (omap thrown _) as [|e' l] eqn:Hl; [|by exists e'].
  assert (He : e ∈ omap thrown (map_to_list m).*2) by (apply thrown_elem; eauto).
  rewrite Hl in He. by apply elem_of_nil in He.
Qed.

(** A traversal whose members all complete completes. *)
Lemma map_allc_completes {E A} (m : gmap string (comp E A)) :
  (forall k c, m !! k = Some c -> exists a, c = Normal a) -> exists r, map_allc m = Normal r.
Proof.
  intros Hm. destruct (map_allc m) as [r|e] eqn:Hr; [by exists r|].
  apply map_allc_Abrupt in Hr as (k & Hk). by destruct (Hm k _ Hk).
Qed.

Lemma map_allc_singleton {E A} k (c : comp E A) :
  map_allc {[ k := c ]} = (fun a => {[ k := a ]}) <$> c.
Proof.
  unfold map_allc. rewrite map_to_list_singleton. destruct c as [a|e]; simpl; [|done].
  by erewrite omap_singleton_Some.
Qed.

Lemma map_allc_fmap_lookup {E A B} (f : A -> comp E B) (ps : gmap string A) r :
  map_allc (f <$> ps) = Normal r <->
  forall k, f <$> (ps !! k) = Normal <$> (r !! k).
Proof.
  rewrite map_allc_Normal. split.
  - intros H k. by rewrite <- !lookup_fmap, H.
  - intros H. apply map_eq; intros k. by rewrite !lookup_fmap.
Qed.

Lemma map_allc_fmap_impl {E A B} (f g : A -> comp E B) (ps : gmap string A) r :
  (forall x y, f x = Normal y -> g x = Normal y) ->
  map_allc (f <$> ps) = Normal r -> map_allc (g <$> ps) = Normal r.
Proof.
  rewrite !map_allc_fmap_lookup. intros Hfg H k. specialize (H k).
  destruct (ps !! k), (r !! k); simplify_eq/=; f_equal; eauto.
Qed.

Lemma map_allc_dichotomy {E A B} (f g : A -> comp E B) e (ps : gmap string A) r :
  (forall x y, f x = Normal y -> g x = Normal y \/ g x = Abrupt e) ->
  map_allc (f <$> ps) = Normal r ->
  map_allc (g <$> ps) = Normal r \/ map_allc (g <$> ps) = Abrupt e.
Proof.
  intros Hfg Hr. pose proof (proj1 (map_allc_fmap_lookup _ _ _) Hr) as Hf.
  destruct (map_allc (g <$> ps)) as [r'|e'] eqn:Hg.
  - left. f_equal. pose proof (proj1 (map_allc_fmap_lookup _ _ _) Hg) as Hg'.
    apply map_eq; intros k. specialize (Hf k). specialize (Hg' k).
    destruct (ps !! k) as [x|], (r !! k) as [y|], (r' !! k) as [y'|]; simplify_eq/=; try done.
    destruct (Hfg x y Hf); congruence.
  - right. apply map_allc_Abrupt in Hg as [k Hk]. rewrite lookup_fmap in Hk.
    specialize (Hf k). destruct (ps !! k) as [x|], (r !! k) as [y|]; simplify_eq/=.
    destruct (Hfg x y Hf); congruence.
Qed.

Lemma comp_mapM_impl {E A B} (f g : A -> comp E B) (l : list A) k :
  (forall x y, f x = Normal y -> g x = Normal y) ->
  comp_mapM f l = Normal k -> comp_mapM g l = Normal k.
Proof.
  rewrite !comp_mapM_Normal. intros Hfg H. eapply Forall2_impl; [exact H|]. eauto.
Qed.

(** ** Lemmas: [reify] *)

Section Reify.
Context {DT : DateType}.

(** The two ways to grow what [reify] sees: more fuel, a larger heap. *)
Lemma reify_weaken n h v t m h' :
  reify n h v = Normal t -> n <= m -> h ⊆ h' -> reify m h' v = Normal t.
Proof.
  revert m v t. induction n as [|n IH]; intros m v t Hr Hle Hsub;
    destruct v as [| | | | |l]; simpl in *; try done;
    try (by destruct m).
  destruct m as [|m]; [lia|]. simpl.
  destruct (h !! l) as [o|] eqn:Hl; [|done].
  rewrite (lookup_weaken _ _ _ _ Hl Hsub).
  destruct o as [ps|es ps|d ps]; [| |done];
    apply comp_fmap_Normal in Hr as (r & Hr & ->);
    apply comp_fmap_Normal; exists r; split; try done.
  - eapply map_allc_fmap_impl; [|exact Hr]. intros; eapply IH; eauto with lia.
  - eapply comp_mapM_impl; [|exact Hr]. intros; eapply IH; eauto with lia.
Qed.

Lemma reify_mono n m h v t :
  reify n h v = Normal t -> n <= m -> reify m h v = Normal t.
Proof. intros; eapply reify_weaken; eauto. Qed.

Lemma reify_extends n h h' v t :
  reify n h v = Normal t -> h ⊆ h' -> reify n h' v = Normal t.
Proof. intros; eapply reify_weaken; eauto. Qed.

Lemma reify_object n h l ps r :
  h !! l = Some (OObject ps) ->
  (forall k, reify n h <$> (ps !! k) = Normal <$> (r !! k)) ->
  reify (S n) h (VRef l) = Normal (TObj r).
Proof.
  intros Hl Hps. simpl. rewrite Hl.
  apply comp_fmap_Normal. exists r. split; [|done]. by apply map_allc_fmap_lookup.
Qed.

Lemma reify_array n h l es ps ts :
  h !! l = Some (OArray es ps) ->
  Forall2 (fun v t => reify n h v = Normal t) es ts ->
  reify (S n) h (VRef l) = Normal (TArr ts).
Proof.
  intros Hl Hes. simpl. rewrite Hl.
  apply comp_fmap_Normal. exists ts. split; [|done]. by apply comp_mapM_Normal.
Qed.

(** A [Date] serialises to what the encoder returns for its time value, and
    throws what the encoder throws. *)
Lemma reify_date n h l d ps :
  h !! l = Some (ODate d ps) -> reify (S n) h (VRef l) = TDate <$> date_encode d.
Proof. intros Hl. simpl. by rewrite Hl. Qed.

End Reify.


(** ** Lemmas: allocation *)

Lemma fresh_loc_None h : h !! fresh_loc h = None.
Proof. unfold fresh_loc. apply (not_elem_of_dom (D := gset loc)), is_fresh. Qed.

Lemma alloc_extends h o : h ⊆ <[fresh_loc h := o]> h.
Proof. apply insert_subseteq, fresh_loc_None. Qed.

Lemma alloc_size h o : size (<[fresh_loc h := o]> h) = S (size h).
Proof. apply map_size_insert_None, fresh_loc_None. Qed.

Lemma alloc_spec o w :
  alloc o w = (Normal (VRef (fresh_loc (heap w))),
               World (<[fresh_loc (heap w) := o]> (heap w)) (console w)).
Proof. reflexivity. Qed.

(** ** Store extension

    [w ⊑ w']: [w'] has every object of [w] unchanged, possibly more, and the
    same console.  Allocation moves the store up this order. *)

#[export] Instance world_le : SqSubsetEq world :=
  fun w w' => heap w ⊆ heap w' /\ console w' = console w.

#[export] Instance world_le_preorder : PreOrder (⊑@{world}).
Proof.
  split.
  - by intros w; split.
  - intros w1 w2 w3 [H12 E12] [H23 E23]; split; [by etrans|congruence].
Qed.

(** A computation that only allocates: it completes normally and extends the store. *)
Definition allocates {A} (c : js A) : Prop :=
  forall w, exists a w', c w = (Normal a, w') /\ w ⊑ w'.

Lemma allocates_ret {A} (a : A) : allocates (mret a : js A).
Proof. intros w. by exists a, w. Qed.

Lemma allocates_bind {A B} (c : js A) (f : A -> js B) :
  allocates c -> (forall a, allocates (f a)) -> allocates (c ≫= f).
Proof.
  intros Hc Hf w. destruct (Hc w) as (a & w1 & E1 & L1).
  destruct (Hf a w1) as (b & w2 & E2 & L2).
  exists b, w2. split; [|by etrans]. st_run. by rewrite E1.
Qed.

Lemma allocates_alloc o : allocates (alloc o).
Proof.
  intros w. eexists _, _. split; [apply alloc_spec|]. split; [|done].
  apply alloc_extends.
Qed.

Lemma allocates_new_array vs : allocates (new_array vs).
Proof. apply allocates_alloc. Qed.

Lemma allocates_new_object ms : allocates (new_object ms).
Proof. apply allocates_alloc. Qed.

#[export] Hint Resolve allocates_ret allocates_bind allocates_alloc
  allocates_new_array allocates_new_object : js.

(** ** Induction on trees *)

Lemma tree_size_elem ts t : t ∈ ts -> tree_size t < tree_size (TArr ts).
Proof.
  simpl. induction 1 as [t ts|t t' ts _ IH]; simpl; lia.
Qed.

Lemma tree_size_member ms k t :
  ms !! k = Some t -> tree_size t < tree_size (TObj ms).
Proof.
  simpl. revert k t.
  apply (map_fold_weak_ind
           (fun r (m : gmap string tree) =>
              forall k t, m !! k = Some t -> tree_size t < S r)).
  - intros k t. by rewrite lookup_empty.
  - intros i x m r Hi IH k t. rewrite lookup_insert.
    case_decide; [intros [= ->]; lia|]. intros Hk. specialize (IH k t Hk). lia.
Qed.

Lemma tree_dates_elem ts t : t ∈ ts -> tree_dates t ⊆ tree_dates (TArr ts).
Proof.
  simpl. induction 1 as [t ts|t t' ts _ IH]; simpl; set_solver.
Qed.

Lemma tree_dates_member ms k t :
  ms !! k = Some t -> tree_dates t ⊆ tree_dates (TObj ms).
Proof.
  simpl. revert k t.
  apply (map_fold_weak_ind
           (fun r (m : gmap string tree) =>
              forall k t, m !! k = Some t -> tree_dates t ⊆ r)).
  - intros k t. by rewrite lookup_empty.
  - intros i x m r Hi IH k t. rewrite lookup_insert.
    case_decide; [intros [= ->]; set_solver|]. intros Hk. specialize (IH k t Hk). set_solver.
Qed.

Lemma tree_dates_elem_nil ts t :
  t ∈ ts -> tree_dates (TArr ts) = [] -> tree_dates t = [].
Proof.
  intros Ht Hd. pose proof (tree_dates_elem _ _ Ht) as Hsub. rewrite Hd in Hsub.
  destruct (tree_dates t) as [|s ?]; [done|]. set_solver.
Qed.

Lemma tree_dates_member_nil ms k t :
  ms !! k = Some t -> tree_dates (TObj ms) = [] -> tree_dates t = [].
Proof.
  intros Ht Hd. pose proof (tree_dates_member _ _ _ Ht) as Hsub. rewrite Hd in Hsub.
  destruct (tree_dates t) as [|s ?]; [done|]. set_solver.
Qed.

(** A date of a tree is a date of one of its elements or members. *)
Lemma tree_dates_array ts s :
  s ∈ tree_dates (TArr ts) -> exists t, t ∈ ts /\ s ∈ tree_dates t.
Proof.
  simpl. induction ts as [|t ts IH]; simpl; [by intros ?%elem_of_nil|].
  rewrite elem_of_app. intros [Hs|Hs]; [exists t; split; [left|done]|].
  destruct (IH Hs) as (t' & Ht' & Hs'). exists t'. split; [by right|done].
Qed.

Lemma tree_dates_object ms s :
  s ∈ tree_dates (TObj ms) -> exists k t, ms !! k = Some t /\ s ∈ tree_dates t.
Proof.
  simpl.
  apply (map_fold_weak_ind
           (fun r (m : gmap string tree) =>
              s ∈ r -> exists k t, m !! k = Some t /\ s ∈ tree_dates t)).
  - by intros ?%elem_of_nil.
  - intros i x m r Hi IH. rewrite elem_of_app. intros [Hs|Hs].
    + exists i, x. by rewrite lookup_insert_eq.
    + destruct (IH Hs) as (k & t & Hk & Ht). exists k, t. split; [|done].
      rewrite lookup_insert_ne; [done|]. intros ->. congruence.
Qed.

Lemma tree_ind_full (P : tree -> Prop) :
  P TUndefined -> P TNull -> (forall b, P (TBool b)) ->
  (forall n, P (TNumber n)) -> (forall s, P (TString s)) ->
  (forall ts, Forall P ts -> P (TArr ts)) ->
  (forall ms, map_Forall (fun _ t => P t) ms -> P (TObj ms)) ->
  (forall text, P (TDate text)) ->
  forall t, P t.
Proof.
  intros Hu Hn Hb Hnum Hs Ha Ho Hd t.
  remember (tree_size t) as sz eqn:E. revert t E.
  induction sz as [sz IH] using lt_wf_ind. intros t ->.
  destruct t; auto.
  - apply Ha, Forall_forall. intros t Ht.
    eapply IH; [|done]. by apply tree_size_elem.
  - apply Ho. intros k t Hk.
    eapply IH; [|done]. by eapply tree_size_member.
Qed.

(** ** Trees without dates *)

(** A tree without dates does not depend on the type registered for dates. *)
Lemma reify_date_free {DT DT' : DateType} n h v t :
  reify (DT := DT) n h v = Normal t -> tree_dates t = [] ->
  reify (DT := DT') n h v = Normal t.
Proof.
  revert v t. induction n as [|n IH]; intros v t Hv Hd;
    destruct v as [| | | | |l]; simpl in *; try done.
  destruct (h !! l) as [[ps|es ps|d ps]|]; [| | |done];
    apply comp_fmap_Normal in Hv as (r & Hr & ->); try done;
    apply comp_fmap_Normal; exists r; (split; [|done]).
  - apply map_allc_fmap_lookup. intros k.
    pose proof (proj1 (map_allc_fmap_lookup _ _ _) Hr k) as Hk.
    destruct (ps !! k) as [x|], (r !! k) as [y|] eqn:Hy; simplify_eq/=; [|done].
    f_equal. apply IH; [done|]. by eapply tree_dates_member_nil.
  - apply comp_mapM_Normal. apply comp_mapM_Normal in Hr.
    eapply Forall2_impl_elem; [exact Hr|]. intros x y _ Hy Hxy. apply IH; [done|].
    by eapply tree_dates_elem_nil.
Qed.

(** ** An encoder that always throws

    When the encoder of dates throws [e] for every date, a value serialises
    exactly when its tree holds no date, and serialising a value that holds
    one throws [e]. *)

Section FailingEncoder.
Context {DT0 DT : DateType} (e : exn).
Hypothesis encoder_throws : forall d, date_encode (DateType := DT) d = Abrupt e.

Lemma reify_no_dates n h v t : reify (DT := DT) n h v = Normal t -> tree_dates t = [].
Proof.
  revert v t. induction n as [|n IH]; intros v t Hv;
    destruct v as [| | | | |l]; simpl in *; simplify_eq/=; try done.
  destruct (h !! l) as [[ps|es ps|d ps]|]; [| | |done].
  - apply comp_fmap_Normal in Hv as (r & Hr & ->).
    destruct (tree_dates (TObj r)) as [|s ss] eqn:Hs; [done|]. exfalso.
    destruct (tree_dates_object r s) as (k & y & Hy & Hsy); [rewrite Hs; left|].
    pose proof (proj1 (map_allc_fmap_lookup _ _ _) Hr k) as Hk. rewrite Hy in Hk.
    destruct (ps !! k) as [x|]; simplify_eq/=. rewrite (IH _ _ Hk) in Hsy.
    by apply elem_of_nil in Hsy.
  - apply comp_fmap_Normal in Hv as (r & Hr & ->). apply comp_mapM_Normal in Hr.
    destruct (tree_dates (TArr r)) as [|s ss] eqn:Hs; [done|]. exfalso.
    destruct (tree_dates_array r s) as (y & Hy & Hsy); [rewrite Hs; left|].
    apply list_elem_of_lookup in Hy as [i Hi].
    destruct (Forall2_lookup_r _ _ _ _ _ Hr Hi) as (x & _ & Hx).
    rewrite (IH _ _ Hx) in Hsy. by apply elem_of_nil in Hsy.
  - by rewrite encoder_throws in Hv.
Qed.

Lemma reify_dichotomy n h v t :
  reify (DT := DT0) n h v = Normal t ->
  reify (DT := DT) n h v = Normal t \/ reify (DT := DT) n h v = Abrupt e.
Proof.
  revert v t. induction n as [|n IH]; intros v t Hv;
    destruct v as [| | | | |l]; simpl in *; simplify_eq/=; auto.
  destruct (h !! l) as [[ps|es ps|d ps]|]; [| | |done].
  - apply comp_fmap_Normal in Hv as (r & Hr & ->).
    destruct (map_allc_dichotomy _ (reify (DT := DT) n h) e _ _ (IH) Hr) as [->| ->]; auto.
  - apply comp_fmap_Normal in Hv as (r & Hr & ->).
    destruct (comp_mapM_dichotomy _ (reify (DT := DT) n h) e _ _ (IH) Hr) as [->| ->]; auto.
  - rewrite encoder_throws. by right.
Qed.

(** What another encoder writes with a date in it cannot be written. *)
Lemma reify_dates_throw n h v t :
  reify (DT := DT0) n h v = Normal t -> tree_dates t <> [] ->
  reify (DT := DT) n h v = Abrupt e.
Proof.
  intros Hv Hd. destruct (reify_dichotomy _ _ _ _ Hv) as [Ht|]; [|done].
  by apply reify_no_dates in Ht.
Qed.

End FailingEncoder.

(** ** Lemmas: [alloc_tree] only allocates *)

Lemma allocates_alloc_list f ts :
  Forall (fun t => allocates (f t)) ts -> allocates (alloc_list f ts).
Proof.
  induction 1; simpl; [apply allocates_ret|].
  apply allocates_bind; [done|]. intros v.
  apply allocates_bind; [done|]. intros vs. apply allocates_ret.
Qed.

Lemma allocates_alloc_members f ms :
  map_Forall (fun _ t => allocates (f t)) ms ->
  allocates (map_fold (alloc_member f) (mret ∅) ms).
Proof.
  apply (map_fold_weak_ind
           (fun r (m : gmap string tree) =>
              map_Forall (fun _ t => allocates (f t)) m -> allocates r)).
  - intros _. apply allocates_ret.
  - intros i x m r Hi IH Hall.
    apply map_Forall_insert in Hall as [Hx Hm]; [|done].
    unfold alloc_member. apply allocates_bind; [by apply IH|]. intros acc.
    apply allocates_bind; [done|]. intros v. apply allocates_ret.
Qed.

Lemma allocates_alloc_tree {DT : DateType} t : allocates (alloc_tree t).
Proof.
  induction t using tree_ind_full; simpl; try apply allocates_ret.
  - apply allocates_bind; [by apply allocates_alloc_list|].
    intros; apply allocates_new_array.
  - apply allocates_bind; [by apply allocates_alloc_members|].
    intros; apply allocates_alloc.
  - apply allocates_alloc.
Qed.

(** ** Serialisation in a store

    [serializes h v t]: in heap [h], value [v] serialises to tree [t] with the
    fuel a call made in [h] has. *)

Section Serializes.
Context {DT : DateType}.

Definition serializes (h : gmap loc object) (v : value) (t : tree) : Prop :=
  reify (reify_fuel h) h v = Normal t.

Lemma serializes_weaken h h' v t :
  h ⊆ h' -> serializes h v t -> serializes h' v t.
Proof.
  unfold serializes, reify_fuel. intros Hsub Hr.
  eapply reify_weaken; [exact Hr| |done].
  apply map_subseteq_size in Hsub. lia.
Qed.

Lemma serializes_alloc h o v t :
  serializes h v t -> serializes (<[fresh_loc h := o]> h) v t.
Proof. apply serializes_weaken, alloc_extends. Qed.

Lemma serializes_prim h v t :
  (forall l, v <> VRef l) -> reify 0 h v = Normal t -> serializes h v t.
Proof. intros _ Hr. unfold serializes. eapply reify_mono; [done|lia]. Qed.

(** Fuel does not change what a value serialises to, only whether it does. *)
Lemma reify_det n m h v t t' :
  reify n h v = Normal t -> reify m h v = Normal t' -> t = t'.
Proof.
  intros Hn Hm.
  apply (reify_mono _ (n `max` m)) in Hn; [|lia].
  apply (reify_mono _ (n `max` m)) in Hm; [|lia]. congruence.
Qed.

(** A fresh array whose elements serialise serialises to the array of their trees. *)
Lemma serializes_new_array h vs ps ts :
  Forall2 (serializes h) vs ts ->
  serializes (<[fresh_loc h := OArray vs ps]> h) (VRef (fresh_loc h)) (TArr ts).
Proof.
  intros Hvs. unfold serializes, reify_fuel. rewrite alloc_size.
  eapply reify_array; [apply lookup_insert_eq|].
  eapply Forall2_impl; [exact Hvs|]. intros v t Hv.
  eapply reify_extends; [exact Hv|apply alloc_extends].
Qed.

(** A fresh object whose members serialise serialises to the object of their trees. *)
Lemma serializes_new_object h ps r :
  (forall k, reify (reify_fuel h) h <$> (ps !! k) = Normal <$> (r !! k)) ->
  serializes (<[fresh_loc h := OObject ps]> h) (VRef (fresh_loc h)) (TObj r).
Proof.
  intros Hps. unfold serializes, reify_fuel. rewrite alloc_size.
  eapply reify_object; [apply lookup_insert_eq|].
  intros k. specialize (Hps k).
  destruct (ps !! k) as [v|], (r !! k) as [t|];
    cbn [fmap option_fmap option_map] in *; try done.
  injection Hps as Hps. f_equal.
  eapply reify_extends; [exact Hps|apply alloc_extends].
Qed.

Lemma serializes_singleton_object h k v t :
  serializes h v t ->
  serializes (<[fresh_loc h := OObject {[k := v]}]> h) (VRef (fresh_loc h))
             (TObj {[k := t]}).
Proof.
  intros Hv. apply serializes_new_object. intros k'.
  destruct (decide (k = k')) as [<-|Hne].
  - rewrite !lookup_singleton_eq. simpl. by f_equal.
  - by rewrite !lookup_singleton_ne.
Qed.

(** Members given as a list: the trees of an object literal. *)
Lemma serializes_members h (ms : list (string * value)) (ts : list (string * tree)) :
  Forall2 (fun m t => m.1 = t.1 /\ serializes h m.2 t.2) ms ts ->
  forall k, reify (reify_fuel h) h <$> ((list_to_map ms : gmap string value) !! k)
            = Normal <$> ((list_to_map ts : gmap string tree) !! k).
Proof.
  induction 1 as [|[k1 v] [k2 t] ms ts [Hk Hv] _ IH]; intros k; simpl in *.
  - by rewrite !lookup_empty.
  - subst k2. rewrite !lookup_insert. case_decide; [|apply IH].
    cbn [fmap option_fmap option_map]. by f_equal.
Qed.

Lemma serializes_object_literal h ms ts :
  Forall2 (fun m t => m.1 = t.1 /\ serializes h m.2 t.2) ms ts ->
  serializes (<[fresh_loc h := OObject (list_to_map ms)]> h) (VRef (fresh_loc h))
             (TObj (list_to_map ts)).
Proof. intros Hms. by apply serializes_new_object, serializes_members. Qed.

End Serializes.

(** ** Stepping through a computation *)

Lemma new_array_spec vs w :
  new_array vs w = (Normal (VRef (fresh_loc (heap w))),
                    World (<[fresh_loc (heap w) := OArray vs ∅]> (heap w)) (console w)).
Proof. reflexivity. Qed.

Lemma new_object_spec ms w :
  new_object ms w =
  (Normal (VRef (fresh_loc (heap w))),
   World (<[fresh_loc (heap w) := OObject (list_to_map (reverse ms))]> (heap w))
         (console w)).
Proof. reflexivity. Qed.

(** [js_step] runs the binds of a model and the allocations it meets. *)
Ltac js_step :=
  st_run;
  repeat (first [rewrite new_array_spec | rewrite new_object_spec | rewrite alloc_spec];
          cbn [heap console fst snd]).

(** Reading a property changes nothing. *)
Lemma get_prop_world v k w : (get_prop v k w).2 = w.
Proof.
  destruct v as [| | | |s|l]; simpl; try done.
  - by destruct (decide _).
  - by destruct (heap w !! l).
Qed.

(** What an object holds stays readable when the store grows. *)
Lemma get_prop_extends l k w w' x :
  is_Some (heap w !! l) -> w ⊑ w' ->
  get_prop (VRef l) k w = (Normal x, w) -> get_prop (VRef l) k w' = (Normal x, w').
Proof.
  intros [o Ho] [Hsub _]. simpl. rewrite Ho, (lookup_weaken _ _ _ _ Ho Hsub).
  by intros [= ->].
Qed.

Lemma get_prop_prim_extends v k w w' x :
  (forall l, v <> VRef l) ->
  get_prop v k w = (Normal x, w) -> get_prop v k w' = (Normal x, w').
Proof.
  intros Hv. destruct v as [| | | |s|l]; simpl; try done; try (by intros [= ->]).
  - destruct (decide _); by intros [= ->].
  - by destruct (Hv l).
Qed.

(** A name: a key that is neither [length] nor an array index.  Storing under
    a name creates or overwrites that property and nothing else. *)
Definition is_name (k : string) : Prop := k <> "length" /\ array_index k = None.

Definition store_name (o : object) (k : string) (x : value) : object :=
  match o with
  | OObject ps => OObject (<[k := x]> ps)
  | OArray es ps => OArray es (<[k := x]> ps)
  | ODate t ps => ODate t (<[k := x]> ps)
  end.

Lemma store_prop_name o k x : is_name k -> store_prop o k x = Normal (store_name o k x).
Proof.
  intros [Hl Hi]. destruct o as [ps|es ps|d ps]; simpl; [done| |done].
  rewrite Hi. by destruct (decide (k = "length")).
Qed.

Lemma own_prop_store_name_eq o k x : is_name k -> own_prop (store_name o k x) k = x.
Proof.
  intros [Hl Hi]. destruct o as [ps|es ps|d ps]; simpl.
  - by rewrite lookup_insert_eq.
  - rewrite Hi. destruct (decide (k = "length")); [done|].
    by rewrite lookup_insert_eq.
  - by rewrite lookup_insert_eq.
Qed.

Lemma own_prop_store_name_ne o k x k' :
  k <> k' -> own_prop (store_name o k x) k' = own_prop o k'.
Proof.
  intros Hne. destruct o as [ps|es ps|d ps]; simpl.
  - by rewrite lookup_insert_ne.
  - destruct (decide (k' = "length")); [done|].
    destruct (array_index k'); [done|]. by rewrite lookup_insert_ne.
  - by rewrite lookup_insert_ne.
Qed.

Lemma set_prop_name l o k x w :
  heap w !! l = Some o -> is_name k ->
  set_prop (VRef l) k x w =
  (Normal tt, World (<[l := store_name o k x]> (heap w)) (console w)).
Proof. intros Ho Hk. unfold set_prop. by rewrite Ho, store_prop_name. Qed.

Lemma set_prop_primitive v k x w :
  (forall l, v <> VRef l) -> set_prop v k x w = (Abrupt TypeError, w).
Proof. intros Hv. destruct v; try done. by destruct (Hv l). Qed.

(** ** Serialisation after a store

    Overwriting an object does not change the tree of a value that is
    serialised inside the tree of that object: the value cannot reach it. *)
Section SerializesStore.
Context {DT : DateType}.

Lemma reify_agree n h h' lp T m v t :
  reify n h (VRef lp) = Normal T ->
  (forall l, l <> lp -> h' !! l = h !! l) ->
  reify m h v = Normal t -> tree_size t < tree_size T ->
  reify m h' v = Normal t.
Proof.
  intros HT Hh. revert v t. induction m as [|m IH]; intros v t Hv Hsz;
    destruct v as [| | | | |l]; try done.
  destruct (decide (l = lp)) as [->|Hne].
  { rewrite (reify_det _ _ _ _ _ _ Hv HT) in Hsz. lia. }
  simpl in *. rewrite Hh by done.
  destruct (h !! l) as [[ps|es ps|d ps]|]; [| |done|done];
    apply comp_fmap_Normal in Hv as (r & Hr & ->); apply comp_fmap_Normal; exists r;
    (split; [|done]).
  - apply map_allc_fmap_lookup. intros k.
    pose proof (proj1 (map_allc_fmap_lookup _ _ _) Hr k) as Hk.
    destruct (ps !! k) as [x|], (r !! k) as [y|] eqn:Hy;
      cbn [fmap option_fmap option_map] in *; try done.
    injection Hk as Hk. f_equal. apply IH; [done|].
    pose proof (tree_size_member _ _ _ Hy). lia.
  - apply comp_mapM_Normal. apply comp_mapM_Normal in Hr.
    eapply Forall2_impl_elem; [exact Hr|]. intros x y _ Hy Hxy. apply IH; [done|].
    pose proof (tree_size_elem _ _ Hy). lia.
Qed.

Lemma reify_overwrite n h lp o' T m v t :
  reify n h (VRef lp) = Normal T ->
  reify m h v = Normal t -> tree_size t < tree_size T ->
  reify m (<[lp := o']> h) v = Normal t.
Proof.
  intros HT. apply (reify_agree _ _ _ _ _ _ _ _ HT).
  intros l Hl. by rewrite lookup_insert_ne.
Qed.

Lemma reify_delete n h lp T m v t :
  reify n h (VRef lp) = Normal T ->
  reify m h v = Normal t -> tree_size t < tree_size T ->
  reify m (delete lp h) v = Normal t.
Proof.
  intros HT. apply (reify_agree _ _ _ _ _ _ _ _ HT).
  intros l Hl. by rewrite lookup_delete_ne.
Qed.

(** ** The fuel is enough

    A value that serialises with some fuel serialises with [reify_fuel h]:
    the object at the root cannot occur below itself, so its members
    serialise in the heap without it, which is smaller. *)
Lemma reify_fuel_enough n h v t :
  reify n h v = Normal t -> reify (reify_fuel h) h v = Normal t.
Proof.
  unfold reify_fuel. remember (size h) as sz eqn:Hsz. revert h Hsz n v t.
  induction sz as [sz IH] using lt_wf_ind. intros h -> n v t Hv.
  destruct v as [| | | | |l]; try (by destruct n). destruct n as [|n]; [done|].
  pose proof Hv as Hroot. simpl in Hv.
  destruct (h !! l) as [o|] eqn:Hl; [|done].
  assert (Hsize : size h = S (size (delete l h))).
  { rewrite <- (insert_delete_id h l o Hl) at 1.
    apply map_size_insert_None, lookup_delete_eq. }
  assert (Hchild : forall x tx, reify n h x = Normal tx -> tree_size tx < tree_size t ->
                                reify (size h) h x = Normal tx).
  { intros x tx Hx Hlt. rewrite Hsize.
    eapply reify_weaken; [|done|apply delete_subseteq].
    eapply (IH (size (delete l h))); [lia|done|].
    by eapply reify_delete. }
  destruct o as [ps|es ps|d ps]; [| |by cbn; rewrite Hl];
    apply comp_fmap_Normal in Hv as (r & Hr & ->).
  - apply (reify_object _ _ _ ps); [done|]. intros k.
    pose proof (proj1 (map_allc_fmap_lookup _ _ _) Hr k) as Hk.
    destruct (ps !! k) as [x|], (r !! k) as [y|] eqn:Hy;
      cbn [fmap option_fmap option_map] in *; try done.
    injection Hk as Hk. f_equal. apply Hchild; [done|].
    by apply (tree_size_member _ k).
  - apply (reify_array _ _ _ es ps); [done|]. apply comp_mapM_Normal in Hr.
    eapply Forall2_impl_elem; [exact Hr|]. intros x y _ Hy Hxy.
    apply Hchild; [done|]. by apply tree_size_elem.
Qed.

(** With some fuel or with the fuel of a call: the same values serialise. *)
Lemma serializes_iff_fuel h v t : serializes h v t <-> exists n, reify n h v = Normal t.
Proof. split; [by exists (reify_fuel h)|intros [n Hn]; by eapply reify_fuel_enough]. Qed.

Lemma reify_prim n h v t : prim_tree v = Some t -> reify n h v = Normal t.
Proof. destruct v, n; simpl; congruence. Qed.

Lemma prim_tree_not_ref v t l : prim_tree v = Some t -> v <> VRef l.
Proof. by intros Hv ->. Qed.

(** The tree of an object after a store under a name. *)
Definition tree_store (k : string) (tx : tree) (T : tree) : tree :=
  match T with
  | TObj r => TObj (<[k := tx]> r)
  | _ => T
  end.

Lemma serializes_store_name h lp o T k x tx :
  h !! lp = Some o ->
  serializes h (VRef lp) T ->
  reify (size h) (<[lp := store_name o k x]> h) x = Normal tx ->
  serializes (<[lp := store_name o k x]> h) (VRef lp) (tree_store k tx T).
Proof.
  intros Ho HT Hx. unfold serializes, reify_fuel in *.
  rewrite map_size_insert_Some by (by eexists).
  pose proof HT as HT'. simpl in HT'. rewrite Ho in HT'.
  destruct o as [ps|es ps|d ps]; apply comp_fmap_Normal in HT' as (r & Hr & ->); simpl.
  3: { rewrite lookup_insert_eq. by rewrite Hr. }
  - eapply reify_object; [apply lookup_insert_eq|]. intros k'.
    pose proof (proj1 (map_allc_fmap_lookup _ _ _) Hr k') as Hk.
    destruct (decide (k = k')) as [<-|Hne].
    { rewrite !lookup_insert_eq. cbn [fmap option_fmap option_map]. by f_equal. }
    rewrite !lookup_insert_ne by done.
    destruct (ps !! k') as [y|], (r !! k') as [ty|] eqn:Hy;
      cbn [fmap option_fmap option_map] in *; try done.
    injection Hk as Hk. f_equal. eapply reify_overwrite; [exact HT|done|].
    apply (tree_size_member _ _ _ Hy).
  - eapply reify_array; [apply lookup_insert_eq|].
    apply comp_mapM_Normal in Hr. eapply Forall2_impl_elem; [exact Hr|].
    intros y ty _ Hy Hyt. eapply reify_overwrite; [exact HT|done|].
    by apply tree_size_elem.
Qed.

End SerializesStore.

(** ** Big-step rules of the primitives *)

Lemma evals_alloc o w :
  evals (alloc o) w (VRef (fresh_loc (heap w)))
        (World (<[fresh_loc (heap w) := o]> (heap w)) (console w)).
Proof. reflexivity. Qed.

Lemma evals_new_array vs w :
  evals (new_array vs) w (VRef (fresh_loc (heap w)))
        (World (<[fresh_loc (heap w) := OArray vs ∅]> (heap w)) (console w)).
Proof. reflexivity. Qed.

Lemma evals_new_object ms w :
  evals (new_object ms) w (VRef (fresh_loc (heap w)))
        (World (<[fresh_loc (heap w) := OObject (list_to_map (reverse ms))]> (heap w))
               (console w)).
Proof. reflexivity. Qed.

Lemma evals_console_log args w :
  evals (console_log args) w tt (World (heap w) (console w ++ [args])).
Proof. reflexivity. Qed.

Lemma evals_get_prop_ref l o k w :
  heap w !! l = Some o -> evals (get_prop (VRef l) k) w (own_prop o k) w.
Proof. intros Ho. unfold evals, get_prop. by rewrite Ho. Qed.

Lemma raises_get_prop_nullish v k w :
  is_nullish v = true -> raises (get_prop v k) w TypeError w.
Proof. by destruct v. Qed.

Lemma evals_set_prop_name l o k x w :
  heap w !! l = Some o -> is_name k ->
  evals (set_prop (VRef l) k x) w tt
        (World (<[l := store_name o k x]> (heap w)) (console w)).
Proof. intros. by apply set_prop_name. Qed.

Lemma raises_set_prop_primitive v k x w :
  (forall l, v <> VRef l) -> raises (set_prop v k x) w TypeError w.
Proof. intros. by apply set_prop_primitive. Qed.

Lemma evals_require_object_coercible v w :
  is_nullish v = false -> evals (require_object_coercible v) w tt w.
Proof. unfold evals, require_object_coercible. by intros ->. Qed.

Lemma raises_require_object_coercible v w :
  is_nullish v = true -> raises (require_object_coercible v) w TypeError w.
Proof. unfold raises, require_object_coercible. by intros ->. Qed.

#[export] Hint Resolve evals_alloc evals_new_array evals_new_object
  evals_console_log evals_require_object_coercible : js.

(** ** Reading properties across store changes *)

Lemma lookup_alloc_ne (h : gmap loc object) o l :
  is_Some (h !! l) -> <[fresh_loc h := o]> h !! l = h !! l.
Proof.
  intros [o' Ho']. apply lookup_insert_ne. intros <-.
  by rewrite fresh_loc_None in Ho'.
Qed.

Lemma evals_get_prop_inv v k w x w0 : evals (get_prop v k) w x w0 -> w0 = w.
Proof. intros Hv. pose proof (get_prop_world v k w) as Hw. by rewrite Hv in Hw. Qed.

Lemma evals_get_prop_extends v k w x w0 w' :
  evals (get_prop v k) w x w0 -> w ⊑ w' -> evals (get_prop v k) w' x w'.
Proof.
  unfold evals. intros Hv [Hsub _]. destruct v as [| | | |s|l]; simpl in *; try done;
    try (by injection Hv as <- _).
  - destruct (decide _); by injection Hv as <- _.
  - destruct (heap w !! l) as [o|] eqn:Ho; [|done].
    rewrite (lookup_weaken _ _ _ _ Ho Hsub). by injection Hv as <- _.
Qed.

Lemma evals_get_prop_store v k' w x w0 lp o k y c :
  evals (get_prop v k') w x w0 -> heap w !! lp = Some o -> k <> k' ->
  let w' := World (<[lp := store_name o k y]> (heap w)) c in
  evals (get_prop v k') w' x w'.
Proof.
  unfold evals. intros Hv Ho Hne. destruct v as [| | | |s|l]; simpl in *; try done;
    try (by injection Hv as <- _).
  - destruct (decide _); by injection Hv as <- _.
  - destruct (decide (lp = l)) as [->|Hl].
    + rewrite lookup_insert_eq. rewrite Ho in Hv. injection Hv as <- _.
      by rewrite own_prop_store_name_ne.
    + rewrite lookup_insert_ne by done. destruct (heap w !! l); [|done].
      by injection Hv as <- _.
Qed.

Lemma raises_get_prop_inv v k w e w0 : raises (get_prop v k) w e w0 -> w0 = w.
Proof. intros Hv. pose proof (get_prop_world v k w) as Hw. by rewrite Hv in Hw. Qed.

Lemma world_le_alloc w o :
  w ⊑ World (<[fresh_loc (heap w) := o]> (heap w)) (console w).
Proof. split; [apply alloc_extends|done]. Qed.

#[export] Hint Resolve world_le_alloc : js.

(** [world_le_tac] proves [w ⊑ w'] when [w'] is [w] after allocations. *)
Ltac world_le_tac :=
  unfold sqsubseteq, world_le; cbn [heap console]; split; [|done];
  repeat (etrans; [|apply alloc_extends]); done.
