(* ===== verification/XmlRpc.v ===== *)
(** * The XML-RPC transport the client calls ([$.xmlrpc]) and its promises

    The transport is a collaborator of the client and not part of
    src/src/bugzilla.js.  This file models what the client relies on:
    - the settings object passed to [$.xmlrpc] and the request it puts on the
      wire (the parameters are serialised when the call is made);
    - the exchange as a resumption: a process that awaits a reply and then
      continues, so that chained calls are sequenced by construction;
    - what a reply does: the [dataFilter] is applied to the raw body, the body
      is decoded, the [success] or [error] callback runs, the promise settles;
    - [Transport], the interface of what is left abstract: the type
      registered for dates, decoding a body and building the context object
      callbacks are applied to. *)

From S2P Require Import Prelude JsValue.
From stdpp Require Import gmap.

(** ** Requests, replies and settled promises *)

Record request : Type := Request {
  rq_url : value;
  rq_method : string;
  rq_params : tree
}.

(** What comes back for a request: a response body, or a transport failure
    with its status text and error.  [xhr] is the jqXHR object callbacks get. *)
Inductive reply : Type :=
| RBody (xhr : value) (raw : string)
| RFail (xhr status err : value).

(** How a promise ends.  A promise is resolved or rejected with a context
    (what [this] is in the callbacks) and arguments; [Thrown] records an
    exception that escaped, from the call itself or from a callback. *)
Inductive settled : Type :=
| Resolved (ctx : value) (v : value)
| Rejected (ctx : value) (args : list value)
| Thrown (e : exn).

(** ** Processes: the resumption monad

    [Ret a w] has finished with [a] in store [w]; [Await w rq k] has sent [rq],
    returned control to its caller in store [w], and continues with [k] when
    the reply is delivered, in the store of that moment. *)
Inductive proc (A : Type) : Type :=
| Ret (a : A) (w : world)
| Await (w : world) (rq : request) (k : reply -> world -> proc A).
Arguments Ret {A} a w.
Arguments Await {A} w rq k.

Definition async (A : Type) : Type := world -> proc A.

Fixpoint proc_bind {A B} (f : A -> async B) (p : proc A) : proc B :=
  match p with
  | Ret a w => f a w
  | Await w rq k => Await w rq (fun rp w' => proc_bind f (k rp w'))
  end.

Definition async_ret {A} (a : A) : async A := fun w => Ret a w.

Definition async_bind {A B} (f : A -> async B) (m : async A) : async B :=
  fun w => proc_bind f (m w).

#[export] Instance async_mret : MRet async := fun A => @async_ret A.
#[export] Instance async_mbind : MBind async := fun A B => @async_bind A B.

(** Synchronous code inside a process: an exception ends it as [Thrown]. *)
Definition sync {A} (c : js A) (k : A -> async settled) : async settled :=
  fun w => match c w with
           | (Normal a, w') => k a w'
           | (Abrupt e, w') => Ret (Thrown e) w'
           end.

(** The store a call returns to its caller in: the one at its first await,
    or at its end when it never awaits. *)
Definition returned_world {A} (p : proc A) : world :=
  match p with Ret _ w => w | Await w _ _ => w end.

(** The request a process is waiting on, if any. *)
Definition pending {A} (p : proc A) : option request :=
  match p with Ret _ _ => None | Await _ rq _ => Some rq end.

(** ** Running a process against a server

    [run srv p] delivers to every request of [p] the reply [srv] gives it,
    with no other activity in between, and returns the result, the final
    store and the requests in the order they were sent. *)
Fixpoint run {A} (srv : request -> reply) (p : proc A) : A * world * list request :=
  match p with
  | Ret a w => (a, w, [])
  | Await w rq k =>
      let '(a, w', tr) := run srv (k (srv rq) w) in (a, w', rq :: tr)
  end.

(** One delivery, as a labelled transition. *)
Inductive deliver {A} : proc A -> request * reply -> world -> proc A -> Prop :=
| deliver_reply w rq k rp w' : deliver (Await w rq k) (rq, rp) w' (k rp w').

(** ** The settings object and the transport interface *)

Record settings : Type := Settings {
  url : value;
  methodName : string;
  params : option value;
  success : option (list value -> js unit);
  error : option (list value -> js unit);
  dataFilter : option (string -> string)
}.

Class Transport : Type := {
  (** The type registered for [dateTime.iso8601]: a call writes the dates of
      its parameters with its encoder. *)
  transport_dates :: DateType;
  (** Decoding a response body: the decoded value, allocated in the store, or
      the error of a body that does not parse. *)
  decode_body : string -> world -> (value + value) * world;
  (** The object callbacks are applied to ([this]), built when the call is made. *)
  callback_context : value -> string -> option value -> world -> value * world;
  decode_body_frame : forall s w r w', decode_body s w = (r, w') -> w ⊑ w';
  callback_context_frame : forall u m ps w c w',
    callback_context u m ps w = (c, w') -> w ⊑ w'
}.

(** jQuery's binding: the context is the settings object of the call, so its
    [url] property is the URL the request was sent to.  This is an
    assumption on a library that is not part of the sources: jQuery stores
    the URL as a string with its fragment removed, which is the URL itself
    when it is a string without one, as the URL of the client is. *)
Class JQueryContext {TR : Transport} : Prop := {
  context_url : forall u m ps w c w',
    callback_context u m ps w = (c, w') -> get_prop c "url" w' = (Normal u, w')
}.

(** [settings.params || []], serialised: the document of the call is built
    when the call is made, and what building it throws, the call throws. *)
Definition serialize_params {DT : DateType} (ps : option value) (w : world)
  : comp exn tree :=
  match ps with
  | None => Normal (TArr [])
  | Some v => reify (reify_fuel (heap w)) (heap w) v
  end.

Section Xmlrpc.
Context {TR : Transport}.

(** Running a callback of the settings, if there is one, before the promise
    settles as [o]: an exception of the callback escapes instead. *)
Definition finish (cb : option (list value -> js unit)) (args : list value)
    (o : settled) (w : world) : settled * world :=
  match cb with
  | None => (o, w)
  | Some f => match f args w with
              | (Normal _, w') => (o, w')
              | (Abrupt e, w') => (Thrown e, w')
              end
  end.

(** How the promise of a call with settings [s] and context [c] settles when
    reply [rp] arrives in store [w], and the store it leaves. *)
Definition settle (s : settings) (c : value) (rp : reply) (w : world)
  : settled * world :=
  match rp with
  | RFail xhr status err =>
      finish (error s) [xhr; status; err] (Rejected c [xhr; status; err]) w
  | RBody xhr raw =>
      let data := default id (dataFilter s) raw in
      match decode_body data w with
      | (inl v, w') =>
          finish (success s) [v; VString "success"; xhr] (Resolved c v) w'
      | (inr err, w') =>
          finish (error s) [xhr; VString "parsererror"; err]
                 (Rejected c [xhr; VString "parsererror"; err]) w'
      end
  end.

Definition on_reply (s : settings) (c : value) (rp : reply) : async settled :=
  fun w => let '(o, w') := settle s c rp w in Ret o w'.

(** [$.xmlrpc(settings)] *)
Definition xmlrpc (s : settings) : async settled :=
  fun w =>
    match serialize_params (params s) w with
    | Abrupt e => Ret (Thrown e) w
    | Normal t =>
        let '(c, w') := callback_context (url s) (methodName s) (params s) w in
        Await w' (Request (url s) (methodName s) t) (on_reply s c)
    end.

(** [p.then(f)]: [f] runs when [p] is resolved, applied to the context and the
    value of the resolution; the result settles as the promise [f] returns.
    A rejection or an escaped exception passes through. *)
Definition then_ (p : async settled) (f : value -> value -> async settled)
  : async settled :=
  o ← p;
  match o with
  | Resolved c v => f c v
  | _ => mret o
  end.

End Xmlrpc.

(** ** Lemmas: processes *)

Lemma sync_normal {A} (c : js A) (k : A -> async settled) w a w' :
  c w = (Normal a, w') -> sync c k w = k a w'.
Proof. unfold sync. by intros ->. Qed.

Lemma sync_abrupt {A} (c : js A) (k : A -> async settled) w e w' :
  c w = (Abrupt e, w') -> sync c k w = Ret (Thrown e) w'.
Proof. unfold sync. by intros ->. Qed.

Lemma run_ret {A} srv (a : A) w : run srv (Ret a w) = (a, w, []).
Proof. reflexivity. Qed.

Lemma run_await {A} srv w rq (k : reply -> world -> proc A) :
  run srv (Await w rq k) =
  (let '(a, w', tr) := run srv (k (srv rq) w) in (a, w', rq :: tr)).
Proof. reflexivity. Qed.

Lemma run_bind {A B} srv (f : A -> async B) (p : proc A) :
  run srv (proc_bind f p) =
  (let '(a, w, tr) := run srv p in
   let '(b, w', tr') := run srv (f a w) in (b, w', tr ++ tr')).
Proof.
  induction p as [a w|w rq k IH]; simpl.
  - by destruct (run srv (f a w)) as [[b w'] tr'].
  - rewrite IH. destruct (run srv (k (srv rq) w)) as [[a w1] tr].
    by destruct (run srv (f a w1)) as [[b w2] tr'].
Qed.

(** [run] follows the deliveries of the server, one transition at a time. *)
Lemma run_deliver {A} srv (p p' : proc A) rq w :
  deliver p (rq, srv rq) w p' -> returned_world p = w ->
  run srv p = (let '(a, w', tr) := run srv p' in (a, w', rq :: tr)).
Proof. intros Hd <-. by inversion Hd. Qed.

Section XmlrpcLemmas.
Context {TR : Transport}.

Lemma xmlrpc_await s w t :
  serialize_params (params s) w = Normal t ->
  xmlrpc s w =
  Await (callback_context (url s) (methodName s) (params s) w).2
        (Request (url s) (methodName s) t)
        (on_reply s (callback_context (url s) (methodName s) (params s) w).1).
Proof.
  unfold xmlrpc. intros ->. by destruct (callback_context _ _ _ w).
Qed.

(** Parameters that do not serialise: the call throws and sends nothing. *)
Lemma xmlrpc_throws s w e :
  serialize_params (params s) w = Abrupt e -> xmlrpc s w = Ret (Thrown e) w.
Proof. unfold xmlrpc. by intros ->. Qed.

(** A call is one exchange: it sends its request and settles on the reply. *)
Lemma run_xmlrpc srv s w t :
  serialize_params (params s) w = Normal t ->
  let rq := Request (url s) (methodName s) t in
  let cw := callback_context (url s) (methodName s) (params s) w in
  run srv (xmlrpc s w) = (settle s cw.1 (srv rq) cw.2, [rq]).
Proof.
  intros Ht rq cw. rewrite (xmlrpc_await _ _ _ Ht). simpl. unfold on_reply.
  fold rq cw. by destruct (settle s cw.1 (srv rq) cw.2).
Qed.

Lemma xmlrpc_returned_world s w t :
  serialize_params (params s) w = Normal t -> w ⊑ returned_world (xmlrpc s w).
Proof.
  intros Ht. rewrite (xmlrpc_await _ _ _ Ht). simpl.
  destruct (callback_context _ _ _ w) as [c w'] eqn:E.
  by eapply callback_context_frame.
Qed.

(** Settling without callbacks. *)
Lemma settle_plain_fail u m ps f c xhr status err w :
  settle (Settings u m ps None None f) c (RFail xhr status err) w =
  (Rejected c [xhr; status; err], w).
Proof. reflexivity. Qed.

Lemma settle_plain_body u m ps f c xhr raw w :
  settle (Settings u m ps None None f) c (RBody xhr raw) w =
  match decode_body (default id f raw) w with
  | (inl v, w') => (Resolved c v, w')
  | (inr err, w') => (Rejected c [xhr; VString "parsererror"; err], w')
  end.
Proof. simpl. by destruct (decode_body _ w) as [[v|err] w']. Qed.

(** A function that builds settings and returns [$.xmlrpc(settings)] is one
    exchange: it sends the request of its settings, returns to its caller once
    the context is built, and settles as the transport settles the reply. *)
Lemma call_exchange (c : js settings) w s w0 t srv :
  evals c w s w0 ->
  serialize_params (params s) w0 = Normal t ->
  let rq := Request (url s) (methodName s) t in
  let p := sync c xmlrpc w in
  exists ctx,
    callback_context (url s) (methodName s) (params s) w0 = (ctx, returned_world p) /\
    w0 ⊑ returned_world p /\ pending p = Some rq /\
    run srv p = (settle s ctx (srv rq) (returned_world p), [rq]).
Proof.
  intros Hc Ht rq p. subst p. rewrite (sync_normal _ _ _ _ _ Hc).
  exists (callback_context (url s) (methodName s) (params s) w0).1.
  rewrite (run_xmlrpc srv _ _ _ Ht), (xmlrpc_await _ _ _ Ht). cbn [returned_world pending].
  split; [by destruct (callback_context _ _ _ w0)|]. split; [|done].
  destruct (callback_context _ _ _ w0) as [c' w'] eqn:E.
  by eapply callback_context_frame.
Qed.

(** A function whose settings throw sends nothing. *)
Lemma call_raises (c : js settings) w e w0 srv :
  raises c w e w0 -> run srv (sync c xmlrpc w) = (Thrown e, w0, []).
Proof. intros Hc. by rewrite (sync_abrupt _ _ _ _ _ Hc). Qed.

(** Neither does one whose parameters do not serialise: it throws what the
    serialisation throws, in the store its settings were built in. *)
Lemma call_throws (c : js settings) w s w0 e srv :
  evals c w s w0 -> serialize_params (params s) w0 = Abrupt e ->
  run srv (sync c xmlrpc w) = (Thrown e, w0, []).
Proof. intros Hc He. by rewrite (sync_normal _ _ _ _ _ Hc), (xmlrpc_throws _ _ _ He). Qed.

End XmlrpcLemmas.

(** ** Two transports

    [table_transport dt tbl] has [dt] registered for dates; it decodes a
    body by looking it up in [tbl] and allocating the tree found there, the
    dates read with the decoder of [dt]; a body that is not in the table does
    not parse.  Its context is jQuery's: a fresh object holding the settings of
    the call.  [bare_transport tbl] decodes the same way and applies callbacks
    to [undefined], as a Promises/A+ library does in strict mode. *)

Definition table_decode {DT : DateType} (tbl : list (string * tree)) (s : string)
    (w : world) : (value + value) * world :=
  match (list_to_map tbl : gmap string tree) !! s with
  | Some t =>
      match alloc_tree t w with
      | (Normal v, w') => (inl v, w')
      | (Abrupt _, w') => (inr VUndefined, w')
      end
  | None => (inr (VString "Invalid XML"), w)
  end.

Definition settings_members (u : value) (m : string) (ps : option value)
  : list (string * value) :=
  [("url", u); ("methodName", VString m)] ++
  match ps with Some p => [("params", p)] | None => [] end.

Definition jquery_context (u : value) (m : string) (ps : option value) (w : world)
  : value * world :=
  let l := fresh_loc (heap w) in
  (VRef l,
   set_heap (<[l := OObject (list_to_map (settings_members u m ps))]> (heap w)) w).

Definition bare_context (u : value) (m : string) (ps : option value) (w : world)
  : value * world := (VUndefined, w).

Lemma table_decode_frame {DT : DateType} tbl s w r w' :
  table_decode tbl s w = (r, w') -> w ⊑ w'.
Proof.
  unfold table_decode. destruct (_ !! s) as [t|]; [|by intros [= _ <-]].
  destruct (allocates_alloc_tree t w) as (v & w1 & -> & Hle). by intros [= _ <-].
Qed.

Lemma jquery_context_frame u m ps w c w' : jquery_context u m ps w = (c, w') -> w ⊑ w'.
Proof. intros [= _ <-]. split; [apply alloc_extends|done]. Qed.

Program Definition table_transport (dt : DateType) (tbl : list (string * tree))
  : Transport := {|
  transport_dates := dt;
  decode_body := table_decode tbl;
  callback_context := jquery_context
|}.
Next Obligation. intros dt tbl. exact (table_decode_frame tbl). Qed.
Next Obligation. intros dt tbl. exact jquery_context_frame. Qed.

#[export] Instance table_transport_jquery dt tbl : @JQueryContext (table_transport dt tbl).
Proof.
  split. intros u m ps w c w' [= <- <-]. unfold get_prop, set_heap; simpl.
  rewrite lookup_insert_eq. simpl. by destruct ps.
Qed.

Program Definition bare_transport (dt : DateType) (tbl : list (string * tree))
  : Transport := {|
  transport_dates := dt;
  decode_body := table_decode tbl;
  callback_context := bare_context
|}.
Next Obligation. intros dt tbl. exact (table_decode_frame tbl). Qed.
Next Obligation. by intros dt tbl u m ps w c w' [= _ <-]. Qed.
