(* ===== verification/ProcEquiv.v ===== *)
(** * Equivalence of processes and the laws of [then]

    Two processes are equivalent when they return control in the same store
    with the same request pending and continue equivalently on every reply:
    equality up to the way their continuations are written.  [run], the
    store a call returns in and the pending request respect it, and chaining
    with [then] obeys the laws of promises up to it. *)

From S2P Require Import Prelude JsValue XmlRpc.
From Stdlib Require Import Setoid Morphisms.

Inductive proc_equiv {A} : proc A -> proc A -> Prop :=
| pe_ret a w : proc_equiv (Ret a w) (Ret a w)
| pe_await w rq k k' :
    (forall rp w', proc_equiv (k rp w') (k' rp w')) ->
    proc_equiv (Await w rq k) (Await w rq k').

#[export] Instance proc_equiv_equiv {A} : Equiv (proc A) := proc_equiv.

#[export] Instance proc_equiv_equivalence {A} : Equivalence (≡@{proc A}).
Proof.
  unfold equiv, proc_equiv_equiv. split.
  - intros p. induction p as [a w|w rq k IH]; constructor. exact IH.
  - intros p q H. induction H as [a w|w rq k k' _ IH]; constructor. exact IH.
  - intros p q r Hpq. revert r. induction Hpq as [a w|w rq k k' _ IH]; intros r Hqr; [done|].
    inversion Hqr as [|? ? ? k'' Hk]; subst. constructor. intros rp w'. apply IH, Hk.
Qed.

(** Two asynchronous computations are equivalent when they are in every store. *)
#[export] Instance async_equiv {A} : Equiv (async A) := fun m n => forall w, m w ≡ n w.

#[export] Instance async_equiv_equivalence {A} : Equivalence (≡@{async A}).
Proof.
  split.
  - intros m w. reflexivity.
  - intros m n H w. symmetry. apply H.
  - intros m n o Hmn Hno w. etrans; [apply Hmn|apply Hno].
Qed.

(** ** What respects the equivalence *)

#[export] Instance run_proper {A} srv : Proper ((≡) ==> (=)) (@run A srv).
Proof.
  intros p q H. induction H as [a w|w rq k k' _ IH]; simpl; [done|]. by rewrite IH.
Qed.

#[export] Instance returned_world_proper {A} : Proper ((≡) ==> (=)) (@returned_world A).
Proof. by intros p q []. Qed.

#[export] Instance pending_proper {A} : Proper ((≡) ==> (=)) (@pending A).
Proof. by intros p q []. Qed.

#[export] Instance proc_bind_proper {A B} :
  Proper (pointwise_relation A (≡) ==> (≡) ==> (≡)) (@proc_bind A B).
Proof.
  intros f g Hfg p q Hpq. induction Hpq as [a w|w rq k k' _ IH]; simpl; [apply Hfg|].
  constructor. intros rp w'. apply IH.
Qed.

#[export] Instance async_bind_proper {A B} :
  Proper (pointwise_relation A (≡) ==> (≡) ==> (≡)) (@async_bind A B).
Proof. intros f g Hfg m n Hmn w. unfold async_bind. by apply proc_bind_proper. Qed.

(** ** The monad laws *)

Lemma proc_bind_ret {A} (p : proc A) : proc_bind async_ret p ≡ p.
Proof. induction p as [a w|w rq k IH]; simpl; by constructor. Qed.

Lemma proc_bind_assoc {A B C} (f : A -> async B) (g : B -> async C) (p : proc A) :
  proc_bind g (proc_bind f p) ≡ proc_bind (fun a w => proc_bind g (f a w)) p.
Proof. induction p as [a w|w rq k IH]; simpl; [done|]. by constructor. Qed.

(** ** The laws of [then] *)

Section Then.
Context {TR : Transport}.

#[export] Instance then_proper :
  Proper ((≡) ==> pointwise_relation value (pointwise_relation value (≡)) ==> (≡)) then_.
Proof.
  intros p q Hpq f g Hfg w. unfold then_, mbind, async_mbind.
  apply async_bind_proper; [|done]. intros [c v|c args|e]; [apply Hfg|done..].
Qed.

(** A promise that is already resolved runs the callback at once. *)
Lemma then_resolved c v f : then_ (mret (Resolved c v)) f ≡ f c v.
Proof. by intros w. Qed.

(** A rejection and an escaped exception pass through. *)
Lemma then_rejected c args f : then_ (mret (Rejected c args)) f ≡ mret (Rejected c args).
Proof. by intros w. Qed.

Lemma then_thrown e f : then_ (mret (Thrown e)) f ≡ mret (Thrown e).
Proof. by intros w. Qed.

(** [p.then(f).then(g)] is [p.then(function(v) { return f(v).then(g); })]. *)
Lemma then_assoc p f g :
  then_ (then_ p f) g ≡ then_ p (fun c v => then_ (f c v) g).
Proof.
  intros w. unfold then_, mbind, async_mbind, async_bind. rewrite proc_bind_assoc.
  apply proc_bind_proper; [|done]. by intros [c v|c args|e] w'.
Qed.

End Then.
