(* ===== verification/Regex.v ===== *)
(** * Regular expressions and [String.prototype.replace]

    The two string operations of src/src/bugzilla.js are calls of
    [RegExp.prototype.test] and of [String.prototype.replace] with a regular
    expression.  This file models the fragment of ECMAScript's backtracking
    matcher that their patterns use: characters, [\d], [.], sequences,
    capturing groups, and the greedy quantifiers [*], [+] and [{n}] applied
    to a single-character atom; and the replacement-string syntax
    ([$$], [$&], [$`], [$'], [$n], [$nn]).

    Strings are sequences of 8-bit code units, so the line terminators [.]
    excludes are LF and CR (U+2028 and U+2029 are not representable).  The
    patterns are not global: [replace] rewrites the first match only. *)

From S2P Require Import Prelude.

Local Open Scope string_scope.

(** ** Syntax *)

Inductive cclass : Type :=
| CChar (c : ascii)      (* a literal character *)
| CDigit                 (* \d *)
| CDot.                  (* . *)

Inductive regex : Type :=
| REmpty
| RAtom (c : cclass)
| RSeq (r1 r2 : regex)
| RGroup (r : regex)             (* ( r ), capturing *)
| RStar (c : cclass)             (* c*  *)
| RPlus (c : cclass)             (* c+  *)
| RCount (n : nat) (c : cclass). (* c{n} *)

#[export] Instance cclass_eq_dec : EqDecision cclass.
Proof. solve_decision. Defined.

#[export] Instance regex_eq_dec : EqDecision regex.
Proof. solve_decision. Defined.

(** The pattern that matches the characters of [s] in sequence. *)
Fixpoint lit (s : string) : regex :=
  match s with
  | EmptyString => REmpty
  | String c EmptyString => RAtom (CChar c)
  | String c s' => RSeq (RAtom (CChar c)) (lit s')
  end.

(** ** Character classes *)

Definition is_line_terminator (c : ascii) : bool :=
  Ascii.eqb c "010" || Ascii.eqb c "013".

Definition is_digit (c : ascii) : bool :=
  let n := N_of_ascii c in ((48 <=? n) && (n <=? 57))%N.

Definition cmatch (cl : cclass) (c : ascii) : bool :=
  match cl with
  | CChar a => Ascii.eqb a c
  | CDigit => is_digit c
  | CDot => negb (is_line_terminator c)
  end.

(** ** The matcher

    A match state is the position reached in the input, the input that is
    left, and the captures so far.  [rmatch r x k] matches [r] from state [x]
    and hands each way of doing so to the continuation [k], in the order of
    priority; the first one [k] accepts is the result. *)

Record mstate : Type := MState {
  ms_pos : nat;
  ms_rest : string;
  ms_caps : list (option string)
}.

Definition cont : Type := mstate -> option mstate.

(** Greedy [c*] from input [s] at position [i]: the longest run first. *)
Fixpoint star (c : cclass) (s : string) (i : nat) (caps : list (option string))
    (k : cont) : option mstate :=
  match s with
  | String a s' =>
      if cmatch c a then
        match star c s' (S i) caps k with
        | Some y => Some y
        | None => k (MState i s caps)
        end
      else k (MState i s caps)
  | EmptyString => k (MState i s caps)
  end.

(** [c{n}]: exactly [n] characters of the class. *)
Fixpoint count (n : nat) (c : cclass) (s : string) (i : nat)
    (caps : list (option string)) (k : cont) : option mstate :=
  match n with
  | O => k (MState i s caps)
  | S n' =>
      match s with
      | String a s' => if cmatch c a then count n' c s' (S i) caps k else None
      | EmptyString => None
      end
  end.

Fixpoint rmatch (r : regex) (x : mstate) (k : cont) : option mstate :=
  match r with
  | REmpty => k x
  | RAtom c =>
      match ms_rest x with
      | String a s' =>
          if cmatch c a then k (MState (S (ms_pos x)) s' (ms_caps x)) else None
      | EmptyString => None
      end
  | RSeq r1 r2 => rmatch r1 x (fun y => rmatch r2 y k)
  | RGroup r1 =>
      let n := length (ms_caps x) in
      rmatch r1 (MState (ms_pos x) (ms_rest x) (ms_caps x ++ [None]))
        (fun y =>
           let text := substring 0 (ms_pos y - ms_pos x) (ms_rest x) in
           k (MState (ms_pos y) (ms_rest y) (<[n := Some text]> (ms_caps y))))
  | RStar c => star c (ms_rest x) (ms_pos x) (ms_caps x) k
  | RPlus c =>
      match ms_rest x with
      | String a s' =>
          if cmatch c a then star c s' (S (ms_pos x)) (ms_caps x) k else None
      | EmptyString => None
      end
  | RCount n c => count n c (ms_rest x) (ms_pos x) (ms_caps x) k
  end.

(** ** [exec], [test] and [replace] *)

(** The leftmost match: every start position is tried in turn, from [i] on. *)
Fixpoint scan (r : regex) (s : string) (i : nat) : option (nat * mstate) :=
  match rmatch r (MState i s []) Some with
  | Some y => Some (i, y)
  | None =>
      match s with
      | String _ s' => scan r s' (S i)
      | EmptyString => None
      end
  end.

(** [r.exec(input)]: where the match starts and the state at its end. *)
Definition exec (r : regex) (input : string) : option (nat * mstate) :=
  scan r input 0.

(** [r.test(input)] *)
Definition test (r : regex) (input : string) : bool :=
  bool_decide (is_Some (exec r input)).

(** What a replacement string may refer to. *)
Record subst_env : Type := SubstEnv {
  se_before : string;
  se_matched : string;
  se_after : string;
  se_caps : list (option string)
}.

Definition digit_value (c : ascii) : nat := N.to_nat (N_of_ascii c - 48).

(** The text of capture [n] (from 1): empty when the group did not take part. *)
Definition capture (e : subst_env) (n : nat) : option string :=
  if decide (1 <= n <= length (se_caps e))
  then Some (default "" (mjoin (se_caps e !! (n - 1))))
  else None.

(** GetSubstitution (ECMAScript 21.1.3.14.1): [$nn] is tried before [$n], and
    a reference to a group that does not exist is kept as it is written. *)
Fixpoint expand (t : string) (e : subst_env) : string :=
  match t with
  | EmptyString => EmptyString
  | String "$" (String c t1 as u) =>
      if Ascii.eqb c "$" then String "$" (expand t1 e)
      else if Ascii.eqb c "&" then se_matched e ++ expand t1 e
      else if Ascii.eqb c "`" then se_before e ++ expand t1 e
      else if Ascii.eqb c "'" then se_after e ++ expand t1 e
      else if is_digit c then
        let two := match t1 with
                   | String d t2 =>
                       if is_digit d then
                         match capture e (10 * digit_value c + digit_value d) with
                         | Some x => Some (x ++ expand t2 e)
                         | None => None
                         end
                       else None
                   | EmptyString => None
                   end in
        match two with
        | Some x => x
        | None =>
            match capture e (digit_value c) with
            | Some x => x ++ expand t1 e
            | None => String "$" (expand u e)
            end
        end
      else String "$" (expand u e)
  | String a t1 => String a (expand t1 e)
  end.

(** [input.replace(r, repl)] for a pattern without the global flag. *)
Definition replace (r : regex) (repl : string) (input : string) : string :=
  match exec r input with
  | None => input
  | Some (i, y) =>
      let e := SubstEnv (substring 0 i input)
                        (substring i (ms_pos y - i) input)
                        (ms_rest y) (ms_caps y) in
      se_before e ++ expand repl e ++ se_after e
  end.

(** ** Reference semantics: the ways to match, in order of priority

    [ends r x] lists the states in which a match of [r] from [x] can end, the
    one the backtracking matcher tries first at the head.  The matcher in
    continuation-passing style is the search for the first of them that the
    continuation accepts ([rmatch_ends]). *)

Fixpoint first_some {A B} (k : A -> option B) (l : list A) : option B :=
  match l with
  | [] => None
  | x :: l' => match k x with Some y => Some y | None => first_some k l' end
  end.

Fixpoint star_ends (c : cclass) (s : string) (i : nat) (caps : list (option string))
    : list mstate :=
  match s with
  | String a s' =>
      if cmatch c a then (star_ends c s' (S i) caps ++ [MState i s caps])%list
      else [MState i s caps]
  | EmptyString => [MState i s caps]
  end.

Fixpoint count_ends (n : nat) (c : cclass) (s : string) (i : nat)
    (caps : list (option string)) : list mstate :=
  match n with
  | O => [MState i s caps]
  | S n' =>
      match s with
      | String a s' => if cmatch c a then count_ends n' c s' (S i) caps else []
      | EmptyString => []
      end
  end.

(** Entering and leaving a capturing group. *)
Definition open_group (x : mstate) : mstate :=
  MState (ms_pos x) (ms_rest x) (ms_caps x ++ [None])%list.

Definition close_group (x y : mstate) : mstate :=
  MState (ms_pos y) (ms_rest y)
         (<[length (ms_caps x) := Some (substring 0 (ms_pos y - ms_pos x) (ms_rest x))]>
            (ms_caps y)).

Fixpoint ends (r : regex) (x : mstate) : list mstate :=
  match r with
  | REmpty => [x]
  | RAtom c =>
      match ms_rest x with
      | String a s' => if cmatch c a then [MState (S (ms_pos x)) s' (ms_caps x)] else []
      | EmptyString => []
      end
  | RSeq r1 r2 => ends r1 x ≫= ends r2
  | RGroup r1 => close_group x <$> ends r1 (open_group x)
  | RStar c => star_ends c (ms_rest x) (ms_pos x) (ms_caps x)
  | RPlus c =>
      match ms_rest x with
      | String a s' => if cmatch c a then star_ends c s' (S (ms_pos x)) (ms_caps x) else []
      | EmptyString => []
      end
  | RCount n c => count_ends n c (ms_rest x) (ms_pos x) (ms_caps x)
  end.

Section FirstSome.
Context {A B C : Type}.
Implicit Types (k : B -> option C) (l : list B).

Lemma first_some_app k l1 l2 :
  first_some k (l1 ++ l2)%list =
  match first_some k l1 with Some y => Some y | None => first_some k l2 end.
Proof. induction l1 as [|x l1 IH]; simpl; [done|]. by destruct (k x). Qed.

Lemma first_some_bind (f : A -> list B) k (l : list A) :
  first_some k (l ≫= f) = first_some (fun x => first_some k (f x)) l.
Proof.
  induction l as [|x l IH]; [done|]. cbn [mbind list_bind first_some].
  rewrite first_some_app, <- IH. by destruct (first_some k (f x)).
Qed.

Lemma first_some_fmap (f : A -> B) k (l : list A) :
  first_some k (f <$> l) = first_some (fun x => k (f x)) l.
Proof. induction l as [|x l IH]; csimpl; [done|]. by rewrite IH. Qed.

Lemma first_some_ext k k' l :
  (forall x, k x = k' x) -> first_some k l = first_some k' l.
Proof. intros Hk. induction l as [|x l IH]; simpl; [done|]. by rewrite Hk, IH. Qed.

Lemma first_some_elem k l z :
  first_some k l = Some z -> exists y, y ∈ l /\ k y = Some z.
Proof.
  induction l as [|x l IH]; simpl; [done|]. destruct (k x) as [y|] eqn:Hx.
  - intros [= <-]. exists x. split; [left|done].
  - intros (y & Hy & Hk)%IH. exists y. split; [by right|done].
Qed.

End FirstSome.

Lemma first_some_Some {A} (l : list A) : first_some Some l = head l.
Proof. by destruct l. Qed.

Lemma star_first_some c s i caps k :
  star c s i caps k = first_some k (star_ends c s i caps).
Proof.
  revert i. induction s as [|a s IH]; intros i; simpl; [by destruct (k _)|].
  destruct (cmatch c a); simpl; [|by destruct (k _)].
  rewrite first_some_app, IH. simpl. by destruct (k (MState i (String a s) caps)).
Qed.

Lemma count_first_some n c s i caps k :
  count n c s i caps k = first_some k (count_ends n c s i caps).
Proof.
  revert s i. induction n as [|n IH]; intros s i; simpl; [by destruct (k _)|].
  destruct s as [|a s]; [done|]. by destruct (cmatch c a).
Qed.

(** The matcher finds the first way to match that the continuation accepts. *)
Lemma rmatch_ends r x k : rmatch r x k = first_some k (ends r x).
Proof.
  revert x k. induction r as [|c|r1 IH1 r2 IH2|r IH|c|c|n c]; intros x k;
    cbn [rmatch ends].
  - simpl. by destruct (k x).
  - destruct (ms_rest x) as [|a s]; [done|]. destruct (cmatch c a); simpl; [|done].
    by destruct (k _).
  - rewrite IH1, first_some_bind. by apply first_some_ext.
  - by rewrite IH, first_some_fmap.
  - apply star_first_some.
  - destruct (ms_rest x) as [|a s]; [done|]. destruct (cmatch c a); [|done].
    apply star_first_some.
  - apply count_first_some.
Qed.

Lemma rmatch_head r x : rmatch r x Some = head (ends r x).
Proof. by rewrite rmatch_ends, first_some_Some. Qed.

(** ** Positions

    A match consumes a stretch of the input: the state at its end holds the
    input that is left and the position it starts at. *)

Definition reaches (x y : mstate) : Prop :=
  exists m, ms_rest x = m ++ ms_rest y /\ ms_pos y = ms_pos x + String.length m.

Lemma reaches_refl x : reaches x x.
Proof. exists "". split; [done|]. simpl. lia. Qed.

Lemma reaches_trans x y z : reaches x y -> reaches y z -> reaches x z.
Proof.
  intros (m & Hm & Hp) (n & Hn & Hq). exists (m ++ n). split.
  - by rewrite Hm, Hn, string_app_assoc.
  - rewrite string_length_app. lia.
Qed.

Lemma reaches_step a s i caps y :
  reaches (MState (S i) s caps) y -> reaches (MState i (String a s) caps) y.
Proof.
  intros (m & Hm & Hp). exists (String a m). simpl in *. split; [by rewrite Hm|lia].
Qed.

Lemma star_ends_reaches c s i caps y :
  y ∈ star_ends c s i caps -> reaches (MState i s caps) y.
Proof.
  revert i. induction s as [|a s IH]; intros i; simpl.
  - intros ->%list_elem_of_singleton. apply reaches_refl.
  - destruct (cmatch c a).
    + intros [H| ->%list_elem_of_singleton]%elem_of_app; [|apply reaches_refl].
      by apply reaches_step, IH.
    + intros ->%list_elem_of_singleton. apply reaches_refl.
Qed.

Lemma count_ends_reaches n c s i caps y :
  y ∈ count_ends n c s i caps -> reaches (MState i s caps) y.
Proof.
  revert s i. induction n as [|n IH]; intros s i; simpl.
  - intros ->%list_elem_of_singleton. apply reaches_refl.
  - destruct s as [|a s]; [by intros ?%elem_of_nil|].
    destruct (cmatch c a); [|by intros ?%elem_of_nil].
    intros H. by apply reaches_step, IH.
Qed.

(** Every way to match [r] from [x] ends further on in the same input. *)
Lemma ends_reaches r x y : y ∈ ends r x -> reaches x y.
Proof.
  revert x y. induction r as [|c|r1 IH1 r2 IH2|r IH|c|c|n c]; intros x y;
    cbn [ends].
  - intros ->%list_elem_of_singleton. apply reaches_refl.
  - destruct x as [i [|a s] caps]; simpl; [by intros ?%elem_of_nil|].
    destruct (cmatch c a); [|by intros ?%elem_of_nil].
    intros ->%list_elem_of_singleton. apply reaches_step, reaches_refl.
  - intros (z & Hy & Hz)%list_elem_of_bind. eapply reaches_trans; eauto.
  - intros (z & -> & Hz)%list_elem_of_fmap. apply IH in Hz.
    destruct Hz as (m & Hm & Hp). by exists m.
  - destruct x as [i s caps]. apply star_ends_reaches.
  - destruct x as [i [|a s] caps]; simpl; [by intros ?%elem_of_nil|].
    destruct (cmatch c a); [|by intros ?%elem_of_nil].
    intros H. by eapply reaches_step, star_ends_reaches.
  - destruct x as [i s caps]. apply count_ends_reaches.
Qed.

Lemma rmatch_reaches r x y : rmatch r x Some = Some y -> reaches x y.
Proof.
  rewrite rmatch_head. intros H. apply (ends_reaches r).
  destruct (ends r x); simplify_eq/=. left.
Qed.

(** A match found at the start position [i] of the scan. *)
Lemma scan_here r s i y :
  rmatch r (MState i s []) Some = Some y ->
  exists pre m,
    s = pre ++ m ++ ms_rest y /\ i = i + String.length pre /\
    ms_pos y = i + String.length m /\
    forall p q, pre = p ++ q -> q <> "" ->
      rmatch r (MState (i + String.length p) (q ++ m ++ ms_rest y) []) Some = None.
Proof.
  intros (m & Hm & Hp)%rmatch_reaches. exists "", m. simpl in *.
  split; [done|]. split; [lia|]. split; [done|].
  intros [|??] [|??]; rewrite ?string_app_cons; done.
Qed.

(** [scan] returns the first start position at which the pattern matches:
    the input is what precedes the match, the match, and the rest. *)
Lemma scan_spec r s i j y :
  scan r s i = Some (j, y) ->
  exists pre m,
    s = pre ++ m ++ ms_rest y /\ j = i + String.length pre /\
    ms_pos y = j + String.length m /\
    forall p q, pre = p ++ q -> q <> "" ->
      rmatch r (MState (i + String.length p) (q ++ m ++ ms_rest y) []) Some = None.
Proof.
  revert i. induction s as [|a s IH]; intros i; cbn [scan];
    destruct (rmatch r (MState i _ []) Some) as [z|] eqn:Hz; try done;
    try (intros [= <- <-]; by apply scan_here).
  intros (pre & m & -> & -> & Hp & Hmin)%IH.
  exists (String a pre), m. rewrite string_app_cons. simpl.
  split; [done|]. split; [lia|]. split; [done|]. intros [|b p] q.
  - rewrite string_app_nil_l. intros <- _. simpl.
    by rewrite Nat.add_0_r, string_app_cons.
  - rewrite string_app_cons. intros [= <- ->] Hq. simpl.
    rewrite <- Nat.add_succ_comm. by apply Hmin.
Qed.

Lemma scan_None r s i :
  scan r s i = None ->
  forall p q, s = p ++ q -> rmatch r (MState (i + String.length p) q []) Some = None.
Proof.
  revert i. induction s as [|a s IH]; intros i; cbn [scan];
    destruct (rmatch r (MState i _ []) Some) as [z|] eqn:Hz; try done;
    intros H [|b p] q; rewrite ?string_app_nil_l, ?string_app_cons; try done;
    try (intros <-; simpl; by rewrite Nat.add_0_r).
  intros [= <- ->]. simpl. rewrite <- Nat.add_succ_comm. by apply (IH _ H).
Qed.

Lemma exec_spec r input i y :
  exec r input = Some (i, y) ->
  exists pre m,
    input = pre ++ m ++ ms_rest y /\ i = String.length pre /\
    ms_pos y = i + String.length m /\
    forall p q, pre = p ++ q -> q <> "" ->
      rmatch r (MState (String.length p) (q ++ m ++ ms_rest y) []) Some = None.
Proof.
  intros (pre & m & H)%scan_spec. exists pre, m. by rewrite !Nat.add_0_l in H.
Qed.

(** [replace] leaves the input unchanged when the pattern matches nowhere;
    otherwise it keeps what is before and after the leftmost match and puts
    the expanded replacement in its place. *)
Lemma replace_spec r repl input :
  match exec r input with
  | None => replace r repl input = input
  | Some (i, y) =>
      exists pre m,
        input = pre ++ m ++ ms_rest y /\ String.length pre = i /\
        replace r repl input =
          pre ++ expand repl (SubstEnv pre m (ms_rest y) (ms_caps y)) ++ ms_rest y
  end.
Proof.
  unfold replace. destruct (exec r input) as [[i y]|] eqn:He; [|done].
  destruct (exec_spec _ _ _ _ He) as (pre & m & -> & -> & Hp & _).
  exists pre, m. split; [done|]. split; [done|]. cbn [se_before se_after].
  rewrite substring_0_app, substring_skip_app, Hp.
  replace (String.length pre + String.length m - String.length pre)
    with (String.length m) by lia.
  by rewrite substring_0_app.
Qed.

Lemma test_true r input : test r input = true <-> is_Some (exec r input).
Proof. unfold test. by rewrite bool_decide_eq_true. Qed.

Lemma test_false r input : test r input = false <-> exec r input = None.
Proof. unfold test. by rewrite bool_decide_eq_false, eq_None_not_Some. Qed.

(** ** Literal prefixes and greedy runs

    The two patterns of the source start with literal text or fixed-width
    classes and end with a greedy run; for these the matcher has a closed
    form in terms of three string functions. *)

(** What is left of [s] after the prefix [p], when [s] starts with [p]. *)
Fixpoint strip_prefix (p s : string) : option string :=
  match p, s with
  | EmptyString, _ => Some s
  | String a p', String b s' => if Ascii.eqb a b then strip_prefix p' s' else None
  | String _ _, EmptyString => None
  end.

(** The longest prefix of [s] made of characters of the class, and the rest. *)
Fixpoint span (c : cclass) (s : string) : string * string :=
  match s with
  | String a s' =>
      if cmatch c a then let '(h, t) := span c s' in (String a h, t) else ("", s)
  | EmptyString => ("", "")
  end.

(** The first occurrence of [p] in [s]: what precedes it and what follows. *)
Fixpoint find_first (p s : string) : option (string * string) :=
  match strip_prefix p s with
  | Some s' => Some ("", s')
  | None =>
      match s with
      | String a s1 => prod_map (String a) id <$> find_first p s1
      | EmptyString => None
      end
  end.

Lemma strip_prefix_Some p s s' : strip_prefix p s = Some s' <-> s = p ++ s'.
Proof.
  revert s. induction p as [|a p IH]; intros s; simpl.
  - rewrite string_app_nil_l. split; congruence.
  - rewrite string_app_cons. destruct s as [|b s]; [done|].
    destruct (Ascii.eqb_spec a b) as [->|Hab]; [|split; congruence].
    rewrite IH. split; congruence.
Qed.

Lemma strip_prefix_app p s : strip_prefix p (p ++ s) = Some s.
Proof. by apply strip_prefix_Some. Qed.

Lemma span_app c s : s = (span c s).1 ++ (span c s).2.
Proof.
  induction s as [|a s IH]; simpl; [done|]. destruct (cmatch c a); [|done].
  destruct (span c s) as [h t]. simpl in *. by rewrite string_app_cons, <- IH.
Qed.

(** The rest of a run is empty or starts outside the class. *)
Lemma span_rest c s :
  match (span c s).2 with
  | String a _ => cmatch c a = false
  | EmptyString => True
  end.
Proof.
  induction s as [|a s IH]; simpl; [done|]. destruct (cmatch c a) eqn:Ha; simpl.
  - by destruct (span c s) as [h t].
  - done.
Qed.

Lemma span_stops c s :
  match s with String a _ => cmatch c a = false | EmptyString => True end ->
  span c s = ("", s).
Proof. destruct s as [|a s]; simpl; [done|]. by intros ->. Qed.

(** A run followed by the rest of another run: the run goes through. *)
Lemma span_run c h s :
  (span c h).2 = "" -> span c (h ++ s) = (h ++ (span c s).1, (span c s).2).
Proof.
  induction h as [|a h IH]; simpl.
  - intros _. rewrite !string_app_nil_l. by destruct (span c s).
  - rewrite string_app_cons. simpl. destruct (cmatch c a); [|done].
    destruct (span c h) as [h1 t1] eqn:Hh. simpl. intros ->.
    by rewrite IH.
Qed.

Lemma ends_lit p x :
  ends (lit p) x =
  match strip_prefix p (ms_rest x) with
  | Some s' => [MState (ms_pos x + String.length p) s' (ms_caps x)]
  | None => []
  end.
Proof.
  revert x. induction p as [|a p IH]; intros [i s caps].
  { simpl. by rewrite Nat.add_0_r. }
  assert (Hone : ends (RSeq (RAtom (CChar a)) (lit p)) (MState i s caps) =
                 match strip_prefix (String a p) s with
                 | Some s' => [MState (i + String.length (String a p)) s' caps]
                 | None => []
                 end).
  { cbn [ends ms_rest ms_pos ms_caps cmatch strip_prefix]. destruct s as [|b s]; [done|].
    destruct (Ascii.eqb a b); csimpl; [|done]. rewrite IH. simpl.
    rewrite app_nil_r. destruct (strip_prefix p s); [|done].
    by rewrite Nat.add_succ_r. }
  destruct p as [|a' p]; [|exact Hone]. clear Hone IH. simpl.
  destruct s as [|b s]; [done|]. destruct (Ascii.eqb a b); [|done].
  by rewrite Nat.add_1_r.
Qed.

Lemma star_ends_head c s i caps :
  head (star_ends c s i caps) =
  Some (MState (i + String.length (span c s).1) (span c s).2 caps).
Proof.
  revert i. induction s as [|a s IH]; intros i; simpl.
  - by rewrite Nat.add_0_r.
  - destruct (cmatch c a); simpl; [|by rewrite Nat.add_0_r].
    specialize (IH (S i)). destruct (star_ends c s (S i) caps) as [|y l]; [done|].
    simpl in *. rewrite IH. destruct (span c s) as [h t]. simpl.
    do 2 f_equal. lia.
Qed.

(** Literal text followed by a greedy run, matched at a given position. *)
Lemma rmatch_lit_star p c i s :
  rmatch (RSeq (lit p) (RStar c)) (MState i s []) Some =
  match strip_prefix p s with
  | Some s' =>
      Some (MState (i + String.length p + String.length (span c s').1) (span c s').2 [])
  | None => None
  end.
Proof.
  rewrite rmatch_head. cbn [ends]. rewrite ends_lit. cbn [ms_rest ms_pos ms_caps].
  destruct (strip_prefix p s) as [s'|]; csimpl; [|done].
  rewrite app_nil_r. apply star_ends_head.
Qed.

(** The leftmost match of literal text followed by a greedy run. *)
Lemma scan_lit_star p c s i :
  scan (RSeq (lit p) (RStar c)) s i =
  match find_first p s with
  | Some (pre, s') =>
      Some (i + String.length pre,
            MState (i + String.length pre + String.length p + String.length (span c s').1)
                   (span c s').2 [])
  | None => None
  end.
Proof.
  revert i. induction s as [|a s IH]; intros i; cbn [scan find_first];
    rewrite rmatch_lit_star; destruct (strip_prefix p _) as [s'|]; simpl;
    rewrite ?Nat.add_0_r; try done.
  rewrite IH. destruct (find_first p s) as [[pre s']|]; simpl; [|done].
  by rewrite !Nat.add_succ_r.
Qed.

Lemma find_first_Some p s pre rest :
  find_first p s = Some (pre, rest) -> s = pre ++ p ++ rest.
Proof.
  revert pre. induction s as [|a s IH]; intros pre; cbn [find_first];
    destruct (strip_prefix p _) as [s'|] eqn:Hs; try done;
    try (intros [= <- <-]; by apply strip_prefix_Some in Hs).
  destruct (find_first p s) as [[pre' rest']|]; [|done]. simpl.
  intros [= <- <-]. by rewrite string_app_cons, <- IH.
Qed.

(** No occurrence of [p] starts inside [pre] when [pre ++ p ++ rest] is read
    from the left. *)
Definition first_at (p pre rest : string) : Prop :=
  forall q1 q2, pre = q1 ++ q2 -> q2 <> "" -> strip_prefix p (q2 ++ p ++ rest) = None.

Lemma find_first_at p pre rest :
  first_at p pre rest -> find_first p (pre ++ p ++ rest) = Some (pre, rest).
Proof.
  induction pre as [|a pre IH]; intros Hf.
  - rewrite string_app_nil_l. destruct (p ++ rest) eqn:E; cbn [find_first];
      rewrite <- E, strip_prefix_app; done.
  - rewrite string_app_cons. cbn [find_first]. rewrite <- string_app_cons.
    rewrite (Hf "" (String a pre)) by done. rewrite IH; [done|].
    intros q1 q2 -> Hq. by apply (Hf (String a q1) q2).
Qed.

Lemma find_first_None p s :
  find_first p s = None -> forall pre rest, s <> pre ++ p ++ rest.
Proof.
  induction s as [|a s IH]; cbn [find_first];
    destruct (strip_prefix p _) as [s'|] eqn:Hs; try done; intros Hn pre rest E.
  - destruct pre; [|done]. rewrite string_app_nil_l in E.
    by rewrite E, strip_prefix_app in Hs.
  - destruct pre as [|b pre].
    + rewrite string_app_nil_l in E. by rewrite E, strip_prefix_app in Hs.
    + rewrite string_app_cons in E. injection E as <- E.
      destruct (find_first p s); [done|]. by eapply IH.
Qed.

(** Whether [s] starts with [p] is decided by the first [length p]
    characters of [s]. *)
Lemma strip_prefix_app_long p q r :
  String.length p <= String.length q ->
  strip_prefix p (q ++ r) = (fun s => s ++ r) <$> strip_prefix p q.
Proof.
  revert q. induction p as [|a p IH]; intros q; [done|].
  destruct q as [|b q]; simpl; [lia|]. intros Hl.
  destruct (Ascii.eqb a b); [|done]. apply IH. lia.
Qed.

Lemma first_at_rest p pre rest rest' : first_at p pre rest -> first_at p pre rest'.
Proof.
  intros Hf q1 q2 Hpre Hq. specialize (Hf q1 q2 Hpre Hq).
  rewrite <- string_app_assoc in *.
  assert (String.length p <= String.length (q2 ++ p)).
  { rewrite string_length_app. lia. }
  rewrite strip_prefix_app_long in * by done.
  by destruct (strip_prefix p (q2 ++ p)).
Qed.

Lemma find_first_first_at p s pre rest :
  find_first p s = Some (pre, rest) -> first_at p pre rest.
Proof.
  revert pre. induction s as [|a s IH]; intros pre; cbn [find_first];
    destruct (strip_prefix p _) as [s'|] eqn:Hs; try done;
    try (intros [= <- <-] [|??] [|??]; by rewrite ?string_app_cons).
  destruct (find_first p s) as [[pre' rest']|] eqn:Hf; [|done]. simpl.
  intros [= <- <-] [|b q1] q2.
  - rewrite string_app_nil_l. intros <- _.
    by rewrite string_app_cons, <- (find_first_Some _ _ _ _ Hf).
  - rewrite string_app_cons. intros [= <- ->]. by apply (IH _ eq_refl q1 q2).
Qed.

(** ** Single characters and fixed-width digit fields *)

(** [c] occurs in [s]. *)
Fixpoint contains (c : ascii) (s : string) : bool :=
  match s with
  | String a s' => Ascii.eqb c a || contains c s'
  | EmptyString => false
  end.

(** [s] is exactly [k] digits. *)
Fixpoint is_digits (k : nat) (s : string) : bool :=
  match k, s with
  | O, EmptyString => true
  | S k', String a s' => is_digit a && is_digits k' s'
  | _, _ => false
  end.

Lemma contains_app c s t : contains c (s ++ t) = contains c s || contains c t.
Proof.
  induction s as [|a s IH]; [done|]. rewrite string_app_cons. simpl.
  by rewrite IH, orb_assoc.
Qed.

Lemma scan_char c s i :
  is_Some (scan (RAtom (CChar c)) s i) <-> contains c s = true.
Proof.
  revert i. induction s as [|a s IH]; intros i; simpl.
  - split; [by intros [? ?]|done].
  - destruct (Ascii.eqb c a); simpl; [by split|apply IH].
Qed.

(** [/c/.test(s)] says whether [c] occurs in [s]. *)
Lemma test_char c s : test (RAtom (CChar c)) s = contains c s.
Proof.
  unfold test, exec. destruct (contains c s) eqn:E.
  - apply bool_decide_eq_true, scan_char, E.
  - apply bool_decide_eq_false. rewrite scan_char, E. done.
Qed.

(** A continuation that accepts everything gets the first way to match. *)
Lemma first_some_total {A B} (k : A -> option B) x l :
  is_Some (k x) -> first_some k (x :: l) = k x.
Proof. intros [y Hy]. simpl. by rewrite Hy. Qed.

Lemma star_total c s i caps k :
  (forall y, is_Some (k y)) ->
  star c s i caps k = k (MState (i + String.length (span c s).1) (span c s).2 caps).
Proof.
  intros Hk. rewrite star_first_some. pose proof (star_ends_head c s i caps) as H.
  destruct (star_ends c s i caps) as [|y l]; [done|]. injection H as ->.
  by apply first_some_total.
Qed.

Lemma count_digits k s r i caps kont :
  is_digits k s = true ->
  count k CDigit (s ++ r) i caps kont = kont (MState (i + k)%nat r caps).
Proof.
  revert s i. induction k as [|k IH]; intros [|a s] i; simpl; try done.
  - intros _. by rewrite Nat.add_0_r.
  - intros [-> Hs]%andb_true_iff. rewrite IH by done. by rewrite Nat.add_succ_r.
Qed.

Lemma is_digits_length k s : is_digits k s = true -> String.length s = k.
Proof.
  revert s. induction k as [|k IH]; intros [|a s]; simpl; try done.
  intros [_ Hs]%andb_true_iff. by rewrite (IH s).
Qed.

Lemma is_digits_no_char k s c : is_digit c = false -> is_digits k s = true -> contains c s = false.
Proof.
  intros Hc. revert s. induction k as [|k IH]; intros [|a s]; simpl; try done.
  intros [Ha Hs]%andb_true_iff. rewrite (IH s Hs), orb_false_r.
  destruct (Ascii.eqb_spec c a) as [->|]; [congruence|done].
Qed.

Lemma rmatch_seq r1 r2 x k :
  rmatch (RSeq r1 r2) x k = rmatch r1 x (fun y => rmatch r2 y k).
Proof. done. Qed.

(** A match at the start position ends the scan. *)
Lemma scan_hit r s i y :
  rmatch r (MState i s []) Some = Some y -> scan r s i = Some (i, y).
Proof. intros H. destruct s; simpl; by rewrite H. Qed.

Lemma substring_0_0 s : substring 0 0 s = "".
Proof. by destruct s. Qed.

(** ** The least a pattern consumes *)

Fixpoint min_len (r : regex) : nat :=
  match r with
  | REmpty => 0
  | RAtom _ => 1
  | RSeq r1 r2 => min_len r1 + min_len r2
  | RGroup r1 => min_len r1
  | RStar _ => 0
  | RPlus _ => 1
  | RCount n _ => n
  end.

Lemma star_ends_pos c s i caps y : y ∈ star_ends c s i caps -> i <= ms_pos y.
Proof.
  revert i. induction s as [|a s IH]; intros i; simpl.
  - by intros ->%list_elem_of_singleton.
  - destruct (cmatch c a).
    + intros [H%IH| ->%list_elem_of_singleton]%elem_of_app; simpl; lia.
    + by intros ->%list_elem_of_singleton.
Qed.

Lemma count_ends_pos n c s i caps y : y ∈ count_ends n c s i caps -> i + n <= ms_pos y.
Proof.
  revert s i. induction n as [|n IH]; intros s i; simpl.
  - intros ->%list_elem_of_singleton. simpl. lia.
  - destruct s as [|a s]; [by intros ?%elem_of_nil|].
    destruct (cmatch c a); [|by intros ?%elem_of_nil]. intros H%IH. lia.
Qed.

Lemma ends_min_len r x y : y ∈ ends r x -> ms_pos x + min_len r <= ms_pos y.
Proof.
  revert x y. induction r as [|c|r1 IH1 r2 IH2|r IH|c|c|n c]; intros x y;
    cbn [ends min_len].
  - intros ->%list_elem_of_singleton. lia.
  - destruct (ms_rest x) as [|a s]; [by intros ?%elem_of_nil|].
    destruct (cmatch c a); [|by intros ?%elem_of_nil].
    intros ->%list_elem_of_singleton. simpl. lia.
  - intros (z & Hy%IH2 & Hz%IH1)%list_elem_of_bind. lia.
  - intros (z & -> & Hz%IH)%list_elem_of_fmap. simpl in *. lia.
  - intros H%star_ends_pos. lia.
  - destruct (ms_rest x) as [|a s]; [by intros ?%elem_of_nil|].
    destruct (cmatch c a); [|by intros ?%elem_of_nil].
    intros H%star_ends_pos. lia.
  - intros H%count_ends_pos. lia.
Qed.

Lemma rmatch_short r x :
  String.length (ms_rest x) < min_len r -> rmatch r x Some = None.
Proof.
  intros Hlen. rewrite rmatch_head. destruct (ends r x) as [|y l] eqn:E; [done|].
  assert (Hy : y ∈ ends r x) by (rewrite E; left).
  pose proof (ends_min_len _ _ _ Hy). destruct (ends_reaches _ _ _ Hy) as (m & Hm & Hp).
  rewrite Hm, string_length_app in Hlen. lia.
Qed.

Lemma scan_short r s i : String.length s < min_len r -> scan r s i = None.
Proof.
  revert i. induction s as [|a s IH]; intros i Hlen; cbn [scan];
    rewrite rmatch_short by done; [done|]. apply IH. simpl in Hlen. lia.
Qed.

(** A text shorter than the least the pattern consumes is left as it is. *)
Lemma replace_short r repl s : String.length s < min_len r -> replace r repl s = s.
Proof. intros H. unfold replace, exec. by rewrite scan_short. Qed.
