(* ===== verification/JsDate.v ===== *)
(** * ECMAScript time values and the Date Time String Format

    The date codec of src/src/bugzilla.js calls the UTC getters of [Date] and
    the constructor [new Date(text)].  This file models what they compute, as
    ECMAScript defines it (Date objects, "Time Values and Time Range" to
    "Date Time String Format"): a date is a time value, an integral number of
    milliseconds since 1970-01-01T00:00:00Z, or NaN; the calendar is the
    proleptic Gregorian one, without leap seconds.

    [YearFromTime] is specified as the largest year that starts at or before
    the time; [YearFromDay] computes it from an estimate over the 400-year
    cycle and is proved to meet that specification ([YearFromDay_spec],
    [YearFromDay_unique]).

    [Date.parse] is determined by the language for strings in the Date Time
    String Format only; for any other string an implementation may apply
    heuristics of its own.  The model takes those heuristics, and the local
    time zone, as parameters ([fallback], [UTC]). *)

From S2P Require Import Prelude Regex.

Local Open Scope Z_scope.

(** ** Days and years *)

Definition msPerDay : Z := 86400000.
Definition msPerHour : Z := 3600000.
Definition msPerMinute : Z := 60000.
Definition msPerSecond : Z := 1000.

Definition Day (t : Z) : Z := t / msPerDay.
Definition TimeWithinDay (t : Z) : Z := t mod msPerDay.

Definition is_leap (y : Z) : bool :=
  (y mod 4 =? 0) && (negb (y mod 100 =? 0) || (y mod 400 =? 0)).

Definition DaysInYear (y : Z) : Z := if is_leap y then 366 else 365.

Definition DayFromYear (y : Z) : Z :=
  365 * (y - 1970) + (y - 1969) / 4 - (y - 1901) / 100 + (y - 1601) / 400.

Definition TimeFromYear (y : Z) : Z := msPerDay * DayFromYear y.

(** The year a day falls in: an estimate from the mean length of a year,
    which is never off by more than one, then the correction. *)
Definition YearFromDay (d : Z) : Z :=
  let y0 := 1970 + (400 * d) / 146097 in
  if DayFromYear (y0 + 1) <=? d then y0 + 1
  else if DayFromYear y0 <=? d then y0
  else y0 - 1.

Definition YearFromTime (t : Z) : Z := YearFromDay (Day t).
Definition InLeapYear (t : Z) : bool := is_leap (YearFromTime t).
Definition DayWithinYear (t : Z) : Z := Day t - DayFromYear (YearFromTime t).

(** ** Months and days of the month *)

Definition leap_day (leap : bool) : Z := if leap then 1 else 0.

(** The day of the year on which month [m] (from 0) starts. *)
Definition month_start (leap : bool) (m : Z) : Z :=
  let l := leap_day leap in
  match m with
  | 0 => 0 | 1 => 31 | 2 => 59 + l | 3 => 90 + l | 4 => 120 + l | 5 => 151 + l
  | 6 => 181 + l | 7 => 212 + l | 8 => 243 + l | 9 => 273 + l | 10 => 304 + l
  | 11 => 334 + l | _ => 365 + l
  end.

Definition days_in_month (leap : bool) (m : Z) : Z :=
  month_start leap (m + 1) - month_start leap m.

Definition month_of_day (leap : bool) (dwy : Z) : Z :=
  let l := leap_day leap in
  if dwy <? 31 then 0 else if dwy <? 59 + l then 1 else if dwy <? 90 + l then 2
  else if dwy <? 120 + l then 3 else if dwy <? 151 + l then 4
  else if dwy <? 181 + l then 5 else if dwy <? 212 + l then 6
  else if dwy <? 243 + l then 7 else if dwy <? 273 + l then 8
  else if dwy <? 304 + l then 9 else if dwy <? 334 + l then 10 else 11.

Definition MonthFromTime (t : Z) : Z := month_of_day (InLeapYear t) (DayWithinYear t).

Definition DateFromTime (t : Z) : Z :=
  let l := leap_day (InLeapYear t) in
  let dwy := DayWithinYear t in
  match MonthFromTime t with
  | 0 => dwy + 1 | 1 => dwy - 30 | 2 => dwy - 58 - l | 3 => dwy - 89 - l
  | 4 => dwy - 119 - l | 5 => dwy - 150 - l | 6 => dwy - 180 - l
  | 7 => dwy - 211 - l | 8 => dwy - 242 - l | 9 => dwy - 272 - l
  | 10 => dwy - 303 - l | _ => dwy - 333 - l
  end.

(** ** Time of day *)

Definition HourFromTime (t : Z) : Z := (t / msPerHour) mod 24.
Definition MinFromTime (t : Z) : Z := (t / msPerMinute) mod 60.
Definition SecFromTime (t : Z) : Z := (t / msPerSecond) mod 60.
Definition msFromTime (t : Z) : Z := t mod msPerSecond.

(** ** Making time values *)

Definition MakeTime (hour min sec ms : Z) : Z :=
  hour * msPerHour + min * msPerMinute + sec * msPerSecond + ms.

Definition MakeDay (year month date : Z) : Z :=
  let ym := year + month / 12 in
  let mn := month mod 12 in
  DayFromYear ym + month_start (is_leap ym) mn + date - 1.

Definition MakeDate (day time : Z) : Z := day * msPerDay + time.

(** A date object holds a time value or NaN ([None]). *)
Definition date : Type := option Z.

Definition TimeClip (t : Z) : date :=
  if Z.abs t <=? 8640000000000000 then Some t else None.

(** ** The UTC getters: NaN for an invalid date *)

Definition getUTCFullYear (d : date) : option Z := YearFromTime <$> d.
Definition getUTCMonth (d : date) : option Z := MonthFromTime <$> d.
Definition getUTCDate (d : date) : option Z := DateFromTime <$> d.
Definition getUTCHours (d : date) : option Z := HourFromTime <$> d.
Definition getUTCMinutes (d : date) : option Z := MinFromTime <$> d.
Definition getUTCSeconds (d : date) : option Z := SecFromTime <$> d.

(** ** The Date Time String Format

    [YYYY-MM-DDTHH:mm:ss.sssZ] and its subsets: the date-only forms [YYYY],
    [YYYY-MM] and [YYYY-MM-DD], optionally followed by [THH:mm], [THH:mm:ss]
    or [THH:mm:ss.sss] and then by [Z] or [+HH:mm] or [-HH:mm]; a year may
    also be written with a sign and six digits. *)

Definition digit_Z (c : ascii) : Z := Z.of_N (N_of_ascii c) - 48.

(** Exactly [k] digits, as the number they spell after [acc]. *)
Fixpoint read_digits (k : nat) (s : string) (acc : Z) : option (Z * string) :=
  match k with
  | O => Some (acc, s)
  | S k' =>
      match s with
      | String c s' =>
          if is_digit c then read_digits k' s' (10 * acc + digit_Z c) else None
      | EmptyString => None
      end
  end.

Definition expect (c : ascii) (s : string) : option string :=
  match s with
  | String a s' => if Ascii.eqb a c then Some s' else None
  | EmptyString => None
  end.

Definition parse_year (s : string) : option (Z * string) :=
  match s with
  | String "+" s' => read_digits 6 s' 0
  | String "-" s' =>
      '(y, r) ← read_digits 6 s' 0;
      if y =? 0 then None else Some (- y, r)
  | _ => read_digits 4 s 0
  end.

(** Year, month and day (the ones left out are 1), and the rest. *)
Definition parse_date (s : string) : option (Z * Z * Z * string) :=
  '(y, s1) ← parse_year s;
  match expect "-" s1 with
  | None => Some (y, 1, 1, s1)
  | Some s2 =>
      '(mo, s3) ← read_digits 2 s2 0;
      match expect "-" s3 with
      | None => Some (y, mo, 1, s3)
      | Some s4 => '(d, s5) ← read_digits 2 s4 0; Some (y, mo, d, s5)
      end
  end.

(** Hours, minutes, seconds and milliseconds after the [T], and the rest. *)
Definition parse_time (s : string) : option (Z * Z * Z * Z * string) :=
  '(h, s1) ← read_digits 2 s 0;
  s2 ← expect ":" s1;
  '(mi, s3) ← read_digits 2 s2 0;
  match expect ":" s3 with
  | None => Some (h, mi, 0, 0, s3)
  | Some s4 =>
      '(sec, s5) ← read_digits 2 s4 0;
      match expect "." s5 with
      | None => Some (h, mi, sec, 0, s5)
      | Some s6 => '(ms, s7) ← read_digits 3 s6 0; Some (h, mi, sec, ms, s7)
      end
  end.

(** The offset in minutes east of UTC that ends the string, if one is written. *)
Definition parse_offset (s : string) : option (option Z) :=
  match s with
  | EmptyString => Some None
  | String "Z" EmptyString => Some (Some 0)
  | String sign s' =>
      if Ascii.eqb sign "+" || Ascii.eqb sign "-" then
        '(oh, s1) ← read_digits 2 s' 0;
        s2 ← expect ":" s1;
        '(om, s3) ← read_digits 2 s2 0;
        match s3 with
        | EmptyString =>
            if (oh <=? 23) && (om <=? 59) then
              Some (Some (if Ascii.eqb sign "-" then - (oh * 60 + om) else oh * 60 + om))
            else None
        | _ => None
        end
      else None
  end.

Definition valid_date (y mo d : Z) : bool :=
  (1 <=? mo) && (mo <=? 12) && (1 <=? d) && (d <=? days_in_month (is_leap y) (mo - 1)).

Definition valid_time (h mi sec : Z) (ms : Z) : bool :=
  (mi <=? 59) && (sec <=? 59) &&
  ((h <=? 23) || ((h =? 24) && (mi =? 0) && (sec =? 0) && (ms =? 0))).

Section Parse.

(** What the implementation does with a string that is not in the format,
    and its conversion of a local time to UTC. *)
Variable fallback : string -> date.
Variable UTC : Z -> Z.

(** The time value of a string in the format; [None] for any other string.
    A date-only form is a UTC date; a date-time form without offset is a
    local time. *)
Definition iso_time (s : string) : option Z :=
  '(y, mo, d, r) ← parse_date s;
  if valid_date y mo d then
    let day := MakeDay y (mo - 1) d in
    match r with
    | EmptyString => Some (MakeDate day 0)
    | String "T" r1 =>
        '(h, mi, sec, ms, r2) ← parse_time r1;
        if valid_time h mi sec ms then
          off ← parse_offset r2;
          let t := MakeDate day (MakeTime h mi sec ms) in
          Some (match off with
                | Some o => t - o * msPerMinute
                | None => UTC t
                end)
        else None
    | _ => None
    end
  else None.

(** [Date.parse(s)] *)
Definition Date_parse (s : string) : date :=
  match iso_time s with
  | Some t => TimeClip t
  | None => fallback s
  end.

(** [new Date(s)] for a string [s] *)
Definition new_Date (s : string) : date := Date_parse s ≫= TimeClip.

End Parse.

(** ** Years *)

Ltac zdiv := Z.div_mod_to_equations; lia.

(** A property of the integers from [lo] to [hi], checked one by one. *)
Lemma Z_range_forall (P : Z -> Prop) lo hi :
  Forall P (seqZ lo (hi - lo + 1)) -> forall n, lo <= n <= hi -> P n.
Proof.
  intros HF n Hn. apply (proj1 (Forall_forall _ _) HF), elem_of_seqZ. lia.
Qed.

(** [each_of H], for [H : lo <= n <= hi] with [lo] and [hi] numerals and no
    other hypothesis about [n]: one goal for each value of [n]. *)
Ltac each_of H :=
  match type of H with
  | ?lo <= ?n <= ?hi =>
      revert n H;
      match goal with
      | |- forall n, _ -> @?P n => apply (Z_range_forall P lo hi)
      end;
      match goal with
      | |- Forall ?Q ?l => let l' := eval vm_compute in l in change (Forall Q l')
      end;
      repeat (apply Forall_cons; split; [cbv beta|]);
      [..|by apply Forall_nil]
  end.

Lemma is_leap_cases y :
  is_leap y = true /\ (y mod 4 = 0 /\ (y mod 100 <> 0 \/ y mod 400 = 0)) \/
  is_leap y = false /\ (y mod 4 <> 0 \/ (y mod 100 = 0 /\ y mod 400 <> 0)).
Proof.
  unfold is_leap.
  destruct (Z.eqb_spec (y mod 4) 0), (Z.eqb_spec (y mod 100) 0),
    (Z.eqb_spec (y mod 400) 0); cbn [andb orb negb]; lia.
Qed.

Lemma DaysInYear_cases y : DaysInYear y = 365 + leap_day (is_leap y).
Proof. unfold DaysInYear, leap_day. by destruct (is_leap y). Qed.

Lemma DayFromYear_step y : DayFromYear (y + 1) = DayFromYear y + DaysInYear y.
Proof.
  rewrite DaysInYear_cases. unfold DayFromYear, leap_day.
  destruct (is_leap_cases y) as [[-> H]|[-> H]]; zdiv.
Qed.

Lemma DayFromYear_mono y y' : y <= y' -> DayFromYear y <= DayFromYear y'.
Proof. unfold DayFromYear. zdiv. Qed.

Lemma DayFromYear_lt y y' : y < y' -> DayFromYear y < DayFromYear y'.
Proof.
  intros H. pose proof (DayFromYear_mono (y + 1) y' ltac:(lia)) as Hm.
  rewrite DayFromYear_step, DaysInYear_cases in Hm. unfold leap_day in Hm.
  destruct (is_leap y); lia.
Qed.

(** The estimate is within one year of the year. *)
Lemma YearFromDay_estimate d :
  let y0 := 1970 + (400 * d) / 146097 in
  DayFromYear (y0 - 1) <= d < DayFromYear (y0 + 2).
Proof. unfold DayFromYear. zdiv. Qed.

(** [YearFromDay d] is the year whose days include [d]. *)
Lemma YearFromDay_spec d :
  DayFromYear (YearFromDay d) <= d < DayFromYear (YearFromDay d + 1).
Proof.
  pose proof (YearFromDay_estimate d) as H. unfold YearFromDay. cbv zeta in *.
  set (y0 := 1970 + 400 * d / 146097) in *.
  replace (y0 + 2) with (y0 + 1 + 1) in H by lia.
  repeat case_match; rewrite ?Z.leb_le, ?Z.leb_gt in *;
    replace (y0 - 1 + 1) with y0 by lia; lia.
Qed.

(** It is the only such year: the largest one that starts at or before [d]. *)
Lemma YearFromDay_unique d y :
  DayFromYear y <= d < DayFromYear (y + 1) -> YearFromDay d = y.
Proof.
  intros H. pose proof (YearFromDay_spec d) as Hs.
  destruct (Z.lt_trichotomy (YearFromDay d) y) as [Hlt|[Heq|Hgt]]; [|done|].
  - pose proof (DayFromYear_mono (YearFromDay d + 1) y ltac:(lia)). lia.
  - pose proof (DayFromYear_mono (y + 1) (YearFromDay d) ltac:(lia)). lia.
Qed.

Lemma YearFromTime_largest t y :
  TimeFromYear y <= t <-> y <= YearFromTime t.
Proof.
  unfold TimeFromYear, YearFromTime, Day, msPerDay.
  pose proof (YearFromDay_spec (t / 86400000)) as Hs. split; intros H.
  - destruct (Z.le_gt_cases y (YearFromDay (t / 86400000))) as [|Hgt]; [done|].
    pose proof (DayFromYear_mono (YearFromDay (t / 86400000) + 1) y ltac:(lia)). zdiv.
  - pose proof (DayFromYear_mono _ _ H). zdiv.
Qed.

Lemma DayWithinYear_range t :
  0 <= DayWithinYear t < 365 + leap_day (InLeapYear t).
Proof.
  unfold DayWithinYear, InLeapYear, YearFromTime.
  pose proof (YearFromDay_spec (Day t)) as H.
  rewrite DayFromYear_step, DaysInYear_cases in H. lia.
Qed.

(** ** Months and days *)

Lemma month_of_day_range leap dwy : 0 <= month_of_day leap dwy <= 11.
Proof. unfold month_of_day. repeat case_match; lia. Qed.

Lemma month_of_day_start leap dwy :
  0 <= dwy < 365 + leap_day leap ->
  month_start leap (month_of_day leap dwy) <= dwy
    < month_start leap (month_of_day leap dwy + 1).
Proof.
  unfold month_of_day, leap_day. intros H.
  destruct leap; repeat case_match; rewrite ?Z.ltb_lt, ?Z.ltb_ge in *;
    simpl in *; lia.
Qed.

Lemma MonthFromTime_range t : 0 <= MonthFromTime t <= 11.
Proof. apply month_of_day_range. Qed.

Lemma DateFromTime_start t :
  DateFromTime t = DayWithinYear t - month_start (InLeapYear t) (MonthFromTime t) + 1.
Proof.
  unfold DateFromTime. pose proof (MonthFromTime_range t) as H.
  generalize dependent (MonthFromTime t). intros m Hm.
  each_of Hm; simpl; lia.
Qed.

Lemma DateFromTime_range t :
  1 <= DateFromTime t <= days_in_month (InLeapYear t) (MonthFromTime t).
Proof.
  rewrite DateFromTime_start. unfold days_in_month, MonthFromTime.
  pose proof (month_of_day_start _ _ (DayWithinYear_range t)). lia.
Qed.

(** The day number is recovered from year, month and day of the month. *)
Lemma MakeDay_fields t :
  MakeDay (YearFromTime t) (MonthFromTime t) (DateFromTime t) = Day t.
Proof.
  pose proof (MonthFromTime_range t) as Hm. unfold MakeDay.
  rewrite Z.div_small, Z.mod_small, Z.add_0_r by lia.
  rewrite DateFromTime_start. unfold DayWithinYear, InLeapYear. lia.
Qed.

(** ** Time of day *)

Lemma time_fields_range t :
  0 <= HourFromTime t <= 23 /\ 0 <= MinFromTime t <= 59 /\
  0 <= SecFromTime t <= 59 /\ 0 <= msFromTime t <= 999.
Proof.
  unfold HourFromTime, MinFromTime, SecFromTime, msFromTime,
    msPerHour, msPerMinute, msPerSecond. zdiv.
Qed.

Lemma MakeTime_fields t :
  MakeTime (HourFromTime t) (MinFromTime t) (SecFromTime t) (msFromTime t)
  = TimeWithinDay t.
Proof.
  unfold MakeTime, HourFromTime, MinFromTime, SecFromTime, msFromTime, TimeWithinDay,
    msPerHour, msPerMinute, msPerSecond, msPerDay. zdiv.
Qed.

Lemma MakeDate_Day t : MakeDate (Day t) (TimeWithinDay t) = t.
Proof. unfold MakeDate, Day, TimeWithinDay, msPerDay. zdiv. Qed.

(** A time value is its fields put together again. *)
Lemma MakeDate_fields t :
  MakeDate (MakeDay (YearFromTime t) (MonthFromTime t) (DateFromTime t))
           (MakeTime (HourFromTime t) (MinFromTime t) (SecFromTime t) (msFromTime t))
  = t.
Proof. by rewrite MakeDay_fields, MakeTime_fields, MakeDate_Day. Qed.

Lemma MakeDate_drop_ms day h m s ms :
  MakeDate day (MakeTime h m s 0) = MakeDate day (MakeTime h m s ms) - ms.
Proof. unfold MakeDate, MakeTime. lia. Qed.

(** Without the milliseconds, what is left is the time value cut to the second. *)
Lemma MakeDate_fields_seconds t :
  MakeDate (MakeDay (YearFromTime t) (MonthFromTime t) (DateFromTime t))
           (MakeTime (HourFromTime t) (MinFromTime t) (SecFromTime t) 0)
  = t - msFromTime t.
Proof. by rewrite (MakeDate_drop_ms _ _ _ _ (msFromTime t)), MakeDate_fields. Qed.

(** ** Decimal digits

    [ToString] of an integral number, as array [join] and string [+] apply
    it, and the fixed-width fields of the format. *)

Definition digit_char (n : Z) : ascii := ascii_of_N (Z.to_N (48 + n)).

Fixpoint digits_of (fuel : nat) (n : Z) (acc : string) : string :=
  let acc' := String (digit_char (n mod 10)) acc in
  match fuel with
  | O => acc'
  | S f => if n <? 10 then acc' else digits_of f (n / 10) acc'
  end.

(** A number below [2 ^ (k + 1)] has at most [k + 1] decimal digits. *)
Definition show_nonneg (n : Z) : string := digits_of (Z.to_nat (Z.log2 n)) n "".

Definition show_Z (n : Z) : string :=
  if n <? 0 then String "-" (show_nonneg (- n)) else show_nonneg n.

Definition show_number (n : option Z) : string :=
  match n with
  | Some z => show_Z z
  | None => "NaN"
  end.

Definition two_digits (n : Z) : string :=
  String (digit_char (n / 10)) (String (digit_char (n mod 10)) "").

Definition four_digits (n : Z) : string :=
  String (digit_char (n / 1000)) (String (digit_char (n / 100 mod 10))
    (String (digit_char (n / 10 mod 10)) (String (digit_char (n mod 10)) ""))).

Lemma digit_char_digit n :
  0 <= n <= 9 -> is_digit (digit_char n) = true /\ digit_Z (digit_char n) = n.
Proof. intros H. each_of H; by vm_compute. Qed.

Lemma read_digits_cons k n s acc :
  0 <= n <= 9 ->
  read_digits (S k) (String (digit_char n) s) acc = read_digits k s (10 * acc + n).
Proof. intros H. simpl. by destruct (digit_char_digit n H) as [-> ->]. Qed.

Lemma read_two_digits n r :
  0 <= n <= 99 -> read_digits 2 (two_digits n ++ r) 0 = Some (n, r).
Proof.
  intros H. unfold two_digits. rewrite !string_app_cons, string_app_nil_l.
  rewrite !read_digits_cons by zdiv. simpl. f_equal. f_equal. zdiv.
Qed.

Lemma read_four_digits n r :
  0 <= n <= 9999 -> read_digits 4 (four_digits n ++ r) 0 = Some (n, r).
Proof.
  intros H. unfold four_digits. rewrite !string_app_cons, string_app_nil_l.
  rewrite !read_digits_cons by zdiv. simpl. f_equal. f_equal. zdiv.
Qed.

Lemma digits_of_small fuel n acc :
  0 <= n <= 9 -> digits_of fuel n acc = String (digit_char n) acc.
Proof.
  intros H. destruct fuel; simpl; rewrite Z.mod_small by lia; [done|].
  by destruct (Z.ltb_spec n 10); [|lia].
Qed.

Lemma digits_of_step fuel n acc :
  10 <= n ->
  digits_of (S fuel) n acc = digits_of fuel (n / 10) (String (digit_char (n mod 10)) acc).
Proof. intros H. simpl. by destruct (Z.ltb_spec n 10); [lia|]. Qed.

Lemma show_one_digit n : 0 <= n <= 9 -> show_Z n = String (digit_char n) "".
Proof.
  intros H. unfold show_Z, show_nonneg. destruct (Z.ltb_spec n 0); [lia|].
  by apply digits_of_small.
Qed.

Lemma show_two_digits n : 10 <= n <= 99 -> show_Z n = two_digits n.
Proof.
  intros H. unfold show_Z, show_nonneg, two_digits. destruct (Z.ltb_spec n 0); [lia|].
  pose proof (Z.log2_le_mono 10 n ltac:(lia)) as Hl. change (Z.log2 10) with 3 in Hl.
  destruct (Z.to_nat (Z.log2 n)) as [|f] eqn:E; [lia|].
  rewrite digits_of_step by lia. apply digits_of_small. zdiv.
Qed.

Lemma show_four_digits n : 1000 <= n <= 9999 -> show_Z n = four_digits n.
Proof.
  intros H. unfold show_Z, show_nonneg, four_digits. destruct (Z.ltb_spec n 0); [lia|].
  pose proof (Z.log2_le_mono 1000 n ltac:(lia)) as Hl. change (Z.log2 1000) with 9 in Hl.
  destruct (Z.to_nat (Z.log2 n)) as [|[|[|f]]] eqn:E; [lia..|].
  rewrite !digits_of_step by zdiv. rewrite digits_of_small by zdiv.
  rewrite !Z.div_div by lia. done.
Qed.

(** ** Parsing a UTC date-time with a four-digit year *)

(** [YYYY-MM-DDTHH:mm:ssZ] *)
Definition iso_text (y mo d h mi s : Z) : string :=
  (four_digits y ++ "-" ++ two_digits mo ++ "-" ++ two_digits d ++ "T" ++
   two_digits h ++ ":" ++ two_digits mi ++ ":" ++ two_digits s ++ "Z")%string.

Lemma days_in_month_range leap m :
  0 <= m <= 11 -> 28 <= days_in_month leap m <= 31.
Proof.
  intros H. unfold days_in_month. each_of H; destruct leap; simpl; lia.
Qed.

Lemma valid_date_range y mo d :
  valid_date y mo d = true ->
  1 <= mo <= 12 /\ 1 <= d <= days_in_month (is_leap y) (mo - 1) /\ d <= 31.
Proof.
  unfold valid_date. rewrite !andb_true_iff, !Z.leb_le. intros [[[? ?] ?] ?].
  pose proof (days_in_month_range (is_leap y) (mo - 1)). lia.
Qed.

Lemma parse_year_digit n s :
  0 <= n <= 9 ->
  parse_year (String (digit_char n) s) = read_digits 4 (String (digit_char n) s) 0.
Proof. intros H. revert s. each_of H; by intros s. Qed.

Lemma expect_app c s : expect c (String c "" ++ s) = Some s.
Proof. rewrite string_app_cons, string_app_nil_l. simpl. by rewrite Ascii.eqb_refl. Qed.

Lemma parse_year_four y r :
  0 <= y <= 9999 -> parse_year (four_digits y ++ r) = Some (y, r).
Proof.
  intros H. rewrite <- (read_four_digits y r H). unfold four_digits.
  rewrite string_app_cons. apply parse_year_digit. zdiv.
Qed.

Lemma parse_date_text y mo d r :
  0 <= y <= 9999 -> 0 <= mo <= 99 -> 0 <= d <= 99 ->
  parse_date (four_digits y ++ "-" ++ two_digits mo ++ "-" ++ two_digits d ++ r)
  = Some (y, mo, d, r).
Proof.
  intros Hy Hmo Hd. unfold parse_date. rewrite parse_year_four by done.
  cbn [mbind option_bind]. rewrite expect_app, read_two_digits by done.
  cbn [mbind option_bind]. by rewrite expect_app, read_two_digits by done.
Qed.

Lemma parse_time_text h mi s r :
  0 <= h <= 99 -> 0 <= mi <= 99 -> 0 <= s <= 99 ->
  expect "." r = None ->
  parse_time (two_digits h ++ ":" ++ two_digits mi ++ ":" ++ two_digits s ++ r)
  = Some (h, mi, s, 0, r).
Proof.
  intros Hh Hmi Hs Hr. unfold parse_time. rewrite read_two_digits by done.
  cbn [mbind option_bind]. rewrite expect_app. cbn [mbind option_bind].
  rewrite read_two_digits by done. cbn [mbind option_bind].
  rewrite expect_app, read_two_digits by done. cbn [mbind option_bind].
  by rewrite Hr.
Qed.

Lemma valid_time_range h mi s :
  0 <= h <= 23 -> 0 <= mi <= 59 -> 0 <= s <= 59 -> valid_time h mi s 0 = true.
Proof.
  intros. unfold valid_time. rewrite !andb_true_iff, orb_true_iff, !Z.leb_le. lia.
Qed.

(** A text in the format with a four-digit year and [Z] is the UTC time it
    spells, whatever the local time zone. *)
Lemma iso_time_iso_text UTC y mo d h mi s :
  0 <= y <= 9999 -> valid_date y mo d = true ->
  0 <= h <= 23 -> 0 <= mi <= 59 -> 0 <= s <= 59 ->
  iso_time UTC (iso_text y mo d h mi s)
  = Some (MakeDate (MakeDay y (mo - 1) d) (MakeTime h mi s 0)).
Proof.
  intros Hy Hv Hh Hmi Hs. destruct (valid_date_range _ _ _ Hv) as (Hmo & Hd & Hd').
  unfold iso_time, iso_text. rewrite parse_date_text by lia.
  cbn [mbind option_bind]. rewrite Hv, string_app_cons, string_app_nil_l.
  rewrite parse_time_text by (done || lia). cbn [mbind option_bind].
  rewrite valid_time_range by done. cbn [parse_offset mbind option_bind].
  f_equal. lia.
Qed.

(** ** Texts outside the format *)

Lemma show_three_digits n :
  100 <= n <= 999 ->
  show_Z n = String (digit_char (n / 100)) (two_digits (n mod 100)).
Proof.
  intros H. unfold show_Z, show_nonneg, two_digits. destruct (Z.ltb_spec n 0); [lia|].
  pose proof (Z.log2_le_mono 100 n ltac:(lia)) as Hl. change (Z.log2 100) with 6 in Hl.
  destruct (Z.to_nat (Z.log2 n)) as [|[|f]] eqn:E; [lia..|].
  rewrite !digits_of_step by zdiv. rewrite digits_of_small by zdiv.
  rewrite !Z.div_div by lia. do 3 f_equal; f_equal; zdiv.
Qed.

Lemma read_digits_stop k c s acc :
  is_digit c = false -> read_digits (S k) (String c s) acc = None.
Proof. intros H. simpl. by rewrite H. Qed.

(** A year of fewer than four digits followed by a hyphen is not a year of
    the format. *)
Lemma parse_year_short y r :
  0 <= y <= 999 -> parse_year (show_Z y ++ "-" ++ r) = None.
Proof.
  intros H. assert (0 <= y <= 9 \/ 10 <= y <= 99 \/ 100 <= y <= 999) as [Hy|[Hy|Hy]] by lia.
  - rewrite show_one_digit by done. rewrite !string_app_cons, !string_app_nil_l.
    rewrite parse_year_digit, read_digits_cons by done. by apply read_digits_stop.
  - rewrite show_two_digits by done. unfold two_digits.
    rewrite !string_app_cons, !string_app_nil_l.
    rewrite parse_year_digit, !read_digits_cons by zdiv. by apply read_digits_stop.
  - rewrite show_three_digits by done. unfold two_digits.
    rewrite !string_app_cons, !string_app_nil_l.
    rewrite parse_year_digit, !read_digits_cons by zdiv. by apply read_digits_stop.
Qed.

Lemma iso_time_short_year UTC y r :
  0 <= y <= 999 -> iso_time UTC (show_Z y ++ "-" ++ r) = None.
Proof. intros H. unfold iso_time, parse_date. by rewrite parse_year_short. Qed.

(** ** A local date-time: the format without offset *)

(** [YYYY-MM-DDTHH:mm:ss] *)
Definition local_text (y mo d h mi s : Z) : string :=
  (four_digits y ++ "-" ++ two_digits mo ++ "-" ++ two_digits d ++ "T" ++
   two_digits h ++ ":" ++ two_digits mi ++ ":" ++ two_digits s)%string.

Lemma iso_time_local_text UTC y mo d h mi s :
  0 <= y <= 9999 -> valid_date y mo d = true ->
  0 <= h <= 23 -> 0 <= mi <= 59 -> 0 <= s <= 59 ->
  iso_time UTC (local_text y mo d h mi s)
  = Some (UTC (MakeDate (MakeDay y (mo - 1) d) (MakeTime h mi s 0))).
Proof.
  intros Hy Hv Hh Hmi Hs. destruct (valid_date_range _ _ _ Hv) as (Hmo & Hd & Hd').
  unfold iso_time, local_text.
  rewrite <- (string_app_nil_r (two_digits s)), <- !string_app_assoc.
  rewrite !string_app_assoc, parse_date_text by lia.
  cbn [mbind option_bind]. rewrite Hv, string_app_cons, string_app_nil_l.
  rewrite parse_time_text by (done || lia). cbn [mbind option_bind].
  by rewrite valid_time_range by done.
Qed.

Lemma two_digits_digits n : 0 <= n <= 99 -> is_digits 2 (two_digits n) = true.
Proof.
  intros H. unfold two_digits. cbn [is_digits].
  destruct (digit_char_digit (n / 10)) as [-> _]; [zdiv|].
  destruct (digit_char_digit (n mod 10)) as [-> _]; [zdiv|]. done.
Qed.

Lemma four_digits_digits n : 0 <= n <= 9999 -> is_digits 4 (four_digits n) = true.
Proof.
  intros H. unfold four_digits. cbn [is_digits].
  destruct (digit_char_digit (n / 1000)) as [-> _]; [zdiv|].
  destruct (digit_char_digit (n / 100 mod 10)) as [-> _]; [zdiv|].
  destruct (digit_char_digit (n / 10 mod 10)) as [-> _]; [zdiv|].
  destruct (digit_char_digit (n mod 10)) as [-> _]; [zdiv|]. done.
Qed.
