(* ===== verification/DateCodec.v ===== *)
(** * The dateTime.iso8601 codec (src/src/bugzilla.js, lines 129-144)

    The source registers, for XML-RPC's [dateTime.iso8601] type, an encoder
    from a [Date] to text and a decoder from text to a [Date].  Both are
    modelled on dates as time values ([JsDate]): the encoder reads the UTC
    fields and joins them; the decoder hyphenates a compact date with a
    regular expression, when the text has no hyphen at all, and hands the
    text to [new Date].

    The encoder calls [_pad], which src/src/bugzilla.js does not define: the
    binding of that identifier, if some other script provides one, is a
    parameter of the model.  [jquery_pad] is the function of that name inside
    jquery.xmlrpc, which the encoder was written against. *)

From S2P Require Import Prelude JsValue Regex JsDate.

Local Open Scope string_scope.

(** [function(n) { return n<10 ? '0'+n : n; }], with the result as [join]
    turns it into text; a comparison with NaN is false. *)
Definition jquery_pad (n : option Z) : string :=
  match n with
  | Some z => if (z <? 10)%Z then "0" ++ show_Z z else show_Z z
  | None => "NaN"
  end.

(** [/-/] (line 140) *)
Definition hyphen_pattern : regex := RAtom (CChar "-").

(** [/(\d{4})(\d{2})(\d{2})(.+)/] (line 141) *)
Definition compact_date_pattern : regex :=
  RSeq (RGroup (RCount 4 CDigit))
    (RSeq (RGroup (RCount 2 CDigit))
       (RSeq (RGroup (RCount 2 CDigit)) (RGroup (RPlus CDot)))).

(** ["$1-$2-$3$4"] (line 141) *)
Definition hyphenate_template : string := "$1-$2-$3$4".

Section Codec.

(** The function the identifier [_pad] is bound to where the encoder runs,
    if it is bound at all. *)
Variable pad_binding : option (option Z -> string).

(** The implementation's own date heuristics and local time zone. *)
Variable fallback : string -> date.
Variable UTC : Z -> Z.

(** The encoder (lines 129-135).  The elements of the array literal are
    evaluated from the left: [d.getUTCFullYear()] is called before [_pad] is
    looked up. *)
Definition dateTime_encode (d : date) : comp exn string :=
  let year := getUTCFullYear d in
  match pad_binding with
  | None => Abrupt (ReferenceError "_pad")
  | Some _pad =>
      Normal (show_number year ++ "-" ++ _pad (Z.succ <$> getUTCMonth d) ++ "-" ++
              _pad (getUTCDate d) ++ "T" ++ _pad (getUTCHours d) ++ ":" ++
              _pad (getUTCMinutes d) ++ ":" ++ _pad (getUTCSeconds d) ++ "Z")
  end.

(** The decoder (lines 135-144); its second argument, the XML node, is not used. *)
Definition dateTime_decode (text : string) : date :=
  let text :=
    if negb (test hyphen_pattern text)
    then replace compact_date_pattern hyphenate_template text
    else text in
  new_Date fallback UTC text.

End Codec.

(** ** The decoder's two patterns *)

Lemma test_hyphen text : test hyphen_pattern text = contains "-" text.
Proof. apply test_char. Qed.

(** A group of [k] digits captures them and moves on. *)
Lemma rmatch_digit_group k s r i caps kont :
  is_digits k s = true ->
  rmatch (RGroup (RCount k CDigit)) (MState i (s ++ r) caps) kont
  = kont (MState (i + k) r (caps ++ [Some s])).
Proof.
  intros Hs. cbn [rmatch ms_pos ms_rest ms_caps]. rewrite count_digits by done.
  cbn [ms_pos ms_rest ms_caps]. f_equal. f_equal.
  rewrite insert_app_r_alt, Nat.sub_diag by done. simpl. do 3 f_equal.
  replace (i + k - i)%nat with (String.length s)
    by (rewrite (is_digits_length k s Hs); lia).
  apply substring_0_app.
Qed.

(** The group [(.+)] on a text that starts inside a line takes the line. *)
Lemma rmatch_line_group a r i caps kont :
  is_line_terminator a = false ->
  (forall y, is_Some (kont y)) ->
  let rest := String a r in
  rmatch (RGroup (RPlus CDot)) (MState i rest caps) kont
  = kont (MState (i + String.length (span CDot rest).1) (span CDot rest).2
                 (caps ++ [Some (span CDot rest).1])).
Proof.
  intros Ha Hk rest. subst rest. cbn [rmatch ms_pos ms_rest ms_caps cmatch].
  rewrite Ha. cbn [negb]. rewrite star_total by (intros y; apply Hk).
  cbn [ms_pos ms_rest ms_caps span cmatch]. rewrite Ha.
  cbn [negb]. destruct (span CDot r) as [h t] eqn:Hsp.
  pose proof (span_app CDot r) as Hr. rewrite Hsp in Hr. cbn [fst snd] in *.
  f_equal. f_equal; [simpl; lia|].
  rewrite insert_app_r_alt, Nat.sub_diag by done. simpl. do 3 f_equal.
  replace (S (i + String.length h) - i)%nat with (S (String.length h)) by lia.
  f_equal. rewrite Hr at 1. apply substring_0_app.
Qed.

Lemma expand_hyphenate e y m d r :
  se_caps e = [Some y; Some m; Some d; Some r] ->
  expand hyphenate_template e = y ++ "-" ++ m ++ "-" ++ d ++ r.
Proof.
  intros H. unfold hyphenate_template. cbn [expand Ascii.eqb Bool.eqb is_digit].
  unfold capture. rewrite H. simpl.
  by rewrite string_app_nil_r.
Qed.

(** The compact pattern on a text that starts with eight digits followed by
    at least one character of the same line: the match starts at 0, the
    groups are the year, the month, the day and the rest of the line. *)
Lemma exec_compact Y M D a r :
  is_digits 4 Y = true -> is_digits 2 M = true -> is_digits 2 D = true ->
  is_line_terminator a = false ->
  let rest := String a r in
  exec compact_date_pattern (Y ++ M ++ D ++ rest)
  = Some (0%nat, MState (8 + String.length (span CDot rest).1) (span CDot rest).2
                        [Some Y; Some M; Some D; Some (span CDot rest).1]).
Proof.
  intros HY HM HD Ha rest. apply scan_hit. unfold compact_date_pattern.
  rewrite rmatch_seq, rmatch_digit_group by done.
  rewrite rmatch_seq, rmatch_digit_group by done.
  rewrite rmatch_seq, rmatch_digit_group by done.
  by rewrite (rmatch_line_group a r) by done.
Qed.

(** What [replace] makes of such a text: hyphens after the year and the
    month, everything else as it was. *)
Lemma replace_compact Y M D a r :
  is_digits 4 Y = true -> is_digits 2 M = true -> is_digits 2 D = true ->
  is_line_terminator a = false ->
  replace compact_date_pattern hyphenate_template (Y ++ M ++ D ++ String a r)
  = Y ++ "-" ++ M ++ "-" ++ D ++ String a r.
Proof.
  intros HY HM HD Ha. unfold replace. rewrite exec_compact by done.
  cbn [se_before se_after ms_rest ms_caps]. rewrite substring_0_0, string_app_nil_l.
  rewrite (expand_hyphenate _ Y M D (span CDot (String a r)).1) by done.
  rewrite !string_app_assoc. do 5 f_equal. symmetry. apply span_app.
Qed.

(** A text of fewer than nine characters is too short for the pattern. *)
Lemma replace_compact_short text :
  (String.length text < 9)%nat ->
  replace compact_date_pattern hyphenate_template text = text.
Proof. intros H. by apply replace_short. Qed.

(** ** The encoder *)

Lemma jquery_pad_two_digits n : (0 <= n <= 99)%Z -> jquery_pad (Some n) = two_digits n.
Proof.
  intros H. unfold jquery_pad. destruct (Z.ltb_spec n 10).
  - rewrite show_one_digit by lia. unfold two_digits.
    rewrite Z.div_small, Z.mod_small by lia. done.
  - by rewrite show_two_digits by lia.
Qed.

(** The fields of a time value are in the ranges of the format. *)
Lemma fields_valid t :
  valid_date (YearFromTime t) (MonthFromTime t + 1) (DateFromTime t) = true.
Proof.
  pose proof (MonthFromTime_range t). pose proof (DateFromTime_range t) as Hd.
  unfold valid_date. replace (MonthFromTime t + 1 - 1)%Z with (MonthFromTime t) by lia.
  rewrite !andb_true_iff, !Z.leb_le. unfold InLeapYear in Hd. lia.
Qed.

(** With the library's [_pad], a date whose year has four digits is written
    as [YYYY-MM-DDTHH:mm:ssZ]. *)
Lemma dateTime_encode_text t :
  (1000 <= YearFromTime t <= 9999)%Z ->
  dateTime_encode (Some jquery_pad) (Some t)
  = Normal (iso_text (YearFromTime t) (MonthFromTime t + 1) (DateFromTime t)
                     (HourFromTime t) (MinFromTime t) (SecFromTime t)).
Proof.
  intros Hy. pose proof (MonthFromTime_range t). pose proof (DateFromTime_range t).
  pose proof (days_in_month_range (InLeapYear t) (MonthFromTime t)).
  pose proof (time_fields_range t) as (? & ? & ? & ?).
  unfold dateTime_encode, iso_text. cbn [getUTCFullYear getUTCMonth getUTCDate
    getUTCHours getUTCMinutes getUTCSeconds fmap option_fmap option_map show_number].
  rewrite show_four_digits by done. rewrite !jquery_pad_two_digits by lia. done.
Qed.

(** Which time values have a four-digit year. *)
Lemma four_digit_year_range t :
  (1000 <= YearFromTime t <= 9999)%Z ->
  (-30610224000000 <= t < 253402300800000)%Z.
Proof.
  intros [Hlo Hhi]. apply YearFromTime_largest in Hlo.
  assert (~ (TimeFromYear 10000 <= t)%Z) as Hn by (rewrite YearFromTime_largest; lia).
  unfold TimeFromYear, msPerDay in *.
  change (DayFromYear 1000) with (-354285)%Z in Hlo.
  change (DayFromYear 10000) with 2932897%Z in Hn. lia.
Qed.

Lemma TimeClip_in_range t :
  (Z.abs t <= 8640000000000000)%Z -> TimeClip t = Some t.
Proof. intros H. unfold TimeClip. by destruct (Z.leb_spec (Z.abs t) 8640000000000000); [|lia]. Qed.

Section Decoder.
Variable fallback : string -> date.
Variable UTC : Z -> Z.

(** [new Date] of a UTC text in the format. *)
Lemma new_Date_iso_text y mo d h mi s :
  (0 <= y <= 9999)%Z -> valid_date y mo d = true ->
  (0 <= h <= 23)%Z -> (0 <= mi <= 59)%Z -> (0 <= s <= 59)%Z ->
  new_Date fallback UTC (iso_text y mo d h mi s)
  = TimeClip (MakeDate (MakeDay y (mo - 1) d) (MakeTime h mi s 0)) ≫= TimeClip.
Proof.
  intros. unfold new_Date, Date_parse. by rewrite iso_time_iso_text.
Qed.

(** A text with a hyphen goes to [new Date] as it is. *)
Lemma dateTime_decode_hyphenated text :
  contains "-" text = true ->
  dateTime_decode fallback UTC text = new_Date fallback UTC text.
Proof. intros H. unfold dateTime_decode. by rewrite test_hyphen, H. Qed.

(** A text without hyphen goes through [replace] first. *)
Lemma dateTime_decode_plain text :
  contains "-" text = false ->
  dateTime_decode fallback UTC text
  = new_Date fallback UTC (replace compact_date_pattern hyphenate_template text).
Proof. intros H. unfold dateTime_decode. by rewrite test_hyphen, H. Qed.

Lemma iso_text_hyphen y mo d h mi s : contains "-" (iso_text y mo d h mi s) = true.
Proof. unfold iso_text. rewrite contains_app. apply orb_true_iff. by right. Qed.

End Decoder.

(** ** The codec *)

Section CodecTheorems.
Variable fallback : string -> date.
Variable UTC : Z -> Z.

(** The text the encoder writes for a four-digit year is read back as the
    instant cut to the whole second. *)
Lemma dateTime_decode_encoded t :
  (1000 <= YearFromTime t <= 9999)%Z ->
  dateTime_decode fallback UTC
    (iso_text (YearFromTime t) (MonthFromTime t + 1) (DateFromTime t)
              (HourFromTime t) (MinFromTime t) (SecFromTime t))
  = Some (t - t mod 1000)%Z.
Proof.
  intros Hy. pose proof (time_fields_range t) as (? & ? & ? & ?).
  pose proof (four_digit_year_range t Hy).
  rewrite dateTime_decode_hyphenated by apply iso_text_hyphen.
  rewrite new_Date_iso_text by (lia || apply fields_valid).
  replace (MonthFromTime t + 1 - 1)%Z with (MonthFromTime t) by lia.
  rewrite MakeDate_fields_seconds. unfold msFromTime, msPerSecond in *.
  rewrite TimeClip_in_range by lia. simpl. apply TimeClip_in_range. lia.
Qed.

(** C29 (roundtrip): with the library's [_pad] in scope, a date whose UTC
    year has four digits is encoded to a text that the decoder reads back
    as the same instant cut to the whole second, whatever the local time
    zone and the implementation's date heuristics. *)
Theorem dateTime_round_trip t :
  (1000 <= YearFromTime t <= 9999)%Z ->
  exists text,
    dateTime_encode (Some jquery_pad) (Some t) = Normal text /\
    dateTime_decode fallback UTC text = Some (t - t mod 1000)%Z.
Proof.
  intros Hy. eexists. split; [by apply dateTime_encode_text|].
  by apply dateTime_decode_encoded.
Qed.

(** A compact date followed by more of the line, in a text without hyphen. *)
Lemma dateTime_decode_hyphenates Y M D a r :
  is_digits 4 Y = true -> is_digits 2 M = true -> is_digits 2 D = true ->
  is_line_terminator a = false ->
  contains "-" (String a r) = false ->
  dateTime_decode fallback UTC (Y ++ M ++ D ++ String a r)
  = new_Date fallback UTC (Y ++ "-" ++ M ++ "-" ++ D ++ String a r).
Proof.
  intros HY HM HD Ha Hr. rewrite dateTime_decode_plain, replace_compact; [done..|].
  rewrite !contains_app, Hr.
  by rewrite (is_digits_no_char 4 Y), (is_digits_no_char 2 M), (is_digits_no_char 2 D).
Qed.

(** A text without any hyphen that starts with eight
    digits followed by at least one more character of the line is read as
    the text with hyphens after the fourth and the sixth digit. *)
Theorem dateTime_decode_compact Y M D a r :
  is_digits 4 Y = true -> is_digits 2 M = true -> is_digits 2 D = true ->
  is_line_terminator a = false ->
  contains "-" (String a r) = false ->
  dateTime_decode fallback UTC (Y ++ M ++ D ++ String a r)
  = new_Date fallback UTC (Y ++ "-" ++ M ++ "-" ++ D ++ String a r).
Proof. apply dateTime_decode_hyphenates. Qed.

(** Under the same conditions the compact and the
    hyphenated spelling of a date decode to the same date. *)
Theorem dateTime_decode_compact_as_hyphenated Y M D a r :
  is_digits 4 Y = true -> is_digits 2 M = true -> is_digits 2 D = true ->
  is_line_terminator a = false ->
  contains "-" (String a r) = false ->
  dateTime_decode fallback UTC (Y ++ M ++ D ++ String a r)
  = dateTime_decode fallback UTC (Y ++ "-" ++ M ++ "-" ++ D ++ String a r).
Proof.
  intros HY HM HD Ha Hr. rewrite dateTime_decode_hyphenates by done.
  symmetry. apply dateTime_decode_hyphenated.
  rewrite contains_app. apply orb_true_iff. by right.
Qed.

(** C32 (functional): the test for a hyphen looks at the whole text: a
    compact date followed by a negative zone offset, or by anything else
    with a hyphen in it, is handed to [new Date] as it is. *)
Theorem dateTime_decode_hyphen_anywhere text rest :
  contains "-" rest = true ->
  dateTime_decode fallback UTC (text ++ rest) = new_Date fallback UTC (text ++ rest).
Proof.
  intros H. apply dateTime_decode_hyphenated. rewrite contains_app, H.
  apply orb_true_r.
Qed.

(** C33 (functional): a compact date alone ([YYYYMMDD], or any text of fewer
    than nine characters) is not hyphenated: the pattern wants a character
    after the day. *)
Theorem dateTime_decode_short text :
  (String.length text < 9)%nat ->
  dateTime_decode fallback UTC text = new_Date fallback UTC text.
Proof.
  intros H. destruct (contains "-" text) eqn:E.
  - by apply dateTime_decode_hyphenated.
  - by rewrite dateTime_decode_plain, replace_compact_short.
Qed.

(** C34 (functional): the year is written without padding: for a year from
    0 to 999 the encoded text is not in the Date Time String Format, and what
    the decoder makes of it is up to the implementation's heuristics. *)
Theorem dateTime_short_year_not_in_format t :
  (0 <= YearFromTime t <= 999)%Z ->
  exists text,
    dateTime_encode (Some jquery_pad) (Some t) = Normal text /\
    dateTime_decode fallback UTC text = fallback text ≫= TimeClip.
Proof.
  intros Hy. eexists. split; [reflexivity|]. simpl.
  rewrite dateTime_decode_hyphenated by (rewrite contains_app; apply orb_true_iff; by right).
  unfold new_Date, Date_parse. by rewrite iso_time_short_year.
Qed.

(** An invalid date is encoded as [NaN-NaN-NaNTNaN:NaN:NaNZ],
    which the decoder leaves to the implementation's heuristics. *)
Theorem dateTime_encode_invalid_date :
  dateTime_encode (Some jquery_pad) None = Normal "NaN-NaN-NaNTNaN:NaN:NaNZ" /\
  dateTime_decode fallback UTC "NaN-NaN-NaNTNaN:NaN:NaNZ"
  = fallback "NaN-NaN-NaNTNaN:NaN:NaNZ" ≫= TimeClip.
Proof. done. Qed.

(** The decoder hyphenates a compact date that a colon-separated time
    follows: what reaches [new Date] is the date-time in the format, without
    offset. *)
Lemma dateTime_decode_timed y mo d h mi s :
  (0 <= y <= 9999)%Z -> valid_date y mo d = true ->
  (0 <= h <= 23)%Z -> (0 <= mi <= 59)%Z -> (0 <= s <= 59)%Z ->
  dateTime_decode fallback UTC
    (four_digits y ++ two_digits mo ++ two_digits d ++ "T" ++
     two_digits h ++ ":" ++ two_digits mi ++ ":" ++ two_digits s)
  = new_Date fallback UTC (local_text y mo d h mi s).
Proof.
  intros Hy Hv Hh Hmi Hs. destruct (valid_date_range _ _ _ Hv) as (Hmo & Hd & Hd').
  rewrite string_app_cons, string_app_nil_l.
  rewrite dateTime_decode_hyphenates;
    [|by apply four_digits_digits|apply two_digits_digits; lia..|done|].
  - unfold local_text. by rewrite <- (string_app_nil_l (two_digits h ++ _)), <- string_app_cons.
  - cbn [contains Ascii.eqb Bool.eqb orb]. rewrite !contains_app.
    by rewrite (is_digits_no_char 2 (two_digits h)), (is_digits_no_char 2 (two_digits mi)),
      (is_digits_no_char 2 (two_digits s)) by (done || apply two_digits_digits; lia).
Qed.

(** [new Date] reads a date-time without offset as a local time. *)
Lemma new_Date_local_text y mo d h mi s :
  (0 <= y <= 9999)%Z -> valid_date y mo d = true ->
  (0 <= h <= 23)%Z -> (0 <= mi <= 59)%Z -> (0 <= s <= 59)%Z ->
  new_Date fallback UTC (local_text y mo d h mi s)
  = TimeClip (UTC (MakeDate (MakeDay y (mo - 1) d) (MakeTime h mi s 0))) ≫= TimeClip.
Proof.
  intros Hy Hv Hh Hmi Hs. unfold new_Date, Date_parse.
  by rewrite (iso_time_local_text UTC y mo d h mi s Hy Hv Hh Hmi Hs).
Qed.

(** C36 (functional): XML-RPC's own spelling, a compact date with a
    colon-separated time and no offset, is read as a local time. *)
Theorem dateTime_decode_xmlrpc_text y mo d h mi s :
  (0 <= y <= 9999)%Z -> valid_date y mo d = true ->
  (0 <= h <= 23)%Z -> (0 <= mi <= 59)%Z -> (0 <= s <= 59)%Z ->
  dateTime_decode fallback UTC
    (four_digits y ++ two_digits mo ++ two_digits d ++ "T" ++
     two_digits h ++ ":" ++ two_digits mi ++ ":" ++ two_digits s)
  = TimeClip (UTC (MakeDate (MakeDay y (mo - 1) d) (MakeTime h mi s 0))) ≫= TimeClip.
Proof.
  intros Hy Hv Hh Hmi Hs.
  by rewrite dateTime_decode_timed, new_Date_local_text.
Qed.

(** A compact time is not repaired: [20130513T000000Z]
    becomes [2013-05-13T000000Z], which is outside the format, so its date
    is up to the implementation, while [2013-05-13T00:00:00Z] is the instant
    1368403200000 everywhere. *)
Theorem dateTime_decode_compact_time :
  dateTime_decode fallback UTC "20130513T000000Z"
    = fallback "2013-05-13T000000Z" ≫= TimeClip /\
  dateTime_decode fallback UTC "2013-05-13T00:00:00Z" = Some 1368403200000%Z.
Proof.
  split.
  - rewrite dateTime_decode_plain by done.
    replace (replace compact_date_pattern hyphenate_template "20130513T000000Z")
      with "2013-05-13T000000Z" by (by vm_compute).
    unfold new_Date, Date_parse.
    by replace (iso_time UTC "2013-05-13T000000Z") with (@None Z) by (by vm_compute).
  - rewrite dateTime_decode_hyphenated by done. unfold new_Date, Date_parse.
    by replace (iso_time UTC "2013-05-13T00:00:00Z") with (Some 1368403200000%Z)
      by (by vm_compute).
Qed.

End CodecTheorems.

(** ** Bounds: what [_pad] is applied to *)

(** Time values of valid dates are integers a binary64 number holds exactly. *)
Lemma TimeClip_exact t t' : TimeClip t = Some t' -> t' = t /\ (Z.abs t' < 2 ^ 53)%Z.
Proof.
  unfold TimeClip. destruct (Z.leb_spec (Z.abs t) 8640000000000000); [|done].
  intros [= <-]. split; [done|]. change (2 ^ 53)%Z with 9007199254740992%Z. lia.
Qed.

(** C35 (bounds): for every time value, the five fields the encoder hands to
    [_pad] are within the calendar's bounds (month 1 to 12, day 1 to 31,
    hour 0 to 23, minute and second 0 to 59), so that each is written with
    exactly two digits; only the year, which is not padded, can be shorter
    or longer than four characters. *)
Theorem dateTime_encode_fields_bounded t :
  exists mo d h mi s : Z,
    ((1 <= mo <= 12) /\ (1 <= d <= 31) /\ (0 <= h <= 23) /\
     (0 <= mi <= 59) /\ (0 <= s <= 59))%Z /\
    dateTime_encode (Some jquery_pad) (Some t)
    = Normal (show_Z (YearFromTime t) ++ "-" ++ two_digits mo ++ "-" ++
              two_digits d ++ "T" ++ two_digits h ++ ":" ++ two_digits mi ++ ":" ++
              two_digits s ++ "Z").
Proof.
  pose proof (MonthFromTime_range t). pose proof (DateFromTime_range t).
  pose proof (days_in_month_range (InLeapYear t) (MonthFromTime t)).
  pose proof (time_fields_range t) as (? & ? & ? & ?).
  exists (MonthFromTime t + 1)%Z, (DateFromTime t), (HourFromTime t), (MinFromTime t),
    (SecFromTime t).
  split; [lia|]. unfold dateTime_encode. cbn [getUTCFullYear getUTCMonth getUTCDate
    getUTCHours getUTCMinutes getUTCSeconds fmap option_fmap option_map show_number].
  by rewrite !jquery_pad_two_digits by lia.
Qed.


(** ** Witnesses: an implementation without heuristics, one hour east of UTC *)

Definition no_heuristics (s : string) : date := None.
Definition one_hour_east (t : Z) : Z := (t - 3600000)%Z.

Lemma dateTime_round_trip_witness :
  exists text,
    dateTime_encode (Some jquery_pad) (Some 1368403200123%Z) = Normal text /\
    dateTime_decode no_heuristics one_hour_east text
    = Some (1368403200123 - 1368403200123 mod 1000)%Z.
Proof. apply (dateTime_round_trip no_heuristics one_hour_east 1368403200123). by vm_compute. Defined.

Lemma dateTime_decode_compact_witness :
  dateTime_decode no_heuristics one_hour_east ("1998" ++ "07" ++ "17" ++ "T14:08:55")
  = new_Date no_heuristics one_hour_east ("1998" ++ "-" ++ "07" ++ "-" ++ "17" ++ "T14:08:55").
Proof. by apply (dateTime_decode_compact no_heuristics one_hour_east "1998" "07" "17" "T" "14:08:55"). Defined.

Lemma dateTime_decode_compact_as_hyphenated_witness :
  dateTime_decode no_heuristics one_hour_east ("1998" ++ "07" ++ "17" ++ "T14:08:55")
  = dateTime_decode no_heuristics one_hour_east
      ("1998" ++ "-" ++ "07" ++ "-" ++ "17" ++ "T14:08:55").
Proof.
  by apply (dateTime_decode_compact_as_hyphenated no_heuristics one_hour_east
              "1998" "07" "17" "T" "14:08:55").
Defined.

Lemma dateTime_decode_hyphen_anywhere_witness :
  dateTime_decode no_heuristics one_hour_east ("19980717T14:08:55" ++ "-05:00")
  = new_Date no_heuristics one_hour_east ("19980717T14:08:55" ++ "-05:00").
Proof. by apply (dateTime_decode_hyphen_anywhere no_heuristics one_hour_east). Defined.

Lemma dateTime_decode_short_witness :
  dateTime_decode no_heuristics one_hour_east "20130513"
  = new_Date no_heuristics one_hour_east "20130513".
Proof. apply (dateTime_decode_short no_heuristics one_hour_east). simpl. lia. Defined.

Lemma dateTime_short_year_not_in_format_witness :
  exists text,
    dateTime_encode (Some jquery_pad) (Some (-30610224000001)%Z) = Normal text /\
    dateTime_decode no_heuristics one_hour_east text = no_heuristics text ≫= TimeClip.
Proof.
  apply (dateTime_short_year_not_in_format no_heuristics one_hour_east (-30610224000001)).
  by vm_compute.
Defined.

Lemma dateTime_decode_xmlrpc_text_witness :
  dateTime_decode no_heuristics one_hour_east
    (four_digits 1998 ++ two_digits 7 ++ two_digits 17 ++ "T" ++
     two_digits 14 ++ ":" ++ two_digits 8 ++ ":" ++ two_digits 55)
  = TimeClip (one_hour_east (MakeDate (MakeDay 1998 (7 - 1) 17) (MakeTime 14 8 55 0)))
      ≫= TimeClip.
Proof.
  apply (dateTime_decode_xmlrpc_text no_heuristics one_hour_east 1998 7 17 14 8 55);
    (done || lia).
Defined.
