(* ===== verification/Registry.v ===== *)
(** * The registration of the codec (src/src/bugzilla.js, line 129)

    [$.xmlrpc.makeType('dateTime.iso8601', true, encoder, decoder)] runs once,
    when the script is loaded: it puts the two functions of [DateCodec] into
    the transport's table of types, under the lower-cased name of the type,
    in place of the transport's own codec for dates.  From then on the
    transport encodes every [Date] it is given and decodes every
    [<dateTime.iso8601>] element it receives with them.

    The table and the way the transport consults it are modelled from the
    documentation of jquery.xmlrpc; the registration is the source's. *)

From S2P Require Import Prelude JsValue Regex JsDate DateCodec.
From stdpp Require Import gmap.

Local Open Scope string_scope.

(** ** The transport's table of types *)

(** An element of a simple type: its name and its text. *)
Record node : Type := Node { node_name : string; node_text : string }.

#[export] Instance node_eq_dec : EqDecision node.
Proof. solve_decision. Defined.

(** A type of the transport, for dates: how it writes one and how it reads
    an element. *)
Record codec : Type := Codec {
  encode : date -> comp exn node;
  decode : node -> date
}.

Definition registry : Type := gmap string codec.

(** [String.prototype.toLowerCase] on the characters of a type name. *)
Definition lower_ascii (c : ascii) : ascii :=
  let n := nat_of_ascii c in
  if (65 <=? n)%nat && (n <=? 90)%nat then ascii_of_nat (n + 32) else c.

Fixpoint lower (s : string) : string :=
  match s with
  | EmptyString => EmptyString
  | String c s' => String (lower_ascii c) (lower s')
  end.

(** A simple type: the encoder returns the text of the element, the decoder
    is given the text of the element. *)
Definition simple_codec (tagName : string) (enc : date -> comp exn string)
    (dec : string -> date) : codec :=
  {| encode := fun d => match enc d with
                        | Normal text => Normal (Node tagName text)
                        | Abrupt e => Abrupt e
                        end;
     decode := fun n => dec (node_text n) |}.

(** [$.xmlrpc.makeType(tagName, true, enc, dec)] *)
Definition makeType (tagName : string) (enc : date -> comp exn string)
    (dec : string -> date) (reg : registry) : registry :=
  <[lower tagName := simple_codec tagName enc dec]> reg.

(** How the transport writes a [Date] and reads an element. *)
Definition date_key : string := "datetime.iso8601".

Definition encode_date (reg : registry) (d : date) : comp exn node :=
  match reg !! date_key with
  | Some c => encode c d
  | None => Abrupt TypeError
  end.

Definition decode_node (reg : registry) (n : node) : option date :=
  c ← reg !! lower (node_name n); Some (decode c n).

(** The type of dates of a transport whose table has [c] for dates: a [Date]
    is written as the text of the element the encoder of [c] builds, and the
    text of a [<dateTime.iso8601>] element is read by the decoder of [c]. *)
Definition codec_dates (c : codec) : DateType := {|
  date_encode := fun d => node_text <$> encode c d;
  date_decode := fun text => decode c (Node "dateTime.iso8601" text)
|}.

Definition dates_of (reg : registry) : option DateType :=
  codec_dates <$> reg !! date_key.

Section Registration.

(** What [_pad] is bound to where the script runs, and the implementation's
    date heuristics and time zone. *)
Variable pad_binding : option (option Z -> string).
Variable fallback : string -> date.
Variable UTC : Z -> Z.

(** The codec jquery.xmlrpc registers for dates when it is loaded: the same
    encoder, inside the library where [_pad] is defined, and [new Date]. *)
Definition library_codec : codec :=
  simple_codec "dateTime.iso8601" (dateTime_encode (Some jquery_pad))
               (new_Date fallback UTC).

(** Line 129, with the functions of lines 129-144. *)
Definition register_dateTime (reg : registry) : registry :=
  makeType "dateTime.iso8601" (dateTime_encode pad_binding)
           (dateTime_decode fallback UTC) reg.

(** The type the table has for dates once line 129 has run. *)
Definition bugzilla_codec : codec :=
  simple_codec "dateTime.iso8601" (dateTime_encode pad_binding)
               (dateTime_decode fallback UTC).

End Registration.

(** ** Lemmas *)

Lemma lower_ascii_idemp c : lower_ascii (lower_ascii c) = lower_ascii c.
Proof. by destruct c as [[] [] [] [] [] [] [] []]. Qed.

Lemma lower_idemp s : lower (lower s) = lower s.
Proof. induction s as [|c s IH]; simpl; [done|]. by rewrite lower_ascii_idemp, IH. Qed.

Lemma lower_date_tag : lower "dateTime.iso8601" = date_key.
Proof. reflexivity. Qed.

Section RegistrationLemmas.
Variable pad_binding : option (option Z -> string).
Variable fallback : string -> date.
Variable UTC : Z -> Z.

Let register : registry -> registry := register_dateTime pad_binding fallback UTC.

Lemma register_lookup reg :
  register reg !! date_key = Some (bugzilla_codec pad_binding fallback UTC).
Proof. apply lookup_insert_eq. Qed.

(** After line 129 the transport works with the encoder and the decoder of
    the source, whatever was registered before. *)
Lemma dates_of_register reg :
  dates_of (register reg) = Some (codec_dates (bugzilla_codec pad_binding fallback UTC)).
Proof. unfold dates_of. by rewrite register_lookup. Qed.

Lemma bugzilla_dates_encode d :
  date_encode (DateType := codec_dates (bugzilla_codec pad_binding fallback UTC)) d
  = dateTime_encode pad_binding d.
Proof. simpl. by destruct (dateTime_encode pad_binding d). Qed.

Lemma bugzilla_dates_decode text :
  date_decode (DateType := codec_dates (bugzilla_codec pad_binding fallback UTC)) text
  = dateTime_decode fallback UTC text.
Proof. reflexivity. Qed.

Lemma library_dates_encode d :
  date_encode (DateType := codec_dates (library_codec fallback UTC)) d
  = dateTime_encode (Some jquery_pad) d.
Proof. reflexivity. Qed.

Lemma library_dates_decode text :
  date_decode (DateType := codec_dates (library_codec fallback UTC)) text
  = new_Date fallback UTC text.
Proof. reflexivity. Qed.

Lemma register_lookup_ne reg k : k <> date_key -> register reg !! k = reg !! k.
Proof. intros Hk. by apply lookup_insert_ne. Qed.

(** Loading the script twice is loading it once. *)
Lemma register_idemp reg : register (register reg) = register reg.
Proof. apply insert_insert_eq. Qed.

Lemma encode_date_register reg d :
  encode_date (register reg) d
  = match dateTime_encode pad_binding d with
    | Normal text => Normal (Node "dateTime.iso8601" text)
    | Abrupt e => Abrupt e
    end.
Proof. unfold encode_date. by rewrite register_lookup. Qed.

(** An element is a date element whatever the case of its name. *)
Lemma decode_node_register reg name text :
  lower name = date_key ->
  decode_node (register reg) (Node name text) = Some (dateTime_decode fallback UTC text).
Proof. intros Hn. unfold decode_node. cbn [node_name]. by rewrite Hn, register_lookup. Qed.

Lemma decode_node_library reg name text :
  lower name = date_key -> reg !! date_key = Some (library_codec fallback UTC) ->
  decode_node reg (Node name text) = Some (new_Date fallback UTC text).
Proof. intros Hn Hreg. unfold decode_node. cbn [node_name]. by rewrite Hn, Hreg. Qed.

End RegistrationLemmas.

(** ** What the registration changes *)

Section RegistrationTheorems.
Variable fallback : string -> date.
Variable UTC : Z -> Z.

(** Decoding: the registration changes what a text without any hyphen is
    read as, and nothing else. *)
Lemma register_decoding pad_binding reg name text :
  lower name = date_key -> reg !! date_key = Some (library_codec fallback UTC) ->
  decode_node (register_dateTime pad_binding fallback UTC reg) (Node name text)
  = decode_node reg
      (Node name (if contains "-" text then text
                  else replace compact_date_pattern hyphenate_template text)).
Proof.
  intros Hn Hreg. rewrite decode_node_register, (decode_node_library _ _ _ _ _ Hn Hreg) by done.
  f_equal. destruct (contains "-" text) eqn:Hc.
  - by apply dateTime_decode_hyphenated.
  - by apply dateTime_decode_plain.
Qed.

(** With [_pad] bound to the library's function, a date goes through the
    table and back. *)
Lemma registry_round_trip reg t :
  (1000 <= YearFromTime t <= 9999)%Z ->
  exists n,
    encode_date (register_dateTime (Some jquery_pad) fallback UTC reg) (Some t) = Normal n /\
    decode_node (register_dateTime (Some jquery_pad) fallback UTC reg) n
    = Some (Some (t - t mod 1000)%Z).
Proof.
  intros Hy. eexists. split.
  - by rewrite encode_date_register, dateTime_encode_text.
  - rewrite decode_node_register by done. f_equal. by apply dateTime_decode_encoded.
Qed.

(** C30 (error): the registration breaks the sending of dates.  Before the
    script is loaded the transport writes a date with the library's own
    codec; the script replaces it by a copy of the same encoder outside the
    library, where [_pad] is not defined: once the script is loaded in a
    page that has no global [_pad], writing any date throws a
    ReferenceError, whatever else is in the table. *)
Theorem registration_breaks_date_encoding reg t :
  reg !! date_key = Some (library_codec fallback UTC) ->
  (1000 <= YearFromTime t <= 9999)%Z ->
  encode_date reg (Some t)
  = Normal (Node "dateTime.iso8601"
              (iso_text (YearFromTime t) (MonthFromTime t + 1) (DateFromTime t)
                        (HourFromTime t) (MinFromTime t) (SecFromTime t))) /\
  forall d, encode_date (register_dateTime None fallback UTC reg) d
            = Abrupt (ReferenceError "_pad").
Proof.
  intros Hreg Hy. split.
  - unfold encode_date. rewrite Hreg. cbn [library_codec simple_codec encode].
    by rewrite dateTime_encode_text.
  - intros d. by rewrite encode_date_register.
Qed.

End RegistrationTheorems.

(** The table of a page that has loaded jquery.xmlrpc, for the witness. *)
Definition library_registry : registry :=
  {[ date_key := library_codec no_heuristics one_hour_east ]}.

Lemma registration_breaks_date_encoding_witness :
  encode_date library_registry (Some 1368403200000%Z)
  = Normal (Node "dateTime.iso8601" "2013-05-13T00:00:00Z") /\
  forall d, encode_date (register_dateTime None no_heuristics one_hour_east
                                           library_registry) d
            = Abrupt (ReferenceError "_pad").
Proof.
  apply (registration_breaks_date_encoding no_heuristics one_hour_east library_registry
           1368403200000%Z); [apply lookup_singleton_eq|by vm_compute].
Defined.
