(* ===== verification/Bugzilla.v ===== *)
(** * The Bugzilla client: constructor and fixtures (src/src/bugzilla.js, lines 6-15)

    The constructor of the client, and the stores, servers and response
    bodies the witnesses of the other files run against.  Methods take
    [this] as their first argument; an argument the caller omits is
    [VUndefined]. *)

From S2P Require Import Prelude JsValue XmlRpc Regex JsDate DateCodec Registry.
From stdpp Require Import gmap.

(** The URL the constructor stores (line 14). *)
Definition bugzilla_url : string := "https://bugzilla.dtec.com/xmlrpc.cgi".

(** [var Bugzilla = function() { this.url = '...'; }] *)
Definition Bugzilla (this : value) : js unit :=
  set_prop this "url" (VString bugzilla_url).

(** [new Bugzilla()]: a fresh object, initialised by the constructor. *)
Definition new_Bugzilla : js value :=
  this ← alloc (OObject ∅);
  _ ← Bugzilla this;
  mret this.

(** ** Fixtures for the witnesses: an empty store, a client built by the
    constructor, and servers that always fail or always answer one body. *)

Definition empty_world : world := World ∅ [].

(** The type the page of the witnesses has for dates: the one line 129
    registers, where no global [_pad] exists, the implementation parses
    nothing but the standard's format and local time is one hour east of
    UTC.  [library_dates] is the one it replaces. *)
Definition page_dates : DateType :=
  codec_dates (bugzilla_codec None no_heuristics one_hour_east).

Definition library_dates : DateType :=
  codec_dates (library_codec no_heuristics one_hour_east).

Definition fresh_client : value * world :=
  match new_Bugzilla empty_world with
  | (Normal v, w) => (v, w)
  | (Abrupt _, w) => (VUndefined, w)
  end.

Definition failing_server (rq : request) : reply :=
  RFail VNull (VString "error") (VString "Not Found").

Definition constant_server (body : string) (rq : request) : reply :=
  RBody VNull body.

Definition seven : value := VNumber (num_of_Z 7).
Definition eight : value := VNumber (num_of_Z 8).

(** The store of [fresh_client] with an object [{status: "RESOLVED"}] beside
    the client, as a caller of [updateBug] would have built it. *)
Definition fields_object : value * world :=
  match new_object [("status", VString "RESOLVED")] fresh_client.2 with
  | (Normal v, w) => (v, w)
  | (Abrupt _, w) => (VUndefined, w)
  end.

(** The bodies the witnesses' servers answer, with the trees they decode to. *)
Definition demo_table : list (string * tree) :=
  [("IDS", TArr [TObj {[ "ids" := TArr [TNumber (num_of_Z 1); TNumber (num_of_Z 2);
                                        TNumber (num_of_Z 3)] ]}]);
   ("PRODUCTS</methodResponse>", TArr [TObj {[ "products" := TArr [] ]}]);
   ("VERSION", TArr [TObj {[ "version" := TString "4.4" ]}]);
   ("BUGS", TArr [TObj {[ "bugs" := TArr [] ]}]);
   ("EMPTY", TArr [])].

(** A server that answers each method with its body of [demo_table]; the
    products come back with a broken closing tag and trailing bytes. *)
Definition demo_server (rq : request) : reply :=
  if String.eqb (rq_method rq) "Product.get_enterable_products" then RBody VNull "IDS"
  else if String.eqb (rq_method rq) "Product.get" then RBody VNull "PRODUCTS</methodRes?>"
  else if String.eqb (rq_method rq) "Bugzilla.version" then RBody VNull "VERSION"
  else RBody VNull "BUGS".


(** ** The constructor *)

Lemma url_is_name : is_name "url".
Proof. by split. Qed.

(** C28 (functional): [new Bugzilla()] allocates one fresh object whose only
    property is [url], the fixed endpoint; no other object of the store
    changes and nothing is logged. *)
Theorem new_Bugzilla_has_url w :
  let l := fresh_loc (heap w) in
  let w' := World (<[l := OObject {[ "url" := VString bugzilla_url ]}]> (heap w))
                  (console w) in
  evals new_Bugzilla w (VRef l) w' /\ heap w !! l = None /\ w ⊑ w' /\
  evals (get_prop (VRef l) "url") w' (VString bugzilla_url) w'.
Proof.
  intros l w'. pose proof (fresh_loc_None (heap w)) as Hl. fold l in Hl.
  split; [|split; [done|split]].
  - unfold new_Bugzilla, Bugzilla. eapply evals_bind; [apply evals_alloc|].
    eapply evals_bind; [|apply evals_ret].
    unfold evals. rewrite (set_prop_name _ (OObject ∅)); [|apply lookup_insert_eq|apply url_is_name].
    cbn [heap console store_name]. fold l. by rewrite insert_insert_eq, insert_empty.
  - split; [|done]. by apply insert_subseteq.
  - pose proof (evals_get_prop_ref l _ "url" w' (lookup_insert_eq _ _ _)) as H.
    cbn [own_prop] in H. by rewrite lookup_singleton_eq in H.
Qed.

(** The constructor called on a [this] that is not an object
    (called without [new], the function being strict) throws a TypeError and
    leaves the store as it was. *)
Theorem Bugzilla_without_new this w :
  (forall l, this <> VRef l) -> raises (Bugzilla this) w TypeError w.
Proof. intros Hthis. by apply raises_set_prop_primitive. Qed.

Lemma Bugzilla_without_new_witness :
  raises (Bugzilla VUndefined) empty_world TypeError empty_world.
Proof. apply Bugzilla_without_new. discriminate. Defined.
