(* ===== verification/ProductsFilter.v ===== *)
(** * The response repair filter of getProducts (src/src/bugzilla.js, lines 117-120)

    [data.replace(/<\/methodR.*/, '</methodResponse>')] as a function on
    strings: what it does to every body, stated against a reference
    definition that searches for the literal text and cuts the line. *)

From S2P Require Import Prelude Regex.

Local Open Scope string_scope.

(** The pattern [/<\/methodR.*/] (line 119). *)
Definition methodR_pattern : regex := RSeq (lit "</methodR") (RStar CDot).

(** [function(data, type) { return data.replace(/<\/methodR.*/, '</methodResponse>'); }] *)
Definition products_dataFilter (data : string) : string :=
  replace methodR_pattern "</methodResponse>" data.

(** The text the pattern starts with, and the replacement. *)
Definition close_prefix : string := "</methodR".
Definition close_tag : string := "</methodResponse>".

(** The line [s] starts with, and what follows it (empty, or starting with a
    line terminator). *)
Definition line_head (s : string) : string := (span CDot s).1.
Definition line_tail (s : string) : string := (span CDot s).2.

(** Reference definition of the filter: from the first [</methodR] to the end
    of its line, the body is replaced by the closing tag. *)
Definition repair (data : string) : string :=
  match find_first close_prefix data with
  | Some (pre, rest) => pre ++ close_tag ++ line_tail rest
  | None => data
  end.

(** [data] contains [</methodR]. *)
Definition has_close_prefix (data : string) : Prop :=
  exists pre rest, data = pre ++ close_prefix ++ rest.

Lemma line_split s : s = line_head s ++ line_tail s.
Proof. apply span_app. Qed.

Lemma line_tail_starts s :
  match line_tail s with
  | String a _ => is_line_terminator a = true
  | EmptyString => True
  end.
Proof.
  pose proof (span_rest CDot s) as H. unfold line_tail.
  destruct (span CDot s).2 as [|a t]; [done|]. simpl in H.
  by destruct (is_line_terminator a).
Qed.

Lemma line_tail_idemp s : line_tail (line_tail s) = line_tail s.
Proof.
  unfold line_tail at 1. rewrite span_stops; [done|].
  pose proof (line_tail_starts s) as H. destruct (line_tail s); [done|].
  simpl. by rewrite H.
Qed.

(** A stretch without line terminators belongs to the line. *)
Lemma line_tail_app h s : line_tail h = "" -> line_tail (h ++ s) = line_tail s.
Proof. unfold line_tail. intros Hh. by rewrite span_run. Qed.

Lemma exec_methodR data :
  exec methodR_pattern data =
  match find_first close_prefix data with
  | Some (pre, rest) =>
      Some (String.length pre,
            MState (String.length pre + 9 + String.length (line_head rest))
                   (line_tail rest) [])
  | None => None
  end.
Proof. unfold exec, methodR_pattern. by rewrite scan_lit_star. Qed.

(** The call of [replace] the filter makes, against the reference. *)
Lemma replace_methodR data : replace methodR_pattern close_tag data = repair data.
Proof.
  unfold repair. pose proof (replace_spec methodR_pattern close_tag data) as H.
  rewrite exec_methodR in H.
  destruct (find_first close_prefix data) as [[pre rest]|] eqn:Hf; [|done].
  destruct H as (pre0 & m & Hin & Hlen & ->). cbn [ms_rest ms_caps] in *.
  apply find_first_Some in Hf. rewrite Hf in Hin.
  by destruct (string_app_inv _ _ _ _ Hin (eq_sym Hlen)) as [-> _].
Qed.

(** ** The reference on the bodies of interest *)

Lemma repair_first pre rest :
  first_at close_prefix pre rest ->
  repair (pre ++ close_prefix ++ rest) = pre ++ close_tag ++ line_tail rest.
Proof. intros Hf. unfold repair. by rewrite find_first_at. Qed.

Lemma repair_without data : ~ has_close_prefix data -> repair data = data.
Proof.
  intros Hn. unfold repair.
  destruct (find_first close_prefix data) as [[pre rest]|] eqn:Hf; [|done].
  destruct Hn. exists pre, rest. by apply find_first_Some.
Qed.

Lemma repair_truncated pre junk :
  first_at close_prefix pre junk -> line_tail junk = "" ->
  repair (pre ++ close_prefix ++ junk) = pre ++ close_tag.
Proof. intros Hf Hj. by rewrite repair_first, Hj, string_app_nil_r. Qed.

Lemma repair_later_lines pre junk nl later :
  first_at close_prefix pre junk -> line_tail junk = "" ->
  is_line_terminator nl = true ->
  repair (pre ++ close_prefix ++ junk ++ String nl later) =
  pre ++ close_tag ++ String nl later.
Proof.
  intros Hf Hj Hnl. rewrite repair_first by (by eapply first_at_rest).
  rewrite line_tail_app by done. unfold line_tail. rewrite span_stops; [done|].
  simpl. by rewrite Hnl.
Qed.

Lemma repair_idemp data : repair (repair data) = repair data.
Proof.
  unfold repair at 2 3.
  destruct (find_first close_prefix data) as [[pre rest]|] eqn:Hf.
  - change close_tag with (close_prefix ++ "esponse>").
    rewrite string_app_assoc, repair_first.
    + by rewrite line_tail_app, line_tail_idemp.
    + eapply first_at_rest, find_first_first_at, Hf.
  - unfold repair. by rewrite Hf.
Qed.

(** The two hypotheses of the theorems below are decided by [find_first]. *)
Lemma first_at_decide p pre rest :
  find_first p (pre ++ p ++ rest) = Some (pre, rest) <-> first_at p pre rest.
Proof. split; [apply find_first_first_at|apply find_first_at]. Qed.

Lemma has_close_prefix_decide data :
  find_first close_prefix data = None <-> ~ has_close_prefix data.
Proof.
  split.
  - intros Hn (pre & rest & E). by apply (find_first_None _ _ Hn pre rest).
  - intros Hn. destruct (find_first close_prefix data) as [[pre rest]|] eqn:Hf; [|done].
    destruct Hn. exists pre, rest. by apply find_first_Some.
Qed.

(** ** The filter *)

(** C23 (equivalence): the filter is the reference [repair]: it looks for the
    first [</methodR]; when there is none the body is returned as it is;
    otherwise what precedes it is kept, the closing tag is put in its place,
    the rest of that line is dropped, and everything from the next line
    terminator on is kept. *)
Theorem products_dataFilter_repair data : products_dataFilter data = repair data.
Proof. apply replace_methodR. Qed.

(** On a body whose first [</methodR] comes after [pre],
    the filter keeps [pre], writes [</methodResponse>], drops the rest of the
    line and keeps what follows the line. *)
Theorem products_dataFilter_first_tag pre rest :
  first_at close_prefix pre rest ->
  products_dataFilter (pre ++ close_prefix ++ rest) =
  pre ++ close_tag ++ line_tail rest.
Proof. intros Hf. unfold products_dataFilter. by rewrite replace_methodR, repair_first. Qed.

(** C24 (functional): a body without [</methodR] is returned as it is; in
    particular a body with [<methodR] but no slash is not repaired. *)
Theorem products_dataFilter_unchanged_without_tag data :
  ~ has_close_prefix data -> products_dataFilter data = data.
Proof. intros Hn. unfold products_dataFilter. by rewrite replace_methodR, repair_without. Qed.

(** The repair the filter exists for: when the body ends
    in a closing tag cut short or followed by junk on the same line, the
    result ends in [</methodResponse>] with nothing after it. *)
Theorem products_dataFilter_truncated_tag pre junk :
  first_at close_prefix pre junk ->
  line_tail junk = "" ->
  products_dataFilter (pre ++ close_prefix ++ junk) = pre ++ close_tag.
Proof.
  intros Hf Hj. unfold products_dataFilter. by rewrite replace_methodR, repair_truncated.
Qed.

(** C26 (functional): the match stops at the first line terminator: junk
    after the tag on the same line is dropped, and every later line of the
    body is kept after the closing tag. *)
Theorem products_dataFilter_keeps_later_lines pre junk nl later :
  first_at close_prefix pre junk ->
  line_tail junk = "" ->
  is_line_terminator nl = true ->
  products_dataFilter (pre ++ close_prefix ++ junk ++ String nl later) =
  pre ++ close_tag ++ String nl later.
Proof.
  intros Hf Hj Hnl. unfold products_dataFilter.
  by rewrite replace_methodR, repair_later_lines.
Qed.

(** A body that already ends in [</methodResponse>], with
    no earlier [</methodR], goes through the filter unchanged. *)
Theorem products_dataFilter_keeps_wellformed pre :
  first_at close_prefix pre "esponse>" ->
  products_dataFilter (pre ++ close_tag) = pre ++ close_tag.
Proof.
  intros Hf. unfold products_dataFilter. rewrite replace_methodR.
  change close_tag with (close_prefix ++ "esponse>"). by apply repair_truncated.
Qed.

(** The filter is idempotent: a repaired body is not
    changed by a second pass. *)
Theorem products_dataFilter_idempotent data :
  products_dataFilter (products_dataFilter data) = products_dataFilter data.
Proof. unfold products_dataFilter. rewrite !replace_methodR. apply repair_idemp. Qed.

(** ** Witnesses *)

Lemma products_dataFilter_first_tag_witness :
  products_dataFilter ("<a>1</a>" ++ close_prefix ++ "espo" ++ String "010" "<!-- x -->") =
  "<a>1</a>" ++ close_tag ++ String "010" "<!-- x -->".
Proof.
  apply (products_dataFilter_first_tag "<a>1</a>" ("espo" ++ String "010" "<!-- x -->")).
  by apply first_at_decide.
Defined.

Lemma products_dataFilter_unchanged_without_tag_witness :
  products_dataFilter "<x><methodResponse>" = "<x><methodResponse>".
Proof.
  apply products_dataFilter_unchanged_without_tag. by apply has_close_prefix_decide.
Defined.

Lemma products_dataFilter_truncated_tag_witness :
  products_dataFilter ("<a>1</a>" ++ close_prefix ++ "es <b>junk") = "<a>1</a>" ++ close_tag.
Proof.
  apply (products_dataFilter_truncated_tag "<a>1</a>" "es <b>junk"); [|done].
  by apply first_at_decide.
Defined.

Lemma products_dataFilter_keeps_later_lines_witness :
  products_dataFilter ("<a>1</a>" ++ close_prefix ++ "es" ++ String "013" "bytes") =
  "<a>1</a>" ++ close_tag ++ String "013" "bytes".
Proof.
  apply (products_dataFilter_keeps_later_lines "<a>1</a>" "es" "013" "bytes"); [|done..].
  by apply first_at_decide.
Defined.

Lemma products_dataFilter_keeps_wellformed_witness :
  products_dataFilter ("<methodResponse><a>1</a>" ++ close_tag) =
  "<methodResponse><a>1</a>" ++ close_tag.
Proof.
  apply (products_dataFilter_keeps_wellformed "<methodResponse><a>1</a>").
  by apply first_at_decide.
Defined.
