(* ===== verification/BugzillaCalls.v ===== *)
(** * The operations that are one call: getBug, addComment, updateBug, searchBugs
    (src/src/bugzilla.js, lines 41-99)

    One definition per function of the source, written in the order the code
    evaluates: the synchronous part (reading [this.url], building the
    parameter objects, mutating the caller's object) in the [js] monad, the
    call of [$.xmlrpc] as a process.  The theorems say what each function
    sends, how its promise settles, and what it does to the store, for every
    server and every transport. *)

From S2P Require Import Prelude JsValue XmlRpc Regex Bugzilla.
From stdpp Require Import gmap.

(** The settings of a call that passes neither callbacks nor a filter. *)
Definition plain (u : value) (m : string) (ps : value) : settings :=
  {| url := u; methodName := m; params := Some ps;
     success := None; error := None; dataFilter := None |}.

(** The object literals the functions pass to [$.xmlrpc], evaluated in source
    order: [this.url] first, then the parameters from the inside out. *)


(** getBug, lines 44-48 *)
Definition getBug_settings (this bugId : value) : js settings :=
  u ← get_prop this "url";
  ids ← new_array [bugId];
  o ← new_object [("ids", ids)];
  ps ← new_array [o];
  mret (plain u "Bug.get" ps).

(** addComment, lines 60-66 *)
Definition addComment_settings (this bugId comment hoursWorked : value) : js settings :=
  let hoursWorked := js_or hoursWorked (VNumber (num_of_Z 0)) in
  u ← get_prop this "url";
  o ← new_object [("id", bugId); ("comment", comment); ("work_time", hoursWorked)];
  ps ← new_array [o];
  mret (plain u "Bug.add_comment" ps).

(** updateBug, lines 77-83: the caller's object is changed in place before
    the settings are built. *)
Definition updateBug_settings (this bugId params : value) : js settings :=
  _ ← require_object_coercible params;
  ids ← new_array [bugId];
  _ ← set_prop params "ids" ids;
  u ← get_prop this "url";
  ps ← new_array [params];
  mret (plain u "Bug.update" ps).

(** searchBugs, lines 94-98 *)
Definition searchBugs_settings (this searchCriteria : value) : js settings :=
  u ← get_prop this "url";
  ps ← new_array [searchCriteria];
  mret (plain u "Bug.search" ps).

Section Client.
Context {TR : Transport}.

(** [Bugzilla.prototype.getBug] (lines 41-49) *)
Definition getBug (this bugId : value) : async settled :=
  sync (getBug_settings this bugId) xmlrpc.

(** [Bugzilla.prototype.addComment] (lines 58-67) *)
Definition addComment (this bugId comment hoursWorked : value) : async settled :=
  sync (addComment_settings this bugId comment hoursWorked) xmlrpc.

(** [Bugzilla.prototype.updateBug] (lines 75-84) *)
Definition updateBug (this bugId params : value) : async settled :=
  sync (updateBug_settings this bugId params) xmlrpc.

(** [Bugzilla.prototype.searchBugs] (lines 91-99) *)
Definition searchBugs (this searchCriteria : value) : async settled :=
  sync (searchBugs_settings this searchCriteria) xmlrpc.

End Client.

(** ** The four operations that return the promise of one call

    [bz.getBug(id)], [bz.addComment(id, text, hours)], [bz.updateBug(id, ps)]
    and [bz.searchBugs(criteria)] have one shape: build the settings, return
    [$.xmlrpc(settings)].  [data_call] names a call of one of them, so that
    what they share is stated once. *)

Inductive data_call : Type :=
| CallGetBug (bugId : value)
| CallAddComment (bugId comment hoursWorked : value)
| CallUpdateBug (bugId params : value)
| CallSearchBugs (searchCriteria : value).

Definition call_settings (this : value) (c : data_call) : js settings :=
  match c with
  | CallGetBug bugId => getBug_settings this bugId
  | CallAddComment bugId comment hoursWorked =>
      addComment_settings this bugId comment hoursWorked
  | CallUpdateBug bugId params => updateBug_settings this bugId params
  | CallSearchBugs searchCriteria => searchBugs_settings this searchCriteria
  end.

Definition invoke {TR : Transport} (this : value) (c : data_call) : async settled :=
  match c with
  | CallGetBug bugId => getBug this bugId
  | CallAddComment bugId comment hoursWorked =>
      addComment this bugId comment hoursWorked
  | CallUpdateBug bugId params => updateBug this bugId params
  | CallSearchBugs searchCriteria => searchBugs this searchCriteria
  end.

(** ** The settings each function builds

    The lemmas hold whatever type is registered for dates. *)

Section Settings.
Context {DT : DateType}.

Lemma ids_is_name : is_name "ids".
Proof. by split. Qed.

Lemma getBug_settings_spec this bugId w u t :
  evals (get_prop this "url") w u w ->
  serializes (heap w) bugId t ->
  exists ps w',
    evals (getBug_settings this bugId) w (plain u "Bug.get" ps) w' /\
    w ⊑ w' /\
    serializes (heap w') ps (TArr [TObj {[ "ids" := TArr [t] ]}]).
Proof.
  intros Hu Ht. unfold evals, getBug_settings. st_run. rewrite Hu. js_step.
  eexists _, _. split; [reflexivity|]. split.
  - world_le_tac.
  - cbn [heap]. apply serializes_new_array. constructor; [|constructor].
    apply serializes_singleton_object.
    apply serializes_new_array. constructor; [done|constructor].
Qed.

Lemma addComment_settings_spec this bugId comment hoursWorked w u tb tc th :
  evals (get_prop this "url") w u w ->
  serializes (heap w) bugId tb ->
  serializes (heap w) comment tc ->
  serializes (heap w) (js_or hoursWorked (VNumber (num_of_Z 0))) th ->
  exists ps w',
    evals (addComment_settings this bugId comment hoursWorked) w
          (plain u "Bug.add_comment" ps) w' /\
    w ⊑ w' /\
    serializes (heap w') ps
      (TArr [TObj {[ "id" := tb; "comment" := tc; "work_time" := th ]}]).
Proof.
  intros Hu Hb Hc Hh. unfold evals, addComment_settings. st_run. rewrite Hu. js_step.
  eexists _, _. split; [reflexivity|]. split.
  - world_le_tac.
  - cbn [heap]. apply serializes_new_array. constructor; [|constructor].
    replace ({[ "id" := tb; "comment" := tc; "work_time" := th ]} : gmap string tree)
      with (list_to_map (reverse [("id", tb); ("comment", tc); ("work_time", th)])
              : gmap string tree) by reflexivity.
    apply serializes_object_literal. repeat constructor; done.
Qed.

Lemma searchBugs_settings_spec this searchCriteria w u t :
  evals (get_prop this "url") w u w ->
  serializes (heap w) searchCriteria t ->
  exists ps w',
    evals (searchBugs_settings this searchCriteria) w (plain u "Bug.search" ps) w' /\
    w ⊑ w' /\
    serializes (heap w') ps (TArr [t]).
Proof.
  intros Hu Ht. unfold evals, searchBugs_settings. st_run. rewrite Hu. js_step.
  eexists _, _. split; [reflexivity|]. split; [world_le_tac|].
  cbn [heap]. apply serializes_new_array. constructor; [done|constructor].
Qed.

(** What [updateBug] has done to the store when it returns: a fresh array
    [[bugId]] exists, the caller's object has it as its [ids] (and is
    otherwise as before), every other object is untouched. *)
Record updated (w : world) (lp : loc) (o : object) (bugId : value) (w' : world) : Prop := {
  upd_ids : exists l, heap w !! l = None /\
                      heap w' !! l = Some (OArray [bugId] ∅) /\
                      heap w' !! lp = Some (store_name o "ids" (VRef l));
  upd_console : console w' = console w;
  upd_others : forall l', l' <> lp -> is_Some (heap w !! l') -> heap w' !! l' = heap w !! l'
}.

Section UpdateBugSettings.
Variables (this bugId u : value) (lp : loc) (o : object) (w : world).
Hypothesis Hu : evals (get_prop this "url") w u w.
Hypothesis Ho : heap w !! lp = Some o.

Let l1 : loc := fresh_loc (heap w).
Let h1 : gmap loc object := <[l1 := OArray [bugId] ∅]> (heap w).
Let h2 : gmap loc object := <[lp := store_name o "ids" (VRef l1)]> h1.
Let w3 : world := World (<[fresh_loc h2 := OArray [VRef lp] ∅]> h2) (console w).

Lemma updateBug_fresh_ne : l1 <> lp.
Proof. intros E. pose proof (fresh_loc_None (heap w)) as Hf. fold l1 in Hf. congruence. Qed.

Lemma updateBug_settings_evals :
  evals (updateBug_settings this bugId (VRef lp)) w
        (plain u "Bug.update" (VRef (fresh_loc h2))) w3.
Proof.
  pose proof updateBug_fresh_ne as Hne.
  assert (Ho1 : h1 !! lp = Some o) by (unfold h1; by rewrite lookup_insert_ne).
  unfold updateBug_settings.
  eapply evals_bind; [by apply evals_require_object_coercible|].
  eapply evals_bind; [apply evals_new_array|].
  eapply evals_bind; [by apply evals_set_prop_name; [exact Ho1|apply ids_is_name]|].
  eapply evals_bind;
    [|eapply evals_bind;
       [apply (evals_new_array _ (World h2 (console w)))|apply evals_ret]].
  apply (evals_get_prop_store _ _ (World h1 (console w)) _ (World h1 (console w)));
    [|done..].
  eapply evals_get_prop_extends; [exact Hu|apply world_le_alloc].
Qed.

Lemma updateBug_settings_updated : updated w lp o bugId w3.
Proof.
  pose proof updateBug_fresh_ne as Hne.
  assert (H1 : h2 !! l1 = Some (OArray [bugId] ∅)).
  { unfold h2, h1. by rewrite lookup_insert_ne, lookup_insert_eq. }
  assert (H2 : h2 !! lp = Some (store_name o "ids" (VRef l1))).
  { unfold h2. by rewrite lookup_insert_eq. }
  split; cbn [heap console w3]; [|done|].
  - exists l1. split; [apply fresh_loc_None|].
    by rewrite !lookup_alloc_ne by (by eexists).
  - intros l' Hl' [o' Ho'].
    assert (H3 : h2 !! l' = Some o').
    { unfold h2, h1. rewrite !lookup_insert_ne; [done| |done].
      intros <-. unfold l1 in Ho'. by rewrite fresh_loc_None in Ho'. }
    rewrite lookup_alloc_ne by (by eexists). congruence.
Qed.

(** The caller's object once [ids] is stored: its tree is the one it had,
    with [ids] replaced. *)
Lemma updateBug_settings_stored t T :
  prim_tree bugId = Some t ->
  serializes (heap w) (VRef lp) T ->
  serializes h2 (VRef lp) (tree_store "ids" (TArr [t]) T).
Proof.
  intros Ht HT. pose proof updateBug_fresh_ne as Hne.
  assert (Ho1 : h1 !! lp = Some o) by (unfold h1; by rewrite lookup_insert_ne).
  apply serializes_store_name; [done|by apply serializes_alloc|].
  replace (size h1) with (S (size (heap w))) by (symmetry; apply alloc_size).
  eapply reify_array.
  - unfold h1. by rewrite lookup_insert_ne, lookup_insert_eq.
  - constructor; [by apply reify_prim|constructor].
Qed.

Lemma updateBug_settings_serializes t T :
  prim_tree bugId = Some t ->
  serializes (heap w) (VRef lp) T ->
  serializes (heap w3) (VRef (fresh_loc h2)) (TArr [tree_store "ids" (TArr [t]) T]).
Proof.
  intros Ht HT. cbn [heap w3]. apply serializes_new_array.
  constructor; [by apply updateBug_settings_stored|constructor].
Qed.

(** What the call leaves is what the next call on the same object needs. *)
Lemma updateBug_settings_again t T :
  prim_tree bugId = Some t ->
  serializes (heap w) (VRef lp) T ->
  evals (get_prop this "url") w3 u w3 /\
  is_Some (heap w3 !! lp) /\
  serializes (heap w3) (VRef lp) (tree_store "ids" (TArr [t]) T).
Proof.
  intros Ht HT. pose proof updateBug_fresh_ne as Hne. split; [|split].
  - apply (evals_get_prop_extends _ _ (World h2 (console w)) _ (World h2 (console w)));
      [|apply (world_le_alloc (World h2 (console w)))].
    assert (Ho1 : h1 !! lp = Some o) by (unfold h1; by rewrite lookup_insert_ne).
    apply (evals_get_prop_store _ _ (World h1 (console w)) _ (World h1 (console w)));
      [|done..].
    eapply evals_get_prop_extends; [exact Hu|apply world_le_alloc].
  - destruct updateBug_settings_updated as [(l & _ & _ & Hlp) _ _]. by eexists.
  - cbn [heap w3]. by apply serializes_alloc, updateBug_settings_stored.
Qed.

End UpdateBugSettings.

Lemma updateBug_settings_spec this bugId lp o w u t T :
  evals (get_prop this "url") w u w ->
  prim_tree bugId = Some t ->
  heap w !! lp = Some o ->
  serializes (heap w) (VRef lp) T ->
  exists ps w',
    evals (updateBug_settings this bugId (VRef lp)) w (plain u "Bug.update" ps) w' /\
    updated w lp o bugId w' /\
    serializes (heap w') ps (TArr [tree_store "ids" (TArr [t]) T]).
Proof.
  intros Hu Ht Ho HT. eexists _, _. split; [|split].
  - by apply updateBug_settings_evals.
  - by apply updateBug_settings_updated.
  - by apply updateBug_settings_serializes.
Qed.

Lemma updateBug_settings_reusable this bugId lp o w u t T :
  evals (get_prop this "url") w u w ->
  prim_tree bugId = Some t ->
  heap w !! lp = Some o ->
  serializes (heap w) (VRef lp) T ->
  exists ps w',
    evals (updateBug_settings this bugId (VRef lp)) w (plain u "Bug.update" ps) w' /\
    serializes (heap w') ps (TArr [tree_store "ids" (TArr [t]) T]) /\
    evals (get_prop this "url") w' u w' /\
    is_Some (heap w' !! lp) /\
    serializes (heap w') (VRef lp) (tree_store "ids" (TArr [t]) T).
Proof.
  intros Hu Ht Ho HT. eexists _, _. split; [|split].
  - by apply updateBug_settings_evals.
  - by apply updateBug_settings_serializes.
  - by apply updateBug_settings_again.
Qed.

Lemma updateBug_settings_raises this bugId params w :
  (forall l, params <> VRef l) ->
  exists w', raises (updateBug_settings this bugId params) w TypeError w' /\ w ⊑ w'.
Proof.
  intros Hp. unfold updateBug_settings.
  destruct (is_nullish params) eqn:Hn.
  - exists w. split; [|done].
    by apply raises_bind_l, raises_require_object_coercible.
  - eexists. split.
    + eapply raises_bind_r; [by apply evals_require_object_coercible|].
      eapply raises_bind_r; [apply evals_new_array|].
      by apply raises_bind_l, raises_set_prop_primitive.
    + apply world_le_alloc.
Qed.

(** [updateBug] on a client that is undefined or null: line 77 has run when
    [this.url] (line 80) throws. *)
Lemma updateBug_settings_detached this bugId lp o w :
  is_nullish this = true -> heap w !! lp = Some o ->
  exists w', raises (updateBug_settings this bugId (VRef lp)) w TypeError w' /\
             updated w lp o bugId w'.
Proof.
  intros Hn Ho. pose proof (fresh_loc_None (heap w)) as Hf.
  assert (Hne : fresh_loc (heap w) <> lp) by congruence.
  eexists. split.
  - unfold updateBug_settings.
    eapply raises_bind_r; [by apply evals_require_object_coercible|].
    eapply raises_bind_r; [apply evals_new_array|].
    eapply raises_bind_r;
      [apply evals_set_prop_name; [cbn [heap]; by rewrite lookup_insert_ne|apply ids_is_name]|].
    by apply raises_bind_l, raises_get_prop_nullish.
  - split; cbn [heap console]; [|done|].
    + exists (fresh_loc (heap w)). split; [done|].
      by rewrite lookup_insert_ne, !lookup_insert_eq.
    + intros l' Hl' [o' Ho']. rewrite !lookup_insert_ne; [done| |done]. congruence.
Qed.

End Settings.

Section ClientTheorems.
Context {TR : Transport}.

Lemma invoke_sync this c : invoke this c = sync (call_settings this c) xmlrpc.
Proof. by destruct c. Qed.

(** The settings of the four operations carry neither callbacks nor a filter. *)
Lemma call_settings_plain this c w s w0 :
  evals (call_settings this c) w s w0 -> exists u m ps, s = plain u m ps.
Proof.
  destruct c; simpl; intros Hs;
    repeat (apply evals_bind_inv in Hs as (? & ? & _ & Hs));
    apply evals_ret_inv in Hs as [-> _]; by eexists _, _, _.
Qed.

(** A call with plain settings: the request, and how the promise settles. *)
Lemma plain_exchange (c : js settings) w u m ps w0 t srv :
  evals c w (plain u m ps) w0 ->
  serializes (heap w0) ps t ->
  let rq := Request u m t in
  let p := sync c xmlrpc w in
  exists ctx,
    w0 ⊑ returned_world p /\
    run srv p =
    (match srv rq with
     | RFail xhr status err => (Rejected ctx [xhr; status; err], returned_world p)
     | RBody xhr raw =>
         match decode_body raw (returned_world p) with
         | (inl v, w') => (Resolved ctx v, w')
         | (inr err, w') => (Rejected ctx [xhr; VString "parsererror"; err], w')
         end
     end, [rq]).
Proof.
  intros Hc Ht rq p.
  destruct (call_exchange _ _ _ _ _ srv Hc Ht) as (ctx & _ & Hle & _ & Hrun).
  exists ctx. split; [done|]. fold p in Hrun. rewrite Hrun. f_equal.
Qed.

(** C1 (functional): for a client whose [url] is [u] and a bug id that
    serialises to [t], [getBug] sends exactly one request, whatever the server
    answers: method [Bug.get] at [u] with the single parameter [{ids: [t]}]. *)
Theorem getBug_sends_one_request this bugId w u t srv :
  evals (get_prop this "url") w u w ->
  serializes (heap w) bugId t ->
  (run srv (getBug this bugId w)).2 =
  [Request u "Bug.get" (TArr [TObj {[ "ids" := TArr [t] ]}])].
Proof.
  intros Hu Ht. unfold getBug.
  destruct (getBug_settings_spec _ _ _ _ _ Hu Ht) as (ps & w0 & Hs & _ & Hps).
  by destruct (plain_exchange _ _ _ _ _ _ _ srv Hs Hps) as (ctx & _ & ->).
Qed.

(** C2 (functional): when the server answers [getBug]'s request with a body
    the transport decodes to [v], the promise resolves with [v] itself, in the
    store the decoder left. *)
Theorem getBug_resolves_with_decoded_value this bugId w u t srv xhr raw v w' :
  evals (get_prop this "url") w u w ->
  serializes (heap w) bugId t ->
  let p := getBug this bugId w in
  srv (Request u "Bug.get" (TArr [TObj {[ "ids" := TArr [t] ]}])) = RBody xhr raw ->
  decode_body raw (returned_world p) = (inl v, w') ->
  exists ctx, (run srv p).1 = (Resolved ctx v, w').
Proof.
  intros Hu Ht p Hsrv Hdec. subst p. unfold getBug in *.
  destruct (getBug_settings_spec _ _ _ _ _ Hu Ht) as (ps & w0 & Hs & _ & Hps).
  destruct (plain_exchange _ _ _ _ _ _ _ srv Hs Hps) as (ctx & _ & ->).
  exists ctx. simpl. by rewrite Hsrv, Hdec.
Qed.

(** C3 (error): for each of getBug, addComment, updateBug and searchBugs, a
    transport failure is not intercepted: the promise is rejected with the
    failure's jqXHR, status and error, the store is the one the call returned
    in, and no other request is sent. *)
Theorem transport_failure_rejects this c w s w0 t srv xhr status err :
  evals (call_settings this c) w s w0 ->
  serialize_params (params s) w0 = Normal t ->
  srv (Request (url s) (methodName s) t) = RFail xhr status err ->
  let p := invoke this c w in
  exists ctx,
    run srv p = (Rejected ctx [xhr; status; err], returned_world p,
                 [Request (url s) (methodName s) t]).
Proof.
  intros Hs Ht Hsrv p. subst p. rewrite invoke_sync.
  destruct (call_settings_plain _ _ _ _ _ Hs) as (u & m & ps & ->).
  destruct (plain_exchange _ _ _ _ _ _ _ srv Hs Ht) as (ctx & _ & ->).
  exists ctx. simpl in *. by rewrite Hsrv.
Qed.

(** When building the settings throws, the exception escapes the call and
    nothing is sent: the law of [sync], at the four functions. *)
Lemma exception_sends_nothing this c w e w0 srv :
  raises (call_settings this c) w e w0 ->
  run srv (invoke this c w) = (Thrown e, w0, []).
Proof. intros Hs. rewrite invoke_sync. by apply call_raises. Qed.

(** *** addComment *)

Lemma serializes_number h n : serializes h (VNumber n) (TNumber n).
Proof. by apply (reify_prim _ h). Qed.

(** C4 (functional): [addComment] called with a falsy [hoursWorked]
    (undefined, null, false, 0, -0, NaN or the empty string) sends
    [work_time: 0]. *)
Theorem addComment_defaults_work_time this bugId comment hoursWorked w u tb tc srv :
  evals (get_prop this "url") w u w ->
  serializes (heap w) bugId tb ->
  serializes (heap w) comment tc ->
  to_boolean hoursWorked = false ->
  (run srv (addComment this bugId comment hoursWorked w)).2 =
  [Request u "Bug.add_comment"
     (TArr [TObj {[ "id" := tb; "comment" := tc;
                    "work_time" := TNumber (num_of_Z 0) ]}])].
Proof.
  intros Hu Hb Hc Hf. unfold addComment.
  destruct (addComment_settings_spec this bugId comment hoursWorked w u tb tc
              (TNumber (num_of_Z 0)) Hu Hb Hc) as (ps & w0 & Hs & _ & Hps).
  { rewrite js_or_falsy by done. apply serializes_number. }
  by destruct (plain_exchange _ _ _ _ _ _ _ srv Hs Hps) as (ctx & _ & ->).
Qed.

(** C5 (functional): [addComment] called with a truthy [hoursWorked] sends
    it as [work_time] unchanged. *)
Theorem addComment_keeps_work_time this bugId comment hoursWorked w u tb tc th srv :
  evals (get_prop this "url") w u w ->
  serializes (heap w) bugId tb ->
  serializes (heap w) comment tc ->
  serializes (heap w) hoursWorked th ->
  to_boolean hoursWorked = true ->
  (run srv (addComment this bugId comment hoursWorked w)).2 =
  [Request u "Bug.add_comment"
     (TArr [TObj {[ "id" := tb; "comment" := tc; "work_time" := th ]}])].
Proof.
  intros Hu Hb Hc Hh Ht. unfold addComment.
  destruct (addComment_settings_spec this bugId comment hoursWorked w u tb tc th
              Hu Hb Hc) as (ps & w0 & Hs & _ & Hps).
  { by rewrite js_or_truthy. }
  by destruct (plain_exchange _ _ _ _ _ _ _ srv Hs Hps) as (ctx & _ & ->).
Qed.

(** *** updateBug *)

(** C6 (functional): [updateBug] on an object that serialises to [r] sends
    [Bug.update] with the single parameter [r] with [ids] set to [[bugId]]
    (an [ids] the object already had is overwritten). *)
Theorem updateBug_request this bugId lp ps w u t r srv :
  evals (get_prop this "url") w u w ->
  prim_tree bugId = Some t ->
  heap w !! lp = Some (OObject ps) ->
  serializes (heap w) (VRef lp) (TObj r) ->
  (run srv (updateBug this bugId (VRef lp) w)).2 =
  [Request u "Bug.update" (TArr [TObj (<["ids" := TArr [t]]> r)])].
Proof.
  intros Hu Ht Ho HT. unfold updateBug.
  destruct (updateBug_settings_spec _ _ _ _ _ _ _ _ Hu Ht Ho HT)
    as (a & w0 & Hs & _ & Hps).
  by destruct (plain_exchange _ _ _ _ _ _ _ srv Hs Hps) as (ctx & _ & ->).
Qed.

(** C7 (safety): when [updateBug] returns, the caller's own object has been
    changed in place: its [ids] is a fresh array holding [bugId], and every
    other property reads as before. *)
Theorem updateBug_mutates_caller_object this bugId lp o w u t T :
  evals (get_prop this "url") w u w ->
  prim_tree bugId = Some t ->
  heap w !! lp = Some o ->
  serializes (heap w) (VRef lp) T ->
  let w1 := returned_world (updateBug this bugId (VRef lp) w) in
  exists l,
    heap w !! l = None /\
    heap w1 !! l = Some (OArray [bugId] ∅) /\
    evals (get_prop (VRef lp) "ids") w1 (VRef l) w1 /\
    forall k x, k <> "ids" ->
      evals (get_prop (VRef lp) k) w x w -> evals (get_prop (VRef lp) k) w1 x w1.
Proof.
  intros Hu Ht Ho HT w1.
  destruct (updateBug_settings_spec _ _ _ _ _ _ _ _ Hu Ht Ho HT)
    as (a & w0 & Hs & [(l & Hl & Hl0 & Hp0) _ _] & Hps).
  destruct (call_exchange _ _ _ _ _ (fun _ => RFail VNull VNull VNull) Hs Hps)
    as (ctx & _ & Hle & _).
  fold (updateBug this bugId (VRef lp) w) in Hle. fold w1 in Hle.
  destruct Hle as [Hsub _].
  exists l. split; [done|]. split; [by eapply lookup_weaken|].
  pose proof (lookup_weaken _ _ _ _ Hp0 Hsub) as Hp1. split.
  - unfold evals, get_prop. rewrite Hp1.
    by rewrite (own_prop_store_name_eq _ _ _ ids_is_name).
  - intros k x Hk. unfold evals, get_prop. rewrite Ho, Hp1. intros [= <-].
    by rewrite own_prop_store_name_ne.
Qed.

(** C8 (error): [updateBug] with [params] that is not an object (undefined,
    null or a primitive: the function is strict) throws a TypeError and sends
    nothing; the store only grows. *)
Theorem updateBug_rejects_non_object this bugId params w srv :
  (forall l, params <> VRef l) ->
  exists w', run srv (updateBug this bugId params w) = (Thrown TypeError, w', []) /\
             w ⊑ w'.
Proof.
  intros Hp. destruct (updateBug_settings_raises this bugId params w Hp) as (w' & Hr & Hle).
  exists w'. split; [|done]. by apply call_raises.
Qed.

(** A call of [updateBug] on an object, seen from the next call: what it
    sends and what it leaves of the hypotheses it was made under. *)
Lemma updateBug_step this bugId lp o w u t r :
  evals (get_prop this "url") w u w ->
  prim_tree bugId = Some t ->
  heap w !! lp = Some o ->
  serializes (heap w) (VRef lp) (TObj r) ->
  let p := updateBug this bugId (VRef lp) w in
  let r' := <["ids" := TArr [t]]> r in
  pending p = Some (Request u "Bug.update" (TArr [TObj r'])) /\
  evals (get_prop this "url") (returned_world p) u (returned_world p) /\
  is_Some (heap (returned_world p) !! lp) /\
  serializes (heap (returned_world p)) (VRef lp) (TObj r').
Proof.
  intros Hu Ht Ho HT p r'. subst p. unfold updateBug.
  destruct (updateBug_settings_reusable _ _ _ _ _ _ _ _ Hu Ht Ho HT)
    as (a & w0 & Hs & Hps & Hu0 & [o0 Ho0] & HT0).
  destruct (call_exchange _ _ _ _ _ (fun _ => RFail VNull VNull VNull) Hs Hps)
    as (ctx & _ & Hle & Hpend & _).
  split; [done|]. split; [by eapply evals_get_prop_extends|].
  destruct Hle as [Hsub _]. split; [by eexists; eapply lookup_weaken|].
  by eapply serializes_weaken.
Qed.

(** C38 (safety): two calls of [updateBug] with the same [params] object, the
    second made as soon as the first has returned and before any reply.
    Each request carries the bug id of its own call: the parameters are
    serialised when a call is made, so the first request keeps [[b1]] although
    the second call overwrites [ids] in the object the two share.  The
    caller's object ends with the [ids] of the last call. *)
Theorem updateBug_twice_on_one_object this b1 b2 lp o w u t1 t2 r :
  evals (get_prop this "url") w u w ->
  prim_tree b1 = Some t1 -> prim_tree b2 = Some t2 ->
  heap w !! lp = Some o ->
  serializes (heap w) (VRef lp) (TObj r) ->
  let p1 := updateBug this b1 (VRef lp) w in
  let p2 := updateBug this b2 (VRef lp) (returned_world p1) in
  pending p1 = Some (Request u "Bug.update" (TArr [TObj (<["ids" := TArr [t1]]> r)])) /\
  pending p2 = Some (Request u "Bug.update" (TArr [TObj (<["ids" := TArr [t2]]> r)])) /\
  serializes (heap (returned_world p2)) (VRef lp) (TObj (<["ids" := TArr [t2]]> r)).
Proof.
  intros Hu Ht1 Ht2 Ho HT p1 p2.
  destruct (updateBug_step _ _ _ _ _ _ _ _ Hu Ht1 Ho HT) as (Hp1 & Hu1 & [o1 Ho1] & HT1).
  destruct (updateBug_step _ _ _ _ _ _ _ _ Hu1 Ht2 Ho1 HT1) as (Hp2 & _ & _ & HT2).
  rewrite insert_insert_eq in Hp2, HT2. by split; [|split].
Qed.

(** *** searchBugs *)

(** C9 (functional): [searchBugs] sends [Bug.search] with the criteria as
    its single parameter, as they serialise when the call is made, and leaves
    every object of the store as it was. *)
Theorem searchBugs_passes_criteria_through this searchCriteria w u t srv :
  evals (get_prop this "url") w u w ->
  serializes (heap w) searchCriteria t ->
  let p := searchBugs this searchCriteria w in
  (run srv p).2 = [Request u "Bug.search" (TArr [t])] /\ w ⊑ returned_world p.
Proof.
  intros Hu Ht p. subst p. unfold searchBugs.
  destruct (searchBugs_settings_spec _ _ _ _ _ Hu Ht) as (ps & w0 & Hs & Hle & Hps).
  destruct (plain_exchange _ _ _ _ _ _ _ srv Hs Hps) as (ctx & Hle' & ->).
  split; [done|]. by etrans.
Qed.

End ClientTheorems.

(** ** Witnesses: the theorems at a client built by the constructor *)

Lemma getBug_sends_one_request_witness :
  (run failing_server
       (getBug (TR := table_transport page_dates demo_table) fresh_client.1 seven fresh_client.2)).2 =
  [Request (VString bugzilla_url) "Bug.get" (TArr [TObj {[ "ids" := TArr [TNumber (num_of_Z 7)] ]}])].
Proof.
  apply (getBug_sends_one_request (TR := table_transport page_dates demo_table));
    vm_compute; reflexivity.
Defined.

Lemma getBug_resolves_with_decoded_value_witness :
  exists v w' ctx,
    (run demo_server
         (getBug (TR := table_transport page_dates demo_table) fresh_client.1 seven fresh_client.2)).1
    = (Resolved ctx v, w').
Proof.
  do 2 eexists.
  eapply (getBug_resolves_with_decoded_value (TR := table_transport page_dates demo_table)
            _ _ _ (VString bugzilla_url) (TNumber (num_of_Z 7)) demo_server VNull "BUGS");
    [reflexivity|vm_compute; reflexivity|reflexivity|reflexivity].
Defined.

Lemma transport_failure_rejects_witness :
  exists ctx,
    run failing_server
        (invoke (TR := table_transport page_dates demo_table) fresh_client.1
                (CallSearchBugs (VString "open")) fresh_client.2)
    = (Rejected ctx [VNull; VString "error"; VString "Not Found"],
       returned_world (invoke (TR := table_transport page_dates demo_table) fresh_client.1
                              (CallSearchBugs (VString "open")) fresh_client.2),
       [Request (VString bugzilla_url) "Bug.search" (TArr [TString "open"])]).
Proof.
  eapply (transport_failure_rejects (TR := table_transport page_dates demo_table)
            fresh_client.1 (CallSearchBugs (VString "open")) fresh_client.2
            (plain (VString bugzilla_url) "Bug.search" _) _
            (TArr [TString "open"]) failing_server);
    [reflexivity|vm_compute; reflexivity|reflexivity].
Defined.

Lemma exception_sends_nothing_witness :
  run demo_server
      (invoke (TR := table_transport page_dates demo_table) VUndefined (CallGetBug seven) empty_world)
  = (Thrown TypeError, empty_world, []).
Proof.
  apply (exception_sends_nothing (TR := table_transport page_dates demo_table)). reflexivity.
Defined.

Lemma addComment_defaults_work_time_witness :
  (run demo_server
       (addComment (TR := table_transport page_dates demo_table) fresh_client.1
                   (VNumber (num_of_Z 42)) (VString "done") VUndefined fresh_client.2)).2 =
  [Request (VString bugzilla_url) "Bug.add_comment"
     (TArr [TObj {[ "id" := TNumber (num_of_Z 42); "comment" := TString "done";
                    "work_time" := TNumber (num_of_Z 0) ]}])].
Proof.
  apply (addComment_defaults_work_time (TR := table_transport page_dates demo_table));
    vm_compute; reflexivity.
Defined.

Lemma addComment_keeps_work_time_witness :
  (run demo_server
       (addComment (TR := table_transport page_dates demo_table) fresh_client.1
                   (VNumber (num_of_Z 42)) (VString "done") (VNumber (num_of_Z 3))
                   fresh_client.2)).2 =
  [Request (VString bugzilla_url) "Bug.add_comment"
     (TArr [TObj {[ "id" := TNumber (num_of_Z 42); "comment" := TString "done";
                    "work_time" := TNumber (num_of_Z 3) ]}])].
Proof.
  apply (addComment_keeps_work_time (TR := table_transport page_dates demo_table));
    vm_compute; reflexivity.
Defined.
Lemma updateBug_request_witness :
  (run demo_server
       (updateBug (TR := table_transport page_dates demo_table) fresh_client.1 seven
                  (VRef 2%positive) fields_object.2)).2 =
  [Request (VString bugzilla_url) "Bug.update"
     (TArr [TObj (<["ids" := TArr [TNumber (num_of_Z 7)]]>
                    {[ "status" := TString "RESOLVED" ]})])].
Proof.
  apply (updateBug_request (TR := table_transport page_dates demo_table) fresh_client.1 seven
           2%positive {[ "status" := VString "RESOLVED" ]} fields_object.2
           (VString bugzilla_url) (TNumber (num_of_Z 7))
           {[ "status" := TString "RESOLVED" ]} demo_server);
    vm_compute; reflexivity.
Defined.

Lemma updateBug_mutates_caller_object_witness :
  exists l,
    heap fields_object.2 !! l = None /\
    heap (returned_world
            (updateBug (TR := table_transport page_dates demo_table) fresh_client.1 seven
                       (VRef 2%positive) fields_object.2)) !! l
    = Some (OArray [seven] ∅).
Proof.
  destruct (updateBug_mutates_caller_object (TR := table_transport page_dates demo_table)
              fresh_client.1 seven 2%positive
              (OObject {[ "status" := VString "RESOLVED" ]}) fields_object.2
              (VString bugzilla_url) (TNumber (num_of_Z 7))
              (TObj {[ "status" := TString "RESOLVED" ]}))
    as (l & Hl & Hl' & _); [vm_compute; reflexivity..|].
  exists l. split; [exact Hl|exact Hl'].
Defined.

Lemma updateBug_rejects_non_object_witness :
  exists w',
    run demo_server
        (updateBug (TR := table_transport page_dates demo_table) fresh_client.1 seven
                   (VString "status=RESOLVED") fresh_client.2)
    = (Thrown TypeError, w', []) /\ fresh_client.2 ⊑ w'.
Proof.
  apply (updateBug_rejects_non_object (TR := table_transport page_dates demo_table)). discriminate.
Defined.

Lemma searchBugs_passes_criteria_through_witness :
  (run demo_server
       (searchBugs (TR := table_transport page_dates demo_table) fresh_client.1
                   fields_object.1 fields_object.2)).2
  = [Request (VString bugzilla_url) "Bug.search"
       (TArr [TObj {[ "status" := TString "RESOLVED" ]}])].
Proof.
  apply (searchBugs_passes_criteria_through (TR := table_transport page_dates demo_table)
           fresh_client.1 fields_object.1 fields_object.2 (VString bugzilla_url)
           (TObj {[ "status" := TString "RESOLVED" ]}) demo_server);
    vm_compute; reflexivity.
Defined.


Lemma updateBug_twice_on_one_object_witness :
  let p1 := updateBug (TR := table_transport page_dates demo_table) fresh_client.1 seven
                      (VRef 2%positive) fields_object.2 in
  let p2 := updateBug (TR := table_transport page_dates demo_table) fresh_client.1 eight
                      (VRef 2%positive) (returned_world p1) in
  pending p1 = Some (Request (VString bugzilla_url) "Bug.update"
                       (TArr [TObj (<["ids" := TArr [TNumber (num_of_Z 7)]]>
                                      {[ "status" := TString "RESOLVED" ]})])) /\
  pending p2 = Some (Request (VString bugzilla_url) "Bug.update"
                       (TArr [TObj (<["ids" := TArr [TNumber (num_of_Z 8)]]>
                                      {[ "status" := TString "RESOLVED" ]})])) /\
  serializes (DT := page_dates) (heap (returned_world p2)) (VRef 2%positive)
    (TObj (<["ids" := TArr [TNumber (num_of_Z 8)]]> {[ "status" := TString "RESOLVED" ]})).
Proof.
  apply (updateBug_twice_on_one_object (TR := table_transport page_dates demo_table)
           fresh_client.1 seven eight 2%positive
           (OObject {[ "status" := VString "RESOLVED" ]}) fields_object.2
           (VString bugzilla_url) (TNumber (num_of_Z 7)) (TNumber (num_of_Z 8))
           {[ "status" := TString "RESOLVED" ]});
    vm_compute; reflexivity.
Defined.
