(* ===== verification/ClientSpec.v ===== *)
(** * The client's contract and the refinement theorem

    What the four one-call methods promise, without the store: an abstract
    call is a method with its arguments as trees, its request is given by a
    table, and its outcome is what the server's reply to that request decodes
    to.  The methods of src/src/bugzilla.js implement this contract whenever
    their arguments serialise. *)

From S2P Require Import Prelude JsValue XmlRpc Regex Bugzilla BugzillaCalls.
From stdpp Require Import gmap.

(** An abstract call: the arguments as they go on the wire. *)
Inductive rpc : Type :=
| RpcGetBug (id : tree)
| RpcAddComment (id comment work_time : tree)
| RpcUpdateBug (id : tree) (fields : gmap string tree)
| RpcSearchBugs (criteria : tree).

(** The remote methods and the shape of their parameter. *)
Definition rpc_request (u : value) (a : rpc) : request :=
  match a with
  | RpcGetBug id => Request u "Bug.get" (TArr [TObj {[ "ids" := TArr [id] ]}])
  | RpcAddComment id comment work_time =>
      Request u "Bug.add_comment"
        (TArr [TObj {[ "id" := id; "comment" := comment; "work_time" := work_time ]}])
  | RpcUpdateBug id fields =>
      Request u "Bug.update" (TArr [TObj (<["ids" := TArr [id]]> fields)])
  | RpcSearchBugs criteria => Request u "Bug.search" (TArr [criteria])
  end.

(** A call of the program stands for an abstract call when its arguments
    serialise to the abstract call's trees; a falsy [hoursWorked] stands for
    the work time 0. *)
Inductive abstracts {DT : DateType} (h : gmap loc object) : data_call -> rpc -> Prop :=
| abs_getBug bugId t :
    serializes h bugId t -> abstracts h (CallGetBug bugId) (RpcGetBug t)
| abs_addComment bugId comment hoursWorked tb tc th :
    serializes h bugId tb -> serializes h comment tc ->
    serializes h hoursWorked th -> to_boolean hoursWorked = true ->
    abstracts h (CallAddComment bugId comment hoursWorked) (RpcAddComment tb tc th)
| abs_addComment_default bugId comment hoursWorked tb tc :
    serializes h bugId tb -> serializes h comment tc ->
    to_boolean hoursWorked = false ->
    abstracts h (CallAddComment bugId comment hoursWorked)
              (RpcAddComment tb tc (TNumber (num_of_Z 0)))
| abs_updateBug bugId lp o t r :
    prim_tree bugId = Some t -> h !! lp = Some o ->
    serializes h (VRef lp) (TObj r) ->
    abstracts h (CallUpdateBug bugId (VRef lp)) (RpcUpdateBug t r)
| abs_searchBugs searchCriteria t :
    serializes h searchCriteria t ->
    abstracts h (CallSearchBugs searchCriteria) (RpcSearchBugs t).

Section Refinement.
Context {TR : Transport}.

(** The outcome of one exchange: the server's reply to the request, decoded. *)
Definition rpc_outcome (srv : request -> reply) (rq : request) (ctx : value)
    (w : world) : settled * world :=
  match srv rq with
  | RFail xhr status err => (Rejected ctx [xhr; status; err], w)
  | RBody xhr raw =>
      match decode_body raw w with
      | (inl v, w') => (Resolved ctx v, w')
      | (inr err, w') => (Rejected ctx [xhr; VString "parsererror"; err], w')
      end
  end.

(** The settings of a call that stands for [a] are plain and carry [a]'s
    parameter. *)
Lemma call_settings_abstracts this c w u a :
  evals (get_prop this "url") w u w ->
  abstracts (heap w) c a ->
  exists ps w0,
    evals (call_settings this c) w
          (plain u (rq_method (rpc_request u a)) ps) w0 /\
    serializes (heap w0) ps (rq_params (rpc_request u a)).
Proof.
  intros Hu Ha. destruct Ha as [bugId t Ht|bugId comment hw tb tc th Hb Hc Hh Htrue
    |bugId comment hw tb tc Hb Hc Hfalse|bugId lp o t r Ht Ho Hr|cr t Ht]; simpl.
  - destruct (getBug_settings_spec _ _ _ _ _ Hu Ht) as (ps & w0 & ? & _ & ?). eauto.
  - destruct (addComment_settings_spec this bugId comment hw w u tb tc th Hu Hb Hc)
      as (ps & w0 & ? & _ & ?); [by rewrite js_or_truthy|eauto].
  - destruct (addComment_settings_spec this bugId comment hw w u tb tc
                (TNumber (num_of_Z 0)) Hu Hb Hc) as (ps & w0 & ? & _ & ?);
      [rewrite js_or_falsy by done; apply serializes_number|eauto].
  - destruct (updateBug_settings_spec _ _ _ _ _ _ _ _ Hu Ht Ho Hr)
      as (ps & w0 & ? & _ & ?). eauto.
  - destruct (searchBugs_settings_spec _ _ _ _ _ Hu Ht) as (ps & w0 & ? & _ & ?). eauto.
Qed.

(** C37 (refinement): getBug, addComment, updateBug and searchBugs implement
    the contract: a call whose arguments serialise sends the one request the
    table gives for it, and its promise settles with what the server's reply
    to that request decodes to. *)
Theorem invoke_refines_rpc this c w u a srv :
  evals (get_prop this "url") w u w ->
  abstracts (heap w) c a ->
  exists ctx,
    run srv (invoke this c w)
    = (rpc_outcome srv (rpc_request u a) ctx (returned_world (invoke this c w)),
       [rpc_request u a]).
Proof.
  intros Hu Ha. destruct (call_settings_abstracts _ _ _ _ _ Hu Ha) as (ps & w0 & Hs & Hps).
  rewrite invoke_sync.
  destruct (plain_exchange _ _ _ _ _ _ _ srv Hs Hps) as (ctx & _ & ->).
  exists ctx. by destruct a.
Qed.

End Refinement.

Lemma invoke_refines_rpc_witness :
  exists ctx,
    run demo_server
        (invoke (TR := table_transport page_dates demo_table) fresh_client.1
                (CallAddComment seven (VString "done") VUndefined) fresh_client.2)
    = (rpc_outcome (TR := table_transport page_dates demo_table) demo_server
         (rpc_request (VString bugzilla_url)
            (RpcAddComment (TNumber (num_of_Z 7)) (TString "done") (TNumber (num_of_Z 0))))
         ctx
         (returned_world
            (invoke (TR := table_transport page_dates demo_table) fresh_client.1
                    (CallAddComment seven (VString "done") VUndefined) fresh_client.2)),
       [rpc_request (VString bugzilla_url)
          (RpcAddComment (TNumber (num_of_Z 7)) (TString "done") (TNumber (num_of_Z 0)))]).
Proof.
  apply (invoke_refines_rpc (TR := table_transport page_dates demo_table) fresh_client.1
           (CallAddComment seven (VString "done") VUndefined) fresh_client.2
           (VString bugzilla_url)
           (RpcAddComment (TNumber (num_of_Z 7)) (TString "done") (TNumber (num_of_Z 0)))
           demo_server);
    [reflexivity|by apply abs_addComment_default].
Defined.
