(* ===== verification/BugzillaChain.v ===== *)
(** * getProducts and getVersion: the operations with callbacks
    (src/src/bugzilla.js, lines 21-34 and 105-123)

    [getProducts] chains two calls through [then]; [getVersion] passes a
    success and an error callback and returns nothing.  The theorems follow a
    run of each against an arbitrary server: which requests go out and in
    which order, what the callbacks read and write, how the promise settles
    and where an exception of a callback ends up. *)

From S2P Require Import Prelude JsValue XmlRpc Regex Bugzilla ProductsFilter BugzillaCalls.
From stdpp Require Import gmap.

(** [function(response, status, jqXHR) { console.log(response[0].version); }] *)
Definition getVersion_success (args : list value) : js unit :=
  let response := default VUndefined (args !! 0%nat) in
  r0 ← get_prop response "0";
  v ← get_prop r0 "version";
  console_log [v].

(** [function(jqXHR, status, error) { console.log(arguments); }]: what is
    logged is the arguments object, an array-like object of the arguments. *)
Definition getVersion_error (args : list value) : js unit :=
  a ← new_array args;
  console_log [a].

(** What a call that drops its promise leaves to observe: whether an
    exception escaped. *)
Definition dropped (o : settled) : comp exn value :=
  match o with
  | Thrown e => Abrupt e
  | _ => Normal VUndefined
  end.

(** getVersion, lines 24-33 *)
Definition getVersion_settings (this : value) : js settings :=
  u ← get_prop this "url";
  mret {| url := u; methodName := "Bugzilla.version"; params := None;
          success := Some getVersion_success; error := Some getVersion_error;
          dataFilter := None |}.

(** getProducts, first call, lines 108-111 *)
Definition getProducts_settings (this : value) : js settings :=
  u ← get_prop this "url";
  mret {| url := u; methodName := "Product.get_enterable_products";
          params := None; success := None; error := None; dataFilter := None |}.

(** getProducts, second call, lines 113-121.  [this] is the context the first
    promise was resolved with, not the client. *)
Definition getProducts_then_settings (this response : value) : js settings :=
  u ← get_prop this "url";
  r0 ← get_prop response "0";
  ids ← get_prop r0 "ids";
  o ← new_object [("ids", ids)];
  ps ← new_array [o];
  mret {| url := u; methodName := "Product.get"; params := Some ps;
          success := None; error := None;
          dataFilter := Some products_dataFilter |}.

Section Client.
Context {TR : Transport}.

(** [Bugzilla.prototype.getVersion] (lines 21-34).  The promise of the call is
    dropped and the function returns [undefined].  In the source it returns
    at once and the callbacks run with the reply; the process ends when the
    reply has been handled, with [undefined] or with the exception that
    escaped a callback (which a browser reports to the page, not to the
    caller).  What is sent and what is logged are as in the source. *)
Definition getVersion (this : value) : async (comp exn value) :=
  o ← sync (getVersion_settings this) xmlrpc;
  mret (dropped o).

(** The callback of [getProducts] (lines 112-122). *)
Definition getProducts_then (this response : value) : async settled :=
  sync (getProducts_then_settings this response) xmlrpc.

(** [Bugzilla.prototype.getProducts] (lines 105-123) *)
Definition getProducts (this : value) : async settled :=
  then_ (sync (getProducts_settings this) xmlrpc) getProducts_then.

End Client.

(** ** The requests of the operations without arguments

    [getVersion] and the first call of [getProducts] pass no [params]: the
    request carries the empty parameter list.  The second call of
    [getProducts] passes [{ids: ...}] with the ids of the first response. *)

Definition version_request (u : value) : request :=
  Request u "Bugzilla.version" (TArr []).

Definition enterable_request (u : value) : request :=
  Request u "Product.get_enterable_products" (TArr []).

Definition products_request (u : value) (t : tree) : request :=
  Request u "Product.get" (TArr [TObj {[ "ids" := t ]}]).

(** ** The settings the two functions build *)

Lemma getProducts_settings_spec this w u :
  evals (get_prop this "url") w u w ->
  evals (getProducts_settings this) w
        (Settings u "Product.get_enterable_products" None None None None) w.
Proof. intros Hu. unfold getProducts_settings. eapply evals_bind; [exact Hu|apply evals_ret]. Qed.

Lemma getVersion_settings_spec this w u :
  evals (get_prop this "url") w u w ->
  evals (getVersion_settings this) w
        (Settings u "Bugzilla.version" None (Some getVersion_success)
                  (Some getVersion_error) None) w.
Proof. intros Hu. unfold getVersion_settings. eapply evals_bind; [exact Hu|apply evals_ret]. Qed.

Lemma getProducts_then_settings_spec {DT : DateType} this response w u r0 ids t :
  evals (get_prop this "url") w u w ->
  evals (get_prop response "0") w r0 w ->
  evals (get_prop r0 "ids") w ids w ->
  serializes (heap w) ids t ->
  exists ps w',
    evals (getProducts_then_settings this response) w
          (Settings u "Product.get" (Some ps) None None (Some products_dataFilter)) w' /\
    w ⊑ w' /\
    serializes (heap w') ps (TArr [TObj {[ "ids" := t ]}]).
Proof.
  intros Hu H0 Hi Ht. eexists _, _. split; [|split].
  - unfold getProducts_then_settings.
    eapply evals_bind; [exact Hu|]. eapply evals_bind; [exact H0|].
    eapply evals_bind; [exact Hi|]. eapply evals_bind; [apply evals_new_object|].
    eapply evals_bind; [apply evals_new_array|apply evals_ret].
  - world_le_tac.
  - cbn [heap]. apply serializes_new_array. constructor; [|constructor].
    by apply serializes_singleton_object.
Qed.

(** The callback throws when it cannot read what it needs. *)
Lemma getProducts_then_settings_raises this response w :
  is_nullish this = true ->
  raises (getProducts_then_settings this response) w TypeError w.
Proof. intros Hn. by apply raises_bind_l, raises_get_prop_nullish. Qed.

Section ChainTheorems.
Context {TR : Transport}.

(** A run of [then_ p f]: the run of [p], followed, when [p] resolves, by the
    run of the callback on the resolution's context and value. *)
Lemma run_then srv (p : async settled) f w :
  run srv (then_ p f w) =
  (let '(o, w1, tr) := run srv (p w) in
   match o with
   | Resolved c v => let '(o', w2, tr') := run srv (f c v w1) in (o', w2, tr ++ tr')
   | _ => (o, w1, tr)
   end).
Proof.
  unfold then_, mbind, async_mbind, async_bind. rewrite run_bind.
  destruct (run srv (p w)) as [[o w1] tr].
  destruct o as [c v|c args|e]; simpl; try by rewrite app_nil_r.
  by destruct (run srv (f c v w1)) as [[o' w2] tr'].
Qed.

(** ** getProducts *)

Section GetProducts.
Variables (this u : value) (w : world) (srv : request -> reply).
Hypothesis Hu : evals (get_prop this "url") w u w.

(** The first exchange, up to the reply. *)
Lemma getProducts_first :
  exists ctx w1,
    callback_context u "Product.get_enterable_products" None w = (ctx, w1) /\
    returned_world (getProducts this w) = w1 /\
    run srv (getProducts this w) =
    (let '(o, w2) := settle (Settings u "Product.get_enterable_products"
                                      None None None None)
                            ctx (srv (enterable_request u)) w1 in
     match o with
     | Resolved c v =>
         let '(o', w3, tr') := run srv (getProducts_then c v w2) in
         (o', w3, enterable_request u :: tr')
     | _ => (o, w2, [enterable_request u])
     end).
Proof.
  pose proof (getProducts_settings_spec _ _ _ Hu) as Hs.
  destruct (call_exchange _ _ _ _ (TArr []) srv Hs eq_refl) as (ctx & Hctx & _ & _ & Hrun).
  exists ctx, (returned_world (sync (getProducts_settings this) xmlrpc w)).
  split; [done|]. split.
  { unfold getProducts, then_, mbind, async_mbind, async_bind.
    by destruct (sync (getProducts_settings this) xmlrpc w). }
  unfold getProducts. rewrite run_then, Hrun. cbn [url methodName].
  change (Request u _ (TArr [])) with (enterable_request u).
  destruct (settle _ ctx (srv (enterable_request u)) _) as [o w2]. by destruct o.
Qed.

(** When the first call of [getProducts] fails in the
    transport, the promise is rejected with that failure, the callback of
    [then] never runs and [Product.get] is never sent. *)
Theorem getProducts_stops_on_first_failure xhr status err :
  srv (enterable_request u) = RFail xhr status err ->
  exists ctx,
    run srv (getProducts this w) =
    (Rejected ctx [xhr; status; err], returned_world (getProducts this w),
     [enterable_request u]).
Proof.
  intros Hsrv. destruct getProducts_first as (ctx & w1 & _ & -> & ->).
  exists ctx. by rewrite Hsrv.
Qed.

Section FirstReply.
Variables (xhr r : value) (raw : string) (w2 : world).
Hypothesis Hsrv : srv (enterable_request u) = RBody xhr raw.
Hypothesis Hdec : decode_body raw (returned_world (getProducts this w)) = (inl r, w2).

(** After the first reply: the callback runs on its context and the decoded
    response, in the store the decoder left. *)
Lemma getProducts_after_first :
  exists ctx,
    callback_context u "Product.get_enterable_products" None w
      = (ctx, returned_world (getProducts this w)) /\
    returned_world (getProducts this w) ⊑ w2 /\
    run srv (getProducts this w) =
    (let '(o', w3, tr') := run srv (getProducts_then ctx r w2) in
     (o', w3, enterable_request u :: tr')).
Proof.
  destruct getProducts_first as (ctx & w1 & Hctx & Hw1 & Hrun).
  rewrite Hw1 in *. exists ctx. split; [done|].
  split; [by eapply decode_body_frame|].
  rewrite Hrun, Hsrv. simpl. by rewrite Hdec.
Qed.

(** C20 (error): the callback of [then] reads [this.url], and [this] there is
    the context the promise library calls it with, not the client.  With a
    library that passes no context (undefined or null) the second call is
    never made: the chained promise fails with a TypeError after the first
    request. *)
Theorem getProducts_needs_the_callback_context ctx w1 :
  callback_context u "Product.get_enterable_products" None w = (ctx, w1) ->
  is_nullish ctx = true ->
  run srv (getProducts this w) = (Thrown TypeError, w2, [enterable_request u]).
Proof.
  intros Hctx Hn. destruct getProducts_after_first as (ctx' & Hctx' & _ & ->).
  rewrite Hctx in Hctx'. injection Hctx' as <- _.
  unfold getProducts_then.
  by rewrite (call_raises _ _ _ _ srv (getProducts_then_settings_raises _ r w2 Hn)).
Qed.

Context {JQ : JQueryContext}.

(** In the callback, under jQuery, [this.url] reads the client's URL. *)
Lemma getProducts_callback_url ctx :
  callback_context u "Product.get_enterable_products" None w
    = (ctx, returned_world (getProducts this w)) ->
  evals (get_prop ctx "url") w2 u w2.
Proof.
  intros Hctx. destruct getProducts_after_first as (_ & _ & Hle & _).
  exact (evals_get_prop_extends _ _ _ _ _ _ (context_url _ _ _ _ _ _ Hctx) Hle).
Qed.

(** C21 (error): a first response without an element 0 (an empty array, for
    example) makes [response[0].ids] throw: the chained promise fails with a
    TypeError and [Product.get] is never sent. *)
Theorem getProducts_throws_on_empty_response :
  evals (get_prop r "0") w2 VUndefined w2 ->
  run srv (getProducts this w) = (Thrown TypeError, w2, [enterable_request u]).
Proof.
  intros Hr0. destruct getProducts_after_first as (ctx & Hctx & _ & ->).
  unfold getProducts_then.
  assert (Hs : raises (getProducts_then_settings ctx r) w2 TypeError w2).
  { eapply raises_bind_r; [by apply getProducts_callback_url|].
    eapply raises_bind_r; [exact Hr0|]. by apply raises_bind_l. }
  by rewrite (call_raises _ _ _ _ srv Hs).
Qed.

Variables (r0 ids : value) (t : tree).
Hypothesis Hr0 : evals (get_prop r "0") w2 r0 w2.
Hypothesis Hids : evals (get_prop r0 "ids") w2 ids w2.
Hypothesis Ht : serializes (heap w2) ids t.

(** The second exchange: its request and how the chained promise settles. *)
Lemma getProducts_second :
  exists ps ctx2 w3,
    w2 ⊑ w3 /\
    run srv (getProducts this w) =
    (settle (Settings u "Product.get" (Some ps) None None (Some products_dataFilter))
            ctx2 (srv (products_request u t)) w3,
     [enterable_request u; products_request u t]).
Proof.
  destruct getProducts_after_first as (ctx & Hctx & Hle & ->).
  pose proof (getProducts_callback_url _ Hctx) as Hcu.
  destruct (getProducts_then_settings_spec _ _ _ _ _ _ _ Hcu Hr0 Hids Ht)
    as (ps & w0 & Hs & Hle0 & Hps).
  destruct (call_exchange _ _ _ _ _ srv Hs Hps) as (ctx2 & _ & Hle2 & _ & Hrun).
  unfold getProducts_then. rewrite Hrun. cbn [url methodName].
  exists ps, ctx2, (returned_world (sync (getProducts_then_settings ctx r) xmlrpc w2)).
  split; [by etrans|].
  change (Request u "Product.get" _) with (products_request u t).
  by destruct (settle _ ctx2 (srv (products_request u t)) _).
Qed.

(** Under jQuery, when the first response is
    [[{ids: ids}]], [getProducts] sends exactly two requests, in this order:
    [Product.get_enterable_products] without parameters, then [Product.get]
    with [{ids: ids}], both at the client's URL. *)
Theorem getProducts_calls_in_sequence :
  (run srv (getProducts this w)).2 = [enterable_request u; products_request u t].
Proof. by destruct getProducts_second as (ps & ctx2 & w3 & _ & ->). Qed.

(** The body of the second response goes through the
    repair filter before it is decoded; the chained promise resolves with
    what the repaired body decodes to, and is rejected with a parser error
    when the repaired body does not decode. *)
Theorem getProducts_resolves_with_repaired_response xhr2 raw2 :
  srv (products_request u t) = RBody xhr2 raw2 ->
  exists ctx2 w3,
    w2 ⊑ w3 /\
    (run srv (getProducts this w)).1 =
    match decode_body (products_dataFilter raw2) w3 with
    | (inl v, w4) => (Resolved ctx2 v, w4)
    | (inr e, w4) => (Rejected ctx2 [xhr2; VString "parsererror"; e], w4)
    end.
Proof.
  intros Hsrv2. destruct getProducts_second as (ps & ctx2 & w3 & Hle & ->).
  exists ctx2, w3. split; [done|]. rewrite Hsrv2. apply settle_plain_body.
Qed.

(** A transport failure of the second call rejects the chained
    promise with that failure, after both requests. *)
Theorem getProducts_second_failure_rejects xhr2 status err :
  srv (products_request u t) = RFail xhr2 status err ->
  exists ctx2 w3,
    run srv (getProducts this w) =
    (Rejected ctx2 [xhr2; status; err], w3,
     [enterable_request u; products_request u t]).
Proof.
  intros Hsrv2. destruct getProducts_second as (ps & ctx2 & w3 & Hle & ->).
  exists ctx2, w3. by rewrite Hsrv2.
Qed.

End FirstReply.
End GetProducts.

(** ** getVersion *)

Section GetVersion.
Variables (this u : value) (w : world) (srv : request -> reply).
Hypothesis Hu : evals (get_prop this "url") w u w.

(** The one exchange of [getVersion]: the promise of [$.xmlrpc] is dropped,
    so what is left of it is whether a callback threw. *)
Lemma getVersion_exchange :
  exists ctx,
    w ⊑ returned_world (getVersion this w) /\
    run srv (getVersion this w) =
    (let '(o, w') :=
       settle (Settings u "Bugzilla.version" None (Some getVersion_success)
                        (Some getVersion_error) None)
              ctx (srv (version_request u)) (returned_world (getVersion this w)) in
     (dropped o, w', [version_request u])).
Proof.
  pose proof (getVersion_settings_spec _ _ _ Hu) as Hs.
  destruct (call_exchange _ _ _ _ (TArr []) srv Hs eq_refl) as (ctx & _ & Hle & _ & Hrun).
  assert (Hw : returned_world (getVersion this w) =
               returned_world (sync (getVersion_settings this) xmlrpc w)).
  { unfold getVersion, mbind, async_mbind, async_bind.
    by destruct (sync (getVersion_settings this) xmlrpc w). }
  exists ctx. rewrite Hw. split; [done|].
  unfold getVersion, mbind, async_mbind, async_bind. rewrite run_bind, Hrun.
  cbn [url methodName]. change (Request u _ (TArr [])) with (version_request u).
  by destruct (settle _ ctx _ _) as [o w'].
Qed.

(** [getVersion] sends [Bugzilla.version] without
    parameters; when the response is [[{version: v}]] the success callback
    writes exactly one line, [v], to the console, changes no object, and
    nothing is returned to the caller. *)
Theorem getVersion_logs_version xhr raw r w2 r0 v :
  srv (version_request u) = RBody xhr raw ->
  decode_body raw (returned_world (getVersion this w)) = (inl r, w2) ->
  evals (get_prop r "0") w2 r0 w2 ->
  evals (get_prop r0 "version") w2 v w2 ->
  run srv (getVersion this w) =
  (Normal VUndefined, World (heap w2) (console w2 ++ [[v]]), [version_request u]).
Proof.
  intros Hsrv Hdec Hr0 Hv. destruct getVersion_exchange as (ctx & _ & ->).
  rewrite Hsrv. simpl. rewrite Hdec. simpl.
  assert (Hcb : evals (getVersion_success [r; VString "success"; xhr]) w2 tt
                      (World (heap w2) (console w2 ++ [[v]]))).
  { unfold getVersion_success. simpl.
    eapply evals_bind; [exact Hr0|]. eapply evals_bind; [exact Hv|].
    apply evals_console_log. }
  by rewrite Hcb.
Qed.

(** A transport failure of [getVersion] is swallowed: the error
    callback logs its own arguments object (jqXHR, status, error) as one
    console line, no exception reaches the caller, and nothing else of the
    store changes. *)
Theorem getVersion_swallows_failure xhr status err :
  srv (version_request u) = RFail xhr status err ->
  exists a w',
    run srv (getVersion this w) = (Normal VUndefined, w', [version_request u]) /\
    console w' = console w ++ [[VRef a]] /\
    heap w' !! a = Some (OArray [xhr; status; err] ∅) /\
    w ⊑ World (heap w') (console w).
Proof.
  intros Hsrv. destruct getVersion_exchange as (ctx & [Hsub Hcon] & ->).
  rewrite Hsrv. simpl. eexists _, _. split; [reflexivity|]. cbn [heap console].
  rewrite Hcon. split; [done|]. split; [apply lookup_insert_eq|].
  split; [|done]. cbn [heap]. etrans; [exact Hsub|apply alloc_extends].
Qed.

(** A body that does not decode is swallowed the same way: the error
    callback logs [(jqXHR, "parsererror", error)]. *)
Lemma getVersion_swallows_parser_error xhr raw err w2 :
  srv (version_request u) = RBody xhr raw ->
  decode_body raw (returned_world (getVersion this w)) = (inr err, w2) ->
  exists a w',
    run srv (getVersion this w) = (Normal VUndefined, w', [version_request u]) /\
    console w' = console w2 ++ [[VRef a]] /\
    heap w' !! a = Some (OArray [xhr; VString "parsererror"; err] ∅).
Proof.
  intros Hsrv Hdec. destruct getVersion_exchange as (ctx & _ & ->).
  rewrite Hsrv. simpl. rewrite Hdec. simpl. eexists _, _. split; [reflexivity|].
  cbn [heap console]. split; [done|apply lookup_insert_eq].
Qed.

(** C22 (error): a version response without an element 0 makes the success
    callback throw a TypeError inside the callback; nothing is logged. *)
Theorem getVersion_throws_on_empty_response xhr raw r w2 :
  srv (version_request u) = RBody xhr raw ->
  decode_body raw (returned_world (getVersion this w)) = (inl r, w2) ->
  evals (get_prop r "0") w2 VUndefined w2 ->
  run srv (getVersion this w) = (Abrupt TypeError, w2, [version_request u]).
Proof.
  intros Hsrv Hdec Hr0. destruct getVersion_exchange as (ctx & _ & ->).
  rewrite Hsrv. simpl. rewrite Hdec. simpl.
  assert (Hcb : raises (getVersion_success [r; VString "success"; xhr]) w2 TypeError w2).
  { unfold getVersion_success. simpl.
    eapply raises_bind_r; [exact Hr0|]. by apply raises_bind_l. }
  by rewrite Hcb.
Qed.

End GetVersion.

(** C10 (error): a method called without its object.  In strict mode a
    function called detached from its object (passed as a callback, or
    [var f = bz.getBug; f(7)]) has [this] undefined.  [getBug],
    [addComment], [searchBugs], [getProducts] and [getVersion] read
    [this.url] before anything else: they throw a TypeError at once, with
    the store untouched and nothing sent.  [updateBug] throws the same
    TypeError and sends nothing, but line 77 runs before [this.url] is read
    on line 80: the caller's object has its [ids] already. *)
Theorem detached_method_throws this bugId comment hoursWorked criteria w srv :
  is_nullish this = true ->
  run srv (getBug this bugId w) = (Thrown TypeError, w, []) /\
  run srv (addComment this bugId comment hoursWorked w) = (Thrown TypeError, w, []) /\
  run srv (searchBugs this criteria w) = (Thrown TypeError, w, []) /\
  run srv (getProducts this w) = (Thrown TypeError, w, []) /\
  run srv (getVersion this w) = (Abrupt TypeError, w, []) /\
  forall lp o, heap w !! lp = Some o ->
    exists w', run srv (updateBug this bugId (VRef lp) w) = (Thrown TypeError, w', []) /\
               updated w lp o bugId w'.
Proof.
  intros Hn.
  assert (Hr : forall A (f : value -> js A),
             raises (get_prop this "url" ≫= f) w TypeError w).
  { intros A f. by apply raises_bind_l, raises_get_prop_nullish. }
  repeat split.
  - apply call_raises, Hr.
  - apply call_raises, Hr.
  - apply call_raises, Hr.
  - unfold getProducts. rewrite run_then.
    by rewrite (call_raises (getProducts_settings this) w TypeError w srv (Hr _ _)).
  - unfold getVersion, mbind, async_mbind, async_bind. rewrite run_bind.
    by rewrite (call_raises (getVersion_settings this) w TypeError w srv (Hr _ _)).
  - intros lp o Ho.
    destruct (updateBug_settings_detached this bugId lp o w Hn Ho) as (w' & Hw' & Hupd).
    exists w'. split; [by apply call_raises|done].
Qed.

End ChainTheorems.

(** ** Witnesses: a client built by the constructor, against [demo_server] *)

(** The store after the transport decoded the first response of the demo:
    the response array is at 5, its element at 4, the ids at 3. *)
Definition after_ids (T : Transport) : world :=
  (decode_body "IDS" (returned_world (getProducts fresh_client.1 fresh_client.2))).2.

Definition after_version (T : Transport) : world :=
  (decode_body "VERSION" (returned_world (getVersion fresh_client.1 fresh_client.2))).2.

Definition empty_reply_server (rq : request) : reply := RBody VNull "EMPTY".

Definition after_empty (T : Transport) : world :=
  (decode_body "EMPTY" (returned_world (getProducts fresh_client.1 fresh_client.2))).2.

Lemma getProducts_stops_on_first_failure_witness :
  exists ctx,
    run failing_server
        (getProducts (TR := table_transport page_dates demo_table) fresh_client.1 fresh_client.2) =
    (Rejected ctx [VNull; VString "error"; VString "Not Found"],
     returned_world
       (getProducts (TR := table_transport page_dates demo_table) fresh_client.1 fresh_client.2),
     [enterable_request (VString bugzilla_url)]).
Proof.
  apply (getProducts_stops_on_first_failure (TR := table_transport page_dates demo_table)
           fresh_client.1 (VString bugzilla_url) fresh_client.2 failing_server);
    vm_compute; reflexivity.
Defined.

Lemma getProducts_needs_the_callback_context_witness :
  run demo_server
      (getProducts (TR := bare_transport page_dates demo_table) fresh_client.1 fresh_client.2) =
  (Thrown TypeError, after_ids (bare_transport page_dates demo_table),
   [enterable_request (VString bugzilla_url)]).
Proof.
  apply (getProducts_needs_the_callback_context (TR := bare_transport page_dates demo_table)
           fresh_client.1 (VString bugzilla_url) fresh_client.2 demo_server eq_refl
           VNull (VRef 4%positive) "IDS" (after_ids (bare_transport page_dates demo_table))
           eq_refl eq_refl VUndefined fresh_client.2 eq_refl eq_refl).
Defined.

Lemma getProducts_throws_on_empty_response_witness :
  run empty_reply_server
      (getProducts (TR := table_transport page_dates demo_table) fresh_client.1 fresh_client.2) =
  (Thrown TypeError, after_empty (table_transport page_dates demo_table),
   [enterable_request (VString bugzilla_url)]).
Proof.
  apply (getProducts_throws_on_empty_response (TR := table_transport page_dates demo_table)
           fresh_client.1 (VString bugzilla_url) fresh_client.2 empty_reply_server
           eq_refl VNull (VRef 3%positive) "EMPTY"
           (after_empty (table_transport page_dates demo_table)) eq_refl eq_refl
           (JQ := table_transport_jquery page_dates demo_table) eq_refl).
Defined.

Lemma getProducts_calls_in_sequence_witness :
  (run demo_server
       (getProducts (TR := table_transport page_dates demo_table) fresh_client.1 fresh_client.2)).2 =
  [enterable_request (VString bugzilla_url);
   products_request (VString bugzilla_url)
     (TArr [TNumber (num_of_Z 1); TNumber (num_of_Z 2); TNumber (num_of_Z 3)])].
Proof.
  apply (getProducts_calls_in_sequence (TR := table_transport page_dates demo_table)
           fresh_client.1 (VString bugzilla_url) fresh_client.2 demo_server eq_refl
           VNull (VRef 5%positive) "IDS" (after_ids (table_transport page_dates demo_table))
           eq_refl eq_refl (JQ := table_transport_jquery page_dates demo_table)
           (VRef 4%positive) (VRef 3%positive) _ eq_refl eq_refl).
  vm_compute; reflexivity.
Defined.

Lemma getProducts_resolves_with_repaired_response_witness :
  exists ctx2 w3,
    after_ids (table_transport page_dates demo_table) ⊑ w3 /\
    (run demo_server
         (getProducts (TR := table_transport page_dates demo_table) fresh_client.1 fresh_client.2)).1 =
    match decode_body (Transport := table_transport page_dates demo_table)
                      (products_dataFilter "PRODUCTS</methodRes?>") w3 with
    | (inl v, w4) => (Resolved ctx2 v, w4)
    | (inr e, w4) => (Rejected ctx2 [VNull; VString "parsererror"; e], w4)
    end.
Proof.
  apply (getProducts_resolves_with_repaired_response (TR := table_transport page_dates demo_table)
           fresh_client.1 (VString bugzilla_url) fresh_client.2 demo_server eq_refl
           VNull (VRef 5%positive) "IDS" (after_ids (table_transport page_dates demo_table))
           eq_refl eq_refl (JQ := table_transport_jquery page_dates demo_table)
           (VRef 4%positive) (VRef 3%positive)
           (TArr [TNumber (num_of_Z 1); TNumber (num_of_Z 2); TNumber (num_of_Z 3)])
           eq_refl eq_refl);
    vm_compute; reflexivity.
Defined.

Definition second_failing_server (rq : request) : reply :=
  if String.eqb (rq_method rq) "Product.get" then failing_server rq else demo_server rq.

Lemma getProducts_second_failure_rejects_witness :
  exists ctx2 w3,
    run second_failing_server
        (getProducts (TR := table_transport page_dates demo_table) fresh_client.1 fresh_client.2) =
    (Rejected ctx2 [VNull; VString "error"; VString "Not Found"], w3,
     [enterable_request (VString bugzilla_url);
      products_request (VString bugzilla_url)
        (TArr [TNumber (num_of_Z 1); TNumber (num_of_Z 2); TNumber (num_of_Z 3)])]).
Proof.
  apply (getProducts_second_failure_rejects (TR := table_transport page_dates demo_table)
           fresh_client.1 (VString bugzilla_url) fresh_client.2 second_failing_server
           eq_refl VNull (VRef 5%positive) "IDS" (after_ids (table_transport page_dates demo_table))
           eq_refl eq_refl (JQ := table_transport_jquery page_dates demo_table)
           (VRef 4%positive) (VRef 3%positive)
           (TArr [TNumber (num_of_Z 1); TNumber (num_of_Z 2); TNumber (num_of_Z 3)])
           eq_refl eq_refl);
    vm_compute; reflexivity.
Defined.

Lemma getVersion_logs_version_witness :
  run demo_server (getVersion (TR := table_transport page_dates demo_table)
                              fresh_client.1 fresh_client.2) =
  (Normal VUndefined,
   World (heap (after_version (table_transport page_dates demo_table))) [[VString "4.4"]],
   [version_request (VString bugzilla_url)]).
Proof.
  apply (getVersion_logs_version (TR := table_transport page_dates demo_table)
           fresh_client.1 (VString bugzilla_url) fresh_client.2 demo_server eq_refl
           VNull "VERSION" (VRef 4%positive) (after_version (table_transport page_dates demo_table))
           (VRef 3%positive) (VString "4.4"));
    vm_compute; reflexivity.
Defined.

Lemma getVersion_swallows_failure_witness :
  exists a w',
    run failing_server (getVersion (TR := table_transport page_dates demo_table)
                                   fresh_client.1 fresh_client.2) =
      (Normal VUndefined, w', [version_request (VString bugzilla_url)]) /\
    console w' = console fresh_client.2 ++ [[VRef a]] /\
    heap w' !! a = Some (OArray [VNull; VString "error"; VString "Not Found"] ∅) /\
    fresh_client.2 ⊑ World (heap w') (console fresh_client.2).
Proof.
  apply (getVersion_swallows_failure (TR := table_transport page_dates demo_table)
           fresh_client.1 (VString bugzilla_url) fresh_client.2 failing_server);
    vm_compute; reflexivity.
Defined.

Definition version_after_empty (T : Transport) : world :=
  (decode_body "EMPTY" (returned_world (getVersion fresh_client.1 fresh_client.2))).2.

Lemma detached_method_throws_witness :
  let TR := table_transport page_dates demo_table in
  let w := fields_object.2 in
  run demo_server (getBug VUndefined seven w) = (Thrown TypeError, w, []) /\
  run demo_server (addComment VUndefined seven (VString "fixed") VUndefined w)
  = (Thrown TypeError, w, []) /\
  run demo_server (searchBugs VUndefined fields_object.1 w) = (Thrown TypeError, w, []) /\
  run demo_server (getProducts VUndefined w) = (Thrown TypeError, w, []) /\
  run demo_server (getVersion VUndefined w) = (Abrupt TypeError, w, []) /\
  forall lp o, heap w !! lp = Some o ->
    exists w', run demo_server (updateBug VUndefined seven (VRef lp) w)
               = (Thrown TypeError, w', []) /\
               updated w lp o seven w'.
Proof.
  intros TR w.
  by apply (detached_method_throws (TR := TR) VUndefined seven (VString "fixed") VUndefined
              fields_object.1 w demo_server).
Defined.

Lemma getVersion_throws_on_empty_response_witness :
  run empty_reply_server (getVersion (TR := table_transport page_dates demo_table)
                                     fresh_client.1 fresh_client.2) =
  (Abrupt TypeError, version_after_empty (table_transport page_dates demo_table),
   [version_request (VString bugzilla_url)]).
Proof.
  apply (getVersion_throws_on_empty_response (TR := table_transport page_dates demo_table)
           fresh_client.1 (VString bugzilla_url) fresh_client.2 empty_reply_server
           eq_refl VNull "EMPTY" (VRef 3%positive));
    vm_compute; reflexivity.
Defined.
