(* ===== verification/Decoding.v ===== *)
(** * Decoded responses

    A response body is decoded to a tree and the tree is allocated in the
    store ([alloc_tree]), its dates read with the decoder registered for
    them; a call serialises its parameters off the store ([reify]), its dates
    written with the encoder.  This file states what a decoded value is
    ([decoded]), proves that allocating a tree yields it, and the round trip:
    allocate then serialise is the identity on the trees whose dates the
    encoder writes the way they were read.  With what the client's reads
    [response[0]] and [.ids] find in a decoded value, what [getProducts]
    forwards from its first response to its second call is stated on the
    wire. *)

From S2P Require Import Prelude JsValue XmlRpc Regex Bugzilla BugzillaCalls BugzillaChain.
From stdpp Require Import gmap.

#[local] Set Warnings "-register-all".

Section Decoded.
Context {DT : DateType}.

(** ** What a tree decodes to

    [decoded h v t]: in heap [h], [v] is the value of tree [t]: arrays and
    objects with nothing but the elements and members of the tree, and for
    each element of type [dateTime.iso8601] a [Date] with the time value the
    decoder reads in its text. *)
Inductive decoded (h : gmap loc object) : value -> tree -> Prop :=
| decoded_undefined : decoded h VUndefined TUndefined
| decoded_null : decoded h VNull TNull
| decoded_bool b : decoded h (VBool b) (TBool b)
| decoded_number n : decoded h (VNumber n) (TNumber n)
| decoded_string s : decoded h (VString s) (TString s)
| decoded_array l es ts :
    h !! l = Some (OArray es ∅) -> Forall2 (decoded h) es ts ->
    decoded h (VRef l) (TArr ts)
| decoded_object l ps ms :
    h !! l = Some (OObject ps) ->
    (forall k, option_Forall2 (decoded h) (ps !! k) (ms !! k)) ->
    decoded h (VRef l) (TObj ms)
| decoded_date l text :
    h !! l = Some (ODate (date_decode text) ∅) -> decoded h (VRef l) (TDate text).

(** A text the encoder writes the way it was read. *)
Definition canonical_text (text : string) : Prop :=
  date_encode (date_decode text) = Normal text.

Definition canonical (t : tree) : Prop := Forall canonical_text (tree_dates t).

Definition round_trips (t : tree) : Prop :=
  forall w v w', evals (alloc_tree t) w v w' -> serializes (heap w') v t.

End Decoded.

(** ** Lemmas *)

Lemma allocates_evals {A} (c : js A) w a w' : allocates c -> evals c w a w' -> w ⊑ w'.
Proof. intros Hc Ha. destruct (Hc w) as (a' & w1 & H & Hle). unfold evals in Ha. congruence. Qed.

Section DecodedLemmas.
Context {DT : DateType}.

Lemma canonical_elem ts t : canonical (TArr ts) -> t ∈ ts -> canonical t.
Proof.
  unfold canonical. rewrite !Forall_forall. intros Hts Ht s Hs.
  by apply Hts, (tree_dates_elem _ _ Ht).
Qed.

Lemma canonical_member ms k t : canonical (TObj ms) -> ms !! k = Some t -> canonical t.
Proof.
  unfold canonical. rewrite !Forall_forall. intros Hms Ht s Hs.
  by apply Hms, (tree_dates_member _ _ _ Ht).
Qed.

Lemma date_free_canonical t : tree_dates t = [] -> canonical t.
Proof. unfold canonical. intros ->. constructor. Qed.

(** A decoded value stays one when the store grows. *)
Lemma decoded_weaken h h' v t : h ⊆ h' -> decoded h v t -> decoded h' v t.
Proof.
  intros Hsub. revert v.
  induction t as [| | | | |ts IH|ms IH|text] using tree_ind_full; intros v Hv;
    inversion Hv as [| | | | |l es ts' Hl Hes|l ps ms' Hl Hps|l text' Hl]; subst;
    try by constructor.
  - eapply decoded_array; [by eapply lookup_weaken|].
    eapply Forall2_impl_elem; [exact Hes|]. intros x y _ Hy Hxy.
    rewrite Forall_forall in IH. by apply IH.
  - eapply decoded_object; [by eapply lookup_weaken|]. intros k.
    specialize (Hps k).
    destruct (ps !! k) as [x|], (ms !! k) as [y|] eqn:Hy; inversion Hps; subst; constructor.
    by apply (IH k y Hy).
  - apply decoded_date. by eapply lookup_weaken.
Qed.

End DecodedLemmas.

(** ** Allocating a tree yields its value *)

Section AllocDecoded.
Context {DT : DateType}.

Let yields (t : tree) : Prop :=
  forall w v w', evals (alloc_tree t) w v w' -> decoded (heap w') v t.

Lemma alloc_list_decoded ts w vs w' :
  Forall yields ts ->
  evals (alloc_list alloc_tree ts) w vs w' -> Forall2 (decoded (heap w')) vs ts.
Proof.
  intros Hts. revert w vs w'. induction Hts as [|t ts Ht Hts IH]; intros w vs w' Hvs; simpl in Hvs.
  - apply evals_ret_inv in Hvs as [-> _]. constructor.
  - apply evals_bind_inv in Hvs as (v & w1 & Hv & Hvs).
    apply evals_bind_inv in Hvs as (vs' & w2 & Hvs' & Hr).
    apply evals_ret_inv in Hr as [-> ->]. constructor; [|by eapply IH].
    eapply decoded_weaken; [|by eapply Ht].
    eapply allocates_evals; [|exact Hvs'].
    apply allocates_alloc_list, Forall_forall. intros t' _. apply allocates_alloc_tree.
Qed.

Lemma alloc_members_decoded (ms : gmap string tree) :
  map_Forall (fun _ => yields) ms ->
  forall w m w', evals (map_fold (alloc_member alloc_tree) (mret ∅) ms) w m w' ->
  forall k, option_Forall2 (decoded (heap w')) (m !! k) (ms !! k).
Proof.
  apply (map_fold_weak_ind
           (fun r (ms : gmap string tree) =>
              map_Forall (fun _ => yields) ms ->
              forall w m w', evals r w m w' ->
              forall k, option_Forall2 (decoded (heap w')) (m !! k) (ms !! k))).
  - intros _ w m w' Hm k. apply evals_ret_inv in Hm as [-> _].
    rewrite !lookup_empty. constructor.
  - intros i t ms' r Hi IH Hall w m w' Hm k.
    apply map_Forall_insert in Hall as [Ht Hms']; [|done].
    apply evals_bind_inv in Hm as (m0 & w1 & Hm0 & Hm).
    apply evals_bind_inv in Hm as (v & w2 & Hv & Hr).
    apply evals_ret_inv in Hr as [-> ->].
    rewrite !lookup_insert. case_decide; [constructor; by eapply Ht|].
    destruct (IH Hms' w m0 w1 Hm0 k) as [x y Hxy|]; constructor.
    eapply decoded_weaken; [|exact Hxy].
    by eapply (allocates_evals _ _ _ _ (allocates_alloc_tree t) Hv).
Qed.

(** What [alloc_tree] returns is the value of the tree. *)
Lemma alloc_tree_decoded t w v w' :
  evals (alloc_tree t) w v w' -> decoded (heap w') v t.
Proof.
  revert w v w'. fold (yields t).
  induction t as [| | | | |ts IH|ms IH|text] using tree_ind_full; intros w v w' Hv;
    simpl in Hv; try (apply evals_ret_inv in Hv as [-> _]; by constructor).
  - apply evals_bind_inv in Hv as (vs & w1 & Hvs & Hv). injection Hv as <- <-.
    eapply decoded_array; [apply lookup_insert_eq|].
    eapply Forall2_impl; [by eapply alloc_list_decoded|].
    intros x y. apply decoded_weaken, alloc_extends.
  - apply evals_bind_inv in Hv as (m & w1 & Hm & Hv). injection Hv as <- <-.
    eapply decoded_object; [apply lookup_insert_eq|]. intros k.
    destruct (alloc_members_decoded ms IH _ _ _ Hm k) as [x y Hxy|]; constructor.
    revert Hxy. apply decoded_weaken, alloc_extends.
  - injection Hv as <- <-. apply decoded_date, lookup_insert_eq.
Qed.

(** ** Serialising a decoded value *)

(** The value of a tree serialises to the tree when the encoder writes the
    dates of the tree the way they were read. *)
Lemma decoded_reify n h v t :
  decoded h v t -> canonical t -> tree_size t <= n -> reify n h v = Normal t.
Proof.
  revert v t. induction n as [|n IH]; intros v t Hv Hc Hn; [destruct t; simpl in Hn; lia|].
  inversion Hv as [| | | | |l es ts Hl Hes|l ps ms Hl Hps|l text Hl]; subst; try done.
  - eapply reify_array; [exact Hl|].
    eapply Forall2_impl_elem; [exact Hes|]. intros x y _ Hy Hxy.
    apply IH; [done|by eapply canonical_elem|].
    pose proof (tree_size_elem _ _ Hy). lia.
  - eapply reify_object; [exact Hl|]. intros k. specialize (Hps k).
    destruct (ps !! k) as [x|], (ms !! k) as [y|] eqn:Hy; inversion Hps; subst; [|done].
    cbn [fmap option_fmap option_map]. f_equal.
    apply IH; [done|by eapply canonical_member|].
    pose proof (tree_size_member _ _ _ Hy). lia.
  - rewrite (reify_date _ _ _ _ _ Hl).
    inversion Hc as [|? ? Htext _]; subst. by rewrite Htext.
Qed.

Lemma decoded_serializes h v t : decoded h v t -> canonical t -> serializes h v t.
Proof. intros Hv Hc. eapply reify_fuel_enough. by apply (decoded_reify (tree_size t)). Qed.

(** Round trip: a tree allocated in the store serialises to itself. *)
Theorem alloc_tree_round_trip t : canonical t -> round_trips t.
Proof. intros Hc w v w' Hv. apply decoded_serializes; [by eapply alloc_tree_decoded|done]. Qed.

(** ** Reading a decoded value *)

Lemma decoded_element h w v ts k i t :
  heap w = h -> decoded h v (TArr ts) -> array_index k = Some i -> ts !! i = Some t ->
  exists x, evals (get_prop v k) w x w /\ decoded h x t.
Proof.
  intros <- Hv Hk Hi.
  inversion Hv as [| | | | |l es ts' Hl Hes| |]; subst.
  destruct (Forall2_lookup_r _ _ _ _ _ Hes Hi) as (x & Hx & Hxt).
  exists x. split; [|done]. unfold evals, get_prop. rewrite Hl. simpl.
  destruct (decide (k = "length")) as [->|_]; [done|]. by rewrite Hk, Hx.
Qed.

Lemma decoded_member h w v ms k t :
  heap w = h -> decoded h v (TObj ms) -> ms !! k = Some t ->
  exists x, evals (get_prop v k) w x w /\ decoded h x t.
Proof.
  intros <- Hv Hk.
  inversion Hv as [| | | | | |l ps ms' Hl Hps|]; subst. specialize (Hps k).
  rewrite Hk in Hps. inversion Hps as [x y Hxy Hx|]; subst.
  exists x. split; [|done]. unfold evals, get_prop. rewrite Hl. simpl. by rewrite <- Hx.
Qed.

(** A decoded date is a [Date] with the time value the decoder reads. *)
Lemma decoded_is_date h v text :
  decoded h v (TDate text) ->
  exists l, v = VRef l /\ h !! l = Some (ODate (date_decode text) ∅).
Proof. intros Hv. inversion Hv; subst. eauto. Qed.

End AllocDecoded.

(** ** Reading a value that has a tree *)

Section Reading.
Context {DT : DateType}.

Lemma read_element w v t ts :
  serializes (heap w) v (TArr (t :: ts)) ->
  exists x, evals (get_prop v "0") w x w /\ serializes (heap w) x t.
Proof.
  unfold serializes, reify_fuel. destruct v as [| | | | |l]; try done. simpl.
  destruct (heap w !! l) as [[ps|es ps|d ps]|] eqn:Hl; try done;
    intros Hes; apply comp_fmap_Normal in Hes as (ts' & Hes & [= <-]).
  apply comp_mapM_Normal in Hes. inversion Hes as [|x t' es' ts' Hx Hes' E1 E2]; subst.
  exists x. split; [by unfold evals, get_prop; rewrite Hl|].
  apply (reify_mono (size (heap w)) (S (size (heap w)))); [exact Hx|lia].
Qed.

Lemma read_member w v ms k t :
  serializes (heap w) v (TObj ms) -> ms !! k = Some t ->
  exists x, evals (get_prop v k) w x w /\ serializes (heap w) x t.
Proof.
  unfold serializes, reify_fuel. destruct v as [| | | | |l]; try done. simpl.
  destruct (heap w !! l) as [[ps|es ps|d ps]|] eqn:Hl; try done;
    intros Hps Hk; apply comp_fmap_Normal in Hps as (ms' & Hps & [= <-]).
  pose proof (proj1 (map_allc_fmap_lookup _ _ _) Hps k) as Hx. rewrite Hk in Hx.
  destruct (ps !! k) as [x|] eqn:Hpk; [|done]. injection Hx as Hx.
  exists x. split; [by unfold evals, get_prop; rewrite Hl; simpl; rewrite Hpk|].
  apply (reify_mono (size (heap w)) (S (size (heap w)))); [exact Hx|lia].
Qed.

(** What the table transport decodes is the value of the tree of the table. *)
Lemma table_decode_tree tbl s w v w' :
  table_decode tbl s w = (inl v, w') ->
  exists t, (list_to_map tbl : gmap string tree) !! s = Some t /\
            decoded (heap w') v t.
Proof.
  unfold table_decode. destruct (_ !! s) as [t|]; [|done].
  destruct (alloc_tree t w) as [[x|e] w1] eqn:Ht; [|done]. intros [= <- <-].
  exists t. split; [done|]. by eapply alloc_tree_decoded.
Qed.

(** It always decodes a body of the table. *)
Lemma table_decode_total tbl s w t :
  (list_to_map tbl : gmap string tree) !! s = Some t ->
  exists v w', table_decode tbl s w = (inl v, w').
Proof.
  intros Ht. unfold table_decode. rewrite Ht.
  destruct (allocates_alloc_tree t w) as (v & w' & -> & _). eauto.
Qed.

End Reading.

(** ** What [getProducts] forwards *)

Section Forwards.
Context {TR : Transport} {JQ : JQueryContext}.

(** Under jQuery, when the first response decodes to an array whose first
    element has [ids], the second request carries these ids as they were
    decoded: [getProducts] sends [Product.get_enterable_products], then
    [Product.get] with [{ids: t}]. *)
Theorem getProducts_forwards_ids this u w srv xhr raw r w2 ms rest t :
  evals (get_prop this "url") w u w ->
  srv (enterable_request u) = RBody xhr raw ->
  decode_body raw (returned_world (getProducts this w)) = (inl r, w2) ->
  serializes (heap w2) r (TArr (TObj ms :: rest)) ->
  ms !! "ids" = Some t ->
  (run srv (getProducts this w)).2 = [enterable_request u; products_request u t].
Proof.
  intros Hu Hsrv Hdec Hr Ht.
  destruct (read_element _ _ _ _ Hr) as (r0 & Hr0 & Hr0t).
  destruct (read_member _ _ _ _ _ Hr0t Ht) as (ids & Hids & Hidst).
  by destruct (getProducts_second this u w srv Hu xhr r raw w2 Hsrv Hdec r0 ids t Hr0 Hids Hidst)
    as (ps & ctx2 & w3 & _ & ->).
Qed.

(** The same of a decoded response, of which only the ids have to be
    written the way they were read: the other dates of the response are not
    sent back. *)
Theorem getProducts_forwards_decoded_ids this u w srv xhr raw r w2 ms rest t :
  evals (get_prop this "url") w u w ->
  srv (enterable_request u) = RBody xhr raw ->
  decode_body raw (returned_world (getProducts this w)) = (inl r, w2) ->
  decoded (heap w2) r (TArr (TObj ms :: rest)) ->
  ms !! "ids" = Some t -> canonical t ->
  (run srv (getProducts this w)).2 = [enterable_request u; products_request u t].
Proof.
  intros Hu Hsrv Hdec Hr Ht Hc.
  destruct (decoded_element _ w2 _ _ "0" 0 _ eq_refl Hr eq_refl eq_refl) as (r0 & Hr0 & Hr0t).
  destruct (decoded_member _ w2 _ _ _ _ eq_refl Hr0t Ht) as (ids & Hids & Hidst).
  pose proof (decoded_serializes _ _ _ Hidst Hc) as Hs.
  by destruct (getProducts_second this u w srv Hu xhr r raw w2 Hsrv Hdec r0 ids t Hr0 Hids Hs)
    as (ps & ctx2 & w3 & _ & ->).
Qed.

End Forwards.

(** With the table transport the tree is the one of the table. *)
Corollary getProducts_forwards_table_ids dt tbl this u w srv xhr raw ms rest t :
  evals (get_prop this "url") w u w ->
  srv (enterable_request u) = RBody xhr raw ->
  (list_to_map tbl : gmap string tree) !! raw = Some (TArr (TObj ms :: rest)) ->
  ms !! "ids" = Some t -> canonical (DT := dt) t ->
  (run srv (getProducts (TR := table_transport dt tbl) this w)).2
  = [enterable_request u; products_request u t].
Proof.
  intros Hu Hsrv Htbl Ht Hc.
  destruct (table_decode_total (DT := dt) tbl raw
              (returned_world (getProducts (TR := table_transport dt tbl) this w)) _ Htbl)
    as (r & w2 & Hdec).
  destruct (table_decode_tree _ _ _ _ _ Hdec) as (t' & Ht' & Hr).
  rewrite Htbl in Ht'. injection Ht' as <-.
  by eapply (getProducts_forwards_decoded_ids (TR := table_transport dt tbl)).
Qed.
