(* ===== verification/Trees.v ===== *)
(** * Decoded values, read and sent back, as trees

    What the program does with a decoded response, stated on the tree of the
    response instead of the store:
    - [tree_get] is a property read ([response[0]], [.ids], [.version]): it
      gives the tree of what [get_prop] reads in a decoded value, and throws
      when [get_prop] throws;
    - [resend] is what a decoded value serialises to when it is passed as a
      parameter of a later call: the tree itself, with each date written by
      the encoder from the time value the decoder read.
    The fuel of [reify] is the size of the store; that of [resend] is the
    size of the tree.  Both are enough for a decoded value, so that the two
    agree on every outcome, exceptions of the encoder included. *)

From S2P Require Import Prelude JsValue Decoding.
From stdpp Require Import gmap.

(** ** Reading a property *)

Definition tree_char (s : string) (i : nat) : tree :=
  match String.get i s with
  | Some c => TString (String c EmptyString)
  | None => TUndefined
  end.

(** [t[k]]: [get_prop] on the value of [t]. *)
Definition tree_get (t : tree) (k : string) : comp exn tree :=
  match t with
  | TUndefined | TNull => Abrupt TypeError
  | TBool _ | TNumber _ | TDate _ => Normal TUndefined
  | TString s =>
      if decide (k = "length") then
        Normal (TNumber (num_of_Z (Z.of_nat (String.length s))))
      else Normal (from_option (tree_char s) TUndefined (array_index k))
  | TArr ts =>
      if decide (k = "length") then Normal (TNumber (num_of_Z (Z.of_nat (length ts))))
      else Normal (default TUndefined (array_index k ≫= (ts !!.)))
  | TObj ms => Normal (default TUndefined (ms !! k))
  end.

(** ** Sending a decoded value back *)

(** [reify] on the value of [t], with the same fuel. *)
Fixpoint resend_fuel {DT : DateType} (fuel : nat) (t : tree) : comp exn tree :=
  match t, fuel with
  | (TArr _ | TObj _ | TDate _), O => Abrupt RangeError
  | TArr ts, S fuel' => TArr <$> comp_mapM (resend_fuel fuel') ts
  | TObj ms, S fuel' => TObj <$> map_allc (resend_fuel fuel' <$> ms)
  | TDate text, S _ => TDate <$> date_encode (date_decode text)
  | _, _ => Normal t
  end.

Definition resend {DT : DateType} (t : tree) : comp exn tree :=
  resend_fuel (tree_size t) t.

(** An encoder that writes every date, with the decoder of [DT]: it tells
    the shape of a tree from what the dates of the tree are. *)
Definition plain_dates (DT : DateType) : DateType :=
  {| date_encode := fun _ => Normal EmptyString; date_decode := date_decode |}.

(** ** Lemmas: reading *)

Section Reading.
Context {DT : DateType}.

Lemma decoded_tree_get w v t k :
  decoded (heap w) v t ->
  match tree_get t k with
  | Normal t' => exists x, evals (get_prop v k) w x w /\ decoded (heap w) x t'
  | Abrupt e => raises (get_prop v k) w e w
  end.
Proof.
  intros Hv. inversion Hv as [| | | |s|l es ts Hl Hes|l ps ms Hl Hps|l text Hl]; subst;
    simpl; try done; unfold evals, get_prop; try rewrite Hl; simpl.
  - exists VUndefined. split; [done|constructor].
  - exists VUndefined. split; [done|constructor].
  - destruct (decide (k = "length")); [eexists; split; [done|constructor]|].
    destruct (array_index k) as [i|]; simpl; [|eexists; split; [done|constructor]].
    unfold string_at, tree_char. destruct (String.get i s); eexists; split; done || constructor.
  - destruct (decide (k = "length")).
    { rewrite (Forall2_length _ _ _ Hes). eexists; split; [done|constructor]. }
    destruct (array_index k) as [i|]; simpl; [|eexists; split; [done|constructor]].
    destruct (proj1 (Forall2_lookup _ _ _) Hes i) as [x y Hxy|]; simpl; eexists; split;
      done || constructor.
  - destruct (Hps k) as [x y Hxy|]; simpl; eexists; split; done || constructor.
  - exists VUndefined. split; [done|constructor].
Qed.

(** Reading a property of a decoded value finds the value of the tree
    [tree_get] gives, and changes nothing. *)
Lemma decoded_get_prop w v t k t' :
  decoded (heap w) v t -> tree_get t k = Normal t' ->
  exists x, evals (get_prop v k) w x w /\ decoded (heap w) x t'.
Proof. intros Hv Hk. pose proof (decoded_tree_get w v t k Hv) as H. by rewrite Hk in H. Qed.

(** It throws what [tree_get] throws. *)
Lemma decoded_get_prop_raises w v t k e :
  decoded (heap w) v t -> tree_get t k = Abrupt e -> raises (get_prop v k) w e w.
Proof. intros Hv Hk. pose proof (decoded_tree_get w v t k Hv) as H. by rewrite Hk in H. Qed.

End Reading.

(** ** Lemmas: sending back *)

(** [reify] on a decoded value is [resend_fuel] on its tree, at every fuel
    and with every encoder. *)
Lemma decoded_reify_resend {DT DT' : DateType} n h v t :
  (forall text, date_decode (DateType := DT') text = date_decode (DateType := DT) text) ->
  decoded (DT := DT) h v t ->
  reify (DT := DT') n h v = resend_fuel (DT := DT') n t.
Proof.
  intros Hd. revert v t. induction n as [|n IH]; intros v t Hv;
    inversion Hv as [| | | | |l es ts Hl Hes|l ps ms Hl Hps|l text Hl]; subst; try done;
    simpl; rewrite Hl.
  - f_equal. apply comp_mapM_Forall2. eapply Forall2_impl; [exact Hes|]. intros x y. apply IH.
  - do 2 f_equal. apply map_eq. intros k. rewrite !lookup_fmap.
    destruct (Hps k) as [x y Hxy|]; simpl; [|done]. f_equal. by apply IH.
  - by rewrite Hd.
Qed.

Section Total.
Context {DT : DateType}.
Hypothesis encoder_total : forall d, exists text, date_encode d = Normal text.

(** With an encoder that writes every date, the size of a tree is fuel
    enough. *)
Lemma resend_fuel_total n t : tree_size t <= n -> exists T, resend_fuel n t = Normal T.
Proof.
  revert t. induction n as [|n IH]; intros t Hn; [destruct t; simpl in Hn; lia|].
  destruct t as [| | | | |ts|ms|text]; cbn [resend_fuel]; eauto.
  - destruct (comp_mapM_completes (resend_fuel n) ts) as [k ->]; [|by eexists].
    intros x Hx. apply IH. pose proof (tree_size_elem _ _ Hx). lia.
  - destruct (map_allc_completes (resend_fuel n <$> ms)) as [r ->]; [|by eexists].
    intros k c. rewrite lookup_fmap. destruct (ms !! k) as [x|] eqn:Hk; [|done].
    intros [= <-]. apply IH. pose proof (tree_size_member _ _ _ Hk). lia.
  - destruct (encoder_total (date_decode text)) as [s ->]. by eexists.
Qed.

End Total.

(** Fuel that is enough with one encoder is enough with every encoder: more
    fuel does not change what is sent, nor what is thrown. *)
Lemma resend_fuel_stable {DT0 DT : DateType} n m t T :
  resend_fuel (DT := DT0) n t = Normal T -> n <= m ->
  resend_fuel (DT := DT) m t = resend_fuel (DT := DT) n t.
Proof.
  revert m t T. induction n as [|n IH]; intros m t T Ht Hm.
  { destruct t; try done; by destruct m. }
  destruct m as [|m]; [lia|].
  destruct t as [| | | | |ts|ms|text]; try done; cbn [resend_fuel] in *;
    apply comp_fmap_Normal in Ht as (r & Hr & ->); f_equal.
  - apply comp_mapM_ext. intros x Hx. apply comp_mapM_Normal in Hr.
    apply list_elem_of_lookup in Hx as [i Hi].
    destruct (Forall2_lookup_l _ _ _ _ _ Hr Hi) as (y & _ & Hy).
    eapply IH; [exact Hy|lia].
  - f_equal. apply map_fmap_ext. intros k x Hk.
    pose proof (proj1 (map_allc_fmap_lookup _ _ _) Hr k) as Hy. rewrite Hk in Hy.
    destruct (r !! k) as [y|]; simplify_eq/=. eapply IH; [done|lia].
Qed.

Section Resend.
Context {DT : DateType}.

Lemma plain_dates_total d : exists text, date_encode (DateType := plain_dates DT) d = Normal text.
Proof. by eexists. Qed.

(** Above the size of the tree the fuel does not matter. *)
Lemma resend_fuel_enough n t : tree_size t <= n -> resend_fuel n t = resend t.
Proof.
  intros Hn.
  destruct (resend_fuel_total (DT := plain_dates DT) plain_dates_total _ t (le_n _)) as [T HT].
  unfold resend. by eapply (resend_fuel_stable (DT0 := plain_dates DT)).
Qed.

(** What a decoded value serialises to, in a call: the fuel of the call is
    enough, whatever the encoder does. *)
Lemma decoded_resend h v t : decoded h v t -> reify (reify_fuel h) h v = resend t.
Proof.
  intros Hv.
  destruct (resend_fuel_total (DT := plain_dates DT) plain_dates_total _ t (le_n _)) as [T HT].
  assert (H0 : resend_fuel (DT := plain_dates DT) (reify_fuel h) t = Normal T).
  { rewrite <- (decoded_reify_resend (DT := DT) _ h v) by done.
    eapply reify_fuel_enough. by rewrite (decoded_reify_resend (DT := DT) _ h v t). }
  rewrite (decoded_reify_resend (DT := DT) _ h v t) by done. unfold resend.
  destruct (Nat.le_ge_cases (reify_fuel h) (tree_size t)).
  - symmetry. by eapply (resend_fuel_stable (DT0 := plain_dates DT)).
  - by eapply (resend_fuel_stable (DT0 := plain_dates DT)).
Qed.

(** A tree whose dates are written the way they were read is sent back
    unchanged. *)
Lemma canonical_resend t : canonical t -> resend t = Normal t.
Proof.
  intros Hc. destruct (allocates_alloc_tree t (World ∅ [])) as (v & w' & Hv & _).
  pose proof (alloc_tree_decoded _ _ _ _ Hv) as Hd.
  rewrite <- (decoded_resend _ _ _ Hd). by apply decoded_serializes.
Qed.

(** The parameter [[{k: x}]] of a call, with [x] decoded. *)
Lemma resend_singleton k t :
  resend (TArr [TObj {[ k := t ]}]) = (fun t' => TArr [TObj {[ k := t' ]}]) <$> resend t.
Proof.
  rewrite <- (resend_fuel_enough (S (S (tree_size t)))).
  2: { simpl. rewrite map_fold_singleton. lia. }
  cbn [resend_fuel comp_mapM]. rewrite map_fmap_singleton, map_allc_singleton.
  rewrite resend_fuel_enough by done. by destruct (resend t).
Qed.

End Resend.
