(* ===== verification/ChainSpec.v ===== *)
(** * The contract of getProducts and getVersion

    What the two methods without arguments promise, as functions of the
    server alone: no store, no promise, no callback.  A response is the tree
    its body parses to; [getProducts_contract] gives the requests that are
    sent and how the chained promise settles, [getVersion_contract] what is
    written to the console or thrown.  The refinement theorems state that
    the methods of src/src/bugzilla.js, run against a server, do what the
    contract computes, on every path: a transport failure or a body that
    does not parse at either call, a response without the members that are
    read, ids that cannot be written back, and the two successes. *)

From S2P Require Import Prelude JsValue XmlRpc Regex JsDate DateCodec Registry Bugzilla.
From S2P Require Import ProductsFilter BugzillaCalls BugzillaChain Decoding Trees.
From stdpp Require Import gmap.

(** ** Transports that parse

    A body parses to a tree or does not, whatever the store; decoding it
    allocates the value of the tree. *)
Class ParsingTransport (TR : Transport) : Type := {
  parse_body : string -> option tree;
  decode_parsed s w t :
    parse_body s = Some t ->
    exists v w', decode_body s w = (inl v, w') /\ decoded (heap w') v t;
  decode_unparsed s w :
    parse_body s = None -> exists err w', decode_body s w = (inr err, w')
}.

(** ** Outcomes *)

(** How a promise settles, without the store: resolved with the value of a
    tree, rejected with a failure of the transport or because the body did
    not parse, or failed with an exception. *)
Inductive settlement : Type :=
| Res (t : tree)
| Rej (xhr status err : value)
| Unparsed (xhr : value)
| Thr (e : exn).

Inductive settles_as {DT : DateType} (h : gmap loc object) : settled -> settlement -> Prop :=
| settles_res c v t : decoded h v t -> settles_as h (Resolved c v) (Res t)
| settles_rej c xhr status err :
    settles_as h (Rejected c [xhr; status; err]) (Rej xhr status err)
| settles_unparsed c xhr err :
    settles_as h (Rejected c [xhr; VString "parsererror"; err]) (Unparsed xhr)
| settles_thr e : settles_as h (Thrown e) (Thr e).

(** What is written to the console by [getVersion]: the version, or the
    arguments of the error callback. *)
Inductive logged : Type :=
| LogVersion (t : tree)
| LogFailure (xhr status err : value)
| LogUnparsed (xhr : value).

Inductive logs_as {DT : DateType} (h : gmap loc object) : list value -> logged -> Prop :=
| logs_version v t : decoded h v t -> logs_as h [v] (LogVersion t)
| logs_failure a xhr status err :
    h !! a = Some (OArray [xhr; status; err] ∅) ->
    logs_as h [VRef a] (LogFailure xhr status err)
| logs_unparsed a xhr err :
    h !! a = Some (OArray [xhr; VString "parsererror"; err] ∅) ->
    logs_as h [VRef a] (LogUnparsed xhr).

(** ** The contract *)

Section Contract.
Context {TR : Transport} {PT : ParsingTransport TR}.

(** One exchange: the reply, its body filtered and parsed. *)
Definition exchange (filter : string -> string) (rp : reply) : settlement :=
  match rp with
  | RFail xhr status err => Rej xhr status err
  | RBody xhr raw =>
      match parse_body (filter raw) with
      | Some t => Res t
      | None => Unparsed xhr
      end
  end.

(** [response[0].k] *)
Definition response_member (k : string) (response : tree) : comp exn tree :=
  r0 ← tree_get response "0"; tree_get r0 k.

(** [response[0].ids], as it is written in the second request. *)
Definition forwarded_ids (response : tree) : comp exn tree :=
  response_member "ids" response ≫= resend.

(** The callback of [then] (lines 112-122) on a first response. *)
Definition getProducts_then_contract (u : value) (srv : request -> reply)
    (response : tree) : settlement * list request :=
  match forwarded_ids response with
  | Normal ids =>
      (exchange products_dataFilter (srv (products_request u ids)),
       [products_request u ids])
  | Abrupt e => (Thr e, [])
  end.

(** [getProducts] (lines 105-123): the callback runs when the first call
    resolves. *)
Definition getProducts_contract (u : value) (srv : request -> reply)
  : settlement * list request :=
  match exchange id (srv (enterable_request u)) with
  | Res response =>
      let '(o, tr) := getProducts_then_contract u srv response in
      (o, enterable_request u :: tr)
  | o => (o, [enterable_request u])
  end.

(** A call of getBug, addComment, updateBug or searchBugs, given the request
    it builds: one exchange, or the exception of building the request. *)
Definition call_contract (rq : comp exn request) (srv : request -> reply)
  : settlement * list request :=
  match rq with
  | Normal rq => (exchange id (srv rq), [rq])
  | Abrupt e => (Thr e, [])
  end.

(** The callbacks of [getVersion] (lines 27-32) on the reply: the line that
    is logged, or the exception of the success callback. *)
Definition version_logged (rp : reply) : comp exn logged :=
  match exchange id rp with
  | Res response => LogVersion <$> response_member "version" response
  | Rej xhr status err => Normal (LogFailure xhr status err)
  | Unparsed xhr => Normal (LogUnparsed xhr)
  | Thr e => Abrupt e
  end.

(** [getVersion] (lines 21-34): one exchange, then one of the callbacks. *)
Definition getVersion_contract (u : value) (srv : request -> reply) : comp exn logged :=
  version_logged (srv (version_request u)).

(** What the callbacks leave, from store [w] to store [w']: nothing thrown
    and one more line on the console, or an exception and the console as it
    was. *)
Definition version_done (w w' : world) (res : comp exn value) (lg : comp exn logged)
  : Prop :=
  match lg with
  | Normal l =>
      res = Normal VUndefined /\
      exists line, console w' = console w ++ [line] /\ logs_as (heap w') line l
  | Abrupt e => res = Abrupt e /\ console w' = console w
  end.

End Contract.

(** ** Lemmas *)

Section Refinement.
Context {TR : Transport} {PT : ParsingTransport TR}.

(** A call without callbacks settles as its exchange, with the context of
    the call. *)
Lemma settle_exchange u m ps f c rp w :
  exists o w',
    settle (Settings u m ps None None f) c rp w = (o, w') /\ w ⊑ w' /\
    settles_as (heap w') o (exchange (default id f) rp) /\
    forall c' v, o = Resolved c' v -> c' = c.
Proof.
  destruct rp as [xhr raw|xhr status err].
  - rewrite settle_plain_body. simpl.
    destruct (parse_body (default id f raw)) as [t|] eqn:Hp.
    + destruct (decode_parsed _ w _ Hp) as (v & w' & Hd & Hv). rewrite Hd.
      eexists _, _. split; [done|]. split; [by eapply decode_body_frame|].
      split; [by constructor|congruence].
    + destruct (decode_unparsed _ w Hp) as (err & w' & Hd). rewrite Hd.
      eexists _, _. split; [done|]. split; [by eapply decode_body_frame|].
      split; [constructor|done].
  - eexists _, _. split; [done|]. split; [done|]. split; [constructor|done].
Qed.

(** Reading [response[0].k] in a decoded response. *)
Lemma decoded_response_member k w r tr :
  decoded (heap w) r tr ->
  match response_member k tr with
  | Normal t =>
      exists r0 x, evals (get_prop r "0") w r0 w /\ evals (get_prop r0 k) w x w /\
                   decoded (heap w) x t
  | Abrupt e =>
      raises (get_prop r "0") w e w \/
      exists r0, evals (get_prop r "0") w r0 w /\ raises (get_prop r0 k) w e w
  end.
Proof.
  intros Hr. unfold response_member. destruct (tree_get tr "0") as [t0|e] eqn:H0; simpl.
  2: { left. by eapply decoded_get_prop_raises. }
  destruct (decoded_get_prop _ _ _ _ _ Hr H0) as (r0 & Hr0 & Ht0).
  destruct (tree_get t0 k) as [t|e] eqn:Hk.
  - destruct (decoded_get_prop _ _ _ _ _ Ht0 Hk) as (x & Hx & Ht). by exists r0, x.
  - right. exists r0. split; [done|]. by eapply decoded_get_prop_raises.
Qed.

(** The four one-call methods settle as the exchange of their request, and
    throw what serialising their parameters throws. *)
Theorem invoke_refines_contract this c w s w0 srv :
  evals (call_settings this c) w s w0 ->
  let rq := Request (url s) (methodName s) <$> serialize_params (params s) w0 in
  exists o w',
    run srv (invoke this c w) = (o, w', (call_contract rq srv).2) /\
    settles_as (heap w') o (call_contract rq srv).1.
Proof.
  intros Hs. rewrite invoke_sync.
  destruct (call_settings_plain _ _ _ _ _ Hs) as (u & m & ps & ->).
  destruct (serialize_params (params (plain u m ps)) w0) as [t|e] eqn:Ht; simpl.
  - destruct (call_exchange _ _ _ _ _ srv Hs Ht) as (ctx & _ & _ & _ & ->).
    destruct (settle_exchange u m (Some ps) None ctx (srv (Request u m t))
                (returned_world (sync (call_settings this c) xmlrpc w)))
      as (o & w' & Ho & _ & Hm & _).
    exists o, w'. split; [|done]. unfold plain in *. cbn [url methodName]. by rewrite Ho.
  - rewrite (call_throws _ _ _ _ _ srv Hs Ht). eexists _, _. split; [done|constructor].
Qed.

(** The settings of the second call, on a decoded response: the parameter
    holds the decoded ids, or the callback throws what reading them throws. *)
Lemma getProducts_then_settings_decoded this response w u tr :
  evals (get_prop this "url") w u w -> decoded (heap w) response tr ->
  match response_member "ids" tr with
  | Normal ids =>
      exists ps w',
        evals (getProducts_then_settings this response) w
              (Settings u "Product.get" (Some ps) None None (Some products_dataFilter)) w' /\
        w ⊑ w' /\ decoded (heap w') ps (TArr [TObj {[ "ids" := ids ]}])
  | Abrupt e => raises (getProducts_then_settings this response) w e w
  end.
Proof.
  intros Hu Hr. pose proof (decoded_response_member "ids" _ _ _ Hr) as H.
  destruct (response_member "ids" tr) as [ids|e].
  - destruct H as (r0 & x & Hr0 & Hx & Hxt). eexists _, _. split; [|split].
    + unfold getProducts_then_settings.
      eapply evals_bind; [exact Hu|]. eapply evals_bind; [exact Hr0|].
      eapply evals_bind; [exact Hx|]. eapply evals_bind; [apply evals_new_object|].
      eapply evals_bind; [apply evals_new_array|apply evals_ret].
    + world_le_tac.
    + cbn [heap]. eapply decoded_array; [apply lookup_insert_eq|].
      constructor; [|constructor].
      eapply decoded_weaken; [apply alloc_extends|].
      eapply decoded_object; [apply lookup_insert_eq|]. intros k. simpl.
      destruct (decide (k = "ids")) as [->|Hne].
      * rewrite !lookup_insert_eq. constructor.
        eapply decoded_weaken; [apply alloc_extends|done].
      * rewrite lookup_insert_ne, lookup_empty, lookup_singleton_ne by done. constructor.
  - unfold getProducts_then_settings. eapply raises_bind_r; [exact Hu|].
    destruct H as [H|(r0 & Hr0 & H)]; [by apply raises_bind_l|].
    eapply raises_bind_r; [exact Hr0|]. by apply raises_bind_l.
Qed.

(** The callback of [then] as a process: it sends the second request with
    the ids as they are written back, or throws and sends nothing. *)
Lemma getProducts_then_proc ctx response w u tr :
  evals (get_prop ctx "url") w u w -> decoded (heap w) response tr ->
  match forwarded_ids tr with
  | Normal ids =>
      exists ps ctx2 w1,
        getProducts_then ctx response w
        = Await w1 (products_request u ids)
            (on_reply (Settings u "Product.get" (Some ps) None None
                                (Some products_dataFilter)) ctx2) /\
        w ⊑ w1
  | Abrupt e => exists w1, getProducts_then ctx response w = Ret (Thrown e) w1 /\ w ⊑ w1
  end.
Proof.
  intros Hu Hr. pose proof (getProducts_then_settings_decoded _ _ _ _ _ Hu Hr) as H.
  unfold getProducts_then, forwarded_ids.
  destruct (response_member "ids" tr) as [ids|e]; simpl.
  2: { exists w. by rewrite (sync_abrupt _ _ _ _ _ H). }
  destruct H as (ps & w0 & Hs & Hle & Hps). rewrite (sync_normal _ _ _ _ _ Hs).
  pose proof (decoded_resend _ _ _ Hps) as Hser. rewrite resend_singleton in Hser.
  destruct (resend ids) as [t|e]; cbn [fmap comp_fmap comp_map] in Hser; simpl.
  - rewrite (xmlrpc_await (Settings u "Product.get" (Some ps) None None
                                     (Some products_dataFilter)) w0 _ Hser).
    cbn [url methodName params]. eexists _, _, _.
    split; [reflexivity|]. etrans; [exact Hle|].
    eapply callback_context_frame, surjective_pairing.
  - exists w0. by rewrite (xmlrpc_throws (Settings u "Product.get" (Some ps) None None
                                           (Some products_dataFilter)) w0 _ Hser).
Qed.

(** Run against a server, the callback does what its contract computes. *)
Lemma getProducts_then_refines ctx response w u tr srv :
  evals (get_prop ctx "url") w u w -> decoded (heap w) response tr ->
  exists o w',
    run srv (getProducts_then ctx response w)
    = (o, w', (getProducts_then_contract u srv tr).2) /\
    w ⊑ w' /\
    settles_as (heap w') o (getProducts_then_contract u srv tr).1.
Proof.
  intros Hu Hr. pose proof (getProducts_then_proc _ _ _ _ _ Hu Hr) as H.
  unfold getProducts_then_contract. destruct (forwarded_ids tr) as [ids|e].
  - destruct H as (ps & ctx2 & w1 & -> & Hle). simpl. unfold on_reply.
    destruct (settle_exchange u "Product.get" (Some ps) (Some products_dataFilter) ctx2
                (srv (products_request u ids)) w1) as (o & w' & -> & Hle2 & Ho & _).
    exists o, w'. split; [done|]. split; [by etrans|done].
  - destruct H as (w1 & -> & Hle). exists (Thrown e), w1.
    split; [done|]. split; [done|constructor].
Qed.

Context {JQ : JQueryContext}.

(** The first exchange of [getProducts]: how the first promise settles, and,
    when it resolves, that the callback finds the client's URL in its
    context. *)
Lemma getProducts_first_exchange this u w srv :
  evals (get_prop this "url") w u w ->
  exists o w2,
    run srv (getProducts this w) =
    match o with
    | Resolved c v =>
        let '(o', w3, tr') := run srv (getProducts_then c v w2) in
        (o', w3, enterable_request u :: tr')
    | _ => (o, w2, [enterable_request u])
    end /\
    settles_as (heap w2) o (exchange id (srv (enterable_request u))) /\
    forall c v, o = Resolved c v -> evals (get_prop c "url") w2 u w2.
Proof.
  intros Hu. destruct (getProducts_first this u w srv Hu) as (ctx & w1 & Hctx & _ & ->).
  destruct (settle_exchange u "Product.get_enterable_products" None None ctx
              (srv (enterable_request u)) w1) as (o & w2 & -> & Hle & Ho & Hc).
  exists o, w2. split; [done|]. split; [done|]. intros c v ->. rewrite (Hc c v eq_refl).
  exact (evals_get_prop_extends _ _ _ _ _ _ (context_url _ _ _ _ _ _ Hctx) Hle).
Qed.

(** C11 (refinement): under jQuery, with a transport that parses,
    [getProducts] implements its contract on every path.  Against any
    server, the requests it sends are the ones [getProducts_contract]
    computes, in that order, and its promise settles as the contract says:
    rejected after one request when the first call fails or its body does
    not parse; failed with the exception of [response[0].ids] or of the
    encoder when the ids cannot be read or written back, after one request;
    otherwise settled as the second exchange, whose body is repaired before
    it is parsed, with the value of the tree it parses to. *)
Theorem getProducts_refines_contract this u w srv :
  evals (get_prop this "url") w u w ->
  exists o w',
    run srv (getProducts this w) = (o, w', (getProducts_contract u srv).2) /\
    settles_as (heap w') o (getProducts_contract u srv).1.
Proof.
  intros Hu. destruct (getProducts_first_exchange this u w srv Hu) as (o & w2 & -> & Ho & Hc).
  unfold getProducts_contract.
  destruct Ho as [c r tr Hr| | |]; try (eexists _, _; split; [done|constructor]).
  destruct (getProducts_then_refines c r w2 u tr srv (Hc c r eq_refl) Hr)
    as (o & w3 & -> & _ & Ho).
  destruct (getProducts_then_contract u srv tr) as [o' reqs]. by exists o, w3.
Qed.

(** The chained promise of [getProducts] is resolved only after both
    requests, with the value of what the repaired second body parses to. *)
Corollary getProducts_resolved_after_two_requests this u w srv c v w' tr :
  evals (get_prop this "url") w u w ->
  run srv (getProducts this w) = (Resolved c v, w', tr) ->
  exists ids t,
    tr = [enterable_request u; products_request u ids] /\
    exchange products_dataFilter (srv (products_request u ids)) = Res t /\
    decoded (heap w') v t.
Proof.
  intros Hu Hrun.
  destruct (getProducts_first_exchange this u w srv Hu) as (o & w2 & Hr & Ho & Hc).
  rewrite Hr in Hrun. clear Hr.
  destruct Ho as [c' r tr' Hr'| | |]; try done.
  destruct (getProducts_then_refines c' r w2 u tr' srv (Hc c' r eq_refl) Hr')
    as (o & w3 & Hrun2 & _ & Ho).
  rewrite Hrun2 in Hrun. injection Hrun as -> -> <-.
  unfold getProducts_then_contract in *.
  destruct (forwarded_ids tr') as [ids|e]; simpl in *; inversion Ho as [? ? t Hv Ht| | |]; subst.
  by exists ids, t.
Qed.

(** Once the first response gives ids that can be sent back, both requests
    are sent and the promise settles as the second exchange. *)
Lemma getProducts_after_response this u w srv r ids :
  evals (get_prop this "url") w u w ->
  exchange id (srv (enterable_request u)) = Res r -> forwarded_ids r = Normal ids ->
  exists o w',
    run srv (getProducts this w)
    = (o, w', [enterable_request u; products_request u ids]) /\
    settles_as (heap w') o (exchange products_dataFilter (srv (products_request u ids))).
Proof.
  intros Hu Hex Hids.
  destruct (getProducts_first_exchange this u w srv Hu) as (o & w2 & -> & Ho & Hc).
  rewrite Hex in Ho. inversion Ho as [c v t Hv| | |]; subst.
  destruct (getProducts_then_refines c v w2 u r srv (Hc c v eq_refl) Hv)
    as (o & w3 & -> & _ & Ho').
  unfold getProducts_then_contract in *. rewrite Hids in *. by exists o, w3.
Qed.

(** A body cut short in its closing tag is exchanged as the body it was
    meant to be. *)
Lemma exchange_repairs xhr pre junk :
  first_at close_prefix pre junk -> line_tail junk = "" ->
  exchange products_dataFilter (RBody xhr (pre ++ close_prefix ++ junk))
  = exchange id (RBody xhr (pre ++ close_tag)).
Proof.
  intros Hf Hj. unfold exchange, products_dataFilter.
  by rewrite replace_methodR, repair_truncated.
Qed.

(** C15 (functional): the repair end to end, what the filter exists for.  When the server
    answers [Product.get] with a response whose closing tag is cut short or
    followed by junk on its line, a document that would parse to [t] had it
    ended in [</methodResponse>], the promise of [getProducts] resolves
    with the value of [t], after both requests. *)
Theorem getProducts_recovers_from_malformed_response this u w srv r ids xhr pre junk t :
  evals (get_prop this "url") w u w ->
  exchange id (srv (enterable_request u)) = Res r -> forwarded_ids r = Normal ids ->
  srv (products_request u ids) = RBody xhr (pre ++ close_prefix ++ junk) ->
  first_at close_prefix pre junk -> line_tail junk = "" ->
  parse_body (pre ++ close_tag) = Some t ->
  exists c v w',
    run srv (getProducts this w)
    = (Resolved c v, w', [enterable_request u; products_request u ids]) /\
    decoded (heap w') v t.
Proof.
  intros Hu Hex Hids Hsrv Hf Hj Ht.
  destruct (getProducts_after_response this u w srv r ids Hu Hex Hids) as (o & w' & -> & Ho).
  rewrite Hsrv, (exchange_repairs _ _ _ Hf Hj) in Ho. unfold exchange in Ho.
  change (id ?x) with x in Ho. rewrite Ht in Ho.
  inversion Ho as [c v t' Hv| | |]; subst. by exists c, v, w'.
Qed.

(** The other calls pass no filter: the same body rejects their promise
    when it does not parse as it is. *)
Lemma exchange_unrepaired xhr raw :
  parse_body raw = None -> exchange id (RBody xhr raw) = Unparsed xhr.
Proof. unfold exchange. change (id raw) with raw. by intros ->. Qed.

(** The success callback of [getVersion] on a decoded response. *)
Lemma getVersion_success_decoded r rest w tr :
  decoded (heap w) r tr ->
  match response_member "version" tr with
  | Normal t =>
      exists v, evals (getVersion_success (r :: rest)) w tt
                      (World (heap w) (console w ++ [[v]])) /\
                decoded (heap w) v t
  | Abrupt e => raises (getVersion_success (r :: rest)) w e w
  end.
Proof.
  intros Hr. pose proof (decoded_response_member "version" _ _ _ Hr) as H.
  unfold getVersion_success. cbn [lookup list_lookup default].
  destruct (response_member "version" tr) as [t|e].
  - destruct H as (r0 & v & Hr0 & Hv & Ht). exists v. split; [|done].
    eapply evals_bind; [exact Hr0|]. eapply evals_bind; [exact Hv|]. apply evals_console_log.
  - destruct H as [H|(r0 & Hr0 & H)]; [by apply raises_bind_l|].
    eapply raises_bind_r; [exact Hr0|]. by apply raises_bind_l.
Qed.

(** The error callback logs its arguments object. *)
Lemma finish_getVersion_error args o w :
  finish (Some getVersion_error) args o w
  = (o, World (<[fresh_loc (heap w) := OArray args ∅]> (heap w))
              (console w ++ [[VRef (fresh_loc (heap w))]])).
Proof. reflexivity. Qed.

(** How the promise of [getVersion]'s call settles on a reply: what the
    callbacks leave is what [version_logged] says. *)
Lemma settle_getVersion u ctx rp w :
  exists o w',
    settle (Settings u "Bugzilla.version" None (Some getVersion_success)
                     (Some getVersion_error) None) ctx rp w = (o, w') /\
    version_done w w' (dropped o) (version_logged rp).
Proof.
  unfold version_logged, exchange, settle. cbn [error success dataFilter default].
  destruct rp as [xhr raw|xhr status err].
  2: { rewrite finish_getVersion_error. eexists _, _. split; [done|]. split; [done|].
       eexists. cbn [heap console]. split; [done|]. apply logs_failure, lookup_insert_eq. }
  change (id raw) with raw. destruct (parse_body raw) as [tr|] eqn:Hp.
  - destruct (decode_parsed _ w _ Hp) as (r & w2 & Hd & Hr).
    rewrite Hd. destruct (decode_body_frame _ _ _ _ Hd) as [_ Hcon2].
    pose proof (getVersion_success_decoded r [VString "success"; xhr] w2 tr Hr) as H.
    unfold finish, version_done. destruct (response_member "version" tr) as [t|e]; simpl.
    + destruct H as (v & -> & Hv). eexists _, _. split; [done|]. split; [done|].
      exists [v]. cbn [heap console]. split; [congruence|by constructor].
    + rewrite H. eexists _, _. split; [done|]. by split.
  - destruct (decode_unparsed _ w Hp) as (err & w2 & Hd).
    rewrite Hd, finish_getVersion_error. destruct (decode_body_frame _ _ _ _ Hd) as [_ Hcon2].
    eexists _, _. split; [done|]. split; [done|].
    eexists. cbn [heap console]. split; [by rewrite Hcon2|].
    apply logs_unparsed with (err := err), lookup_insert_eq.
Qed.

Lemma version_done_console w0 w w' res lg :
  console w0 = console w -> version_done w0 w' res lg -> version_done w w' res lg.
Proof. unfold version_done. intros <-. done. Qed.

(** C12 (refinement): with a transport that parses, [getVersion]
    implements its contract on every path.  It sends [Bugzilla.version]
    and nothing else; when the contract gives a line, nothing is thrown,
    [undefined] is returned and the console gets exactly that line: the
    version of the response when it has one, the arguments of the error
    callback when the transport failed or the body did not parse; when the
    contract throws (the response has no element 0), the exception comes
    out of the success callback and nothing is logged. *)
Theorem getVersion_refines_contract this u w srv :
  evals (get_prop this "url") w u w ->
  exists res w',
    run srv (getVersion this w) = (res, w', [version_request u]) /\
    match getVersion_contract u srv with
    | Normal lg =>
        res = Normal VUndefined /\
        exists line, console w' = console w ++ [line] /\ logs_as (heap w') line lg
    | Abrupt e => res = Abrupt e /\ console w' = console w
    end.
Proof.
  intros Hu. destruct (getVersion_exchange this u w srv Hu) as (ctx & [_ Hcon] & ->).
  destruct (settle_getVersion u ctx (srv (version_request u))
              (returned_world (getVersion this w))) as (o & w' & -> & Hdone).
  exists (dropped o), w'. split; [done|]. by eapply version_done_console, Hdone.
Qed.

End Refinement.

(** ** The table transport parses *)

#[export] Program Instance table_parsing dt tbl : ParsingTransport (table_transport dt tbl) := {|
  parse_body s := (list_to_map tbl : gmap string tree) !! s
|}.
Next Obligation.
  intros dt tbl s w t Ht.
  destruct (table_decode_total (DT := dt) tbl s w t Ht) as (v & w' & Hd).
  exists v, w'. split; [done|].
  destruct (table_decode_tree (DT := dt) _ _ _ _ _ Hd) as (t' & Ht' & Hv). by simplify_eq.
Qed.
Next Obligation.
  intros dt tbl s w Hs. exists (VString "Invalid XML"), w.
  simpl. unfold table_decode. by rewrite Hs.
Qed.

(** ** Witnesses: the contract on the demo servers *)

(** A first response whose ids hold a date. *)
Definition dated_ids_table : list (string * tree) :=
  [("IDS", TArr [TObj {[ "ids" := TArr [TDate "2013-05-13T00:00:00.123Z"] ]}])].

Lemma getProducts_refines_contract_witness :
  let T := table_transport page_dates demo_table in
  let U := VString bugzilla_url in
  exists o w',
    run demo_server (getProducts (TR := T) fresh_client.1 fresh_client.2)
    = (o, w', (getProducts_contract (TR := T) U demo_server).2) /\
    settles_as (DT := page_dates) (heap w') o (getProducts_contract (TR := T) U demo_server).1.
Proof.
  intros T U.
  apply (getProducts_refines_contract (TR := T) (PT := table_parsing page_dates demo_table)
           (JQ := table_transport_jquery page_dates demo_table)
           fresh_client.1 U fresh_client.2 demo_server).
  vm_compute; reflexivity.
Defined.

Lemma getVersion_refines_contract_witness :
  let T := table_transport page_dates demo_table in
  let U := VString bugzilla_url in
  exists res w',
    run demo_server (getVersion (TR := T) fresh_client.1 fresh_client.2)
    = (res, w', [version_request U]) /\
    match getVersion_contract (TR := T) U demo_server with
    | Normal lg =>
        res = Normal VUndefined /\
        exists line, console w' = console fresh_client.2 ++ [line] /\
                     logs_as (DT := page_dates) (heap w') line lg
    | Abrupt e => res = Abrupt e /\ console w' = console fresh_client.2
    end.
Proof.
  intros T U.
  apply (getVersion_refines_contract (TR := T) (PT := table_parsing page_dates demo_table)
           fresh_client.1 U fresh_client.2 demo_server).
  vm_compute; reflexivity.
Defined.

Lemma getProducts_recovers_from_malformed_response_witness :
  let T := table_transport page_dates demo_table in
  let U := VString bugzilla_url in
  let ids := TArr [TNumber (num_of_Z 1); TNumber (num_of_Z 2); TNumber (num_of_Z 3)] in
  exists c v w',
    run demo_server (getProducts (TR := T) fresh_client.1 fresh_client.2)
    = (Resolved c v, w', [enterable_request U; products_request U ids]) /\
    decoded (DT := page_dates) (heap w') v (TArr [TObj {[ "products" := TArr [] ]}]).
Proof.
  intros T U ids.
  apply (getProducts_recovers_from_malformed_response
           (TR := T) (PT := table_parsing page_dates demo_table)
           (JQ := table_transport_jquery page_dates demo_table)
           fresh_client.1 U fresh_client.2 demo_server
           (TArr [TObj {[ "ids" := ids ]}]) ids VNull "PRODUCTS" "es?>").
  - vm_compute; reflexivity.
  - vm_compute; reflexivity.
  - vm_compute; reflexivity.
  - vm_compute; reflexivity.
  - by apply first_at_decide.
  - done.
  - vm_compute; reflexivity.
Defined.

(** The contract runs: against the demo server [getProducts] sends the ids
    [1, 2, 3] of the first response and resolves with the products of the
    repaired second response. *)
Example getProducts_contract_demo :
  getProducts_contract (TR := table_transport page_dates demo_table)
                       (VString bugzilla_url) demo_server
  = (Res (TArr [TObj {[ "products" := TArr [] ]}]),
     [enterable_request (VString bugzilla_url);
      products_request (VString bugzilla_url)
        (TArr [TNumber (num_of_Z 1); TNumber (num_of_Z 2); TNumber (num_of_Z 3)])]).
Proof. vm_compute; reflexivity. Qed.

Example getProducts_contract_failure :
  getProducts_contract (TR := table_transport page_dates demo_table)
                       (VString bugzilla_url) failing_server
  = (Rej VNull (VString "error") (VString "Not Found"),
     [enterable_request (VString bugzilla_url)]).
Proof. vm_compute; reflexivity. Qed.

Example getProducts_contract_empty :
  getProducts_contract (TR := table_transport page_dates demo_table)
                       (VString bugzilla_url) empty_reply_server
  = (Thr TypeError, [enterable_request (VString bugzilla_url)]).
Proof. vm_compute; reflexivity. Qed.

(** With the encoder of line 129 registered, ids that hold a date cannot be
    sent back: the callback throws the ReferenceError of [_pad]; with the
    encoder of the library the date is sent as the encoder writes it,
    without its milliseconds. *)
Example getProducts_contract_dated_ids :
  getProducts_contract (TR := table_transport page_dates dated_ids_table)
                       (VString bugzilla_url) (constant_server "IDS")
  = (Thr (ReferenceError "_pad"), [enterable_request (VString bugzilla_url)]).
Proof. vm_compute; reflexivity. Qed.

Example getProducts_contract_dated_ids_library :
  (getProducts_contract (TR := table_transport library_dates dated_ids_table)
                        (VString bugzilla_url) (constant_server "IDS")).2
  = [enterable_request (VString bugzilla_url);
     products_request (VString bugzilla_url) (TArr [TDate "2013-05-13T00:00:00Z"])].
Proof. vm_compute; reflexivity. Qed.

Example getVersion_contract_demo :
  getVersion_contract (TR := table_transport page_dates demo_table)
                      (VString bugzilla_url) demo_server
  = Normal (LogVersion (TString "4.4")).
Proof. vm_compute; reflexivity. Qed.

Example getVersion_contract_failure :
  getVersion_contract (TR := table_transport page_dates demo_table)
                      (VString bugzilla_url) failing_server
  = Normal (LogFailure VNull (VString "error") (VString "Not Found")).
Proof. vm_compute; reflexivity. Qed.
