(* ===== verification/Dates.v ===== *)
(** * Dates in calls and in responses

    The codec of lines 129-144 is not called by the client: the transport
    calls it, for every [Date] among the parameters of a call and for every
    element of type [dateTime.iso8601] of a response.  This file follows a
    date through a call of the client, in both directions:
    - a response: what the client's promise resolves with holds, for each
      date element, a [Date] with the time value the decoder of lines
      135-144 reads in its text, wherever the element is in the response;
      for a date in XML-RPC's own spelling that is the instant of the local
      time the text names;
    - a call: once line 129 has run, a call whose parameters hold a [Date]
      throws the ReferenceError of the encoder and sends nothing, where the
      same call sent the date as text before. *)

From S2P Require Import Prelude JsValue XmlRpc Regex JsDate DateCodec Registry.
From S2P Require Import Bugzilla BugzillaCalls BugzillaChain Decoding Trees ChainSpec.
From stdpp Require Import gmap.

(** ** Reading along a path

    [read_path [k1; ...; kn] v] is [v[k1]...[kn]]; [tree_at] is the subtree a
    path leads to. *)

Fixpoint read_path (path : list string) (v : value) : js value :=
  match path with
  | [] => mret v
  | k :: path' => x ← get_prop v k; read_path path' x
  end.

Fixpoint tree_at (path : list string) (t : tree) : option tree :=
  match path with
  | [] => Some t
  | k :: path' =>
      match t with
      | TObj ms => ms !! k ≫= tree_at path'
      | TArr ts => i ← array_index k; ts !! i ≫= tree_at path'
      | _ => None
      end
  end.

Section Paths.
Context {DT : DateType}.

(** Reading a decoded value along a path of its tree finds the value of the
    subtree, and changes nothing. *)
Lemma decoded_path w path v t t' :
  decoded (heap w) v t -> tree_at path t = Some t' ->
  exists x, evals (read_path path v) w x w /\ decoded (heap w) x t'.
Proof.
  revert v t. induction path as [|k path IH]; intros v t Hv Ht; simpl in *.
  { injection Ht as <-. by exists v. }
  assert (exists y ty, evals (get_prop v k) w y w /\ decoded (heap w) y ty /\
                       tree_at path ty = Some t') as (y & ty & Hy & Hyt & Hty).
  { destruct t as [| | | | |ts|ms|text]; try done.
    - destruct (array_index k) as [i|] eqn:Hk; [|done]. simpl in Ht.
      destruct (ts !! i) as [ty|] eqn:Hi; [|done].
      destruct (decoded_element _ w _ _ _ _ _ eq_refl Hv Hk Hi) as (y & ? & ?). eauto.
    - destruct (ms !! k) as [ty|] eqn:Hk; [|done].
      destruct (decoded_member _ w _ _ _ _ eq_refl Hv Hk) as (y & ? & ?). eauto. }
  destruct (IH y ty Hyt Hty) as (x & Hx & Hxt). exists x. split; [|done].
  by eapply evals_bind.
Qed.

(** A date found along a path is a [Date] with the decoded time value. *)
Lemma decoded_date_at w path v t text :
  decoded (heap w) v t -> tree_at path t = Some (TDate text) ->
  exists l, evals (read_path path v) w (VRef l) w /\
            heap w !! l = Some (ODate (date_decode text) ∅).
Proof.
  intros Hv Ht. destruct (decoded_path _ _ _ _ _ Hv Ht) as (x & Hx & Hxt).
  destruct (decoded_is_date _ _ _ Hxt) as (l & -> & Hl). eauto.
Qed.

(** A [Date] serialises to the element the encoder writes. *)
Lemma serializes_date h l d ps text :
  h !! l = Some (ODate d ps) -> date_encode d = Normal text ->
  serializes h (VRef l) (TDate text).
Proof.
  intros Hl Hd. unfold serializes, reify_fuel. by rewrite (reify_date _ _ _ _ _ Hl), Hd.
Qed.

End Paths.

(** ** A date in a response *)

Section Responses.
Context {TR : Transport} {PT : ParsingTransport TR}.
Variables (fallback : string -> date) (UTC : Z -> Z).

(** The decoder registered is the one of lines 135-144. *)
Hypothesis registered_decoder :
  forall text, date_decode text = dateTime_decode fallback UTC text.

(** A date of a response reaches the caller decoded by the decoder
    registered.  For each of getBug, addComment, updateBug and
    searchBugs: when the server answers the request of the call with a body
    that the transport decodes to the value of a tree, the promise resolves
    with that value, and reading it along a path that leads to an element of
    type [dateTime.iso8601] finds a [Date] whose time value is what
    [dateTime_decode] reads in the text of the element; reading changes
    nothing. *)
Lemma response_dates_are_decoded this c w s w0 t srv xhr raw v w' tr path text :
  evals (call_settings this c) w s w0 ->
  serialize_params (params s) w0 = Normal t ->
  srv (Request (url s) (methodName s) t) = RBody xhr raw ->
  decode_body raw (returned_world (invoke this c w)) = (inl v, w') ->
  decoded (heap w') v tr ->
  tree_at path tr = Some (TDate text) ->
  exists ctx l,
    run srv (invoke this c w)
    = (Resolved ctx v, w', [Request (url s) (methodName s) t]) /\
    evals (read_path path v) w' (VRef l) w' /\
    heap w' !! l = Some (ODate (dateTime_decode fallback UTC text) ∅).
Proof.
  intros Hs Ht Hsrv Hdec Hv Hpath.
  destruct (decoded_date_at _ _ _ _ _ Hv Hpath) as (l & Hl & Hd).
  rewrite registered_decoder in Hd. rewrite invoke_sync in *.
  destruct (call_settings_plain _ _ _ _ _ Hs) as (u & m & ps & ->).
  destruct (plain_exchange _ _ _ _ _ _ _ srv Hs Ht) as (ctx & _ & Hrun).
  exists ctx, l. split; [|done]. rewrite Hrun. cbn [url methodName plain] in *.
  by rewrite Hsrv, Hdec.
Qed.

(** C19 (functional): a date of a response, end to end.  Bugzilla writes a
    date as XML-RPC does, [YYYYMMDDTHH:MM:SS], without hyphens and without
    offset.  For each of getBug, addComment, updateBug and searchBugs: when
    the body of the reply parses to a tree that has such a date somewhere,
    the promise resolves with a value in which, along the same path, there
    is a [Date] whose time value is the instant of that local time: the
    decoder of lines 135-144 has put the hyphens in and [new Date] has read
    the text as a date-time of the format, not left it to the
    implementation. *)
Theorem response_date_is_local_time this c w s w0 t srv xhr raw tr path y mo d h mi sec :
  evals (call_settings this c) w s w0 ->
  serialize_params (params s) w0 = Normal t ->
  srv (Request (url s) (methodName s) t) = RBody xhr raw ->
  parse_body raw = Some tr ->
  tree_at path tr
  = Some (TDate (four_digits y ++ two_digits mo ++ two_digits d ++ "T" ++
                 two_digits h ++ ":" ++ two_digits mi ++ ":" ++ two_digits sec)) ->
  (0 <= y <= 9999)%Z -> valid_date y mo d = true ->
  (0 <= h <= 23)%Z -> (0 <= mi <= 59)%Z -> (0 <= sec <= 59)%Z ->
  exists ctx v w' l,
    run srv (invoke this c w)
    = (Resolved ctx v, w', [Request (url s) (methodName s) t]) /\
    evals (read_path path v) w' (VRef l) w' /\
    heap w' !! l
    = Some (ODate (TimeClip (UTC (MakeDate (MakeDay y (mo - 1) d) (MakeTime h mi sec 0)))
                   ≫= TimeClip) ∅).
Proof.
  intros Hs Ht Hsrv Hraw Hpath Hy Hv Hh Hmi Hsec.
  destruct (decode_parsed raw (returned_world (invoke this c w)) tr Hraw)
    as (v & w' & Hdec & Hdv).
  destruct (response_dates_are_decoded _ _ _ _ _ _ _ _ _ _ _ _ _ _ Hs Ht Hsrv Hdec Hdv Hpath)
    as (ctx & l & Hrun & Hread & Hl).
  exists ctx, v, w', l. split; [done|]. split; [done|].
  by rewrite Hl, dateTime_decode_timed, new_Date_local_text.
Qed.

End Responses.

(** ** A date among the parameters *)

Section Parameters.
Context {TR0 TR : Transport}.

(** The encoder registered is the one of lines 129-135, where [_pad] is not
    bound. *)
Hypothesis registered_encoder :
  forall d, date_encode (DateType := @transport_dates TR) d = dateTime_encode None d.

(** C18 (error): dates cannot be sent any more.  Take a call of getBug,
    addComment, updateBug or searchBugs whose parameters some transport
    [TR0] writes as a tree that holds a date: that transport sends the
    request, and the transport of the page, with the encoder of the source
    registered, throws the ReferenceError of [_pad] out of the call and sends
    nothing. *)
Theorem registration_breaks_calls this c w s w0 t srv :
  evals (call_settings this c) w s w0 ->
  serialize_params (DT := @transport_dates TR0) (params s) w0 = Normal t ->
  tree_dates t <> [] ->
  (run srv (invoke (TR := TR0) this c w)).2 = [Request (url s) (methodName s) t] /\
  run srv (invoke (TR := TR) this c w) = (Thrown (ReferenceError "_pad"), w0, []).
Proof.
  intros Hs Ht Hd. split.
  - rewrite invoke_sync. destruct (call_settings_plain _ _ _ _ _ Hs) as (u & m & ps & ->).
    by destruct (plain_exchange (TR := TR0) _ _ _ _ _ _ _ srv Hs Ht) as (ctx & _ & ->).
  - rewrite invoke_sync. eapply call_throws; [exact Hs|].
    destruct (params s) as [p|]; [|by injection Ht as <-].
    eapply (reify_dates_throw (DT0 := @transport_dates TR0)); [|exact Ht|exact Hd].
    intros d. by rewrite registered_encoder.
Qed.

End Parameters.

(** ** Witnesses *)

(** A store with a [Date], 2013-05-13T00:00:00Z, and search criteria that
    hold it. *)
Definition a_date : value * world :=
  match alloc (ODate (Some 1368403200000%Z) ∅) fresh_client.2 with
  | (Normal v, w) => (v, w)
  | (Abrupt _, w) => (VUndefined, w)
  end.

Definition dated_criteria : value * world :=
  match new_object [("creation_time", a_date.1)] a_date.2 with
  | (Normal v, w) => (v, w)
  | (Abrupt _, w) => (VUndefined, w)
  end.

(** A response to [Bug.get] as Bugzilla sends it, with a compact date. *)
Definition bug_table : list (string * tree) :=
  [("BUG", TArr [TObj {[ "bugs" :=
      TArr [TObj {[ "id" := TNumber (num_of_Z 7);
                    "creation_time" := TDate "20130513T00:00:00" ]}] ]}])].

Definition bug_server : request -> reply := constant_server "BUG".


Lemma response_dates_are_decoded_witness :
  let TR := table_transport page_dates bug_table in
  let p := invoke fresh_client.1 (CallGetBug seven) fresh_client.2 in
  let r := decode_body "BUG" (returned_world p) in
  exists ctx l v,
    r.1 = inl v /\
    run bug_server p
    = (Resolved ctx v, r.2,
       [Request (VString bugzilla_url) "Bug.get"
          (TArr [TObj {[ "ids" := TArr [TNumber (num_of_Z 7)] ]}])]) /\
    evals (read_path ["0"; "bugs"; "0"; "creation_time"] v) r.2 (VRef l) r.2 /\
    heap r.2 !! l
    = Some (ODate (dateTime_decode no_heuristics one_hour_east "20130513T00:00:00") ∅).
Proof.
  intros TR p r.
  destruct (table_decode_total (DT := page_dates) bug_table "BUG" (returned_world p)
              (TArr [TObj {[ "bugs" :=
                 TArr [TObj {[ "id" := TNumber (num_of_Z 7);
                               "creation_time" := TDate "20130513T00:00:00" ]}] ]}]))
    as (v & w' & Hdec); [by vm_compute|].
  destruct (table_decode_tree _ _ _ _ _ Hdec) as (tr & Htr & Hv).
  assert (Hp : tree_at ["0"; "bugs"; "0"; "creation_time"] tr
               = Some (TDate "20130513T00:00:00")).
  { revert Htr. vm_compute. by intros [= <-]. }
  edestruct (response_dates_are_decoded (TR := TR) no_heuristics one_hour_east
               (bugzilla_dates_decode None no_heuristics one_hour_east)
               fresh_client.1 (CallGetBug seven) fresh_client.2
               (plain (VString bugzilla_url) "Bug.get" (VRef 4%positive))
               (call_settings fresh_client.1 (CallGetBug seven) fresh_client.2).2
               (TArr [TObj {[ "ids" := TArr [TNumber (num_of_Z 7)] ]}])
               bug_server VNull "BUG" v w' tr
               ["0"; "bugs"; "0"; "creation_time"] "20130513T00:00:00")
    as (ctx & l & Hrun & Hread & Hl);
    [vm_compute; reflexivity..|exact Hdec|exact Hv|exact Hp|].
  exists ctx, l, v. subst r.
  change (decode_body "BUG" (returned_world p)) with
    (table_decode (DT := page_dates) bug_table "BUG" (returned_world p)).
  rewrite Hdec. by repeat split.
Defined.

Lemma response_date_is_local_time_witness :
  let TR := table_transport page_dates bug_table in
  exists ctx v w' l,
    run bug_server (invoke fresh_client.1 (CallGetBug seven) fresh_client.2)
    = (Resolved ctx v, w',
       [Request (VString bugzilla_url) "Bug.get"
          (TArr [TObj {[ "ids" := TArr [TNumber (num_of_Z 7)] ]}])]) /\
    evals (read_path ["0"; "bugs"; "0"; "creation_time"] v) w' (VRef l) w' /\
    heap w' !! l
    = Some (ODate (TimeClip (one_hour_east (MakeDate (MakeDay 2013 (5 - 1) 13)
                                                     (MakeTime 0 0 0 0)))
                   ≫= TimeClip) ∅).
Proof.
  intros TR.
  apply (response_date_is_local_time (TR := TR) (PT := table_parsing page_dates bug_table)
           no_heuristics one_hour_east
           (bugzilla_dates_decode None no_heuristics one_hour_east)
           fresh_client.1 (CallGetBug seven) fresh_client.2
           (plain (VString bugzilla_url) "Bug.get" (VRef 4%positive))
           (call_settings fresh_client.1 (CallGetBug seven) fresh_client.2).2
           (TArr [TObj {[ "ids" := TArr [TNumber (num_of_Z 7)] ]}])
           bug_server VNull "BUG"
           (TArr [TObj {[ "bugs" :=
              TArr [TObj {[ "id" := TNumber (num_of_Z 7);
                            "creation_time" := TDate "20130513T00:00:00" ]}] ]}])
           ["0"; "bugs"; "0"; "creation_time"] 2013 5 13 0 0 0);
    try (vm_compute; reflexivity); try lia.
Defined.

(** The instant of the witness: midnight of 2013-05-13 in a zone one hour
    east of Greenwich. *)
Example response_date_instant :
  TimeClip (one_hour_east (MakeDate (MakeDay 2013 (5 - 1) 13) (MakeTime 0 0 0 0))) ≫= TimeClip
  = Some 1368399600000%Z.
Proof. by vm_compute. Qed.

Lemma registration_breaks_calls_witness :
  let c := CallSearchBugs dated_criteria.1 in
  (run demo_server
       (invoke (TR := table_transport library_dates demo_table) fresh_client.1 c
               dated_criteria.2)).2
  = [Request (VString bugzilla_url) "Bug.search"
       (TArr [TObj {[ "creation_time" := TDate "2013-05-13T00:00:00Z" ]}])] /\
  run demo_server
      (invoke (TR := table_transport page_dates demo_table) fresh_client.1 c dated_criteria.2)
  = (Thrown (ReferenceError "_pad"), (call_settings fresh_client.1 c dated_criteria.2).2, []).
Proof.
  intros c.
  apply (registration_breaks_calls (TR0 := table_transport library_dates demo_table)
           (TR := table_transport page_dates demo_table)
           (bugzilla_dates_encode None no_heuristics one_hour_east)
           fresh_client.1 c dated_criteria.2
           (plain (VString bugzilla_url) "Bug.search" (VRef 4%positive))
           (call_settings fresh_client.1 c dated_criteria.2).2
           (TArr [TObj {[ "creation_time" := TDate "2013-05-13T00:00:00Z" ]}])
           demo_server);
    vm_compute; done.
Defined.
