(* ===== verification/Closed.v ===== *)
(** * The well-formedness of the store

    A store is closed when every reference in it, in an object, an array or
    a logged console line, points to an object of the store.  JavaScript has
    no dangling references: the invariant is what makes the heap of the model
    a heap.  This file defines it, shows that it is decidable, and proves
    that the operations of [JsValue] preserve it; [safe] packages the
    argument so that it composes along [x ← c; k]. *)

From S2P Require Import Prelude JsValue.
From stdpp Require Import gmap.

(** ** The invariant *)

Definition closed_value (h : gmap loc object) (v : value) : Prop :=
  match v with
  | VRef l => is_Some (h !! l)
  | _ => True
  end.

Definition closed_object (h : gmap loc object) (o : object) : Prop :=
  match o with
  | OObject ps => map_Forall (fun _ => closed_value h) ps
  | OArray es ps => Forall (closed_value h) es /\ map_Forall (fun _ => closed_value h) ps
  | ODate _ ps => map_Forall (fun _ => closed_value h) ps
  end.

Definition heap_closed (h : gmap loc object) : Prop :=
  map_Forall (fun _ => closed_object h) h.

Definition world_closed (w : world) : Prop :=
  heap_closed (heap w) /\ Forall (Forall (closed_value (heap w))) (console w).

#[export] Instance closed_value_dec h v : Decision (closed_value h v).
Proof. destruct v; apply _. Defined.

#[export] Instance closed_object_dec h o : Decision (closed_object h o).
Proof. destruct o; apply _. Defined.

#[export] Instance heap_closed_dec h : Decision (heap_closed h).
Proof. apply _. Defined.

#[export] Instance world_closed_dec w : Decision (world_closed w).
Proof. apply _. Defined.

(** ** Growth: closedness only depends on which locations exist *)

Definition grows (w w' : world) : Prop := dom (heap w) ⊆ dom (heap w').

#[export] Instance grows_preorder : PreOrder grows.
Proof. split; [intros w|intros w1 w2 w3]; unfold grows; set_solver. Qed.

Lemma world_le_grows (w w' : world) : w ⊑ w' -> grows w w'.
Proof. intros [Hsub _]. by apply subseteq_dom. Qed.

Section Mono.
Context (h h' : gmap loc object) (Hdom : dom h ⊆ dom h').

Lemma closed_value_mono v : closed_value h v -> closed_value h' v.
Proof.
  destruct v; simpl; try done. rewrite <- !elem_of_dom. set_solver.
Qed.

Lemma closed_values_mono vs : Forall (closed_value h) vs -> Forall (closed_value h') vs.
Proof. intros H. eapply Forall_impl; [exact H|apply closed_value_mono]. Qed.

Lemma closed_members_mono (ps : gmap string value) :
  map_Forall (fun _ => closed_value h) ps -> map_Forall (fun _ => closed_value h') ps.
Proof. intros H. eapply map_Forall_impl; [exact H|]. intros k v. apply closed_value_mono. Qed.

Lemma closed_object_mono o : closed_object h o -> closed_object h' o.
Proof.
  destruct o; simpl; [apply closed_members_mono| |apply closed_members_mono].
  intros [? ?]. split; [by apply closed_values_mono|by apply closed_members_mono].
Qed.

End Mono.

Definition closed_in (w : world) (v : value) : Prop := closed_value (heap w) v.

Lemma closed_value_grows w w' v : grows w w' -> closed_in w v -> closed_in w' v.
Proof. intros Hg. by apply closed_value_mono. Qed.

(** Putting an object at [l], new or in place of another: the store stays
    closed when the object is closed in the result. *)
Lemma heap_closed_insert h l o :
  heap_closed h -> closed_object (<[l := o]> h) o -> heap_closed (<[l := o]> h).
Proof.
  intros Hh Ho. apply map_Forall_insert_2; [done|].
  eapply map_Forall_impl; [exact Hh|]. intros l' o' Ho'.
  eapply closed_object_mono; [|exact Ho']. rewrite dom_insert. set_solver.
Qed.

Lemma world_closed_insert w l o :
  world_closed w -> closed_object (heap w) o ->
  world_closed (World (<[l := o]> (heap w)) (console w)).
Proof.
  intros [Hh Hc] Ho.
  assert (Hd : dom (heap w) ⊆ dom (<[l := o]> (heap w))) by (rewrite dom_insert; set_solver).
  split; cbn [heap console].
  - apply heap_closed_insert; [done|]. by eapply closed_object_mono.
  - eapply Forall_impl; [exact Hc|]. intros vs. by apply closed_values_mono.
Qed.

(** ** Reading and writing keep what is closed *)

Lemma own_prop_closed h o k : closed_object h o -> closed_value h (own_prop o k).
Proof.
  destruct o as [ps|es ps|d ps]; simpl.
  - intros Hps. destruct (ps !! k) as [v|] eqn:E; [|done]. exact (Hps k v E).
  - intros [Hes Hps]. case_decide; [done|]. destruct (array_index k) as [i|].
    + destruct (es !! i) as [v|] eqn:E; [|done]. simpl.
      by eapply (proj1 (Forall_lookup _ _)).
    + destruct (ps !! k) as [v|] eqn:E; [|done]. exact (Hps k v E).
  - intros Hps. destruct (ps !! k) as [v|] eqn:E; [|done]. exact (Hps k v E).
Qed.

Lemma store_prop_closed h o k x o' :
  closed_object h o -> closed_value h x -> store_prop o k x = Normal o' ->
  closed_object h o'.
Proof.
  destruct o as [ps|es ps|d ps]; simpl.
  - intros Hps Hx [= <-]. by apply map_Forall_insert_2.
  - intros [Hes Hps] Hx. case_decide; [done|]. destruct (array_index k) as [i|].
    + case_decide; intros [= <-]; (split; [|done]).
      * by apply Forall_insert.
      * rewrite !Forall_app. split; [done|]. split; [|by repeat constructor].
        by apply Forall_replicate.
    + intros [= <-]. split; [done|]. by apply map_Forall_insert_2.
  - intros Hps Hx [= <-]. by apply map_Forall_insert_2.
Qed.

(** ** Safe computations

    [safe c w Q]: run in the closed store [w], [c] leaves a closed store with
    every location of [w]; when it returns a value, [Q] holds of the store
    and the value. *)

Definition sound_outcome {A} (Q : world -> A -> Prop) (w : world) (r : comp exn A) : Prop :=
  match r with
  | Normal a => Q w a
  | Abrupt e => e <> Unmodelled "dangling reference"
  end.

Definition safe {A} (c : js A) (w : world) (Q : world -> A -> Prop) : Prop :=
  world_closed (c w).2 /\ grows w (c w).2 /\ sound_outcome Q (c w).2 (c w).1.

(** A computation that leaves the store alone. *)
Lemma safe_here {A} (c : js A) w r (Q : world -> A -> Prop) :
  c w = (r, w) -> world_closed w -> sound_outcome Q w r -> safe c w Q.
Proof. unfold safe. intros -> Hw Hr. by split; [|split; [reflexivity|]]. Qed.

Lemma safe_ret {A} (a : A) w (Q : world -> A -> Prop) :
  world_closed w -> Q w a -> safe (mret a) w Q.
Proof. intros Hw HQ. by eapply safe_here. Qed.

Lemma safe_bind {A B} (c : js A) (f : A -> js B) w Q R :
  safe c w Q ->
  (forall a w1, world_closed w1 -> grows w w1 -> Q w1 a -> safe (f a) w1 R) ->
  safe (c ≫= f) w R.
Proof.
  unfold safe. st_run. destruct (c w) as [[a|e] w1]; simpl; [|done].
  intros (Hw1 & Hg & HQ) Hf. destruct (Hf a w1 Hw1 Hg HQ) as (Hw2 & Hg2 & HR).
  by split; [|split; [etrans|]].
Qed.

Lemma safe_mono {A} (c : js A) w (Q R : world -> A -> Prop) :
  safe c w Q -> (forall w' a, grows w w' -> Q w' a -> R w' a) -> safe c w R.
Proof.
  unfold safe. intros (Hw & Hg & HQ) HQR. split; [done|]. split; [done|].
  destruct (c w).1; [by apply HQR|done].
Qed.

Lemma safe_alloc o w :
  world_closed w -> closed_object (heap w) o -> safe (alloc o) w closed_in.
Proof.
  intros Hw Ho. unfold safe. rewrite alloc_spec. cbn [fst snd].
  split; [by apply world_closed_insert|]. split.
  - unfold grows. cbn [heap]. rewrite dom_insert. set_solver.
  - unfold closed_in. simpl. rewrite lookup_insert_eq. by eexists.
Qed.

Lemma safe_new_array vs w :
  world_closed w -> Forall (closed_in w) vs -> safe (new_array vs) w closed_in.
Proof. intros Hw Hvs. by apply safe_alloc. Qed.

Lemma safe_new_object ms w :
  world_closed w -> Forall (fun kv => closed_in w kv.2) ms ->
  safe (new_object ms) w closed_in.
Proof.
  intros Hw Hms. apply safe_alloc; [done|]. simpl.
  apply map_Forall_lookup_2. intros k v Hk.
  apply elem_of_list_to_map_2 in Hk. rewrite elem_of_reverse in Hk.
  exact (proj1 (Forall_forall _ _) Hms (k, v) Hk).
Qed.

Lemma safe_get_prop v k w :
  world_closed w -> closed_in w v -> safe (get_prop v k) w closed_in.
Proof.
  intros Hw Hv. destruct v as [| | | |s|l].
  1-4: by eapply safe_here.
  - unfold get_prop. case_decide; (eapply safe_here; [done..|]); [done|].
    by destruct (array_index k) as [i|]; [unfold string_at; simpl; case_match|].
  - destruct Hv as [o Ho].
    eapply (safe_here _ _ (Normal (own_prop o k))); [by unfold get_prop; rewrite Ho|done|].
    apply own_prop_closed. exact (proj1 Hw l o Ho).
Qed.

Lemma store_prop_sound o k x e :
  store_prop o k x = Abrupt e -> e <> Unmodelled "dangling reference".
Proof. destruct o; simpl; [done| |done]. repeat case_match; by intros [= <-]. Qed.

Lemma safe_set_prop v k x w :
  world_closed w -> closed_in w v -> closed_in w x ->
  safe (set_prop v k x) w (fun _ _ => True).
Proof.
  intros Hw Hv Hx. destruct v as [| | | | |l].
  1-5: by eapply safe_here.
  destruct Hv as [o Ho]. destruct (store_prop o k x) as [o'|e] eqn:Hst.
  - unfold safe, set_prop. rewrite Ho, Hst. cbn [fst snd]. split; [|split; [|done]].
    + apply world_closed_insert; [done|].
      eapply store_prop_closed; [|done..]. exact (proj1 Hw l o Ho).
    + unfold grows. simpl. rewrite dom_insert. set_solver.
  - eapply (safe_here _ _ (Abrupt e)); [by unfold set_prop; rewrite Ho, Hst|done|].
    by eapply store_prop_sound.
Qed.

Lemma safe_require_object_coercible v w :
  world_closed w -> safe (require_object_coercible v) w (fun _ _ => True).
Proof.
  intros Hw. unfold require_object_coercible.
  by destruct (is_nullish v); eapply safe_here.
Qed.

Lemma safe_console_log vs w :
  world_closed w -> Forall (closed_in w) vs -> safe (console_log vs) w (fun _ _ => True).
Proof.
  intros [Hh Hc] Hvs. unfold safe. simpl. split; [|split; [by unfold grows|done]].
  split; [done|]. simpl. apply Forall_app. split; [done|]. by constructor.
Qed.

(** ** Allocating a tree keeps the store closed *)

Definition keeps_closed {A} (c : js A) (Q : world -> A -> Prop) : Prop :=
  forall w, world_closed w -> safe c w Q.

Lemma safe_alloc_list f ts :
  Forall (fun t => keeps_closed (f t) closed_in) ts ->
  keeps_closed (alloc_list f ts) (fun w vs => Forall (closed_in w) vs).
Proof.
  induction 1 as [|t ts Ht _ IH]; intros w Hw; simpl; [by apply safe_ret|].
  eapply safe_bind; [by apply Ht|]. intros v w1 Hw1 _ Hv.
  eapply safe_bind; [by apply IH|]. intros vs w2 Hw2 Hg Hvs.
  apply safe_ret; [done|]. constructor; [by eapply closed_value_grows|done].
Qed.

Lemma safe_alloc_members f (ms : gmap string tree) :
  map_Forall (fun _ t => keeps_closed (f t) closed_in) ms ->
  keeps_closed (map_fold (alloc_member f) (mret ∅) ms)
               (fun w m => map_Forall (fun _ => closed_in w) m).
Proof.
  apply (map_fold_weak_ind
           (fun r (m : gmap string tree) =>
              map_Forall (fun _ t => keeps_closed (f t) closed_in) m ->
              keeps_closed r (fun w m => map_Forall (fun _ => closed_in w) m))).
  - intros _ w Hw. apply safe_ret; [done|]. apply map_Forall_empty.
  - intros i x m r Hi IH Hall w Hw.
    apply map_Forall_insert in Hall as [Hx Hm]; [|done].
    unfold alloc_member. eapply safe_bind; [by apply IH|]. intros acc w1 Hw1 _ Hacc.
    eapply safe_bind; [by apply Hx|]. intros v w2 Hw2 Hg Hv.
    apply safe_ret; [done|]. apply map_Forall_insert_2; [done|].
    by eapply closed_members_mono.
Qed.

Lemma safe_alloc_tree {DT : DateType} t : keeps_closed (alloc_tree t) closed_in.
Proof.
  induction t using tree_ind_full; intros w Hw; simpl; try (by apply safe_ret).
  - eapply safe_bind; [by apply safe_alloc_list|]. intros vs w1 Hw1 _ Hvs.
    by apply safe_new_array.
  - eapply safe_bind; [by apply safe_alloc_members|]. intros m w1 Hw1 _ Hm.
    by apply safe_alloc.
  - by apply safe_alloc.
Qed.

(** ** Serialising in a closed store

    [SoundDates]: the encoder of dates does not throw the exception that
    stands for a reference without an object.  Then serialising a closed
    value in a closed store does not throw it either. *)

Class SoundDates (DT : DateType) : Prop :=
  date_encode_sound : forall d e,
    date_encode d = Abrupt e -> e <> Unmodelled "dangling reference".

Lemma reify_sound {DT : DateType} {SD : SoundDates DT} n h v e :
  heap_closed h -> closed_value h v -> reify n h v = Abrupt e ->
  e <> Unmodelled "dangling reference".
Proof.
  intros Hh. revert v e. induction n as [|n IH]; intros v e Hv He;
    destruct v as [| | | | |l]; simpl in *; try done; [by injection He as <-|].
  destruct Hv as [o Ho]. rewrite Ho in He. pose proof (Hh l o Ho) as Hc.
  destruct o as [ps|es ps|d ps]; apply comp_fmap_Abrupt in He.
  - apply map_allc_Abrupt in He as [k Hk]. rewrite lookup_fmap in Hk.
    destruct (ps !! k) as [x|] eqn:Hx; simplify_eq/=. eapply IH; [|done]. exact (Hc k x Hx).
  - apply comp_mapM_Abrupt in He as (x & Hx & He). eapply IH; [|done].
    destruct Hc as [Hes _]. by eapply (proj1 (Forall_forall _ _) Hes).
  - by eapply date_encode_sound.
Qed.

(** ** Automation

    [safe_steps] walks the binds of a model: each primitive is discharged by
    its lemma, and what is known to be closed is carried to the store the
    primitive leaves. *)

Ltac lift_closed Hg :=
  repeat match goal with
         | H : closed_in ?w ?v |- _ =>
             match type of Hg with
             | grows w ?w' => apply (closed_value_grows w w' v Hg) in H
             end
         end.

Ltac closed_tac := solve [repeat first [done | constructor; simpl]].

Ltac safe_prim :=
  first [ apply safe_get_prop | apply safe_new_array | apply safe_new_object
        | apply safe_alloc | apply safe_set_prop | apply safe_require_object_coercible
        | apply safe_console_log ]; closed_tac.

Ltac safe_steps :=
  repeat (eapply safe_bind;
          [safe_prim
          |let a := fresh "a" in let w := fresh "w" in let Hw := fresh "Hw" in
           let Hg := fresh "Hg" in let Ha := fresh "Ha" in
           intros a w Hw Hg Ha; lift_closed Hg]).
