(* ===== verification/StoreInvariant.v ===== *)
(** * The store invariant of the client

    Every operation of the client keeps the store closed ([Closed]): what a
    function allocates, what [updateBug] writes into the caller's object, what
    a decoded response adds and what the callbacks log refer to objects that
    exist.  The invariant is stated for processes, so that it covers the store
    at every return to the caller and after every reply, whatever ran in
    between: a continuation is only assumed to resume in some closed store
    that has every object of the store it was suspended in.

    [ClosedTransport] is what the invariant needs of the transport; the two
    transports of [XmlRpc] provide it. *)

From S2P Require Import Prelude JsValue Closed XmlRpc Regex JsDate DateCodec Registry.
From S2P Require Import Bugzilla BugzillaCalls BugzillaChain.
From stdpp Require Import gmap.

(** ** Closed replies, outcomes, settings and processes *)

Definition closed_reply (w : world) (rp : reply) : Prop :=
  match rp with
  | RBody xhr _ => closed_in w xhr
  | RFail xhr status err => Forall (closed_in w) [xhr; status; err]
  end.

Definition closed_settled (w : world) (o : settled) : Prop :=
  match o with
  | Resolved c v => closed_in w c /\ closed_in w v
  | Rejected c args => closed_in w c /\ Forall (closed_in w) args
  | Thrown e => e <> Unmodelled "dangling reference"
  end.

Definition closed_callback (cb : option (list value -> js unit)) : Prop :=
  forall f args w, cb = Some f -> world_closed w -> Forall (closed_in w) args ->
                   safe (f args) w (fun _ _ => True).

Record closed_settings (w : world) (s : settings) : Prop := {
  cs_url : closed_in w (url s);
  cs_params : forall p, params s = Some p -> closed_in w p;
  cs_success : closed_callback (success s);
  cs_error : closed_callback (error s)
}.

(** [proc_closed w0 Q p]: started in [w0], process [p] returns control in a
    closed store that has the objects of [w0], and does so again every time
    it is resumed in such a store with a closed reply; when it ends, [Q]
    holds of its result. *)
Fixpoint proc_closed {A} (w0 : world) (Q : world -> A -> Prop) (p : proc A) : Prop :=
  match p with
  | Ret a w => world_closed w /\ grows w0 w /\ Q w a
  | Await w rq k =>
      world_closed w /\ grows w0 w /\
      forall rp w', world_closed w' -> grows w w' -> closed_reply w' rp ->
                    proc_closed w' Q (k rp w')
  end.

Class ClosedTransport {TR : Transport} : Prop := {
  transport_dates_sound :: SoundDates transport_dates;
  decode_body_closed : forall s w r w',
    world_closed w -> decode_body s w = (r, w') ->
    world_closed w' /\ closed_in w' (match r with inl v | inr v => v end);
  callback_context_closed : forall u m ps w c w',
    world_closed w -> closed_in w u -> (forall p, ps = Some p -> closed_in w p) ->
    callback_context u m ps w = (c, w') ->
    world_closed w' /\ closed_in w' c
}.

(** ** Growth keeps what is closed *)

Lemma closed_values_grows w w' vs :
  grows w w' -> Forall (closed_in w) vs -> Forall (closed_in w') vs.
Proof. intros Hg. by apply closed_values_mono. Qed.

Lemma closed_reply_grows w w' rp : grows w w' -> closed_reply w rp -> closed_reply w' rp.
Proof.
  intros Hg. destruct rp; simpl; [by apply closed_value_grows|by apply closed_values_grows].
Qed.

Lemma closed_settled_grows w w' o :
  grows w w' -> closed_settled w o -> closed_settled w' o.
Proof.
  intros Hg. destruct o as [c v|c args|e]; simpl; [| |done]; intros [Hc Hv].
  - split; by eapply closed_value_grows.
  - split; [by eapply closed_value_grows|by eapply closed_values_grows].
Qed.

Lemma closed_settings_grows w w' s :
  grows w w' -> closed_settings w s -> closed_settings w' s.
Proof.
  intros Hg [Hu Hp Hs He]. split; [by eapply closed_value_grows| |done..].
  intros p Hps. eapply closed_value_grows; [done|by apply Hp].
Qed.

Lemma proc_closed_grows {A} w0 w1 (Q : world -> A -> Prop) p :
  grows w0 w1 -> proc_closed w1 Q p -> proc_closed w0 Q p.
Proof.
  intros Hg. destruct p as [a w|w rq k]; simpl; intros (Hw & Hg1 & H);
    (split; [done|split; [by etrans|done]]).
Qed.

Lemma proc_closed_returned {A} w0 (Q : world -> A -> Prop) p :
  proc_closed w0 Q p -> world_closed (returned_world p) /\ grows w0 (returned_world p).
Proof. by destruct p; simpl; intros (? & ? & _). Qed.

(** ** Composition *)

Lemma proc_closed_bind {A B} w0 (Q : world -> A -> Prop) (R : world -> B -> Prop)
    (f : A -> async B) p :
  proc_closed w0 Q p ->
  (forall a w, world_closed w -> Q w a -> proc_closed w R (f a w)) ->
  proc_closed w0 R (proc_bind f p).
Proof.
  intros Hp Hf. revert w0 Hp. induction p as [a w|w rq k IH]; simpl; intros w0 (Hw & Hg & H).
  - eapply proc_closed_grows; [exact Hg|]. by apply Hf.
  - split; [done|]. split; [done|]. intros rp w' Hw' Hg' Hrp. by apply IH, H.
Qed.

Lemma proc_closed_sync {A} (c : js A) (k : A -> async settled) w Q :
  safe c w Q ->
  (forall a w1, world_closed w1 -> grows w w1 -> Q w1 a ->
                proc_closed w1 closed_settled (k a w1)) ->
  proc_closed w closed_settled (sync c k w).
Proof.
  unfold safe, sync. destruct (c w) as [[a|e] w1]; simpl; intros (Hw1 & Hg & H) Hk; [|done].
  eapply proc_closed_grows; [exact Hg|]. by apply Hk.
Qed.

(** ** [$.xmlrpc] and [then] *)

Section Transport.
Context {TR : Transport} {CT : ClosedTransport}.

Lemma finish_closed w0 cb args o w :
  grows w0 w -> world_closed w -> closed_callback cb -> Forall (closed_in w) args ->
  closed_settled w o ->
  world_closed (finish cb args o w).2 /\ grows w0 (finish cb args o w).2 /\
  closed_settled (finish cb args o w).2 (finish cb args o w).1.
Proof.
  intros Hg0 Hw Hcb Hargs Ho. destruct cb as [f|]; simpl; [|done].
  destruct (Hcb f args w eq_refl Hw Hargs) as (Hw' & Hg & Hr).
  destruct (f args w) as [[[]|e] w']; cbn [fst snd sound_outcome] in *;
    (split; [done|split; [by etrans|]]); [|done].
  by eapply closed_settled_grows.
Qed.

Lemma settle_closed s c rp w :
  world_closed w -> closed_settings w s -> closed_in w c -> closed_reply w rp ->
  world_closed (settle s c rp w).2 /\ grows w (settle s c rp w).2 /\
  closed_settled (settle s c rp w).2 (settle s c rp w).1.
Proof.
  intros Hw [Hu Hp Hs He] Hc Hrp. destruct rp as [xhr raw|xhr status err]; cbn [settle].
  - destruct (decode_body _ w) as [r w1] eqn:Hd.
    destruct (decode_body_closed _ _ _ _ Hw Hd) as [Hw1 Hr].
    assert (Hg : grows w w1) by (by eapply world_le_grows, decode_body_frame).
    assert (Hc1 : closed_in w1 c) by (by eapply closed_value_grows).
    assert (Hx1 : closed_in w1 xhr) by (by eapply closed_value_grows).
    destruct r as [v|err]; apply finish_closed; try done;
      by (split || idtac); repeat constructor.
  - by apply finish_closed.
Qed.

Lemma serialize_params_sound ps w e :
  world_closed w -> (forall p, ps = Some p -> closed_in w p) ->
  serialize_params ps w = Abrupt e -> e <> Unmodelled "dangling reference".
Proof.
  intros [Hh _] Hps. destruct ps as [p|]; [|done]. unfold serialize_params.
  apply reify_sound; [done|by apply Hps].
Qed.

Lemma xmlrpc_closed s w :
  world_closed w -> closed_settings w s -> proc_closed w closed_settled (xmlrpc s w).
Proof.
  intros Hw Hs. unfold xmlrpc. destruct (serialize_params _ w) as [t|e] eqn:Ht.
  2: { split; [done|]. split; [done|].
       eapply serialize_params_sound; [done|apply (cs_params _ _ Hs)|done]. }
  destruct (callback_context _ _ _ w) as [c w1] eqn:Hc.
  destruct (callback_context_closed _ _ _ _ _ _ Hw (cs_url _ _ Hs) (cs_params _ _ Hs) Hc)
    as [Hw1 Hc1].
  assert (Hg : grows w w1) by (by eapply world_le_grows, callback_context_frame).
  split; [done|]. split; [done|]. intros rp w2 Hw2 Hg2 Hrp. unfold on_reply.
  destruct (settle_closed s c rp w2) as (Hw3 & Hg3 & Ho); [done| |by eapply closed_value_grows|done|].
  { eapply closed_settings_grows; [|exact Hs]. by etrans. }
  by destruct (settle s c rp w2).
Qed.

Lemma then_closed (p : async settled) f w :
  proc_closed w closed_settled (p w) ->
  (forall c v w1, world_closed w1 -> closed_in w1 c -> closed_in w1 v ->
                  proc_closed w1 closed_settled (f c v w1)) ->
  proc_closed w closed_settled (then_ p f w).
Proof.
  intros Hp Hf. unfold then_. eapply proc_closed_bind; [exact Hp|].
  intros [c v|c args|e] w1 Hw1 Ho; [by apply Hf; [|apply Ho..]|done..].
Qed.

(** A function that builds settings and returns [$.xmlrpc(settings)]. *)
Lemma call_closed (c : js settings) w :
  safe c w closed_settings -> proc_closed w closed_settled (sync c xmlrpc w).
Proof.
  intros Hc. eapply proc_closed_sync; [exact Hc|]. intros s w1 Hw1 _ Hs.
  by apply xmlrpc_closed.
Qed.

End Transport.

(** ** The two transports keep the store closed *)

Lemma table_decode_closed {DT : DateType} tbl s w r w' :
  world_closed w -> table_decode tbl s w = (r, w') ->
  world_closed w' /\ closed_in w' (match r with inl v | inr v => v end).
Proof.
  intros Hw. unfold table_decode. destruct (_ !! s) as [t|]; [|by intros [= <- <-]].
  destruct (safe_alloc_tree t w Hw) as (Hw1 & _ & Hv).
  destruct (alloc_tree t w) as [[v|e] w1]; by intros [= <- <-].
Qed.

Lemma jquery_context_closed u m ps w c w' :
  world_closed w -> closed_in w u -> (forall p, ps = Some p -> closed_in w p) ->
  jquery_context u m ps w = (c, w') -> world_closed w' /\ closed_in w' c.
Proof.
  intros Hw Hu Hps [= <- <-].
  destruct (safe_new_object (reverse (settings_members u m ps)) w Hw) as (Hw1 & _ & Hc).
  - apply Forall_reverse. repeat constructor; [done|].
    destruct ps as [p|]; repeat constructor. by apply Hps.
  - unfold new_object in *. by rewrite reverse_involutive, alloc_spec in *.
Qed.

#[export] Instance table_transport_closed dt tbl {SD : SoundDates dt} :
  @ClosedTransport (table_transport dt tbl).
Proof. split; [done|apply table_decode_closed|apply jquery_context_closed]. Qed.

#[export] Instance bare_transport_closed dt tbl {SD : SoundDates dt} :
  @ClosedTransport (bare_transport dt tbl).
Proof.
  split; [done|apply table_decode_closed|]. by intros u m ps w c w' Hw _ _ [= <- <-].
Qed.

(** The encoder of lines 129-135 throws nothing but a ReferenceError, whatever
    [_pad] is bound to. *)
#[export] Instance bugzilla_dates_sound pad fallback UTC :
  SoundDates (codec_dates (bugzilla_codec pad fallback UTC)).
Proof.
  intros d e. simpl. unfold dateTime_encode. destruct pad; [done|]. by intros [= <-].
Qed.

#[export] Instance page_dates_sound : SoundDates page_dates.
Proof. apply bugzilla_dates_sound. Qed.

(** ** The settings the functions build *)

Lemma closed_callback_None : closed_callback None.
Proof. by intros f args w. Qed.

Lemma closed_plain w u m ps :
  closed_in w u -> closed_in w ps -> closed_settings w (plain u m ps).
Proof. intros Hu Hps. split; simpl; [done|by intros p [= <-]|apply closed_callback_None..]. Qed.

Lemma closed_in_lookup w args (i : nat) :
  Forall (closed_in w) args -> closed_in w (default VUndefined (args !! i)).
Proof.
  intros Hargs. destruct (args !! i) as [v|] eqn:E; [|done].
  exact (proj1 (Forall_lookup _ _) Hargs i v E).
Qed.

Lemma getVersion_success_closed : closed_callback (Some getVersion_success).
Proof.
  intros f args w [= <-] Hw Hargs. unfold getVersion_success.
  eapply safe_bind; [by apply safe_get_prop, closed_in_lookup|]. intros r0 w1 Hw1 _ Hr0.
  eapply safe_bind; [by apply safe_get_prop|]. intros v w2 Hw2 _ Hv.
  apply safe_console_log; [done|by constructor].
Qed.

Lemma getVersion_error_closed : closed_callback (Some getVersion_error).
Proof.
  intros f args w [= <-] Hw Hargs. unfold getVersion_error.
  eapply safe_bind; [by apply safe_new_array|]. intros a w1 Hw1 _ Ha.
  apply safe_console_log; [done|by constructor].
Qed.

Section Settings.
Context (this : value) (w : world) (Hw : world_closed w) (Hthis : closed_in w this).

Lemma getVersion_settings_closed : safe (getVersion_settings this) w closed_settings.
Proof.
  unfold getVersion_settings. safe_steps. apply safe_ret; [done|].
  split; [done..|apply getVersion_success_closed|apply getVersion_error_closed].
Qed.

Lemma getProducts_settings_closed : safe (getProducts_settings this) w closed_settings.
Proof.
  unfold getProducts_settings. safe_steps. apply safe_ret; [done|].
  split; [done..|apply closed_callback_None|apply closed_callback_None].
Qed.

Lemma getProducts_then_settings_closed response :
  closed_in w response -> safe (getProducts_then_settings this response) w closed_settings.
Proof.
  intros Hr. unfold getProducts_then_settings. safe_steps. apply safe_ret; [done|].
  split; simpl; [done|by intros p [= <-]|apply closed_callback_None..].
Qed.

Lemma getBug_settings_closed bugId :
  closed_in w bugId -> safe (getBug_settings this bugId) w closed_settings.
Proof.
  intros Hb. unfold getBug_settings. safe_steps. apply safe_ret; [done|].
  by apply closed_plain.
Qed.

Lemma js_or_closed a b : closed_in w a -> closed_in w b -> closed_in w (js_or a b).
Proof. unfold js_or. by destruct (to_boolean a). Qed.

Lemma addComment_settings_closed bugId comment hoursWorked :
  closed_in w bugId -> closed_in w comment -> closed_in w hoursWorked ->
  safe (addComment_settings this bugId comment hoursWorked) w closed_settings.
Proof.
  intros Hb Hc Hh. unfold addComment_settings.
  pose proof (js_or_closed hoursWorked (VNumber (num_of_Z 0)) Hh I) as Hor.
  safe_steps. apply safe_ret; [done|]. by apply closed_plain.
Qed.

Lemma updateBug_settings_closed bugId params :
  closed_in w bugId -> closed_in w params ->
  safe (updateBug_settings this bugId params) w closed_settings.
Proof.
  intros Hb Hp. unfold updateBug_settings. safe_steps. apply safe_ret; [done|].
  by apply closed_plain.
Qed.

Lemma searchBugs_settings_closed searchCriteria :
  closed_in w searchCriteria ->
  safe (searchBugs_settings this searchCriteria) w closed_settings.
Proof.
  intros Hc. unfold searchBugs_settings. safe_steps. apply safe_ret; [done|].
  by apply closed_plain.
Qed.

End Settings.

(** ** The operations of the client *)

Definition closed_call (w : world) (c : data_call) : Prop :=
  match c with
  | CallGetBug bugId => closed_in w bugId
  | CallAddComment bugId comment hoursWorked =>
      closed_in w bugId /\ closed_in w comment /\ closed_in w hoursWorked
  | CallUpdateBug bugId params => closed_in w bugId /\ closed_in w params
  | CallSearchBugs searchCriteria => closed_in w searchCriteria
  end.

(** What [getVersion] returns or throws is not a fault of the store. *)
Definition no_fault (w : world) (r : comp exn value) : Prop :=
  sound_outcome closed_in w r.

#[export] Instance closed_reply_dec w rp : Decision (closed_reply w rp).
Proof. destruct rp; apply _. Defined.

#[export] Instance closed_call_dec w c : Decision (closed_call w c).
Proof. destruct c; apply _. Defined.

Section Invariant.
Context {TR : Transport} {CT : ClosedTransport}.
Context (this : value) (w : world) (Hw : world_closed w) (Hthis : closed_in w this).

Lemma call_settings_closed c :
  closed_call w c -> safe (call_settings this c) w closed_settings.
Proof.
  destruct c; simpl.
  - by apply getBug_settings_closed.
  - intros (? & ? & ?). by apply addComment_settings_closed.
  - intros (? & ?). by apply updateBug_settings_closed.
  - by apply searchBugs_settings_closed.
Qed.

Lemma invoke_closed c :
  closed_call w c -> proc_closed w closed_settled (invoke this c w).
Proof.
  intros Hc. pose proof (call_settings_closed c Hc) as Hs.
  by destruct c; apply call_closed.
Qed.

Lemma getProducts_closed : proc_closed w closed_settled (getProducts this w).
Proof.
  apply then_closed; [by apply call_closed, getProducts_settings_closed|].
  intros c v w1 Hw1 Hc Hv. by apply call_closed, getProducts_then_settings_closed.
Qed.

Lemma getVersion_closed : proc_closed w no_fault (getVersion this w).
Proof.
  eapply proc_closed_bind; [by apply call_closed, getVersion_settings_closed|].
  intros o w1 Hw1 Ho. split; [done|]. split; [done|]. by destruct o.
Qed.

End Invariant.

(** ** Executions *)

(** Resuming a suspended process keeps the invariant, whatever ran since it
    was suspended. *)
Lemma deliver_closed {A} (p p' : proc A) rq rp w' w0 Q :
  deliver p (rq, rp) w' p' -> proc_closed w0 Q p ->
  world_closed w' -> grows (returned_world p) w' -> closed_reply w' rp ->
  proc_closed w' Q p'.
Proof. intros Hd. inversion Hd; subst. simpl. intros (_ & _ & Hk). apply Hk. Qed.

Lemma run_closed {A} srv (p : proc A) w0 Q :
  proc_closed w0 Q p -> (forall rq, closed_reply w0 (srv rq)) ->
  world_closed (run srv p).1.2 /\ grows w0 (run srv p).1.2 /\
  Q (run srv p).1.2 (run srv p).1.1.
Proof.
  revert w0. induction p as [a w|w rq k IH]; simpl; intros w0 (Hw & Hg & H) Hsrv; [done|].
  assert (Hsrv' : forall rq, closed_reply w (srv rq)).
  { intros rq'. by eapply closed_reply_grows. }
  destruct (IH (srv rq) w w) as (Hw' & Hg' & HQ); [by apply H|done|].
  destruct (run srv (k (srv rq) w)) as [[a w'] tr]. simpl in *.
  split; [done|]. split; [by etrans|done].
Qed.

(** The constructor builds a client in a closed store. *)
Lemma new_Bugzilla_closed : keeps_closed new_Bugzilla closed_in.
Proof.
  intros w Hw. unfold new_Bugzilla, Bugzilla. safe_steps. by apply safe_ret.
Qed.

(** Run against a server, a call never meets a reference without an object. *)
Lemma invoke_run_closed {TR : Transport} {CT : ClosedTransport} srv this c w :
  world_closed w -> closed_in w this -> closed_call w c ->
  (forall rq, closed_reply w (srv rq)) ->
  world_closed (run srv (invoke this c w)).1.2 /\
  (run srv (invoke this c w)).1.1 <> Thrown (Unmodelled "dangling reference").
Proof.
  intros Hw Hthis Hc Hsrv.
  destruct (run_closed srv _ _ _ (invoke_closed this w Hw Hthis c Hc) Hsrv) as (Hw' & _ & Ho).
  split; [done|]. destruct (run srv (invoke this c w)).1.1; [done..|]. simpl in Ho. congruence.
Qed.

(** Sanity of the model.  In a closed store, with a client and arguments
    that refer to objects of the store, every function of the client keeps
    the store closed: at its return to the caller, and again each time a reply
    resumes it, in whatever closed store that grew from the one it was
    suspended in.  The promise it returns settles with a context and values
    of the store, or with an exception of the program. *)
Theorem client_keeps_store_closed {TR : Transport} {CT : ClosedTransport} this w :
  world_closed w -> closed_in w this ->
  (forall c, closed_call w c -> proc_closed w closed_settled (invoke this c w)) /\
  proc_closed w closed_settled (getProducts this w) /\
  proc_closed w no_fault (getVersion this w).
Proof.
  intros Hw Hthis. split; [|split].
  - by apply invoke_closed.
  - by apply getProducts_closed.
  - by apply getVersion_closed.
Qed.

Lemma client_keeps_store_closed_witness :
  (forall c, closed_call fresh_client.2 c ->
             proc_closed fresh_client.2 closed_settled
               (invoke (TR := table_transport page_dates demo_table) fresh_client.1 c fresh_client.2)) /\
  proc_closed fresh_client.2 closed_settled
    (getProducts (TR := table_transport page_dates demo_table) fresh_client.1 fresh_client.2) /\
  proc_closed fresh_client.2 no_fault
    (getVersion (TR := table_transport page_dates demo_table) fresh_client.1 fresh_client.2).
Proof.
  apply (client_keeps_store_closed (TR := table_transport page_dates demo_table)
           fresh_client.1 fresh_client.2).
  - apply (bool_decide_unpack _). by vm_compute.
  - apply (bool_decide_unpack _). by vm_compute.
Defined.
