(* ===== verification/EventLoop.v ===== *)
(** * The event loop: several calls in flight

    A page calls the client, runs code of its own, and receives replies, in
    any order; each of these runs to completion before the next begins.
    [system] is the store with the calls in flight, the outcomes so far and
    the requests sent,
    [sys_step] one turn of the loop.  The model never leaves the fragment
    it covers: no reachable state has a reference without an object
    ([reachable_closed], a sanity property of the model, which a JavaScript
    program could not violate), and [run], which plays one process
    alone against a server, is one schedule of the loop ([run_is_a_schedule]). *)

From S2P Require Import Prelude JsValue XmlRpc Regex Bugzilla BugzillaCalls BugzillaChain Closed StoreInvariant.
From stdpp Require Import gmap.

(** ** Systems and events *)

(** What a call of the client leaves to its caller: a promise, settled some
    day, or for [getVersion] the completion of the call. *)
Inductive outcome : Type :=
| Promise (o : settled)
| Completion (r : comp exn value).

(** A call in flight: the request it sent and what runs on the reply. *)
Record task : Type := Task {
  task_request : request;
  task_resume : reply -> world -> proc outcome
}.

Record system : Type := System {
  store : world;
  in_flight : list task;
  outcomes : list outcome;
  wire : list request
}.

Inductive event : Type :=
| Call (this : value) (c : data_call)
| CallGetProducts (this : value)
| CallGetVersion (this : value)
| Script (c : js unit)
| Reply (i : nat) (rp : reply).

Fixpoint proc_map {A B} (f : A -> B) (p : proc A) : proc B :=
  match p with
  | Ret a w => Ret (f a) w
  | Await w rq k => Await w rq (fun rp w' => proc_map f (k rp w'))
  end.

(** A process that has run until it returned control: its store becomes the
    store of the system; it is in flight, or it has an outcome. *)
Definition absorb (p : proc outcome) (s : system) : system :=
  match p with
  | Ret o w => System w (in_flight s) (outcomes s ++ [o]) (wire s)
  | Await w rq k => System w (in_flight s ++ [Task rq k]) (outcomes s) (wire s ++ [rq])
  end.

Definition script_outcome (r : comp exn unit) : outcome :=
  Completion (match r with Normal _ => Normal VUndefined | Abrupt e => Abrupt e end).

Section Loop.
Context {TR : Transport}.

(** One turn of the loop, as a function: [None] when the event is a reply to
    a call that is not in flight. *)
Definition sys_exec (s : system) (e : event) : option system :=
  match e with
  | Call this c => Some (absorb (proc_map Promise (invoke this c (store s))) s)
  | CallGetProducts this => Some (absorb (proc_map Promise (getProducts this (store s))) s)
  | CallGetVersion this => Some (absorb (proc_map Completion (getVersion this (store s))) s)
  | Script c =>
      let '(r, w) := c (store s) in
      Some (absorb (Ret (script_outcome r) w) s)
  | Reply i rp =>
      t ← in_flight s !! i;
      Some (absorb (task_resume t rp (store s))
                   (System (store s) (delete i (in_flight s)) (outcomes s) (wire s)))
  end.

(** The same turn as a labelled transition. *)
Inductive sys_step : system -> event -> system -> Prop :=
| step_call s this c :
    sys_step s (Call this c) (absorb (proc_map Promise (invoke this c (store s))) s)
| step_getProducts s this :
    sys_step s (CallGetProducts this)
             (absorb (proc_map Promise (getProducts this (store s))) s)
| step_getVersion s this :
    sys_step s (CallGetVersion this)
             (absorb (proc_map Completion (getVersion this (store s))) s)
| step_script s c r w :
    c (store s) = (r, w) ->
    sys_step s (Script c) (absorb (Ret (script_outcome r) w) s)
| step_reply s i t rp :
    in_flight s !! i = Some t ->
    sys_step s (Reply i rp)
             (absorb (task_resume t rp (store s))
                     (System (store s) (delete i (in_flight s)) (outcomes s) (wire s))).

Fixpoint sys_exec_all (s : system) (es : list event) : option system :=
  match es with
  | [] => Some s
  | e :: es' => s' ← sys_exec s e; sys_exec_all s' es'
  end.

Inductive sys_trace : system -> list event -> system -> Prop :=
| trace_nil s : sys_trace s [] s
| trace_cons s e s1 es s2 :
    sys_step s e s1 -> sys_trace s1 es s2 -> sys_trace s (e :: es) s2.

End Loop.

(** ** The invariant of a system *)

Definition closed_outcome (w : world) (o : outcome) : Prop :=
  match o with
  | Promise o => closed_settled w o
  | Completion r => no_fault w r
  end.

(** A call in flight can be resumed in any closed store that has the objects
    of [w]. *)
Definition task_closed (w : world) (t : task) : Prop :=
  forall rp w', world_closed w' -> grows w w' -> closed_reply w' rp ->
                proc_closed w' closed_outcome (task_resume t rp w').

Record sys_closed (s : system) : Prop := {
  sc_store : world_closed (store s);
  sc_in_flight : Forall (task_closed (store s)) (in_flight s);
  sc_outcomes : Forall (closed_outcome (store s)) (outcomes s)
}.

(** What the page passes and what the network delivers refers to objects of
    the store; a script keeps the store closed. *)
Definition closed_event (w : world) (e : event) : Prop :=
  match e with
  | Call this c => closed_in w this /\ closed_call w c
  | CallGetProducts this | CallGetVersion this => closed_in w this
  | Script c => safe c w (fun _ _ => True)
  | Reply _ rp => closed_reply w rp
  end.

Inductive reachable {TR : Transport} : system -> Prop :=
| reach_start w : world_closed w -> reachable (System w [] [] [])
| reach_step s e s' :
    reachable s -> closed_event (store s) e -> sys_step s e s' -> reachable s'.

(** ** Lemmas *)

Lemma closed_outcome_grows w w' o :
  grows w w' -> closed_outcome w o -> closed_outcome w' o.
Proof.
  intros Hg. destruct o as [o|[v|e]]; simpl; [by apply closed_settled_grows| |done].
  by apply closed_value_grows.
Qed.

Lemma task_closed_grows w w' t : grows w w' -> task_closed w t -> task_closed w' t.
Proof. intros Hg Ht rp w1 Hw1 Hg1 Hrp. apply Ht; [done|by etrans|done]. Qed.

Lemma proc_closed_map {A B} (f : A -> B) w0 (Q : world -> A -> Prop)
    (R : world -> B -> Prop) p :
  (forall w a, Q w a -> R w (f a)) ->
  proc_closed w0 Q p -> proc_closed w0 R (proc_map f p).
Proof.
  intros HQR. revert w0. induction p as [a w|w rq k IH]; simpl; intros w0 (Hw & Hg & H).
  - by split; [|split; [|apply HQR]].
  - split; [done|]. split; [done|]. intros rp w' Hw' Hg' Hrp. by apply IH, H.
Qed.

(** A process that kept the invariant until it returned control leaves a
    closed system. *)
Lemma absorb_closed p s w0 :
  Forall (task_closed w0) (in_flight s) -> Forall (closed_outcome w0) (outcomes s) ->
  proc_closed w0 closed_outcome p ->
  sys_closed (absorb p s) /\ grows w0 (store (absorb p s)).
Proof.
  intros Hts Hos Hp. destruct p as [o w|w rq k]; destruct Hp as (Hw & Hg & H); simpl.
  - split; [split|done]; simpl; [done| |].
    + eapply Forall_impl; [exact Hts|]. intros t. by apply task_closed_grows.
    + apply Forall_app. split; [|by constructor].
      eapply Forall_impl; [exact Hos|]. intros o'. by apply closed_outcome_grows.
  - split; [split|done]; simpl; [done| |].
    + apply Forall_app. split; [|by constructor].
      eapply Forall_impl; [exact Hts|]. intros t. by apply task_closed_grows.
    + eapply Forall_impl; [exact Hos|]. intros o'. by apply closed_outcome_grows.
Qed.

Lemma script_closed (c : js unit) w :
  safe c w (fun _ _ => True) ->
  proc_closed w closed_outcome (Ret (script_outcome (c w).1) (c w).2).
Proof.
  intros (Hw & Hg & Hr). split; [done|]. split; [done|]. by destruct (c w).1.
Qed.

Section LoopLemmas.
Context {TR : Transport}.

Lemma sys_exec_step s e s' : sys_step s e s' <-> sys_exec s e = Some s'.
Proof.
  split.
  - intros [ | | |s0 c r w Hc|s0 i t rp Ht]; simpl; [done..| |]; [by rewrite Hc|by rewrite Ht].
  - destruct e as [this c|this|this|c|i rp]; simpl.
    + intros [= <-]. constructor.
    + intros [= <-]. constructor.
    + intros [= <-]. constructor.
    + destruct (c (store s)) as [r w] eqn:Hc. intros [= <-]. by constructor.
    + destruct (in_flight s !! i) as [t|] eqn:Ht; [|done]. intros [= <-]. by constructor.
Qed.

Lemma sys_exec_all_trace s es s' : sys_trace s es s' <-> sys_exec_all s es = Some s'.
Proof.
  split.
  - induction 1 as [|s e s1 es s2 Hs _ IH]; [done|].
    simpl. by rewrite (proj1 (sys_exec_step _ _ _) Hs).
  - revert s. induction es as [|e es IH]; simpl; intros s; [intros [= <-]; constructor|].
    destruct (sys_exec s e) as [s1|] eqn:He; [|done].
    intros Hes. econstructor; [by apply sys_exec_step|by apply IH].
Qed.

(** The state an execution ends in, when the loop can run it: what a
    concrete scenario is checked with, without comparing states. *)
Lemma sys_trace_run s0 s es :
  bool_decide (is_Some (sys_exec_all s es)) ->
  sys_trace s es (from_option id s0 (sys_exec_all s es)).
Proof. intros [s' H]%bool_decide_unpack. rewrite H. by apply sys_exec_all_trace. Qed.

Lemma sys_step_run s0 s e :
  bool_decide (is_Some (sys_exec s e)) ->
  sys_step s e (from_option id s0 (sys_exec_all s [e])).
Proof.
  intros [s' H]%bool_decide_unpack. simpl. rewrite H. by apply sys_exec_step.
Qed.

Context {CT : ClosedTransport}.

(** The process an event starts or resumes keeps the invariant. *)
Lemma step_closed s e s' :
  sys_closed s -> closed_event (store s) e -> sys_step s e s' ->
  sys_closed s' /\ grows (store s) (store s').
Proof.
  intros [Hw Hts Hos] He Hs. destruct Hs as [s this c|s this|s this|s c r w Hc|s i t rp Ht].
  - destruct He as [Hthis Hc]. apply absorb_closed; [done..|].
    eapply proc_closed_map; [|by apply invoke_closed]. done.
  - apply absorb_closed; [done..|].
    eapply proc_closed_map; [|by apply getProducts_closed]. done.
  - apply absorb_closed; [done..|].
    eapply proc_closed_map; [|by apply getVersion_closed]. done.
  - apply absorb_closed; [done..|]. pose proof (script_closed c (store s) He) as H.
    by rewrite Hc in H.
  - apply absorb_closed; [by apply Forall_delete|done|]. simpl.
    apply (proj1 (Forall_lookup _ _) Hts i t Ht); done.
Qed.

Lemma reachable_sys_closed s : reachable s -> sys_closed s.
Proof.
  induction 1 as [w Hw|s e s' _ IH He Hs]; [by split|].
  by destruct (step_closed s e s' IH He Hs).
Qed.

(** No promise of a reachable state has failed for a reference without an
    object. *)
Corollary reachable_no_fault s :
  reachable s -> Promise (Thrown (Unmodelled "dangling reference")) ∉ outcomes s.
Proof.
  intros Hs Hin. destruct (reachable_sys_closed s Hs) as [_ _ Hos].
  by apply (proj1 (Forall_forall _ _) Hos _ Hin).
Qed.

(** Sanity of the model: the store invariant holds in every reachable state
    of the event loop, so that the fault of the model for a reference
    without an object is never an outcome.  Whatever the order in which the page calls [getBug],
    [addComment], [updateBug], [searchBugs], [getProducts] and [getVersion],
    runs code of its own and receives replies, the store has no reference
    without an object, every call in flight can be resumed, and every
    outcome so far holds values of the store and no fault of the store. *)
Theorem reachable_closed s :
  reachable s ->
  sys_closed s /\ Promise (Thrown (Unmodelled "dangling reference")) ∉ outcomes s.
Proof. intros Hs. split; [by apply reachable_sys_closed|by apply reachable_no_fault]. Qed.

End LoopLemmas.

(** ** [run] is one schedule of the loop *)

(** The replies a server gives a process that runs alone: each is the reply
    to the only call in flight. *)
Fixpoint replies_of {A} (srv : request -> reply) (p : proc A) : list event :=
  match p with
  | Ret _ _ => []
  | Await w rq k => Reply 0 (srv rq) :: replies_of srv (k (srv rq) w)
  end.

Lemma run_map {A B} (f : A -> B) srv (p : proc A) :
  run srv (proc_map f p) = (f (run srv p).1.1, (run srv p).1.2, (run srv p).2).
Proof.
  induction p as [a w|w rq k IH]; simpl; [done|]. rewrite IH.
  by destruct (run srv (k (srv rq) w)) as [[a w'] tr].
Qed.

Lemma replies_of_map {A B} (f : A -> B) srv (p : proc A) :
  replies_of srv (proc_map f p) = replies_of srv p.
Proof. induction p as [a w|w rq k IH]; simpl; [done|]. by rewrite IH. Qed.

Section Schedule.
Context {TR : Transport}.

Lemma run_is_a_schedule srv (p : proc outcome) w0 os rqs :
  sys_exec_all (absorb p (System w0 [] os rqs)) (replies_of srv p)
  = Some (System (run srv p).1.2 [] (os ++ [(run srv p).1.1]) (rqs ++ (run srv p).2)).
Proof.
  revert w0 os rqs. induction p as [a w|w rq k IH]; intros w0 os rqs; simpl.
  - by rewrite app_nil_r.
  - rewrite (IH (srv rq) w w os (rqs ++ [rq])).
    destruct (run srv (k (srv rq) w)) as [[a w'] tr]. simpl. by rewrite <- app_assoc.
Qed.

(** A call of the client made in an idle system and answered by [srv] ends
    as [run] says: same store, same settled promise, same requests. *)
Theorem invoke_alone_is_run srv this c w :
  let r := run srv (invoke this c w) in
  sys_trace (System w [] [] [])
            (Call this c :: replies_of srv (invoke this c w))
            (System r.1.2 [] [Promise r.1.1] r.2).
Proof.
  intros r. apply sys_exec_all_trace. simpl.
  rewrite <- (replies_of_map Promise), run_is_a_schedule, run_map. done.
Qed.

End Schedule.

(** A turn of the loop sends at most one request: a process returns control
    as soon as it has sent one. *)
Lemma absorb_wire p s :
  wire (absorb p s) = wire s ++ from_option (fun rq => [rq]) [] (pending p).
Proof. destruct p; simpl; [by rewrite app_nil_r|done]. Qed.

Lemma step_sends_at_most_one {TR : Transport} s e s' :
  sys_step s e s' -> exists rqs, wire s' = wire s ++ rqs /\ length rqs <= 1.
Proof.
  intros Hs. destruct Hs; rewrite absorb_wire; eexists; (split; [reflexivity|]);
    by match goal with |- context [pending ?p] => destruct (pending p) end; simpl; lia.
Qed.

(** ** An execution with two calls in flight

    [getBug] and [getProducts] are called one after the other; the reply to
    the first call of [getProducts] arrives first and starts its second
    call; then [getBug] is answered, then the second call fails.  The
    requests are on the wire in the order they were sent. *)
Definition two_calls : list event :=
  [Call fresh_client.1 (CallGetBug seven);
   CallGetProducts fresh_client.1;
   Reply 1 (RBody VNull "IDS");
   Reply 0 (RBody VNull "BUGS");
   Reply 0 (RFail VNull (VString "error") (VString "Not Found"))].

Example two_calls_interleaved :
  (fun s => (outcomes s, rq_method <$> wire s, length (in_flight s)))
    <$> sys_exec_all (TR := table_transport page_dates demo_table)
                     (System fresh_client.2 [] [] []) two_calls
  = Some ([Promise (Resolved (VRef 5%positive) (VRef 15%positive));
           Promise (Rejected (VRef 12%positive) [VNull; VString "error"; VString "Not Found"])],
          ["Bug.get"; "Product.get_enterable_products"; "Product.get"], 0).
Proof. by vm_compute. Qed.

(** A state with one call in flight, for the witness of the invariant. *)
Definition one_call_in_flight {TR : Transport} : system :=
  absorb (proc_map Promise (invoke fresh_client.1 (CallGetBug seven) fresh_client.2))
         (System fresh_client.2 [] [] []).

Lemma reachable_closed_witness :
  sys_closed (one_call_in_flight (TR := table_transport page_dates demo_table)) /\
  Promise (Thrown (Unmodelled "dangling reference"))
    ∉ outcomes (one_call_in_flight (TR := table_transport page_dates demo_table)).
Proof.
  apply (reachable_closed (TR := table_transport page_dates demo_table)).
  apply (reach_step (TR := table_transport page_dates demo_table)
           (System fresh_client.2 [] [] []) (Call fresh_client.1 (CallGetBug seven))).
  - apply reach_start, (bool_decide_unpack _). by vm_compute.
  - split; apply (bool_decide_unpack _); by vm_compute.
  - apply (step_call (TR := table_transport page_dates demo_table) (System fresh_client.2 [] [] [])).
Defined.
