(* ===== verification/Wire.v ===== *)
(** * What goes on the wire: the signatures of the calls

    Each method of the Bugzilla web service takes its parameters in one
    shape.  [signature] gives the shape the client uses for each of the seven
    methods it calls, [request_ok] checks a request against it, and the
    theorems show that nothing else is ever sent: every request of every
    execution of the event loop has a known method and parameters of the
    shape of that method, whatever arguments the page passes. *)

From S2P Require Import Prelude JsValue XmlRpc Regex Bugzilla ProductsFilter BugzillaCalls.
From S2P Require Import BugzillaChain Closed StoreInvariant EventLoop.
From stdpp Require Import gmap.

(** ** Shapes *)

Inductive shape : Type :=
| SAny                                       (** any value *)
| SNone                                      (** the empty list *)
| SOne (s : shape)                           (** a list of one element *)
| SStruct (keys : list string) (k : string) (s : shape).
                                             (** a struct with exactly the
                                                 members [keys], [k] of shape [s] *)

#[export] Instance shape_eq_dec : EqDecision shape.
Proof. solve_decision. Defined.

(** A tree of a shape. *)
Fixpoint tree_has (sh : shape) (t : tree) : bool :=
  match sh, t with
  | SAny, _ => true
  | SNone, TArr [] => true
  | SOne s, TArr [x] => tree_has s x
  | SStruct keys k s, TObj r =>
      bool_decide (dom r = list_to_set keys) && from_option (tree_has s) false (r !! k)
  | _, _ => false
  end.

(** A value of the store of a shape. *)
Fixpoint shaped (h : gmap loc object) (sh : shape) (v : value) : Prop :=
  match sh with
  | SAny => True
  | SNone => exists l ps, v = VRef l /\ h !! l = Some (OArray [] ps)
  | SOne s => exists l x ps, v = VRef l /\ h !! l = Some (OArray [x] ps) /\ shaped h s x
  | SStruct keys k s =>
      exists l ps x, v = VRef l /\ h !! l = Some (OObject ps) /\
                     dom ps = list_to_set keys /\ ps !! k = Some x /\ shaped h s x
  end.

(** The parameters of each method, as the client passes them
    (src/src/bugzilla.js, lines 26, 46-47, 64-65, 81-82, 96-97, 110, 115-116). *)
Definition signature (method : string) : option shape :=
  if decide (method = "Bugzilla.version") then Some SNone
  else if decide (method = "Bug.get") then
    Some (SOne (SStruct ["ids"] "ids" (SOne SAny)))
  else if decide (method = "Bug.add_comment") then
    Some (SOne (SStruct ["id"; "comment"; "work_time"] "work_time" SAny))
  else if decide (method = "Bug.update") then Some (SOne SAny)
  else if decide (method = "Bug.search") then Some (SOne SAny)
  else if decide (method = "Product.get_enterable_products") then Some SNone
  else if decide (method = "Product.get") then Some (SOne (SStruct ["ids"] "ids" SAny))
  else None.

Definition request_ok (rq : request) : bool :=
  from_option (fun sh => tree_has sh (rq_params rq)) false (signature (rq_method rq)).

(** Settings whose parameters have the shape of their method. *)
Definition settings_ok (w : world) (s : settings) : Prop :=
  exists sh, signature (methodName s) = Some sh /\
             match params s with
             | None => sh = SNone
             | Some v => shaped (heap w) sh v
             end.

(** Every request a process sends satisfies [P]. *)
Fixpoint proc_sends {A} (P : request -> Prop) (p : proc A) : Prop :=
  match p with
  | Ret _ _ => True
  | Await _ rq k => P rq /\ forall rp w, proc_sends P (k rp w)
  end.

(** ** Serialisation keeps the shape *)

Section Shapes.
Context {DT : DateType}.

Lemma serializes_array_inv h l es ps t :
  h !! l = Some (OArray es ps) -> serializes h (VRef l) t ->
  exists ts, t = TArr ts /\ Forall2 (serializes h) es ts.
Proof.
  unfold serializes, reify_fuel. simpl. intros -> Ht.
  apply comp_fmap_Normal in Ht as (ts & Hts & ->). exists ts. split; [done|].
  apply comp_mapM_Normal in Hts. eapply Forall2_impl; [exact Hts|].
  intros v t Hv. apply (reify_mono (size h) (S (size h))); [done|lia].
Qed.

Lemma serializes_object_inv h l ps t :
  h !! l = Some (OObject ps) -> serializes h (VRef l) t ->
  exists r, t = TObj r /\ dom r = dom ps /\
            forall k x, ps !! k = Some x -> exists tx, r !! k = Some tx /\ serializes h x tx.
Proof.
  unfold serializes, reify_fuel. simpl. intros -> Ht.
  apply comp_fmap_Normal in Ht as (r & Hr & ->). exists r. split; [done|].
  pose proof (proj1 (map_allc_fmap_lookup _ _ _) Hr) as Hk. split.
  - apply set_eq. intros k. rewrite !elem_of_dom. specialize (Hk k).
    destruct (ps !! k), (r !! k); simpl in Hk; try done; split; by eauto.
  - intros k x Hx. specialize (Hk k). rewrite Hx in Hk.
    destruct (r !! k) as [tx|]; [|done]. injection Hk as Hk. exists tx. split; [done|].
    apply (reify_mono (size h) (S (size h))); [done|lia].
Qed.

(** Soundness of shapes: a value of a shape serialises to a tree of it. *)
Lemma shaped_tree h sh v t : shaped h sh v -> serializes h v t -> tree_has sh t = true.
Proof.
  revert v t. induction sh as [| |s IH|keys k s IH]; intros v t; simpl; [done|..].
  - intros (l & ps & -> & Hl) Ht.
    destruct (serializes_array_inv _ _ _ _ _ Hl Ht) as (ts & -> & Hts). by inversion Hts.
  - intros (l & x & ps & -> & Hl & Hx) Ht.
    destruct (serializes_array_inv _ _ _ _ _ Hl Ht) as (ts & -> & Hts).
    inversion Hts as [|? tx ? ts' Htx Hts']; subst. inversion Hts'; subst. by eapply IH.
  - intros (l & ps & x & -> & Hl & Hdom & Hk & Hx) Ht.
    destruct (serializes_object_inv _ _ _ _ Hl Ht) as (r & -> & Hd & Hr).
    destruct (Hr k x Hk) as (tx & -> & Htx). simpl.
    rewrite (IH _ _ Hx Htx), andb_true_r. apply bool_decide_eq_true. congruence.
Qed.

End Shapes.

(** Shapes survive allocation. *)
Lemma shaped_weaken h h' sh v : h ⊆ h' -> shaped h sh v -> shaped h' sh v.
Proof.
  intros Hsub. revert v. induction sh as [| |s IH|keys k s IH]; intros v; simpl; [done|..].
  - intros (l & ps & -> & Hl). exists l, ps. split; [done|]. by eapply lookup_weaken.
  - intros (l & x & ps & -> & Hl & Hx). exists l, x, ps.
    split; [done|]. split; [by eapply lookup_weaken|by apply IH].
  - intros (l & ps & x & -> & Hl & Hdom & Hk & Hx). exists l, ps, x.
    split; [done|]. split; [by eapply lookup_weaken|]. by repeat split; [..|apply IH].
Qed.

Lemma shaped_new_array h sh x :
  shaped h sh x -> shaped (<[fresh_loc h := OArray [x] ∅]> h) (SOne sh) (VRef (fresh_loc h)).
Proof.
  intros Hx. exists (fresh_loc h), x, ∅. split; [done|]. split; [apply lookup_insert_eq|].
  eapply shaped_weaken; [apply alloc_extends|done].
Qed.

Lemma shaped_new_object h (ps : gmap string value) keys k sh x :
  dom ps = list_to_set keys -> ps !! k = Some x -> shaped h sh x ->
  shaped (<[fresh_loc h := OObject ps]> h) (SStruct keys k sh) (VRef (fresh_loc h)).
Proof.
  intros Hdom Hk Hx. exists (fresh_loc h), ps, x.
  split; [done|]. split; [apply lookup_insert_eq|]. split; [done|]. split; [done|].
  eapply shaped_weaken; [apply alloc_extends|done].
Qed.

(** ** The settings the functions build have the shape of their method *)

(** [evals_inv] takes a terminated evaluation apart, step by step. *)
Ltac evals_inv :=
  repeat match goal with
         | H : evals (_ ≫= _) _ _ _ |- _ => apply evals_bind_inv in H as (? & ? & ? & ?)
         | H : evals (mret _) _ _ _ |- _ => apply evals_ret_inv in H as [-> ->]
         | H : evals (get_prop _ _) _ _ _ |- _ => apply evals_get_prop_inv in H as ->
         | H : evals (new_array _) _ _ _ |- _ =>
             unfold evals in H; rewrite new_array_spec in H; injection H as <- <-
         | H : evals (new_object _) _ _ _ |- _ =>
             unfold evals in H; rewrite new_object_spec in H; injection H as <- <-
         end.

Ltac keys_tac := solve [by simplify_map_eq | set_solver].

Ltac settings_ok_tac :=
  intros Hs; evals_inv; eexists; (split; [reflexivity|]); cbn [params plain heap];
  repeat first [ done
               | apply shaped_new_array
               | eapply shaped_new_object; [keys_tac..|] ].

Lemma getBug_settings_ok this bugId w s w0 :
  evals (getBug_settings this bugId) w s w0 -> settings_ok w0 s.
Proof. unfold getBug_settings. settings_ok_tac. Qed.

Lemma addComment_settings_ok this bugId comment hoursWorked w s w0 :
  evals (addComment_settings this bugId comment hoursWorked) w s w0 -> settings_ok w0 s.
Proof. unfold addComment_settings. settings_ok_tac. Qed.

Lemma searchBugs_settings_ok this searchCriteria w s w0 :
  evals (searchBugs_settings this searchCriteria) w s w0 -> settings_ok w0 s.
Proof. unfold searchBugs_settings. settings_ok_tac. Qed.

Lemma updateBug_settings_ok this bugId ps w s w0 :
  evals (updateBug_settings this bugId ps) w s w0 -> settings_ok w0 s.
Proof. unfold updateBug_settings. settings_ok_tac. Qed.

Lemma getVersion_settings_ok this w s w0 :
  evals (getVersion_settings this) w s w0 -> settings_ok w0 s.
Proof. unfold getVersion_settings. settings_ok_tac. Qed.

Lemma getProducts_settings_ok this w s w0 :
  evals (getProducts_settings this) w s w0 -> settings_ok w0 s.
Proof. unfold getProducts_settings. settings_ok_tac. Qed.

Lemma getProducts_then_settings_ok this response w s w0 :
  evals (getProducts_then_settings this response) w s w0 -> settings_ok w0 s.
Proof. unfold getProducts_then_settings. settings_ok_tac. Qed.

Lemma call_settings_ok this c w s w0 :
  evals (call_settings this c) w s w0 -> settings_ok w0 s.
Proof.
  destruct c; simpl; eauto using getBug_settings_ok, addComment_settings_ok,
    updateBug_settings_ok, searchBugs_settings_ok.
Qed.

(** ** Processes *)

Lemma proc_sends_bind {A B} P (f : A -> async B) (p : proc A) :
  proc_sends P p -> (forall a w, proc_sends P (f a w)) -> proc_sends P (proc_bind f p).
Proof.
  intros Hp Hf. induction p as [a w|w rq k IH]; simpl; [apply Hf|].
  destruct Hp as [Hrq Hk]. split; [done|]. intros rp w'. apply IH, Hk.
Qed.

Lemma proc_sends_map {A B} P (f : A -> B) (p : proc A) :
  proc_sends P p -> proc_sends P (proc_map f p).
Proof.
  induction p as [a w|w rq k IH]; simpl; [done|].
  intros [Hrq Hk]. split; [done|]. intros rp w'. apply IH, Hk.
Qed.

Section Calls.
Context {TR : Transport}.

Lemma xmlrpc_sends s w : settings_ok w s -> proc_sends request_ok (xmlrpc s w).
Proof.
  intros (sh & Hsig & Hps). unfold xmlrpc.
  destruct (serialize_params (params s) w) as [t|e] eqn:Ht; [|done].
  destruct (callback_context _ _ _ w) as [c w']. split.
  - unfold request_ok. cbn [rq_method rq_params]. rewrite Hsig. cbn [from_option].
    destruct (params s) as [v|]; [by eapply Is_true_true_2, shaped_tree|].
    subst sh. by injection Ht as <-.
  - intros rp w1. unfold on_reply. by destruct (settle s c rp w1).
Qed.

Lemma call_sends (c : js settings) w :
  (forall s w0, evals c w s w0 -> settings_ok w0 s) ->
  proc_sends request_ok (sync c xmlrpc w).
Proof.
  intros Hc. unfold sync. destruct (c w) as [[s|e] w0] eqn:Hs; [|done].
  by apply xmlrpc_sends, Hc.
Qed.

Lemma invoke_sends this c w : proc_sends request_ok (invoke this c w).
Proof. rewrite invoke_sync. apply call_sends. intros s w0. apply call_settings_ok. Qed.

Lemma getProducts_sends this w : proc_sends request_ok (getProducts this w).
Proof.
  apply proc_sends_bind.
  - apply call_sends. intros s w0. apply getProducts_settings_ok.
  - intros [c v|c args|e] w'; [|done..].
    apply call_sends. intros s w0. apply getProducts_then_settings_ok.
Qed.

Lemma getVersion_sends this w : proc_sends request_ok (getVersion this w).
Proof.
  apply proc_sends_bind; [|done].
  apply call_sends. intros s w0. apply getVersion_settings_ok.
Qed.

(** C39 (functional): well typed is not well meant.  [updateBug] with an
    array as [params] assigns [ids] to a property of the array, which is not
    one of its elements and is not serialised: the request is sent, and it
    carries the elements of the array and no bug id. *)
Theorem updateBug_array_sends_no_ids this bugId lp es ps w u t ts srv :
  evals (get_prop this "url") w u w ->
  prim_tree bugId = Some t ->
  heap w !! lp = Some (OArray es ps) ->
  serializes (heap w) (VRef lp) (TArr ts) ->
  (run srv (updateBug this bugId (VRef lp) w)).2 = [Request u "Bug.update" (TArr [TArr ts])].
Proof.
  intros Hu Ht Ho HT. unfold updateBug.
  destruct (updateBug_settings_spec _ _ _ _ _ _ _ _ Hu Ht Ho HT) as (a & w0 & Hs & _ & Hps).
  by destruct (plain_exchange _ _ _ _ _ _ _ srv Hs Hps) as (ctx & _ & ->).
Qed.

(** ** Systems *)

Definition task_sends (t : task) : Prop :=
  forall rp w, proc_sends request_ok (task_resume t rp w).

Record wire_ok (s : system) : Prop := {
  wo_wire : Forall request_ok (wire s);
  wo_in_flight : Forall task_sends (in_flight s)
}.

Lemma absorb_wire_ok p s :
  proc_sends request_ok p -> wire_ok s -> wire_ok (absorb p s).
Proof.
  intros Hp [Hw Hts]. destruct p as [o w|w rq k]; [done|]. destruct Hp as [Hrq Hk].
  split; simpl; (apply Forall_app; split; [done|by repeat constructor]).
Qed.

Lemma step_wire_ok s e s' : wire_ok s -> sys_step s e s' -> wire_ok s'.
Proof.
  intros Hs Hstep. destruct Hstep as [s this c|s this|s this|s c r w Hc|s i t rp Ht];
    apply absorb_wire_ok; try done.
  - apply proc_sends_map, invoke_sends.
  - apply proc_sends_map, getProducts_sends.
  - apply proc_sends_map, getVersion_sends.
  - destruct Hs as [_ Hts]. apply (proj1 (Forall_lookup _ _) Hts i t Ht).
  - destruct Hs as [Hw Hts]. split; [done|]. by apply Forall_delete.
Qed.

Lemma idle_wire_ok w : wire_ok (System w [] [] []).
Proof. by split. Qed.

Lemma trace_wire_ok s es s' : wire_ok s -> sys_trace s es s' -> wire_ok s'.
Proof. intros Hs Htr. induction Htr; eauto using step_wire_ok. Qed.

(** C25 (type): every request the client ever sends is well typed.  In any
    execution of the event loop that starts with nothing in flight, whatever
    arguments the page passes and whatever the server answers, each request
    on the wire names one of the seven methods the source calls and carries
    parameters of the shape of that method: none for [Bugzilla.version] and
    [Product.get_enterable_products]; one struct with exactly [ids], a list
    of one element, for [Bug.get]; one struct with exactly [id], [comment]
    and [work_time] for [Bug.add_comment]; one struct with exactly [ids] for
    [Product.get]; one parameter for [Bug.update] and [Bug.search]. *)
Theorem requests_are_well_typed w es s :
  sys_trace (System w [] [] []) es s -> Forall (fun rq => request_ok rq = true) (wire s).
Proof.
  intros Htr. destruct (trace_wire_ok _ _ _ (idle_wire_ok w) Htr) as [Hw _].
  eapply Forall_impl; [exact Hw|]. intros rq. apply Is_true_true_1.
Qed.

End Calls.

(** An array of fields passed as [params]. *)
Definition fields_array : value * world :=
  match new_array [VString "RESOLVED"] fresh_client.2 with
  | (Normal v, w) => (v, w)
  | (Abrupt _, w) => (VUndefined, w)
  end.

Lemma updateBug_array_sends_no_ids_witness :
  (run demo_server
       (updateBug (TR := table_transport page_dates demo_table) fresh_client.1 seven
                  fields_array.1 fields_array.2)).2
  = [Request (VString bugzilla_url) "Bug.update" (TArr [TArr [TString "RESOLVED"]])].
Proof.
  apply (updateBug_array_sends_no_ids (TR := table_transport page_dates demo_table)
           fresh_client.1 seven 2%positive [VString "RESOLVED"] ∅ fields_array.2
           (VString bugzilla_url) (TNumber (num_of_Z 7)) [TString "RESOLVED"] demo_server);
    vm_compute; reflexivity.
Defined.

Lemma requests_are_well_typed_witness :
  Forall (fun rq => request_ok rq = true)
    (wire (from_option id (System fresh_client.2 [] [] [])
             (sys_exec_all (TR := table_transport page_dates demo_table)
                           (System fresh_client.2 [] [] []) two_calls))).
Proof.
  apply (requests_are_well_typed (TR := table_transport page_dates demo_table) fresh_client.2 two_calls).
  apply sys_exec_all_trace. by vm_compute.
Defined.
