(* ===== verification/Settling.v ===== *)
(** * Settling: every call ends after a bounded number of replies

    A call of the client awaits at most two replies: one for [getBug],
    [addComment], [updateBug], [searchBugs] and [getVersion], two for
    [getProducts].  [settles_within n p] is this bound for a process; a
    system carries the sum of the bounds of its calls in flight.  A turn of
    the page adds what its call can await ([awaits]) and a reply takes one
    away, so the replies of an execution are bounded by the calls made
    ([calls_made]) and a page that stops calling sees every promise settle:
    [drain] delivers replies until nothing is in flight. *)

From S2P Require Import Prelude JsValue XmlRpc Regex Bugzilla BugzillaCalls BugzillaChain.
From S2P Require Import Closed StoreInvariant EventLoop.
From stdpp Require Import gmap.

(** ** The await budget of a process *)

Fixpoint settles_within {A} (n : nat) (p : proc A) {struct p} : Prop :=
  match p with
  | Ret _ _ => True
  | Await _ _ k =>
      match n with
      | O => False
      | S n' => forall rp w, settles_within n' (k rp w)
      end
  end.

(** A call in flight that, once answered, awaits at most [n] more replies. *)
Definition task_within (n : nat) (t : task) : Prop :=
  forall rp w, settles_within n (task_resume t rp w).

(** The replies the calls in flight await between them, at most. *)
Inductive tasks_within : nat -> list task -> Prop :=
| tasks_within_nil n : tasks_within n []
| tasks_within_cons b t n ts :
    task_within b t -> tasks_within n ts -> tasks_within (S b + n) (t :: ts).

Definition sys_within (n : nat) (s : system) : Prop := tasks_within n (in_flight s).

Definition is_reply (e : event) : Prop :=
  match e with Reply _ _ => True | _ => False end.

#[export] Instance is_reply_dec e : Decision (is_reply e).
Proof. destruct e; apply _. Defined.

(** The calls of [$.xmlrpc] a turn of the page can lead to: one for each of
    the functions that make one call, two for [getProducts], none for code
    of the page and for a reply. *)
Definition awaits (e : event) : nat :=
  match e with
  | Call _ _ | CallGetVersion _ => 1
  | CallGetProducts _ => 2
  | Script _ | Reply _ _ => 0
  end.

(** The replies an execution has delivered, and the calls it can lead to. *)
Definition replies (es : list event) : nat :=
  sum_list_with (fun e => match e with Reply _ _ => 1 | _ => 0 end) es.

Definition calls_made (es : list event) : nat := sum_list_with awaits es.

(** ** Draining: answer the oldest call in flight until none is left *)

Section Drain.
Context {TR : Transport} (answer : request -> reply).

Definition next_reply (s : system) : option event :=
  t ← head (in_flight s); Some (Reply 0 (answer (task_request t))).

Fixpoint drain (fuel : nat) (s : system) : system :=
  match fuel with
  | O => s
  | S fuel' =>
      match next_reply s with
      | Some e => from_option (drain fuel') s (sys_exec s e)
      | None => s
      end
  end.

Fixpoint drain_events (fuel : nat) (s : system) : list event :=
  match fuel with
  | O => []
  | S fuel' =>
      match next_reply s with
      | Some e => from_option (fun s' => e :: drain_events fuel' s') [] (sys_exec s e)
      | None => []
      end
  end.

End Drain.

(** ** Lemmas: budgets of processes *)

Lemma settles_within_mono {A} n m (p : proc A) :
  n <= m -> settles_within n p -> settles_within m p.
Proof.
  revert n m. induction p as [a w|w rq k IH]; intros n m Hle; simpl; [done|].
  destruct n as [|n]; [done|]. destruct m as [|m]; [lia|].
  intros Hk rp w'. eapply IH; [|apply Hk]. lia.
Qed.

Lemma settles_within_bind {A B} n m (f : A -> async B) (p : proc A) :
  settles_within n p -> (forall a w, settles_within m (f a w)) ->
  settles_within (n + m) (proc_bind f p).
Proof.
  intros Hp Hf. revert n Hp. induction p as [a w|w rq k IH]; intros n Hp; simpl.
  - eapply settles_within_mono; [|apply Hf]. lia.
  - destruct n as [|n]; [done|]. intros rp w'. by apply IH, Hp.
Qed.

Lemma settles_within_map {A B} (f : A -> B) n (p : proc A) :
  settles_within n p -> settles_within n (proc_map f p).
Proof.
  revert n. induction p as [a w|w rq k IH]; intros n; simpl; [done|].
  destruct n as [|n]; [done|]. intros Hk rp w'. apply IH, Hk.
Qed.

Section Budgets.
Context {TR : Transport}.

Lemma xmlrpc_settles s w : settles_within 1 (xmlrpc s w).
Proof.
  unfold xmlrpc. destruct (serialize_params _ w); [|done].
  destruct (callback_context _ _ _ w) as [c w']. intros rp w1. unfold on_reply.
  by destruct (settle s c rp w1).
Qed.

Lemma call_settles (c : js settings) w : settles_within 1 (sync c xmlrpc w).
Proof. unfold sync. destruct (c w) as [[s|e] w']; [apply xmlrpc_settles|done]. Qed.

Lemma invoke_settles this c w : settles_within 1 (invoke this c w).
Proof. destruct c; apply call_settles. Qed.

Lemma getProducts_settles this w : settles_within 2 (getProducts this w).
Proof.
  apply (settles_within_bind 1 1); [apply call_settles|].
  intros [c v|c args|e] w'; [apply call_settles|done..].
Qed.

Lemma getVersion_settles this w : settles_within 1 (getVersion this w).
Proof. apply (settles_within_bind 1 0); [apply call_settles|done]. Qed.

End Budgets.

(** ** Lemmas: budgets of systems *)

Lemma tasks_within_mono n m ts : n <= m -> tasks_within n ts -> tasks_within m ts.
Proof.
  intros Hle Hts. revert m Hle. induction Hts as [n|b t n ts Ht Hts IH]; intros m Hle.
  - constructor.
  - replace m with (S b + (m - S b)) by lia. constructor; [done|]. apply IH. lia.
Qed.

Lemma tasks_within_app n m ts us :
  tasks_within n ts -> tasks_within m us -> tasks_within (n + m) (ts ++ us).
Proof.
  induction 1 as [n|b t n ts Ht Hts IH]; intros Hus; simpl.
  - eapply tasks_within_mono; [|done]. lia.
  - rewrite <- Nat.add_assoc. constructor; [done|by apply IH].
Qed.

Lemma tasks_within_delete n ts i t :
  ts !! i = Some t -> tasks_within n ts ->
  exists b m, task_within b t /\ tasks_within m (delete i ts) /\ S b + m <= n.
Proof.
  intros Hi Hts. revert i Hi. induction Hts as [n|b t' n ts Ht Hts IH]; intros i Hi; [done|].
  destruct i as [|i]; simpl in *.
  - injection Hi as <-. by exists b, n.
  - destruct (IH i Hi) as (b' & m & Hb' & Hm & Hle).
    exists b', (S b + m). split; [done|]. split; [by constructor|lia].
Qed.

Lemma tasks_within_0 ts : tasks_within 0 ts -> ts = [].
Proof. by inversion 1. Qed.

(** A process that has run until it returned control adds its budget. *)
Lemma absorb_within p s b m :
  settles_within b p -> tasks_within m (in_flight s) -> sys_within (m + b) (absorb p s).
Proof.
  unfold sys_within. intros Hp Hs. destruct p as [o w|w rq k]; simpl.
  - eapply tasks_within_mono; [|done]. lia.
  - destruct b as [|b]; [done|]. apply tasks_within_app; [done|].
    replace (S b) with (S b + 0) by lia. by repeat constructor.
Qed.

Section SettlingTheorems.
Context {TR : Transport}.

(** A reply uses up one unit of the budget. *)
Lemma reply_step_decreases n s i rp s' :
  sys_within n s -> sys_step s (Reply i rp) s' -> exists n', n' < n /\ sys_within n' s'.
Proof.
  intros Hs Hstep. inversion Hstep as [| | | |s0 i0 t rp0 Ht]; subst.
  destruct (tasks_within_delete _ _ _ _ Ht Hs) as (b & m & Hb & Hm & Hle).
  exists (m + b). split; [lia|]. by apply absorb_within.
Qed.

(** A call of the client adds at most two. *)
Lemma step_within n s e s' :
  sys_within n s -> sys_step s e s' -> sys_within (n + 2) s'.
Proof.
  intros Hs Hstep. destruct e as [this c|this|this|c|i rp].
  - inversion Hstep; subst. eapply tasks_within_mono; [|apply (absorb_within _ _ 1 n)];
      [lia|apply settles_within_map, invoke_settles|done].
  - inversion Hstep; subst.
    apply (absorb_within _ _ 2 n); [apply settles_within_map, getProducts_settles|done].
  - inversion Hstep; subst. eapply tasks_within_mono; [|apply (absorb_within _ _ 1 n)];
      [lia|apply settles_within_map, getVersion_settles|done].
  - inversion Hstep; subst. eapply tasks_within_mono; [|apply (absorb_within _ _ 0 n)];
      [lia|done..].
  - destruct (reply_step_decreases _ _ _ _ _ Hs Hstep) as (n' & Hlt & Hs').
    eapply tasks_within_mono; [|exact Hs']. lia.
Qed.

Lemma trace_within n s es s' :
  sys_within n s -> sys_trace s es s' -> sys_within (n + 2 * length es) s'.
Proof.
  intros Hs Htr. revert n Hs. induction Htr as [s|s e s1 es s2 Hstep _ IH]; intros n Hs.
  - eapply tasks_within_mono; [|exact Hs]. lia.
  - eapply tasks_within_mono; [|apply (IH (n + 2)), (step_within _ _ _ _ Hs Hstep)].
    simpl. lia.
Qed.

(** The calls in flight and the outcomes: a reply settles a call or leaves it
    in flight, so their number does not change. *)
Lemma reply_step_count s i rp s' :
  sys_step s (Reply i rp) s' ->
  length (outcomes s') + length (in_flight s') = length (outcomes s) + length (in_flight s).
Proof.
  intros Hstep. inversion Hstep as [| | | |s0 i0 t rp0 Ht]; subst.
  pose proof (length_delete (in_flight s) i (mk_is_Some _ _ Ht)) as Hd.
  pose proof (lookup_lt_Some _ _ _ Ht) as Hlt.
  destruct (task_resume t rp (store s)); simpl; rewrite length_app; simpl; lia.
Qed.

(** From a state whose calls in flight await at most [n] replies between
    them, every execution that only delivers replies has at most [n] steps,
    and what is left of the budget bounds what can follow. *)
Lemma reply_suffix_bounded n s es s' :
  sys_within n s -> sys_trace s es s' -> Forall is_reply es ->
  length es <= n /\ sys_within (n - length es) s'.
Proof.
  intros Hs Htr. revert n Hs. induction Htr as [s|s e s1 es s2 Hstep _ IH]; intros n Hs Hes.
  - split; [simpl; lia|]. eapply tasks_within_mono; [|exact Hs]. simpl. lia.
  - apply Forall_cons in Hes as [He Hes]. destruct e as [| | | |i rp]; try done.
    destruct (reply_step_decreases _ _ _ _ _ Hs Hstep) as (n' & Hlt & Hs1).
    destruct (IH n' Hs1 Hes) as [Hle Hs2]. split; [simpl; lia|].
    eapply tasks_within_mono; [|exact Hs2]. simpl. lia.
Qed.

(** Each call in flight awaits a reply. *)
Lemma tasks_within_length n ts : tasks_within n ts -> length ts <= n.
Proof. induction 1; simpl; lia. Qed.

(** A turn of the page adds what it can await to the budget; a reply takes
    one from it. *)
Lemma step_budget n s e s' :
  sys_within n s -> sys_step s e s' ->
  exists m, sys_within m s' /\ m + replies [e] <= n + awaits e.
Proof.
  intros Hs Hstep. destruct Hstep as [s this c|s this|s this|s c r w Hc|s i t rp Ht].
  - exists (n + 1). split; [|simpl; lia].
    apply (absorb_within _ _ 1 n); [apply settles_within_map, invoke_settles|done].
  - exists (n + 2). split; [|simpl; lia].
    apply (absorb_within _ _ 2 n); [apply settles_within_map, getProducts_settles|done].
  - exists (n + 1). split; [|simpl; lia].
    apply (absorb_within _ _ 1 n); [apply settles_within_map, getVersion_settles|done].
  - exists (n + 0). split; [|simpl; lia]. by apply (absorb_within _ _ 0 n).
  - destruct (reply_step_decreases n s i rp _ Hs (step_reply s i t rp Ht)) as (m & Hlt & Hm).
    exists m. split; [done|]. simpl. lia.
Qed.

Lemma trace_budget n s es s' :
  sys_within n s -> sys_trace s es s' ->
  exists m, sys_within m s' /\ m + replies es <= n + calls_made es.
Proof.
  intros Hs Htr. revert n Hs. induction Htr as [s|s e s1 es s2 Hstep _ IH]; intros n Hs.
  { exists n. split; [done|]. simpl. lia. }
  destruct (step_budget n s e s1 Hs Hstep) as (m1 & Hs1 & Hle1).
  destruct (IH m1 Hs1) as (m & Hm & Hle). exists m. split; [done|].
  unfold replies, calls_made in *. simpl in *. lia.
Qed.

(** C27 (termination): the replies the network can deliver are bounded by
    the calls the page has made.  In every execution of the event loop from
    a state with nothing in flight, whatever the arguments, the replies and
    their order: the replies delivered so far and the calls still in flight
    are together at most one for each call of [getBug], [addComment],
    [updateBug], [searchBugs] and [getVersion] and two for each call of
    [getProducts]; and the calls in flight await between them at most what
    is left of that bound, so that a page that stops calling receives
    finitely many replies, in whatever order they come. *)
Theorem reply_executions_are_bounded w es s :
  sys_trace (System w [] [] []) es s ->
  replies es + length (in_flight s) <= calls_made es /\
  sys_within (calls_made es - replies es) s /\
  forall rs s', sys_trace s rs s' -> Forall is_reply rs ->
                length rs <= calls_made es - replies es.
Proof.
  intros Htr.
  destruct (trace_budget 0 (System w [] [] []) es s (tasks_within_nil 0) Htr) as (m & Hm & Hle).
  pose proof (tasks_within_length _ _ Hm) as Hlen.
  assert (Hs : sys_within (calls_made es - replies es) s).
  { eapply tasks_within_mono; [|exact Hm]. lia. }
  split; [lia|]. split; [done|]. intros rs s' Hrs Hall.
  by destruct (reply_suffix_bounded _ _ _ _ Hs Hrs Hall).
Qed.

Section DrainLemmas.
Context (answer : request -> reply).

Lemma next_reply_None s : next_reply answer s = None -> in_flight s = [].
Proof. unfold next_reply. by destruct (in_flight s). Qed.

Lemma next_reply_Some s e :
  next_reply answer s = Some e ->
  is_reply e /\ exists s', sys_exec s e = Some s'.
Proof.
  unfold next_reply. destruct (in_flight s) as [|t ts] eqn:Hts; [done|].
  intros [= <-]. split; [done|]. simpl. rewrite Hts. simpl. by eexists.
Qed.

Lemma drain_spec n s :
  sys_within n s ->
  sys_trace s (drain_events answer n s) (drain answer n s) /\
  Forall is_reply (drain_events answer n s) /\
  in_flight (drain answer n s) = [] /\
  length (outcomes (drain answer n s)) = length (outcomes s) + length (in_flight s).
Proof.
  revert s. induction n as [|n IH]; intros s Hs; simpl.
  { rewrite (tasks_within_0 _ Hs). split; [constructor|]. split; [constructor|]. by split. }
  destruct (next_reply answer s) as [e|] eqn:He.
  - destruct (next_reply_Some s e He) as [Hr [s' He']]. rewrite He'. simpl.
    apply sys_exec_step in He'. destruct e as [| | | |i rp]; try done.
    destruct (reply_step_decreases _ _ _ _ _ Hs He') as (n' & Hlt & Hs').
    destruct (IH s') as (Htr & Hes & Hin & Hout); [eapply tasks_within_mono; [|done]; lia|].
    pose proof (reply_step_count _ _ _ _ He') as Hc.
    split; [by econstructor|]. split; [by constructor|]. split; [done|].
    rewrite Hout. lia.
  - rewrite (next_reply_None s He). split; [constructor|]. split; [constructor|].
    split; [done|simpl; lia].
Qed.

End DrainLemmas.

(** C31 (liveness): every call settles.  After any history of calls of the
    client, code of the page and replies, started with nothing in flight,
    delivering replies (whatever they are) to the calls in flight, oldest
    first, reaches after at most twice as many replies as the history is
    long a state with nothing in flight, in which every call that was in
    flight has its outcome. *)
Theorem every_call_settles answer w es s :
  sys_trace (System w [] [] []) es s ->
  let n := 2 * length es in
  sys_trace s (drain_events answer n s) (drain answer n s) /\
  Forall is_reply (drain_events answer n s) /\
  in_flight (drain answer n s) = [] /\
  length (outcomes (drain answer n s)) = length (outcomes s) + length (in_flight s).
Proof.
  intros Htr n. apply drain_spec.
  apply (trace_within 0 (System w [] [] []) es s (tasks_within_nil 0) Htr).
Qed.

End SettlingTheorems.

(** ** Witnesses: [getBug] and [getProducts] in flight *)

Definition idle_page : system := System fresh_client.2 [] [] [].

Definition one_in_flight {TR : Transport} : system :=
  absorb (proc_map Promise (invoke fresh_client.1 (CallGetBug seven) (store idle_page)))
         idle_page.

Definition two_in_flight {TR : Transport} : system :=
  absorb (proc_map Promise (getProducts fresh_client.1 (store one_in_flight)))
         one_in_flight.

Lemma two_in_flight_trace {TR : Transport} :
  sys_trace idle_page (take 2 two_calls) two_in_flight.
Proof.
  apply (trace_cons _ _ one_in_flight); [apply step_call|].
  apply (trace_cons _ _ two_in_flight); [apply step_getProducts|apply trace_nil].
Qed.

Lemma reply_executions_are_bounded_witness :
  let TR := table_transport page_dates demo_table in
  let s := from_option id idle_page (sys_exec_all idle_page two_calls) in
  replies two_calls + length (in_flight s) <= calls_made two_calls /\
  sys_within (calls_made two_calls - replies two_calls) s /\
  forall rs s', sys_trace s rs s' -> Forall is_reply rs ->
                length rs <= calls_made two_calls - replies two_calls.
Proof.
  intros TR s.
  apply (reply_executions_are_bounded (TR := TR) fresh_client.2 two_calls s).
  apply sys_trace_run. by vm_compute.
Defined.

Lemma every_call_settles_witness :
  let TR := table_transport page_dates demo_table in
  let s := two_in_flight in
  sys_trace s (drain_events demo_server 4 s) (drain demo_server 4 s) /\
  Forall is_reply (drain_events demo_server 4 s) /\
  in_flight (drain demo_server 4 s) = [] /\
  length (outcomes (drain demo_server 4 s)) = length (outcomes s) + length (in_flight s).
Proof.
  exact (every_call_settles (TR := table_transport page_dates demo_table) demo_server
           fresh_client.2 (take 2 two_calls)
           (two_in_flight (TR := table_transport page_dates demo_table))
           (two_in_flight_trace (TR := table_transport page_dates demo_table))).
Defined.

(** The two calls of the witness settle after three replies. *)
Example two_in_flight_drained :
  let TR := table_transport page_dates demo_table in
  let s := drain demo_server 4 two_in_flight in
  (length (drain_events demo_server 4 two_in_flight), length (in_flight s),
   rq_method <$> wire s)
  = (3, 0, ["Bug.get"; "Product.get_enterable_products"; "Product.get"]).
Proof. by vm_compute. Qed.
