(* ===== verification/Frame.v ===== *)
(** * What the client writes

    The functions of src/src/bugzilla.js allocate objects (parameters,
    request contexts, decoded responses), write to the console, and assign
    one property of one object the caller owns: [params.ids] in [updateBug]
    (line 77).  [preserves w w'] states the frame this leaves: every object
    of [w] is still in [w'] and reads as before under every name but [ids].
    It holds between the store a function is called or resumed in and the
    store it returns control in, for each of the six functions and for
    every turn of the event loop that is not code of the page. *)

From S2P Require Import Prelude JsValue XmlRpc Regex Bugzilla BugzillaCalls BugzillaChain.
From S2P Require Import Closed StoreInvariant EventLoop.
From stdpp Require Import gmap.

(** ** The frame *)

Definition preserves (w w' : world) : Prop :=
  forall l o, heap w !! l = Some o ->
    exists o', heap w' !! l = Some o' /\
               forall k, k <> "ids" -> own_prop o' k = own_prop o k.

(** A computation of the store that keeps the frame, however it ends. *)
Definition framed {A} (c : js A) : Prop := forall w, preserves w (c w).2.

Definition framed_callback (cb : option (list value -> js unit)) : Prop :=
  forall f args, cb = Some f -> framed (f args).

(** A process keeps the frame each time it runs: from the store it is
    started in to the one it returns control in, and again from whatever
    store it is resumed in. *)
Fixpoint proc_framed {A} (w0 : world) (p : proc A) : Prop :=
  match p with
  | Ret _ w => preserves w0 w
  | Await w _ k => preserves w0 w /\ forall rp w', proc_framed w' (k rp w')
  end.

Definition task_framed (t : task) : Prop :=
  forall rp w, proc_framed w (task_resume t rp w).

(** Events of the loop that are not code of the page. *)
Definition client_event (e : event) : Prop :=
  match e with Script _ => False | _ => True end.

(** ** Lemmas: the frame *)

#[export] Instance preserves_preorder : PreOrder preserves.
Proof.
  split.
  - intros w l o Ho. by exists o.
  - intros w1 w2 w3 H12 H23 l o Ho.
    destruct (H12 l o Ho) as (o2 & Ho2 & E2). destruct (H23 l o2 Ho2) as (o3 & Ho3 & E3).
    exists o3. split; [done|]. intros k Hk. by rewrite E3, E2.
Qed.

Lemma world_le_preserves (w w' : world) : w ⊑ w' -> preserves w w'.
Proof. intros [Hsub _] l o Ho. exists o. split; [by eapply lookup_weaken|done]. Qed.

Lemma preserves_heap w w' : heap w' = heap w -> preserves w w'.
Proof. intros E l o Ho. exists o. by rewrite E. Qed.

(** A store under the name [ids] keeps the frame. *)
Lemma preserves_store_ids w l o x :
  heap w !! l = Some o ->
  preserves w (set_heap (<[l := store_name o "ids" x]> (heap w)) w).
Proof.
  intros Hl l' o' Ho'. cbn [heap set_heap]. destruct (decide (l' = l)) as [->|Hne].
  - rewrite lookup_insert_eq. eexists. split; [done|]. intros k Hk.
    rewrite own_prop_store_name_ne by done. congruence.
  - rewrite lookup_insert_ne by done. by exists o'.
Qed.

(** What reads under another name than [ids] reads the same afterwards. *)
Lemma preserves_get_prop w w' v k x :
  preserves w w' -> k <> "ids" ->
  evals (get_prop v k) w x w -> evals (get_prop v k) w' x w'.
Proof.
  unfold evals. intros Hp Hk Hv. destruct v as [| | | |s|l]; simpl in *; try done;
    try (by injection Hv as <-).
  - destruct (decide _); by injection Hv as <-.
  - destruct (heap w !! l) as [o|] eqn:Ho; [|done].
    destruct (Hp l o Ho) as (o' & -> & E). rewrite (E k Hk). by injection Hv as <-.
Qed.

(** ** Lemmas: computations *)

Lemma framed_here {A} (c : js A) : (forall w, heap (c w).2 = heap w) -> framed c.
Proof. intros H w. by apply preserves_heap. Qed.

Lemma framed_ret {A} (a : A) : framed (mret a : js A).
Proof. by apply framed_here. Qed.

Lemma framed_bind {A B} (c : js A) (f : A -> js B) :
  framed c -> (forall a, framed (f a)) -> framed (c ≫= f).
Proof.
  intros Hc Hf w. specialize (Hc w). revert Hc. st_run.
  destruct (c w) as [[a|e] w1]; simpl; [|done]. intros Hc. etrans; [exact Hc|apply Hf].
Qed.

Lemma framed_get_prop v k : framed (get_prop v k).
Proof. apply framed_here. intros w. by rewrite get_prop_world. Qed.

Lemma framed_alloc o : framed (alloc o).
Proof. intros w. rewrite alloc_spec. apply world_le_preserves. world_le_tac. Qed.

Lemma framed_new_array vs : framed (new_array vs).
Proof. apply framed_alloc. Qed.

Lemma framed_new_object ms : framed (new_object ms).
Proof. apply framed_alloc. Qed.

Lemma framed_console_log args : framed (console_log args).
Proof. by apply framed_here. Qed.

Lemma framed_require_object_coercible v : framed (require_object_coercible v).
Proof.
  apply framed_here. intros w. unfold require_object_coercible. by destruct (is_nullish v).
Qed.

(** [params.ids = ...]: the one assignment of the source. *)
Lemma framed_set_prop_ids v x : framed (set_prop v "ids" x).
Proof.
  intros w. unfold set_prop. destruct v as [| | | | |l]; try reflexivity.
  destruct (heap w !! l) as [o|] eqn:Ho; [|reflexivity].
  rewrite (store_prop_name o "ids" x ids_is_name). by apply preserves_store_ids.
Qed.

#[export] Hint Resolve framed_ret framed_get_prop framed_new_array framed_new_object
  framed_console_log framed_require_object_coercible framed_set_prop_ids : js.

(** Settings literals: a sequence of binds of primitives, each solved by
    the hints of [js]; [step] applies the bind lemma of the property. *)
Ltac binds_tac step :=
  repeat first [step; [by auto with js|intros ?]|by auto with js].

Ltac framed_tac := binds_tac ltac:(apply framed_bind).

Lemma call_settings_framed this c : framed (call_settings this c).
Proof. destruct c; simpl; unfold getBug_settings, addComment_settings, updateBug_settings,
  searchBugs_settings; framed_tac. Qed.

Lemma getProducts_settings_framed this : framed (getProducts_settings this).
Proof. unfold getProducts_settings. framed_tac. Qed.

Lemma getProducts_then_settings_framed this response :
  framed (getProducts_then_settings this response).
Proof. unfold getProducts_then_settings. framed_tac. Qed.

Lemma getVersion_settings_framed this : framed (getVersion_settings this).
Proof. unfold getVersion_settings. framed_tac. Qed.

Lemma getVersion_success_framed : framed_callback (Some getVersion_success).
Proof. intros f args [= <-]. unfold getVersion_success. framed_tac. Qed.

Lemma getVersion_error_framed : framed_callback (Some getVersion_error).
Proof. intros f args [= <-]. unfold getVersion_error. framed_tac. Qed.

Lemma framed_callback_None : framed_callback None.
Proof. by intros f args. Qed.

(** ** Lemmas: processes *)

Lemma proc_framed_weaken {A} w0 w1 (p : proc A) :
  preserves w0 w1 -> proc_framed w1 p -> proc_framed w0 p.
Proof.
  intros H01. destruct p as [a w|w rq k]; simpl; [by etrans|].
  intros [Hw Hk]. split; [by etrans|done].
Qed.

Lemma proc_framed_bind {A B} w0 (f : A -> async B) (p : proc A) :
  proc_framed w0 p -> (forall a w, proc_framed w (f a w)) ->
  proc_framed w0 (proc_bind f p).
Proof.
  intros Hp Hf. revert w0 Hp. induction p as [a w|w rq k IH]; simpl; intros w0 Hp.
  - by eapply proc_framed_weaken.
  - destruct Hp as [Hw Hk]. split; [done|]. intros rp w'. apply IH, Hk.
Qed.

Lemma proc_framed_map {A B} (f : A -> B) w0 (p : proc A) :
  proc_framed w0 p -> proc_framed w0 (proc_map f p).
Proof.
  revert w0. induction p as [a w|w rq k IH]; simpl; intros w0 Hp; [done|].
  destruct Hp as [Hw Hk]. split; [done|]. intros rp w'. apply IH, Hk.
Qed.

Lemma proc_framed_sync {A} (c : js A) (k : A -> async settled) w :
  framed c -> (forall a w1, evals c w a w1 -> proc_framed w1 (k a w1)) ->
  proc_framed w (sync c k w).
Proof.
  intros Hc Hk. specialize (Hc w). unfold sync, evals in *.
  destruct (c w) as [[a|e] w1]; simpl in *; [|done]. eapply proc_framed_weaken; eauto.
Qed.

(** Where a process returns control, the frame holds. *)
Lemma proc_framed_returned {A} w0 (p : proc A) :
  proc_framed w0 p -> preserves w0 (returned_world p).
Proof. destruct p; simpl; [done|by intros [? _]]. Qed.

Section Transport.
Context {TR : Transport}.

Lemma finish_framed cb args o w :
  framed_callback cb -> preserves w (finish cb args o w).2.
Proof.
  intros Hcb. destruct cb as [f|]; simpl; [|reflexivity].
  specialize (Hcb f args eq_refl w). by destruct (f args w) as [[[]|e] w'].
Qed.

(** Decoding allocates; the callbacks are framed. *)
Lemma settle_framed s c rp w :
  framed_callback (success s) -> framed_callback (error s) ->
  preserves w (settle s c rp w).2.
Proof.
  intros Hs He. destruct rp as [xhr raw|xhr status err]; cbn [settle]; [|by apply finish_framed].
  destruct (decode_body _ w) as [[v|err] w1] eqn:Hd;
    (etrans; [eapply world_le_preserves, decode_body_frame, Hd|]); by apply finish_framed.
Qed.

Lemma xmlrpc_framed s w :
  framed_callback (success s) -> framed_callback (error s) -> proc_framed w (xmlrpc s w).
Proof.
  intros Hs He. unfold xmlrpc. destruct (serialize_params _ w) as [t|e]; [|simpl; reflexivity].
  destruct (callback_context _ _ _ w) as [c w1] eqn:Hc. split.
  - by eapply world_le_preserves, callback_context_frame.
  - intros rp w'. unfold on_reply. pose proof (settle_framed s c rp w' Hs He) as H.
    by destruct (settle s c rp w').
Qed.

Lemma then_framed (p : async settled) f w :
  proc_framed w (p w) -> (forall c v w1, proc_framed w1 (f c v w1)) ->
  proc_framed w (then_ p f w).
Proof.
  intros Hp Hf. unfold then_. apply proc_framed_bind; [done|].
  intros [c v|c args|e] w1; [apply Hf|simpl; reflexivity..].
Qed.

(** ** The six functions *)

Section Functions.
Variables (this : value) (w : world).

Lemma invoke_framed c : proc_framed w (invoke this c w).
Proof.
  rewrite invoke_sync. apply proc_framed_sync; [apply call_settings_framed|].
  intros s w1 Hs. destruct (call_settings_plain _ _ _ _ _ Hs) as (u & m & ps & ->).
  apply xmlrpc_framed; apply framed_callback_None.
Qed.

Lemma getProducts_then_framed c response w1 : proc_framed w1 (getProducts_then c response w1).
Proof.
  apply proc_framed_sync; [apply getProducts_then_settings_framed|].
  intros s w2 Hs. repeat (apply evals_bind_inv in Hs as (? & ? & _ & Hs)).
  apply evals_ret_inv in Hs as [-> _]. apply xmlrpc_framed; apply framed_callback_None.
Qed.

Lemma getProducts_framed : proc_framed w (getProducts this w).
Proof.
  apply then_framed; [|intros; apply getProducts_then_framed].
  apply proc_framed_sync; [apply getProducts_settings_framed|].
  intros s w1 Hs. apply evals_bind_inv in Hs as (? & ? & _ & Hs).
  apply evals_ret_inv in Hs as [-> _]. apply xmlrpc_framed; apply framed_callback_None.
Qed.

Lemma getVersion_framed : proc_framed w (getVersion this w).
Proof.
  unfold getVersion. apply proc_framed_bind; [|intros o w1; simpl; reflexivity].
  apply proc_framed_sync; [apply getVersion_settings_framed|].
  intros s w1 Hs. apply evals_bind_inv in Hs as (? & ? & _ & Hs).
  apply evals_ret_inv in Hs as [-> _].
  apply xmlrpc_framed; [apply getVersion_success_framed|apply getVersion_error_framed].
Qed.

End Functions.

End Transport.

(** ** The event loop *)

(** Code of the page is framed when it keeps the frame itself. *)
Definition framed_event (e : event) : Prop :=
  match e with Script c => framed c | _ => True end.

Lemma absorb_framed p s w0 :
  Forall task_framed (in_flight s) -> proc_framed w0 p ->
  preserves w0 (store (absorb p s)) /\ Forall task_framed (in_flight (absorb p s)).
Proof.
  intros Hts Hp. destruct p as [o w|w rq k]; simpl in *; [done|].
  destruct Hp as [Hw Hk]. split; [done|]. apply Forall_app. split; [done|].
  constructor; [|constructor]. exact Hk.
Qed.

Section Loop.
Context {TR : Transport}.

(** One turn: the frame holds across it, and the calls in flight afterwards
    keep it when they are resumed. *)
Lemma step_framed s e s' :
  Forall task_framed (in_flight s) -> framed_event e -> sys_step s e s' ->
  preserves (store s) (store s') /\ Forall task_framed (in_flight s').
Proof.
  intros Hts He Hs. destruct Hs as [s this c|s this|s this|s c r w Hc|s i t rp Ht].
  - apply absorb_framed; [done|]. apply proc_framed_map, invoke_framed.
  - apply absorb_framed; [done|]. apply proc_framed_map, getProducts_framed.
  - apply absorb_framed; [done|]. apply proc_framed_map, getVersion_framed.
  - split; [|done]. simpl. specialize (He (store s)). by rewrite Hc in He.
  - apply absorb_framed; [by apply Forall_delete|].
    apply (proj1 (Forall_lookup _ _) Hts i t Ht).
Qed.

Lemma trace_framed s es s' :
  sys_trace s es s' -> Forall framed_event es -> Forall task_framed (in_flight s) ->
  preserves (store s) (store s') /\ Forall task_framed (in_flight s').
Proof.
  induction 1 as [s|s e s1 es s2 Hs _ IH]; intros Hes Hts; [done|].
  apply Forall_cons in Hes as [He Hes].
  destruct (step_framed _ _ _ Hts He Hs) as [H1 Hts1].
  destruct (IH Hes Hts1) as [H2 Hts2]. split; [by etrans|done].
Qed.

(** C14 (safety): the client writes nothing but [ids].  Start with no call in
    flight and let the page call the six functions and the network deliver
    replies, in any order and whatever the arguments and the replies are,
    with code of the page in between that keeps the frame itself: every
    object of the initial store is still in the store, and every property
    of it other than [ids] reads as it did. *)
Theorem client_writes_only_ids w es s' v k x :
  sys_trace (System w [] [] []) es s' -> Forall framed_event es ->
  k <> "ids" -> evals (get_prop v k) w x w ->
  evals (get_prop v k) (store s') x (store s').
Proof.
  intros Htr Hes Hk Hv. destruct (trace_framed _ _ _ Htr Hes) as [Hp _]; [constructor|].
  by eapply preserves_get_prop.
Qed.

End Loop.

(** ** Witness: [updateBug] on the caller's object, among other calls *)

Definition update_among_calls : list event :=
  [Call fresh_client.1 (CallUpdateBug seven fields_object.1);
   CallGetProducts fresh_client.1;
   Reply 1 (RBody VNull "IDS");
   Reply 0 (RBody VNull "BUGS");
   Reply 0 (RFail VNull (VString "error") (VString "Not Found"))].

Definition after_update {TR : Transport} : system :=
  from_option id (System fields_object.2 [] [] [])
    (sys_exec_all (System fields_object.2 [] [] []) update_among_calls).

Lemma client_writes_only_ids_witness :
  let s := after_update (TR := table_transport page_dates demo_table) in
  evals (get_prop fields_object.1 "status") (store s) (VString "RESOLVED") (store s).
Proof.
  apply (client_writes_only_ids (TR := table_transport page_dates demo_table)
           fields_object.2 update_among_calls
           (after_update (TR := table_transport page_dates demo_table))
           fields_object.1 "status" (VString "RESOLVED")).
  - apply sys_exec_all_trace. by vm_compute.
  - by repeat constructor.
  - done.
  - by vm_compute.
Defined.

(** The same object has the [ids] of the call afterwards. *)
Example after_update_ids :
  let s := after_update (TR := table_transport page_dates demo_table) in
  (v ← completed (get_prop fields_object.1 "ids" (store s)).1;
   match v with VRef l => heap (store s) !! l | _ => None end)
  = Some (OArray [seven] ∅).
Proof. by vm_compute. Qed.
