(* ===== verification/Console.v ===== *)
(** * What the client writes to the console

    Of the functions of src/src/bugzilla.js only [getVersion] writes to the
    console: one line from its success callback (line 28) or from its error
    callback (line 31), once, when its reply arrives, and none when the
    success callback throws.  [logs w w' n] states that from [w] to [w'] the
    console got exactly [n] lines and lost none.  Each function is charged
    the lines of its outcome each time it runs ([proc_logs]); over an
    execution of the event loop the console is the initial console with one
    line for every call of [getVersion] that completed. *)

From S2P Require Import Prelude JsValue XmlRpc Regex Bugzilla BugzillaCalls BugzillaChain.
From S2P Require Import Closed StoreInvariant EventLoop Frame.
From stdpp Require Import gmap.

(** ** Lines *)

Definition logs (w w' : world) (n : nat) : Prop :=
  exists ls, console w' = console w ++ ls /\ length ls = n.

(** A computation of the store that leaves the console as it is, however
    it ends. *)
Definition quiet {A} (c : js A) : Prop := forall w, console (c w).2 = console w.

(** Code that writes one line when it returns and none when it throws. *)
Definition writes_line {A} (c : js A) : Prop :=
  forall w, logs w (c w).2 (match (c w).1 with Normal _ => 1 | Abrupt _ => 0 end).

Definition one_line (cb : option (list value -> js unit)) : Prop :=
  forall f args, cb = Some f -> writes_line (f args).

Definition callback_lines (cb : option (list value -> js unit)) : nat :=
  match cb with Some _ => 1 | None => 0 end.

(** The lines a call with settings [s] has written when its promise has
    settled: that of the callback that ran, if it returned. *)
Definition settings_lines (s : settings) (o : settled) : nat :=
  match o with
  | Resolved _ _ => callback_lines (success s)
  | Rejected _ _ => callback_lines (error s)
  | Thrown _ => 0
  end.

Definition completion_lines (r : comp exn value) : nat :=
  match r with Normal _ => 1 | Abrupt _ => 0 end.

(** The lines an outcome of the loop stands for: a completed [getVersion]
    has written one, a promise none. *)
Definition outcome_lines (o : outcome) : nat :=
  match o with Completion r => completion_lines r | Promise _ => 0 end.

(** A process writes the lines of its result, [lines], in the turn it ends
    in, and none in the turns it awaits in. *)
Fixpoint proc_logs {A} (lines : A -> nat) (w0 : world) (p : proc A) : Prop :=
  match p with
  | Ret a w => logs w0 w (lines a)
  | Await w _ k => logs w0 w 0 /\ forall rp w', proc_logs lines w' (k rp w')
  end.

Definition task_logs (t : task) : Prop :=
  forall rp w, proc_logs outcome_lines w (task_resume t rp w).

(** ** Lemmas: lines *)

Lemma logs_console w w' : console w' = console w -> logs w w' 0.
Proof. intros E. exists []. by rewrite app_nil_r. Qed.

Lemma logs_refl w : logs w w 0.
Proof. by apply logs_console. Qed.

Lemma logs_trans w1 w2 w3 n m : logs w1 w2 n -> logs w2 w3 m -> logs w1 w3 (n + m).
Proof.
  intros (l1 & E1 & <-) (l2 & E2 & <-). exists (l1 ++ l2).
  by rewrite E2, E1, (assoc_L (++)), length_app.
Qed.

Lemma logs_quiet_l w1 w2 w3 n : logs w1 w2 0 -> logs w2 w3 n -> logs w1 w3 n.
Proof. apply (logs_trans w1 w2 w3 0 n). Qed.

Lemma world_le_logs (w w' : world) : w ⊑ w' -> logs w w' 0.
Proof. intros [_ E]. by apply logs_console. Qed.

(** ** Lemmas: computations *)

Lemma quiet_logs {A} (c : js A) w : quiet c -> logs w (c w).2 0.
Proof. intros Hc. apply logs_console, Hc. Qed.

Lemma quiet_ret {A} (a : A) : quiet (mret a : js A).
Proof. done. Qed.

Lemma quiet_bind {A B} (c : js A) (f : A -> js B) :
  quiet c -> (forall a, quiet (f a)) -> quiet (c ≫= f).
Proof.
  intros Hc Hf w. specialize (Hc w). revert Hc. st_run.
  destruct (c w) as [[a|e] w1]; simpl; [|done]. intros <-. apply Hf.
Qed.

Lemma quiet_get_prop v k : quiet (get_prop v k).
Proof. intros w. by rewrite get_prop_world. Qed.

Lemma quiet_alloc o : quiet (alloc o).
Proof. intros w. by rewrite alloc_spec. Qed.

Lemma quiet_new_array vs : quiet (new_array vs).
Proof. apply quiet_alloc. Qed.

Lemma quiet_new_object ms : quiet (new_object ms).
Proof. apply quiet_alloc. Qed.

Lemma quiet_require_object_coercible v : quiet (require_object_coercible v).
Proof. intros w. unfold require_object_coercible. by destruct (is_nullish v). Qed.

Lemma quiet_set_prop v k x : quiet (set_prop v k x).
Proof.
  intros w. unfold set_prop. destruct v as [| | | | |l]; try done.
  destruct (heap w !! l) as [o|]; [|done]. by destruct (store_prop o k x).
Qed.

#[export] Hint Resolve quiet_ret quiet_get_prop quiet_new_array quiet_new_object
  quiet_require_object_coercible quiet_set_prop : js.

Ltac quiet_tac := binds_tac ltac:(apply quiet_bind).

Lemma call_settings_quiet this c : quiet (call_settings this c).
Proof. destruct c; simpl; unfold getBug_settings, addComment_settings, updateBug_settings,
  searchBugs_settings; quiet_tac. Qed.

Lemma getProducts_settings_quiet this : quiet (getProducts_settings this).
Proof. unfold getProducts_settings. quiet_tac. Qed.

Lemma getProducts_then_settings_quiet this response :
  quiet (getProducts_then_settings this response).
Proof. unfold getProducts_then_settings. quiet_tac. Qed.

Lemma getVersion_settings_quiet this : quiet (getVersion_settings this).
Proof. unfold getVersion_settings. quiet_tac. Qed.

(** [console.log]: the last statement of both callbacks. *)
Lemma writes_line_console_log args : writes_line (console_log args).
Proof. intros w. by exists [args]. Qed.

Lemma writes_line_bind {A B} (c : js A) (f : A -> js B) :
  quiet c -> (forall a, writes_line (f a)) -> writes_line (c ≫= f).
Proof.
  intros Hc Hf w. specialize (Hc w). revert Hc. st_run.
  destruct (c w) as [[a|e] w1]; simpl; intros E; [|by apply logs_console].
  eapply logs_quiet_l; [by apply logs_console|apply Hf].
Qed.

#[export] Hint Resolve writes_line_console_log : js.

Ltac writes_line_tac := binds_tac ltac:(apply writes_line_bind).

Lemma getVersion_success_one_line : one_line (Some getVersion_success).
Proof. intros f args [= <-]. unfold getVersion_success. writes_line_tac. Qed.

Lemma getVersion_error_one_line : one_line (Some getVersion_error).
Proof. intros f args [= <-]. unfold getVersion_error. writes_line_tac. Qed.

Lemma one_line_None : one_line None.
Proof. by intros f args. Qed.

(** ** Lemmas: processes *)

Lemma proc_logs_weaken {A} (lines : A -> nat) w0 w1 (p : proc A) :
  logs w0 w1 0 -> proc_logs lines w1 p -> proc_logs lines w0 p.
Proof.
  intros H01. destruct p as [a w|w rq k]; simpl; [by apply logs_quiet_l|].
  intros [Hw Hk]. split; [by eapply logs_quiet_l|done].
Qed.

Lemma proc_logs_ext {A} (l1 l2 : A -> nat) w0 (p : proc A) :
  (forall a, l1 a = l2 a) -> proc_logs l1 w0 p -> proc_logs l2 w0 p.
Proof.
  intros E. revert w0. induction p as [a w|w rq k IH]; simpl; intros w0; [by rewrite E|].
  intros [Hw Hk]. split; [done|]. intros rp w'. apply IH, Hk.
Qed.

(** After a process that writes nothing, the lines are those of what
    follows. *)
Lemma proc_logs_bind {A B} (lines : B -> nat) w0 (f : A -> async B) (p : proc A) :
  proc_logs (fun _ => 0) w0 p -> (forall a w, proc_logs lines w (f a w)) ->
  proc_logs lines w0 (proc_bind f p).
Proof.
  intros Hp Hf. revert w0 Hp. induction p as [a w|w rq k IH]; simpl; intros w0 Hp.
  - by eapply proc_logs_weaken.
  - destruct Hp as [Hw Hk]. split; [done|]. intros rp w'. apply IH, Hk.
Qed.

(** A result handed on as it ends keeps its lines. *)
Lemma proc_logs_bind_ret {A B} (lines : B -> nat) (g : A -> B) w0 (p : proc A) :
  proc_logs (fun a => lines (g a)) w0 p ->
  proc_logs lines w0 (proc_bind (fun a => async_ret (g a)) p).
Proof.
  revert w0. induction p as [a w|w rq k IH]; simpl; intros w0 Hp; [done|].
  destruct Hp as [Hw Hk]. split; [done|]. intros rp w'. apply IH, Hk.
Qed.

Lemma proc_logs_map {A B} (lines : B -> nat) (g : A -> B) w0 (p : proc A) :
  proc_logs (fun a => lines (g a)) w0 p -> proc_logs lines w0 (proc_map g p).
Proof.
  revert w0. induction p as [a w|w rq k IH]; simpl; intros w0 Hp; [done|].
  destruct Hp as [Hw Hk]. split; [done|]. intros rp w'. apply IH, Hk.
Qed.

Lemma proc_logs_sync {A} (lines : settled -> nat) (c : js A) (k : A -> async settled) w :
  quiet c -> (forall e, lines (Thrown e) = 0) ->
  (forall a w1, evals c w a w1 -> proc_logs lines w1 (k a w1)) ->
  proc_logs lines w (sync c k w).
Proof.
  intros Hc Hl Hk. specialize (Hc w). unfold sync, evals in *.
  destruct (c w) as [[a|e] w1]; simpl in *.
  - eapply proc_logs_weaken; [by apply logs_console|by apply Hk].
  - rewrite Hl. by apply logs_console.
Qed.

Section Transport.
Context {TR : Transport}.

(** A callback of the settings, when the promise is about to settle as [o]:
    its line, or an exception and no line. *)
Lemma finish_logs s cb args o w :
  one_line cb -> settings_lines s o = callback_lines cb ->
  logs w (finish cb args o w).2 (settings_lines s (finish cb args o w).1).
Proof.
  intros Hcb Ho. destruct cb as [f|]; simpl; [|rewrite Ho; apply logs_refl].
  specialize (Hcb f args eq_refl w). destruct (f args w) as [[[]|e] w']; simpl in *; [|done].
  by rewrite Ho.
Qed.

(** Decoding writes nothing; the callback that runs writes its line. *)
Lemma settle_logs s c rp w :
  one_line (success s) -> one_line (error s) ->
  logs w (settle s c rp w).2 (settings_lines s (settle s c rp w).1).
Proof.
  intros Hs He. destruct rp as [xhr raw|xhr status err]; cbn [settle]; [|by apply finish_logs].
  destruct (decode_body _ w) as [[v|err] w1] eqn:Hd;
    (eapply logs_quiet_l; [eapply world_le_logs, decode_body_frame, Hd|]); by apply finish_logs.
Qed.

Lemma xmlrpc_logs (lines : settled -> nat) s w :
  one_line (success s) -> one_line (error s) -> (forall o, settings_lines s o = lines o) ->
  proc_logs lines w (xmlrpc s w).
Proof.
  intros Hs He El. apply (proc_logs_ext (settings_lines s)); [done|]. unfold xmlrpc.
  destruct (serialize_params _ w) as [t|e]; [|apply logs_refl].
  destruct (callback_context _ _ _ w) as [c w1] eqn:Hc. split.
  - by eapply world_le_logs, callback_context_frame.
  - intros rp w'. unfold on_reply. pose proof (settle_logs s c rp w' Hs He) as H.
    by destruct (settle s c rp w').
Qed.

(** A call without callbacks writes nothing. *)
Lemma silent_logs s w :
  success s = None -> error s = None -> proc_logs (fun _ => 0) w (xmlrpc s w).
Proof.
  intros Hs He. apply xmlrpc_logs; rewrite ?Hs, ?He; [apply one_line_None..|].
  intros []; simpl; by rewrite ?Hs, ?He.
Qed.

Lemma then_logs (p : async settled) f w :
  proc_logs (fun _ => 0) w (p w) -> (forall c v w1, proc_logs (fun _ => 0) w1 (f c v w1)) ->
  proc_logs (fun _ => 0) w (then_ p f w).
Proof.
  intros Hp Hf. unfold then_. apply proc_logs_bind; [done|].
  intros [c v|c args|e] w1; [apply Hf|apply logs_refl..].
Qed.

(** ** The six functions *)

Section Functions.
Variables (this : value) (w : world).

(** [getBug], [addComment], [updateBug], [searchBugs] write nothing. *)
Lemma invoke_logs c : proc_logs (fun _ => 0) w (invoke this c w).
Proof.
  rewrite invoke_sync. apply proc_logs_sync; [apply call_settings_quiet|done|].
  intros s w1 Hs. destruct (call_settings_plain _ _ _ _ _ Hs) as (u & m & ps & ->).
  by apply silent_logs.
Qed.

Lemma getProducts_then_logs c response w1 :
  proc_logs (fun _ => 0) w1 (getProducts_then c response w1).
Proof.
  apply proc_logs_sync; [apply getProducts_then_settings_quiet|done|].
  intros s w2 Hs. repeat (apply evals_bind_inv in Hs as (? & ? & _ & Hs)).
  apply evals_ret_inv in Hs as [-> _]. by apply silent_logs.
Qed.

(** Neither does [getProducts], in either of its calls. *)
Lemma getProducts_logs : proc_logs (fun _ => 0) w (getProducts this w).
Proof.
  apply then_logs; [|intros; apply getProducts_then_logs].
  apply proc_logs_sync; [apply getProducts_settings_quiet|done|].
  intros s w1 Hs. apply evals_bind_inv in Hs as (? & ? & _ & Hs).
  apply evals_ret_inv in Hs as [-> _]. by apply silent_logs.
Qed.

(** [getVersion] writes one line in the turn of its reply, unless the
    success callback throws; it writes nothing in the call itself. *)
Lemma getVersion_logs : proc_logs completion_lines w (getVersion this w).
Proof.
  unfold getVersion. apply (proc_logs_bind_ret completion_lines dropped).
  apply proc_logs_sync; [apply getVersion_settings_quiet|done|].
  intros s w1 Hs. apply evals_bind_inv in Hs as (? & ? & _ & Hs).
  apply evals_ret_inv in Hs as [-> _].
  apply xmlrpc_logs; [apply getVersion_success_one_line|apply getVersion_error_one_line|].
  by intros [].
Qed.

End Functions.

End Transport.

(** ** The event loop *)

(** The lines the outcomes of a system stand for. *)
Definition total_lines (os : list outcome) : nat := sum_list_with outcome_lines os.

Lemma absorb_logs p s w0 :
  Forall task_logs (in_flight s) -> proc_logs outcome_lines w0 p ->
  logs w0 (store (absorb p s))
       (total_lines (outcomes (absorb p s)) - total_lines (outcomes s)) /\
  total_lines (outcomes s) <= total_lines (outcomes (absorb p s)) /\
  Forall task_logs (in_flight (absorb p s)).
Proof.
  intros Hts Hp. unfold total_lines. destruct p as [o w|w rq k]; simpl in *.
  - rewrite sum_list_with_app. simpl.
    replace (_ + (outcome_lines o + 0) - _) with (outcome_lines o) by lia.
    split; [done|]. split; [lia|done].
  - destruct Hp as [Hw Hk]. rewrite Nat.sub_diag. split; [done|]. split; [done|].
    apply Forall_app. split; [done|]. constructor; [|constructor]. exact Hk.
Qed.

Section Loop.
Context {TR : Transport}.

(** One turn that is not code of the page: the console gets the lines of
    the outcome of the turn, if it has one. *)
Lemma step_logs s e s' :
  Forall task_logs (in_flight s) -> client_event e -> sys_step s e s' ->
  logs (store s) (store s') (total_lines (outcomes s') - total_lines (outcomes s)) /\
  total_lines (outcomes s) <= total_lines (outcomes s') /\
  Forall task_logs (in_flight s').
Proof.
  intros Hts He Hs. destruct Hs as [s this c|s this|s this|s c r w Hc|s i t rp Ht].
  - apply absorb_logs; [done|]. apply proc_logs_map, invoke_logs.
  - apply absorb_logs; [done|]. apply proc_logs_map, getProducts_logs.
  - apply absorb_logs; [done|]. apply proc_logs_map, getVersion_logs.
  - done.
  - apply (absorb_logs _ (System (store s) (delete i (in_flight s)) (outcomes s) (wire s)));
      [by apply Forall_delete|].
    apply (proj1 (Forall_lookup _ _) Hts i t Ht).
Qed.

Lemma trace_logs s es s' :
  sys_trace s es s' -> Forall client_event es -> Forall task_logs (in_flight s) ->
  logs (store s) (store s') (total_lines (outcomes s') - total_lines (outcomes s)) /\
  total_lines (outcomes s) <= total_lines (outcomes s') /\
  Forall task_logs (in_flight s').
Proof.
  induction 1 as [s|s e s1 es s2 Hs _ IH]; intros Hes Hts.
  { rewrite Nat.sub_diag. split; [apply logs_refl|done]. }
  apply Forall_cons in Hes as [He Hes].
  destruct (step_logs _ _ _ Hts He Hs) as (H1 & Hle1 & Hts1).
  destruct (IH Hes Hts1) as (H2 & Hle2 & Hts2). split; [|split; [lia|done]].
  replace (_ - _) with ((total_lines (outcomes s1) - total_lines (outcomes s))
                        + (total_lines (outcomes s2) - total_lines (outcomes s1))) by lia.
  by eapply logs_trans.
Qed.

(** C17 (invariant): only [getVersion] writes to the console, and one line
    for each call of it that completed.  Start with no call in flight and let the page call
    the six functions and the network deliver replies, in any order and
    whatever the arguments and the replies are: the console is the console
    of the start followed by as many lines as calls of [getVersion] have
    completed without an exception.  Calls that return a promise, however
    they settle, have written nothing, and no line is ever removed. *)
Theorem only_getVersion_logs w es s' :
  sys_trace (System w [] [] []) es s' -> Forall client_event es ->
  exists ls, console (store s') = console w ++ ls /\
             length ls = total_lines (outcomes s').
Proof.
  intros Htr Hes. destruct (trace_logs _ _ _ Htr Hes) as ((ls & E & Hn) & _); [constructor|].
  exists ls. split; [done|]. rewrite Hn. simpl. lia.
Qed.

End Loop.

(** ** Example: two calls of [getVersion] among other calls *)

Definition versions_among_calls : list event :=
  [CallGetVersion fresh_client.1;
   Call fresh_client.1 (CallGetBug seven);
   CallGetVersion fresh_client.1;
   CallGetProducts fresh_client.1;
   Reply 2 (RFail VNull (VString "error") (VString "Not Found"));
   Reply 1 (RBody VNull "BUGS");
   Reply 0 (RBody VNull "VERSION");
   Reply 0 (RBody VNull "IDS")].

Lemma only_getVersion_logs_witness :
  let T := table_transport page_dates demo_table in
  let s0 := System fresh_client.2 [] [] [] in
  let s' := from_option id s0 (sys_exec_all (TR := T) s0 versions_among_calls) in
  exists ls, console (store s') = console fresh_client.2 ++ ls /\
             length ls = total_lines (outcomes s').
Proof.
  intros T s0 s'.
  apply (only_getVersion_logs (TR := T) fresh_client.2 versions_among_calls s').
  - apply sys_trace_run. by vm_compute.
  - by repeat constructor.
Defined.

(** Two lines for the two calls of [getVersion], one answered with a
    failure; [getBug] has settled and the second call of [getProducts] is
    in flight. *)
Example versions_among_calls_console :
  (fun s => (length (console (store s)), total_lines (outcomes s),
             length (outcomes s), length (in_flight s)))
    <$> sys_exec_all (TR := table_transport page_dates demo_table)
          (System fresh_client.2 [] [] []) versions_among_calls
  = Some (2, 2, 3, 1).
Proof. by vm_compute. Qed.
