(* ===== verification/LoopSpec.v ===== *)
(** * Calls in flight are independent: the event loop refines a loop
    without a store

    The specification says that any number of calls may be in flight, each
    independent of the others.  This file states it and proves it.  The
    abstract loop has no store: a call in flight is the request it waits
    on ([acall]), a reply turns it into its next call or into what the page
    observes ([acall_resume]), and nothing else of the state is read.  The
    event loop of [EventLoop], in which every call runs in the one store of
    the page, refines it turn by turn ([step_refines]) and over every
    execution ([loop_refines_spec]): same requests in the same order, and
    each promise settles, each line is logged, as the abstract loop says.

    One thing of the store a call in flight does depend on: the callback of
    [getProducts] reads [this.url] from the context of the first request
    when the reply arrives (line 114).  Code of the page that changes this
    property is outside the refinement; code that keeps the frame of
    [Frame] is inside. *)

From S2P Require Import Prelude JsValue XmlRpc Regex JsDate DateCodec Registry Bugzilla.
From S2P Require Import ProductsFilter BugzillaCalls BugzillaChain Decoding Trees ChainSpec.
From S2P Require Import Closed StoreInvariant EventLoop Frame.
From stdpp Require Import gmap.

#[local] Set Warnings "-register-all".

(** ** The abstract loop *)

(** A call in flight: what it waits for.  The first call of [getProducts]
    remembers the context its callback will read the URL from. *)
Inductive acall : Type :=
| AData (rq : request)
| AEnterable (ctx u : value)
| AProducts (u : value) (ids : tree)
| AVersion (u : value).

Definition acall_request (a : acall) : request :=
  match a with
  | AData rq => rq
  | AEnterable _ u => enterable_request u
  | AProducts u ids => products_request u ids
  | AVersion u => version_request u
  end.

(** What a turn shows to the page. *)
Inductive observation : Type :=
| OSettled (o : settlement)
| OVersion (r : comp exn logged)
| OScript (r : comp exn unit).

(** What a reply makes of a call: its next call, or an observation. *)
Inductive aresult : Type :=
| ANext (a : acall)
| ADone (ob : observation).

Section Abstract.
Context {TR : Transport} {PT : ParsingTransport TR}.

Definition acall_resume (a : acall) (rp : reply) : aresult :=
  match a with
  | AData _ => ADone (OSettled (exchange id rp))
  | AEnterable _ u =>
      match exchange id rp with
      | Res response =>
          match forwarded_ids response with
          | Normal ids => ANext (AProducts u ids)
          | Abrupt e => ADone (OSettled (Thr e))
          end
      | o => ADone (OSettled o)
      end
  | AProducts _ _ => ADone (OSettled (exchange products_dataFilter rp))
  | AVersion _ => ADone (OVersion (version_logged rp))
  end.

Record asystem : Type := ASystem {
  acalls : list acall;
  awire : list request
}.

(** What the page asks for in a turn, once the arguments are read: the
    request a call builds or the exception of building it, the completion
    of code of the page, a reply. *)
Inductive aevent : Type :=
| ACall (r : comp exn request)
| AGetProducts (r : comp exn (value * value))
| AGetVersion (r : comp exn value)
| AScript (r : comp exn unit)
| AReply (i : nat) (rp : reply).

(** A call that goes on is in flight, after the others, and its request is
    on the wire; a call that is done leaves an observation. *)
Definition aabsorb (r : aresult) (s : asystem) : asystem * list observation :=
  match r with
  | ANext a => (ASystem (acalls s ++ [a]) (awire s ++ [acall_request a]), [])
  | ADone ob => (s, [ob])
  end.

(** The call a result goes on with, and what it shows. *)
Definition anext (r : aresult) : list acall :=
  match r with ANext a => [a] | ADone _ => [] end.

Definition ashown (r : aresult) : list observation :=
  match r with ANext _ => [] | ADone ob => [ob] end.

(** What a turn of the page starts. *)
Definition astarted (e : aevent) : option aresult :=
  match e with
  | ACall (Normal rq) => Some (ANext (AData rq))
  | AGetProducts (Normal (ctx, u)) => Some (ANext (AEnterable ctx u))
  | AGetVersion (Normal u) => Some (ANext (AVersion u))
  | ACall (Abrupt e) | AGetProducts (Abrupt e) => Some (ADone (OSettled (Thr e)))
  | AGetVersion (Abrupt e) => Some (ADone (OVersion (Abrupt e)))
  | AScript r => Some (ADone (OScript r))
  | AReply _ _ => None
  end.

(** One turn of the abstract loop: [None] when the event is a reply to a
    call that is not in flight. *)
Definition abs_exec (s : asystem) (e : aevent) : option (asystem * list observation) :=
  match e with
  | AReply i rp =>
      a ← acalls s !! i;
      Some (aabsorb (acall_resume a rp) (ASystem (delete i (acalls s)) (awire s)))
  | _ => r ← astarted e; Some (aabsorb r s)
  end.

(** The abstract event of a turn of the page, read off the store the turn
    starts in. *)
Definition abstract (w : world) (e : event) : aevent :=
  match e with
  | Call this c =>
      ACall (match call_settings this c w with
             | (Normal s, w0) =>
                 Request (url s) (methodName s) <$> serialize_params (params s) w0
             | (Abrupt e, _) => Abrupt e
             end)
  | CallGetProducts this =>
      AGetProducts
        (u ← (get_prop this "url" w).1;
         mret ((callback_context u "Product.get_enterable_products" None w).1, u))
  | CallGetVersion this => AGetVersion (get_prop this "url" w).1
  | Script c => AScript (c w).1
  | Reply i rp => AReply i rp
  end.

(** An execution of the abstract loop, with what it shows. *)
Fixpoint abs_exec_all (s : asystem) (es : list aevent)
  : option (asystem * list observation) :=
  match es with
  | [] => Some (s, [])
  | e :: es' =>
      '(s1, obs) ← abs_exec s e;
      '(s2, obs') ← abs_exec_all s1 es';
      Some (s2, obs ++ obs')
  end.

(** The abstract events of an execution of the page's loop. *)
Fixpoint abstract_all (s : system) (es : list event) : list aevent :=
  match es with
  | [] => []
  | e :: es' =>
      abstract (store s) e ::
      match sys_exec s e with
      | Some s1 => abstract_all s1 es'
      | None => []
      end
  end.

(** ** The refinement relation *)

(** What a call in flight needs of the store it is resumed in. *)
Definition holds (a : acall) (w : world) : Prop :=
  match a with
  | AEnterable ctx u => evals (get_prop ctx "url") w u w
  | _ => True
  end.

(** An outcome of the page's loop is the observation of the abstract loop,
    for a turn from store [w] to store [w']. *)
Inductive observes (w w' : world) : outcome -> observation -> Prop :=
| observes_settled o so :
    settles_as (heap w') o so -> observes w w' (Promise o) (OSettled so)
| observes_version r lg :
    version_done w w' r lg -> observes w w' (Completion r) (OVersion lg)
| observes_script r : observes w w' (script_outcome r) (OScript r).

(** A process resumed in [w] does what the abstract call does: it sends the
    request of the next call and waits as that call, or it ends with the
    outcome observed; in both cases the frame holds. *)
Inductive resumes (R : task -> acall -> Prop) (w : world)
  : proc outcome -> aresult -> Prop :=
| resumes_next w1 rq k a :
    preserves w w1 -> holds a w1 -> R (Task rq k) a ->
    resumes R w (Await w1 rq k) (ANext a)
| resumes_done o w1 ob :
    preserves w w1 -> observes w w1 o ob -> resumes R w (Ret o w1) (ADone ob).

Inductive implements : task -> acall -> Prop :=
| implements_task t a :
    task_request t = acall_request a ->
    (forall rp w, holds a w -> resumes implements w (task_resume t rp w) (acall_resume a rp)) ->
    implements t a.

Record sys_rel (s : system) (a : asystem) : Prop := {
  rel_wire : wire s = awire a;
  rel_calls : Forall2 implements (in_flight s) (acalls a);
  rel_holds : Forall (fun c => holds c (store s)) (acalls a)
}.

(** Code of the page is admissible when it leaves the URL of the request
    contexts in flight as it is. *)
Definition admissible (a : asystem) (w : world) (e : event) : Prop :=
  match e with
  | Script c => Forall (fun ac => holds ac (c w).2) (acalls a)
  | _ => True
  end.

(** The outcomes a turn adds are the observations of the abstract turn. *)
Definition observed (s s' : system) (obs : list observation) : Prop :=
  exists os, outcomes s' = outcomes s ++ os /\
             Forall2 (observes (store s) (store s')) os obs.

(** An execution of the page's loop beside an execution of the abstract
    loop: turn by turn, the abstract loop makes the step of the abstract
    event and the outcomes of the turn are its observations. *)
Inductive loop_refines
  : system -> asystem -> list event -> list observation -> system -> asystem -> Prop :=
| refines_nil s a : loop_refines s a [] [] s a
| refines_cons s a e s1 a1 obs es obs' s2 a2 :
    sys_step s e s1 ->
    abs_exec a (abstract (store s) e) = Some (a1, obs) ->
    observed s s1 obs ->
    loop_refines s1 a1 es obs' s2 a2 ->
    loop_refines s a (e :: es) (obs ++ obs') s2 a2.

End Abstract.

(** ** Lemmas: calls in flight *)

Section Refinement.
Context {TR : Transport} {PT : ParsingTransport TR}.

Lemma holds_preserves a w w' : preserves w w' -> holds a w -> holds a w'.
Proof. destruct a; simpl; try done. intros Hp. by apply preserves_get_prop. Qed.

(** A call without callbacks, resumed: its promise settles as the exchange. *)
Lemma on_reply_resumes u m ps f c rp w :
  resumes implements w (proc_map Promise (on_reply (Settings u m ps None None f) c rp w))
          (ADone (OSettled (exchange (default id f) rp))).
Proof.
  unfold on_reply. destruct (settle_exchange u m ps f c rp w) as (o & w' & -> & Hle & Ho & _).
  apply resumes_done; [by apply world_le_preserves|by constructor].
Qed.

Lemma implements_plain u m ps f c a :
  (forall rp, acall_resume a rp = ADone (OSettled (exchange (default id f) rp))) ->
  implements (Task (acall_request a)
                (fun rp w => proc_map Promise (on_reply (Settings u m ps None None f) c rp w)))
             a.
Proof.
  intros Ha. constructor; [done|]. intros rp w _. rewrite Ha. apply on_reply_resumes.
Qed.

(** A call of one of the four one-call functions. *)
Lemma invoke_starts this c w r :
  astarted (abstract w (Call this c)) = Some r ->
  resumes implements w (proc_map Promise (invoke this c w)) r.
Proof.
  simpl. rewrite invoke_sync. unfold sync.
  pose proof (call_settings_framed this c w) as Hfr.
  destruct (call_settings this c w) as [[s|e] w0] eqn:Hs; cbn [snd] in Hfr.
  2: { intros [= <-]. apply resumes_done; [done|constructor; constructor]. }
  destruct (call_settings_plain _ _ _ _ _ Hs) as (u & m & ps & ->).
  destruct (serialize_params (params (plain u m ps)) w0) as [t|e] eqn:Ht; cbn; intros [= <-].
  - rewrite (xmlrpc_await _ _ _ Ht). cbn [proc_map url methodName params plain].
    apply resumes_next; [|done|].
    + etrans; [exact Hfr|]. eapply world_le_preserves, callback_context_frame, surjective_pairing.
    + by apply (implements_plain u m (Some ps) None _ (AData (Request u m t))).
  - rewrite (xmlrpc_throws _ _ _ Ht). apply resumes_done; [done|constructor; constructor].
Qed.

(** The callback of [then], started on a resolution of the first promise. *)
Lemma getProducts_then_resumes ctx v w0 w u r :
  preserves w0 w -> evals (get_prop ctx "url") w u w -> decoded (heap w) v r ->
  resumes implements w0 (proc_map Promise (getProducts_then ctx v w))
          (match forwarded_ids r with
           | Normal ids => ANext (AProducts u ids)
           | Abrupt e => ADone (OSettled (Thr e))
           end).
Proof.
  intros H0 Hu Hv. pose proof (getProducts_then_proc _ _ _ _ _ Hu Hv) as H.
  destruct (forwarded_ids r) as [ids|e].
  - destruct H as (ps & ctx2 & w1 & -> & Hle). cbn [proc_map].
    apply resumes_next; [by etrans; [|apply world_le_preserves]|done|].
    by apply (implements_plain u "Product.get" (Some ps) (Some products_dataFilter) ctx2
                (AProducts u ids)).
  - destruct H as (w1 & -> & Hle).
    apply resumes_done; [by etrans; [|apply world_le_preserves]|constructor; constructor].
Qed.

(** The first call of [getProducts], resumed: the callback runs when the
    promise resolves, in the context of the call. *)
Lemma enterable_resumes ctx u rp w :
  holds (AEnterable ctx u) w ->
  resumes implements w
    (proc_map Promise
       (proc_bind (fun o => match o with
                            | Resolved c v => getProducts_then c v
                            | _ => mret o
                            end)
          (on_reply (Settings u "Product.get_enterable_products" None None None None)
                    ctx rp w)))
    (acall_resume (AEnterable ctx u) rp).
Proof.
  intros Hu. unfold on_reply. cbn [acall_resume].
  destruct (settle_exchange u "Product.get_enterable_products" None None ctx rp w)
    as (o & w' & -> & Hle & Ho & Hc).
  cbn [proc_bind default] in *. destruct Ho as [c v r Hv|c xhr status err|c xhr err|e].
  - rewrite (Hc c v eq_refl). apply getProducts_then_resumes; [by apply world_le_preserves| |done].
    by eapply evals_get_prop_extends.
  - apply resumes_done; [by apply world_le_preserves|repeat constructor].
  - apply resumes_done; [by apply world_le_preserves|repeat constructor].
  - apply resumes_done; [by apply world_le_preserves|repeat constructor].
Qed.

(** The call of [getVersion], resumed: one of the callbacks runs. *)
Lemma version_resumes ctx u rp w :
  resumes implements w
    (proc_map Completion
       (proc_bind (fun o => mret (dropped o))
          (on_reply (Settings u "Bugzilla.version" None (Some getVersion_success)
                              (Some getVersion_error) None) ctx rp w)))
    (ADone (OVersion (version_logged rp))).
Proof.
  unfold on_reply.
  pose proof (settle_framed (Settings u "Bugzilla.version" None (Some getVersion_success)
                (Some getVersion_error) None) ctx rp w
                getVersion_success_framed getVersion_error_framed) as Hfr.
  destruct (settle_getVersion u ctx rp w) as (o & w' & Hs & Hdone). rewrite Hs in *.
  apply resumes_done; [done|by constructor].
Qed.

Context {JQ : JQueryContext}.

Lemma getProducts_starts this w r :
  astarted (abstract w (CallGetProducts this)) = Some r ->
  resumes implements w (proc_map Promise (getProducts this w)) r.
Proof.
  cbn [abstract]. unfold getProducts, then_, mbind at 2, async_mbind, async_bind, sync,
    getProducts_settings.
  pose proof (get_prop_world this "url" w) as Hw. st_run.
  destruct (get_prop this "url" w) as [[u|e] w0]; simpl in Hw; subst w0; cbn; intros [= <-].
  2: { apply resumes_done; [done|constructor; constructor]. }
  unfold xmlrpc. cbn [serialize_params params url methodName].
  destruct (callback_context u "Product.get_enterable_products" None w) as [ctx w1] eqn:Hctx.
  cbn [proc_bind proc_map fst]. apply resumes_next.
  - by eapply world_le_preserves, callback_context_frame.
  - by eapply context_url.
  - constructor; [done|]. intros rp w' Hu. by apply enterable_resumes.
Qed.

Lemma getVersion_starts this w r :
  astarted (abstract w (CallGetVersion this)) = Some r ->
  resumes implements w (proc_map Completion (getVersion this w)) r.
Proof.
  cbn [abstract]. unfold getVersion, mbind at 1, async_mbind, async_bind, sync,
    getVersion_settings.
  pose proof (get_prop_world this "url" w) as Hw. st_run.
  destruct (get_prop this "url" w) as [[u|e] w0]; simpl in Hw; subst w0; cbn; intros [= <-].
  2: { apply resumes_done; [done|]. by constructor. }
  unfold xmlrpc. cbn [serialize_params params url methodName].
  destruct (callback_context u "Bugzilla.version" None w) as [ctx w1] eqn:Hctx.
  cbn [proc_bind proc_map]. apply resumes_next.
  - by eapply world_le_preserves, callback_context_frame.
  - done.
  - constructor; [done|]. intros rp w' _. apply version_resumes.
Qed.

(** ** The simulation *)

(** Every turn of the page but a reply starts something. *)
Lemma astarted_abstract w e :
  (forall i rp, e <> Reply i rp) -> is_Some (astarted (abstract w e)).
Proof.
  intros He. destruct e as [this c|this|this|c|i rp]; simpl; [| | | |by destruct (He i rp)].
  - destruct (call_settings this c w) as [[s|e] w0]; [|by eexists].
    by destruct (serialize_params _ w0); eexists.
  - by destruct (get_prop this "url" w).1; eexists.
  - by destruct (get_prop this "url" w).1; eexists.
  - by eexists.
Qed.

(** A process that does what the abstract call does is absorbed as the
    abstract result is. *)
Lemma absorb_refines s a w p r :
  wire s = awire a -> Forall2 implements (in_flight s) (acalls a) ->
  Forall (fun c => holds c w) (acalls a) ->
  resumes implements w p r ->
  sys_rel (absorb p s) (aabsorb r a).1 /\
  exists os, outcomes (absorb p s) = outcomes s ++ os /\
             Forall2 (observes w (store (absorb p s))) os (aabsorb r a).2.
Proof.
  intros Hw Hts Hh Hr. destruct Hr as [w1 rq k c Hp Hc Hi|o w1 ob Hp Ho]; simpl.
  - split; [split; simpl|].
    + inversion Hi as [t c' Hrq _]; subst. simpl in Hrq. by rewrite Hw, Hrq.
    + apply Forall2_app; [done|by constructor].
    + apply Forall_app. split; [|by constructor].
      eapply Forall_impl; [exact Hh|]. intros c'. by apply holds_preserves.
    + exists []. by rewrite app_nil_r.
  - split; [split; simpl; [done..|]|].
    + eapply Forall_impl; [exact Hh|]. intros c'. by apply holds_preserves.
    + exists [o]. split; [done|]. by repeat constructor.
Qed.

(** The turn of a call of the client. *)
Lemma start_refines s a p e :
  sys_rel s a -> (forall i rp, e <> Reply i rp) ->
  (forall r, astarted (abstract (store s) e) = Some r -> resumes implements (store s) p r) ->
  exists a' obs,
    abs_exec a (abstract (store s) e) = Some (a', obs) /\
    sys_rel (absorb p s) a' /\ observed s (absorb p s) obs.
Proof.
  intros [Hw Hts Hh] He Hp. destruct (astarted_abstract (store s) e He) as [r Hr].
  destruct (absorb_refines s a (store s) p r Hw Hts Hh (Hp r Hr)) as [Hrel Hobs].
  exists (aabsorb r a).1, (aabsorb r a).2. split; [|done].
  unfold abs_exec. rewrite Hr. cbn. rewrite <- surjective_pairing.
  by destruct (abstract (store s) e).
Qed.

(** One turn of the loop is one turn of the abstract loop: the event of the
    page is read off the store, the abstract loop makes its step, the two
    states are related again, and the outcomes of the turn are the
    observations of the abstract turn. *)
Lemma step_refines s a e s' :
  sys_rel s a -> admissible a (store s) e -> sys_step s e s' ->
  exists a' obs,
    abs_exec a (abstract (store s) e) = Some (a', obs) /\
    sys_rel s' a' /\ observed s s' obs.
Proof.
  intros Hrel Had Hs. destruct Hs as [s this c|s this|s this|s c r w Hc|s i t rp Ht].
  - apply start_refines; [done..|]. apply invoke_starts.
  - apply start_refines; [done..|]. apply getProducts_starts.
  - apply start_refines; [done..|]. apply getVersion_starts.
  - destruct Hrel as [Hw Hts Hh]. simpl in *. rewrite Hc in *. simpl in *.
    exists a, [OScript r]. split; [done|]. split; [by split|].
    exists [script_outcome r]. split; [done|]. repeat constructor.
  - destruct Hrel as [Hw Hts Hh].
    destruct (Forall2_lookup_l _ _ _ _ _ Hts Ht) as (c & Hc & Hi).
    inversion Hi as [t' c' _ Hres]; subst.
    pose proof (proj1 (Forall_lookup _ _) Hh i c Hc) as Hholds.
    destruct (absorb_refines (System (store s) (delete i (in_flight s)) (outcomes s) (wire s))
                (ASystem (delete i (acalls a)) (awire a)) (store s)
                (task_resume t rp (store s)) (acall_resume c rp))
      as [Hrel' Hobs]; [done|by apply Forall2_delete|by apply Forall_delete|by apply Hres|].
    eexists _, _. split; [|split; [exact Hrel'|exact Hobs]].
    simpl. rewrite Hc. simpl. by rewrite <- surjective_pairing.
Qed.

(** The abstract turn of a reply, spelled out. *)
Lemma aabsorb_spec r a :
  aabsorb r a
  = (ASystem (acalls a ++ anext r) (awire a ++ (acall_request <$> anext r)), ashown r).
Proof. destruct r, a; simpl; by rewrite ?app_nil_r. Qed.

Lemma abs_exec_reply a i c rp :
  acalls a !! i = Some c ->
  abs_exec a (AReply i rp)
  = Some (ASystem (delete i (acalls a) ++ anext (acall_resume c rp))
                  (awire a ++ (acall_request <$> anext (acall_resume c rp))),
          ashown (acall_resume c rp)).
Proof. intros Hc. simpl. rewrite Hc. simpl. by rewrite aabsorb_spec. Qed.

(** The turn of a reply, beside the abstract turn. *)
Lemma reply_refines s a i c rp s' :
  sys_rel s a -> acalls a !! i = Some c -> sys_step s (Reply i rp) s' ->
  sys_rel s' (ASystem (delete i (acalls a) ++ anext (acall_resume c rp))
                      (awire a ++ (acall_request <$> anext (acall_resume c rp)))) /\
  observed s s' (ashown (acall_resume c rp)).
Proof.
  intros Hrel Hc Hs. destruct (step_refines s a (Reply i rp) s' Hrel I Hs)
    as (a' & obs & Ha & Hrel' & Hobs).
  cbn [abstract] in Ha. rewrite (abs_exec_reply _ _ _ _ Hc) in Ha. by simplify_eq.
Qed.

(** The outcome of a reply depends on the call it answers and on nothing
    else: whatever the store holds and whatever else is in flight, the turn
    of a reply to call [i] adds the observation the abstract call makes of
    that reply, or none when the call goes on. *)
Corollary reply_outcome_independent s a i c rp s' :
  sys_rel s a -> acalls a !! i = Some c -> sys_step s (Reply i rp) s' ->
  observed s s' (ashown (acall_resume c rp)).
Proof. intros Hrel Hc Hs. by destruct (reply_refines s a i c rp s' Hrel Hc Hs). Qed.

(** Related states have the same requests in flight. *)
Lemma sys_rel_requests s a :
  sys_rel s a -> task_request <$> in_flight s = acall_request <$> acalls a.
Proof.
  intros [_ Hts _]. induction Hts as [|t c ts cs Hi _ IH]; [done|].
  inversion Hi; subst. simpl. by f_equal.
Qed.

(** ** Replies commute

    Two calls in flight, two replies: whichever arrives first, each call
    has the same outcome, and the same requests are sent. *)

Lemma delete_swap_lookup {A} (l : list A) i j x y ni nj :
  i < j -> l !! i = Some x -> l !! j = Some y ->
  (delete i l ++ ni) !! (j - 1) = Some y /\ (delete j l ++ nj) !! i = Some x /\
  delete (j - 1) (delete i l ++ ni) ++ nj ≡ₚ delete i (delete j l ++ nj) ++ ni.
Proof.
  intros Hij Hi Hj. pose proof (lookup_lt_Some _ _ _ Hj) as Hlen.
  assert (H1 : (delete i l ++ ni) !! (j - 1) = Some y).
  { rewrite lookup_app_l by (rewrite length_delete by eauto; lia).
    rewrite list_lookup_delete_ge by lia. by replace (S (j - 1)) with j by lia. }
  assert (H2 : (delete j l ++ nj) !! i = Some x).
  { rewrite lookup_app_l by (rewrite length_delete by eauto; lia).
    by rewrite list_lookup_delete_lt by lia. }
  split; [done|]. split; [done|].
  apply (inj (cons x)), (inj (cons y)).
  transitivity (l ++ ni ++ nj).
  - rewrite Permutation_swap, (app_comm_cons _ nj y), <- (delete_Permutation _ _ _ H1).
    by rewrite <- (assoc_L (++)), (app_comm_cons _ _ x), <- (delete_Permutation _ _ _ Hi).
  - rewrite (app_comm_cons _ ni x), <- (delete_Permutation _ _ _ H2).
    rewrite <- (assoc_L (++)), (app_comm_cons _ _ y), <- (delete_Permutation _ _ _ Hj).
    f_equiv. apply Permutation_app_comm.
Qed.

(** In a state related to an abstract state, the replies to calls [i] and
    [j] in one order and in the other. *)
Lemma replies_commute_rel s a i j rp rp' s1 s2 t1 t2 :
  sys_rel s a -> i < j ->
  sys_step s (Reply i rp) s1 -> sys_step s1 (Reply (j - 1) rp') s2 ->
  sys_step s (Reply j rp') t1 -> sys_step t1 (Reply i rp) t2 ->
  exists o o',
    observed s s1 o /\ observed t1 t2 o /\
    observed s1 s2 o' /\ observed s t1 o' /\
    wire s2 ≡ₚ wire t2 /\
    task_request <$> in_flight s2 ≡ₚ task_request <$> in_flight t2.
Proof.
  intros Hrel Hij Hs1 Hs2 Ht1 Ht2.
  assert (exists c, acalls a !! i = Some c) as [c Hc].
  { inversion Hs1 as [| | | |? ? t ? Ht]; subst. destruct Hrel as [_ Hts _].
    destruct (Forall2_lookup_l _ _ _ _ _ Hts Ht) as (c & ? & _). eauto. }
  assert (exists c', acalls a !! j = Some c') as [c' Hc'].
  { inversion Ht1 as [| | | |? ? t ? Ht]; subst. destruct Hrel as [_ Hts _].
    destruct (Forall2_lookup_l _ _ _ _ _ Hts Ht) as (c' & ? & _). eauto. }
  destruct (delete_swap_lookup (acalls a) i j c c' (anext (acall_resume c rp))
              (anext (acall_resume c' rp')) Hij Hc Hc') as (Hj1 & Hi1 & Hperm).
  destruct (reply_refines _ _ _ _ _ _ Hrel Hc Hs1) as [Hrel1 Ho1].
  destruct (reply_refines _ _ _ _ _ _ Hrel1 Hj1 Hs2) as [Hrel2 Ho2].
  destruct (reply_refines _ _ _ _ _ _ Hrel Hc' Ht1) as [Hrel1' Ho1'].
  destruct (reply_refines _ _ _ _ _ _ Hrel1' Hi1 Ht2) as [Hrel2' Ho2'].
  exists (ashown (acall_resume c rp)), (ashown (acall_resume c' rp')).
  repeat (split; [done|]). split.
  - rewrite (rel_wire _ _ Hrel2), (rel_wire _ _ Hrel2'). cbn [awire].
    rewrite <- !(assoc_L (++)). f_equiv. apply Permutation_app_comm.
  - rewrite (sys_rel_requests _ _ Hrel2), (sys_rel_requests _ _ Hrel2'). cbn [acalls].
    by rewrite Hperm.
Qed.

(** Code that keeps the frame is admissible. *)
Lemma framed_admissible s a e :
  sys_rel s a -> framed_event e -> admissible a (store s) e.
Proof.
  intros [_ _ Hh] He. destruct e as [| | |c|]; simpl; try done.
  eapply Forall_impl; [exact Hh|]. intros ac. apply holds_preserves, He.
Qed.

Lemma trace_refines s a es s' :
  sys_rel s a -> sys_trace s es s' -> Forall framed_event es ->
  exists a' obs, loop_refines s a es obs s' a' /\ sys_rel s' a'.
Proof.
  intros Hrel Htr. revert a Hrel. induction Htr as [s|s e s1 es s2 Hs _ IH]; intros a Hrel Hes.
  { exists a, []. split; [constructor|done]. }
  apply Forall_cons in Hes as [He Hes].
  destruct (step_refines s a e s1 Hrel (framed_admissible _ _ _ Hrel He) Hs)
    as (a1 & obs & Habs & Hrel1 & Hobs).
  destruct (IH a1 Hrel1 Hes) as (a2 & obs' & Href & Hrel2).
  exists a2, (obs ++ obs'). split; [by econstructor|done].
Qed.

(** C16 (equivalence): replies to two calls in flight commute.  In a state
    the page's loop reaches from a state with nothing in flight, by calls of
    the client, replies and code that keeps the frame, let the replies to
    the calls at positions [i] and [j] arrive in one order or in the other
    (after the reply to [i] the call at [j] is at [j - 1]).  Each call has
    the same outcome in both orders, the observation its abstract call
    makes of its reply, and afterwards the same requests have been sent and
    the same requests are awaited, up to their order. *)
Theorem replies_commute w es s i j rp rp' s1 s2 t1 t2 :
  sys_trace (System w [] [] []) es s -> Forall framed_event es -> i < j ->
  sys_step s (Reply i rp) s1 -> sys_step s1 (Reply (j - 1) rp') s2 ->
  sys_step s (Reply j rp') t1 -> sys_step t1 (Reply i rp) t2 ->
  exists o o',
    observed s s1 o /\ observed t1 t2 o /\
    observed s1 s2 o' /\ observed s t1 o' /\
    wire s2 ≡ₚ wire t2 /\
    task_request <$> in_flight s2 ≡ₚ task_request <$> in_flight t2.
Proof.
  intros Htr Hes.
  destruct (trace_refines (System w [] [] []) (ASystem [] []) es s) as (a & _ & _ & Hrel);
    [by split; constructor|done..|].
  by apply replies_commute_rel with a.
Qed.

(** What an abstract execution beside a concrete one gives: as many
    outcomes as observations. *)
Lemma loop_refines_outcomes s a es obs s' a' :
  loop_refines s a es obs s' a' ->
  length (outcomes s') = length (outcomes s) + length obs.
Proof.
  induction 1 as [|s a e s1 a1 obs es obs' s2 a2 _ _ (os & Hos & Hobs) _ IH]; simpl; [lia|].
  rewrite IH, Hos, !length_app, (Forall2_length _ _ _ Hobs). lia.
Qed.

(** The abstract execution beside a concrete one is the run of the abstract
    loop on the abstract events of the execution. *)
Lemma loop_refines_exec s a es obs s' a' :
  loop_refines s a es obs s' a' ->
  abs_exec_all a (abstract_all s es) = Some (a', obs).
Proof.
  induction 1 as [|s a e s1 a1 obs es obs' s2 a2 Hs Ha _ _ IH]; [done|].
  cbn [abstract_all abs_exec_all]. rewrite Ha. cbn.
  rewrite (proj1 (sys_exec_step _ _ _) Hs), IH. done.
Qed.

(** C13 (refinement): calls in flight are independent.  Take any execution of
    the page's loop from a state with nothing in flight: calls of the six
    functions with any arguments, replies in any order and with any
    content, and code of the page that keeps the frame.  The loop without
    a store runs beside it, turn by turn, on the events read off the store:
    at the end the same requests are on the wire in the same order, as many
    calls are in flight, each waiting on the request the abstract call waits
    on, and every outcome is the observation the abstract loop made in the
    turn that produced it. *)
Theorem loop_refines_spec w es s' :
  sys_trace (System w [] [] []) es s' -> Forall framed_event es ->
  exists a' obs,
    loop_refines (System w [] [] []) (ASystem [] []) es obs s' a' /\
    wire s' = awire a' /\
    task_request <$> in_flight s' = acall_request <$> acalls a' /\
    length (outcomes s') = length obs.
Proof.
  intros Htr Hes.
  destruct (trace_refines (System w [] [] []) (ASystem [] []) es s') as (a' & obs & Href & Hrel);
    [by split; constructor|done..|].
  exists a', obs. split; [done|]. split; [apply Hrel|]. split.
  - by apply sys_rel_requests.
  - by rewrite (loop_refines_outcomes _ _ _ _ _ _ Href).
Qed.

End Refinement.

(** ** Witnesses: two calls in flight *)

Lemma loop_refines_spec_witness :
  let T := table_transport page_dates demo_table in
  let s0 := System fresh_client.2 [] [] [] in
  let s' := from_option id s0 (sys_exec_all (TR := T) s0 two_calls) in
  exists a' obs,
    loop_refines (TR := T) (PT := table_parsing page_dates demo_table)
                 s0 (ASystem [] []) two_calls obs s' a' /\
    wire s' = awire a' /\
    task_request <$> in_flight s' = acall_request <$> acalls a' /\
    length (outcomes s') = length obs.
Proof.
  intros T s0 s'.
  apply (loop_refines_spec (TR := T) (PT := table_parsing page_dates demo_table)
           (JQ := table_transport_jquery page_dates demo_table) fresh_client.2 two_calls s').
  - apply sys_exec_all_trace. by vm_compute.
  - by repeat constructor.
Defined.

(** [getBug] and [getVersion] in flight, answered in one order and in the
    other. *)
Definition bug_and_version : list event :=
  [Call fresh_client.1 (CallGetBug seven); CallGetVersion fresh_client.1].

Lemma replies_commute_witness :
  let T := table_transport page_dates demo_table in
  let rp := RBody VNull "BUGS" in
  let rp' := RFail VNull (VString "error") (VString "Not Found") in
  let s0 := System fresh_client.2 [] [] [] in
  let run s es := from_option id s0 (sys_exec_all (TR := T) s es) in
  let s := run s0 bug_and_version in
  let s1 := run s [Reply 0 rp] in
  let s2 := run s1 [Reply 0 rp'] in
  let t1 := run s [Reply 1 rp'] in
  let t2 := run t1 [Reply 0 rp] in
  exists o o',
    observed (TR := T) s s1 o /\
    observed (TR := T) t1 t2 o /\
    observed (TR := T) s1 s2 o' /\
    observed (TR := T) s t1 o' /\
    wire s2 ≡ₚ wire t2 /\
    task_request <$> in_flight s2 ≡ₚ task_request <$> in_flight t2.
Proof.
  intros T rp rp' s0 run s s1 s2 t1 t2.
  apply (replies_commute (TR := T) (PT := table_parsing page_dates demo_table)
           (JQ := table_transport_jquery page_dates demo_table)
           fresh_client.2 bug_and_version s 0 1 rp rp' s1 s2 t1 t2).
  - apply sys_trace_run. by vm_compute.
  - by repeat constructor.
  - lia.
  - apply sys_step_run. by vm_compute.
  - apply sys_step_run. by vm_compute.
  - apply sys_step_run. by vm_compute.
  - apply sys_step_run. by vm_compute.
Defined.

(** Both orders end with the same outcomes, in the order of the replies. *)
Example replies_commute_outcomes :
  let T := table_transport page_dates demo_table in
  let s0 := System fresh_client.2 [] [] [] in
  (fun s => (length (outcomes s), length (console (store s)), length (in_flight s)))
    <$> sys_exec_all (TR := T) s0
          (bug_and_version ++ [Reply 0 (RBody VNull "BUGS"); Reply 0 (RBody VNull "VERSION")])
  = (fun s => (length (outcomes s), length (console (store s)), length (in_flight s)))
    <$> sys_exec_all (TR := T) s0
          (bug_and_version ++ [Reply 1 (RBody VNull "VERSION"); Reply 0 (RBody VNull "BUGS")]).
Proof. by vm_compute. Qed.

(** The abstract loop on the events of [two_calls]: its wire and what it
    shows, computed without the store. *)
Example two_calls_abstract :
  let T := table_transport page_dates demo_table in
  (fun r => (rq_method <$> awire r.1, r.2))
    <$> abs_exec_all (TR := T) (PT := table_parsing page_dates demo_table) (ASystem [] [])
          (abstract_all (TR := T) (System fresh_client.2 [] [] []) two_calls)
  = Some (["Bug.get"; "Product.get_enterable_products"; "Product.get"],
          [OSettled (Res (TArr [TObj {[ "bugs" := TArr [] ]}]));
           OSettled (Rej VNull (VString "error") (VString "Not Found"))]).
Proof. by vm_compute. Qed.

(** ** What is outside the refinement

    The context of the first request of [getProducts] is an object of the
    store, which jQuery hands to the handlers of the page ([ajaxSend]).
    Code of the page that assigns its [url] between the call and the reply
    is not framed, and redirects the second request: the loop of the page
    sends [Product.get] to the new URL, the abstract loop to the URL of the
    client. *)
Definition redirect_between : list event :=
  [CallGetProducts fresh_client.1;
   Script (set_prop (VRef 2%positive) "url" (VString "https://example.org/"));
   Reply 0 (RBody VNull "IDS");
   Reply 0 (RFail VNull (VString "error") (VString "Not Found"))].

Theorem page_code_redirects_getProducts :
  let T := table_transport page_dates demo_table in
  let s0 := System fresh_client.2 [] [] [] in
  (fun s => rq_url <$> wire s) <$> sys_exec_all (TR := T) s0 redirect_between
  = Some [VString bugzilla_url; VString "https://example.org/"] /\
  (fun r => rq_url <$> awire r.1)
    <$> abs_exec_all (TR := T) (PT := table_parsing page_dates demo_table) (ASystem [] [])
          (abstract_all (TR := T) s0 redirect_between)
  = Some [VString bugzilla_url; VString bugzilla_url].
Proof. split; by vm_compute. Qed.
